(** * MolDraw2D: geometry and layout engine of the 2D molecule drawer

    A shallow embedding of [Code/GraphMol/MolDraw2D/MolDraw2D.cpp].

    Conventions of the embedding.
    - A C++ [double] is a real number ([R]); a statement about doubles is
      read "up to floating-point rounding".  A C++ [int] is an integer
      ([Z]), injected into [R] with [IZR] where the source converts it.
    - A [std::vector] is a [list]; reading it out of range is a fault of
      the run ([None]), the way the embedding renders undefined behaviour.
    - The canvas is the list of primitives emitted so far, oldest first. *)

From Stdlib Require Import String.
From Stdlib Require Import Reals Lra Lia ZArith List Bool Arith Permutation.
Import ListNotations.

Open Scope R_scope.

(* ================================================================== *)
(** ** Points *)

(** Modelled from the spec: [Geometry/point.h] is not among the sources.
    A [Point2D] is the (x, y) pair of the data model, with the usual
    component-wise vector operations the drawer calls on it. *)
Record Point2D : Type := mkPoint2D { px : R; py : R }.

Definition padd (a b : Point2D) : Point2D :=
  mkPoint2D (px a + px b) (py a + py b).
Definition psub (a b : Point2D) : Point2D :=
  mkPoint2D (px a - px b) (py a - py b).
Definition pmul (a : Point2D) (k : R) : Point2D :=
  mkPoint2D (px a * k) (py a * k).
Definition pdiv (a : Point2D) (k : R) : Point2D :=
  mkPoint2D (px a / k) (py a / k).
Definition pneg (a : Point2D) : Point2D := mkPoint2D (- px a) (- py a).
Definition dotProduct (a b : Point2D) : R := px a * px b + py a * py b.
Definition lengthSq (a : Point2D) : R := px a * px a + py a * py a.
Definition length2D (a : Point2D) : R := sqrt (lengthSq a).
Definition normalize (a : Point2D) : Point2D := pdiv a (length2D a).
(** [a.directionVector(b)]: the unit vector from [a] towards [b]. *)
Definition directionVector (a b : Point2D) : Point2D := normalize (psub b a).

Declare Scope pt_scope.
Delimit Scope pt_scope with pt.
Bind Scope pt_scope with Point2D.
Infix "+" := padd : pt_scope.
Infix "-" := psub : pt_scope.
Infix "*" := pmul : pt_scope.
Infix "/" := pdiv : pt_scope.

(** Comparisons of doubles, as booleans. *)
Definition Rltb (a b : R) : bool := if Rlt_dec a b then true else false.
Definition Rgtb (a b : R) : bool := Rltb b a.

(* ================================================================== *)
(** ** Scale state *)

(** The transform parameters of one drawing surface: the members
    [needs_scale_] ... [y_offset_] of the class, in the order of its
    constructor. *)
Record ScaleState : Type := mkScaleState {
  needs_scale_ : bool;
  width_ : Z;
  height_ : Z;
  panel_width_ : Z;
  panel_height_ : Z;
  legend_height_ : Z;
  scale_ : R;
  x_min_ : R;
  y_min_ : R;
  x_range_ : R;
  y_range_ : R;
  x_trans_ : R;
  y_trans_ : R;
  x_offset_ : Z;
  y_offset_ : Z
}.

(** [panelHeight()] returns the member [panel_height_]. *)
Definition panelHeight (s : ScaleState) : Z := panel_height_ s.
Definition panelWidth (s : ScaleState) : Z := panel_width_ s.

(** The constructor [MolDraw2D(width, height, panelWidth, panelHeight)]. *)
Definition initScaleState (width height panelW panelH : Z) : ScaleState :=
  mkScaleState true width height
    (if (panelW >? 0)%Z then panelW else width)
    (if (panelH >? 0)%Z then panelH else height)
    0 1 0 0 0 0 0 0 0 0.

(* ================================================================== *)
(** ** Coordinate transform *)

(** [MolDraw2D::getDrawCoords(const Point2D &)]: molecule space to device
    space.  The statements are kept in the order of the source. *)
Definition getDrawCoords (s : ScaleState) (mol_cds : Point2D) : Point2D :=
  let x := scale_ s * (px mol_cds - x_min_ s + x_trans_ s) in
  let y := scale_ s * (py mol_cds - y_min_ s + y_trans_ s) in
  let x := x + IZR (x_offset_ s) in
  let y := y - IZR (y_offset_ s) in
  let y := IZR (panelHeight s) - IZR (legend_height_ s) - y in
  mkPoint2D x y.

(** [MolDraw2D::getAtomCoords(const pair<double, double> &)]: device space
    back to molecule space. *)
Definition getAtomCoords (s : ScaleState) (screen_cds : R * R) : Point2D :=
  let screen_x := fst screen_cds - IZR (x_offset_ s) in
  let screen_y := snd screen_cds - IZR (y_offset_ s) in
  let x := screen_x / scale_ s + x_min_ s - x_trans_ s in
  let y := y_min_ s - y_trans_ s -
           (screen_y - IZR (panelHeight s) + IZR (legend_height_ s)) / scale_ s in
  mkPoint2D x y.

(** A point handed over as the pair of its coordinates. *)
Definition as_pair (p : Point2D) : R * R := (px p, py p).

(** The device ordinate the way the specification words it: flip first,
    subtract the vertical pixel offset last. *)
Definition spec_device_y (s : ScaleState) (p : Point2D) : R :=
  (IZR (panelHeight s) - IZR (legend_height_ s)
   - scale_ s * (py p - y_min_ s + y_trans_ s)) - IZR (y_offset_ s).

(** A surface of 300 x 300 whose panel sits 10 pixels down. *)
Definition offset_surface : ScaleState :=
  mkScaleState false 300 300 300 300 0 1 0 0 0 0 0 0 0 10.


(* ================================================================== *)
(** ** Faults *)

(** A run that reads a vector out of range, or violates a PRECONDITION,
    has no result.  [x <- e ;; k] threads that through a sequence. *)
Definition bind {A B : Type} (e : option A) (k : A -> option B) : option B :=
  match e with
  | Some a => k a
  | None => None
  end.

Notation "x <- e ;; k" := (bind e (fun x => k))
  (at level 61, e at next level, right associativity).

(* ================================================================== *)
(** ** Molecules *)

(** Modelled from the spec: [GraphMol/Bond.h] is not among the sources.
    The enumerators are those the drawer tests, in the order RDKit declares
    them ([UNSPECIFIED] is 0, [SINGLE] is 1). *)
Inductive BondType : Type :=
  | UNSPECIFIED | SINGLE | DOUBLE | TRIPLE | QUADRUPLE | QUINTUPLE | HEXTUPLE
  | ONEANDAHALF | TWOANDAHALF | THREEANDAHALF | FOURANDAHALF | FIVEANDAHALF
  | AROMATIC | IONIC | HYDROGEN | THREECENTER | DATIVEONE | DATIVE | DATIVEL
  | DATIVER | OTHER | ZERO.

Definition bondTypeAsInt (bt : BondType) : Z :=
  match bt with
  | UNSPECIFIED => 0 | SINGLE => 1 | DOUBLE => 2 | TRIPLE => 3
  | QUADRUPLE => 4 | QUINTUPLE => 5 | HEXTUPLE => 6 | ONEANDAHALF => 7
  | TWOANDAHALF => 8 | THREEANDAHALF => 9 | FOURANDAHALF => 10
  | FIVEANDAHALF => 11 | AROMATIC => 12 | IONIC => 13 | HYDROGEN => 14
  | THREECENTER => 15 | DATIVEONE => 16 | DATIVE => 17 | DATIVEL => 18
  | DATIVER => 19 | OTHER => 20 | ZERO => 21
  end%Z.

Definition BondType_eqb (a b : BondType) : bool :=
  (bondTypeAsInt a =? bondTypeAsInt b)%Z.

Inductive BondDir : Type :=
  | NONE | BEGINWEDGE | BEGINDASH | ENDDOWNRIGHT | ENDUPRIGHT | EITHERDOUBLE
  | UNKNOWN.

Definition isEITHERDOUBLE (d : BondDir) : bool :=
  match d with EITHERDOUBLE => true | _ => false end.

Inductive BondStereo : Type :=
  | STEREONONE | STEREOANY | STEREOZ | STEREOE | STEREOCIS | STEREOTRANS.

Definition isSTEREOANY (s : BondStereo) : bool :=
  match s with STEREOANY => true | _ => false end.

(** A bond query: its description, its negation flag, its children. *)
#[local] Unset Elimination Schemes.
Inductive Query : Type :=
  | mkQuery (descr : string) (negation : bool) (children : list Query).
#[local] Set Elimination Schemes.

Definition getDescription (q : Query) : string :=
  match q with mkQuery d _ _ => d end.
Definition getNegation (q : Query) : bool :=
  match q with mkQuery _ n _ => n end.
Definition getChildren (q : Query) : list Query :=
  match q with mkQuery _ _ c => c end.

Record Bond : Type := mkBond {
  getIdx : nat;
  getBeginAtomIdx : nat;
  getEndAtomIdx : nat;
  getBondType : BondType;
  getBondDir : BondDir;
  getStereo : BondStereo;
  getIsAromatic : bool;
  getQuery : option Query
}.

(** A molecule: its atoms are 0 .. [getNumAtoms] - 1, its bonds are listed
    in index order, [bondRings] is the ring information (each ring the list
    of its bond indices) and [conformers] holds one coordinate list per
    conformer. *)
Record ROMol : Type := mkROMol {
  getNumAtoms : nat;
  bonds : list Bond;
  bondRings : list (list nat);
  conformers : list (list Point2D)
}.

Definition getNumConformers (mol : ROMol) : nat := length (conformers mol).

Definition getBondWithIdx (mol : ROMol) (i : nat) : option Bond :=
  nth_error (bonds mol) i.

Definition incident (a : nat) (b : Bond) : bool :=
  (getBeginAtomIdx b =? a)%nat || (getEndAtomIdx b =? a)%nat.

(** [mol.getAtomBonds(atom)]: the bonds at an atom, in index order. *)
Definition getAtomBonds (mol : ROMol) (a : nat) : list Bond :=
  filter (incident a) (bonds mol).

Definition getDegree (mol : ROMol) (a : nat) : nat :=
  length (getAtomBonds mol a).

(** [bond->getOtherAtomIdx(thisIdx)], called on a bond at [thisIdx]. *)
Definition getOtherAtomIdx (b : Bond) (thisIdx : nat) : nat :=
  if (getBeginAtomIdx b =? thisIdx)%nat then getEndAtomIdx b
  else getBeginAtomIdx b.

(** [mol.getAtomNeighbors(atom)]: the far ends of the bonds at an atom. *)
Definition getAtomNeighbors (mol : ROMol) (a : nat) : list nat :=
  map (fun b => getOtherAtomIdx b a) (getAtomBonds mol a).

Definition getBondBetweenAtoms (mol : ROMol) (a1 a2 : nat) : option Bond :=
  find (fun b =>
          ((getBeginAtomIdx b =? a1)%nat && (getEndAtomIdx b =? a2)%nat)
          || ((getBeginAtomIdx b =? a2)%nat && (getEndAtomIdx b =? a1)%nat))
       (bonds mol).

Definition ringHasBond (idx : nat) (ring : list nat) : bool :=
  existsb (Nat.eqb idx) ring.

(** [mol.getRingInfo()->numBondRings(idx)]: in how many rings a bond is. *)
Definition numBondRings (mol : ROMol) (idx : nat) : nat :=
  length (filter (ringHasBond idx) (bondRings mol)).

(** What a well-formed molecule guarantees: a bond sits at its index, its
    two ends are distinct atoms of the molecule, rings name bonds of the
    molecule. *)
Definition wf_bond (n : nat) (i : nat) (b : Bond) : Prop :=
  getIdx b = i /\ (getBeginAtomIdx b < n)%nat /\ (getEndAtomIdx b < n)%nat
  /\ getBeginAtomIdx b <> getEndAtomIdx b.

Definition wf_mol (mol : ROMol) : Prop :=
  (forall i b, nth_error (bonds mol) i = Some b ->
               wf_bond (getNumAtoms mol) i b) /\
  (forall ring idx, In ring (bondRings mol) -> In idx ring ->
                    (idx < length (bonds mol))%nat).

(* ================================================================== *)
(** ** Geometry primitives *)

(** [calcPerpendicular]: normalised perpendicular to the vector between two
    coordinates. *)
Definition calcPerpendicular (cds1 cds2 : Point2D) : Point2D :=
  let bv0 := px cds1 - px cds2 in
  let bv1 := py cds1 - py cds2 in
  let perp0 := - bv1 in
  let perp1 := bv0 in
  let perp_len := sqrt (perp0 * perp0 + perp1 * perp1) in
  mkPoint2D (perp0 / perp_len) (perp1 / perp_len).

(** [calcInnerPerpendicular]: the perpendicular, turned to lie inside the
    angle made between (1 and 2) and (2 and 3). *)
Definition calcInnerPerpendicular (cds1 cds2 cds3 : Point2D) : Point2D :=
  let perp := calcPerpendicular cds1 cds2 in
  let v10 := px cds1 - px cds2 in
  let v11 := py cds1 - py cds2 in
  let v20 := px cds2 - px cds3 in
  let v21 := py cds2 - py cds3 in
  let obv0 := v10 - v20 in
  let obv1 := v11 - v21 in
  if Rltb (obv0 * px perp + obv1 * py perp) 0
  then mkPoint2D (px perp * -1) (py perp * -1)
  else perp.

(** The lambda [calc_perp] of [bondInsideRing]: find another bond of the
    ring at the begin atom, use its other end as the third atom.  The outer
    option is the fault, the inner one the null pointer. *)
Fixpoint calc_perp_loop (bond : Bond) (ring : list nat)
    (cds1 cds2 : Point2D) (at_cds : list Point2D) (nbrs : list Bond)
  : option (option Point2D) :=
  match nbrs with
  | [] => Some None
  | bond2 :: rest =>
      if (getIdx bond2 =? getIdx bond)%nat
      then calc_perp_loop bond ring cds1 cds2 at_cds rest
      else if ringHasBond (getIdx bond2) ring
      then
        let atom3 := getOtherAtomIdx bond2 (getBeginAtomIdx bond) in
        c3 <- nth_error at_cds atom3 ;;
        Some (Some (calcInnerPerpendicular cds1 cds2 c3))
      else calc_perp_loop bond ring cds1 cds2 at_cds rest
  end.

Definition calc_perp (mol : ROMol) (bond : Bond) (ring : list nat)
    (cds1 cds2 : Point2D) (at_cds : list Point2D) : option (option Point2D) :=
  calc_perp_loop bond ring cds1 cds2 at_cds
    (getAtomBonds mol (getBeginAtomIdx bond)).

(** The inner loop of [bondInsideRing]: do all bonds of the ring share the
    aromaticity of [bond]?  It stops at the first that does not. *)
Fixpoint ring_ok (mol : ROMol) (bond : Bond) (ring : list nat) : option bool :=
  match ring with
  | [] => Some true
  | bond_idx :: rest =>
      bond2 <- getBondWithIdx mol bond_idx ;;
      if eqb (getIsAromatic bond) (getIsAromatic bond2)
      then ring_ok mol bond rest
      else Some false
  end.

(** The loop over [bond_in_rings] taken when the bond is in more than one
    ring.  [Some (Some p)] is the early return. *)
Fixpoint choose_ring (mol : ROMol) (bond : Bond) (cds1 cds2 : Point2D)
    (at_cds : list Point2D) (rings : list (list nat))
  : option (option Point2D) :=
  match rings with
  | [] => Some None
  | ring :: rest =>
      ok <- ring_ok mol bond ring ;;
      if negb ok then choose_ring mol bond cds1 cds2 at_cds rest
      else
        ret <- calc_perp mol bond ring cds1 cds2 at_cds ;;
        match ret with
        | Some p => Some (Some p)
        | None => choose_ring mol bond cds1 cds2 at_cds rest
        end
  end.

(** [bondInsideRing]: the perpendicular pointing into the ring.
    [bond_in_rings] holds the rings of the bond themselves rather than their
    positions in [bond_rings]; [front()] of an empty vector is a fault. *)
Definition bondInsideRing (mol : ROMol) (bond : Bond) (cds1 cds2 : Point2D)
    (at_cds : list Point2D) : option Point2D :=
  let bond_in_rings := filter (ringHasBond (getIdx bond)) (bondRings mol) in
  early <- (if (1 <? length bond_in_rings)%nat
            then choose_ring mol bond cds1 cds2 at_cds bond_in_rings
            else Some None) ;;
  match early with
  | Some p => Some p
  | None =>
      ring <- hd_error bond_in_rings ;;
      ret <- calc_perp mol bond ring cds1 cds2 at_cds ;;
      match ret with
      | Some p => Some p
      | None => Some (calcPerpendicular cds1 cds2)
      end
  end.

(** [isLinearAtom]: a degree-2 atom whose two bonds have the same type and
    point in nearly opposite directions. *)
Definition isLinearAtom (mol : ROMol) (atom : nat) (at_cds : list Point2D)
  : option bool :=
  if (getDegree mol atom =? 2)%nat then
    at1_cds <- nth_error at_cds atom ;;
    match getAtomNeighbors mol atom with
    | [nbr0; nbr1] =>
        c0 <- nth_error at_cds nbr0 ;;
        b0 <- getBondBetweenAtoms mol atom nbr0 ;;
        c1 <- nth_error at_cds nbr1 ;;
        b1 <- getBondBetweenAtoms mol atom nbr1 ;;
        let bond_vec0 := normalize (directionVector at1_cds c0) in
        let bond_vec1 := normalize (directionVector at1_cds c1) in
        Some (BondType_eqb (getBondType b0) (getBondType b1)
              && Rltb (dotProduct bond_vec0 bond_vec1) (-0.95))
    | _ => None
    end
  else Some false.

(** The search for the third atom in [bondInsideDoubleBond]: the far end of
    the first bond at [bond_atom] other than [bond]; [None] stands for the
    initial -1. *)
Definition find_at3 (mol : ROMol) (bond : Bond) (bond_atom : nat) : option nat :=
  match find (fun bond2 => negb (getIdx bond2 =? getIdx bond)%nat)
             (getAtomBonds mol bond_atom) with
  | Some bond2 => Some (getOtherAtomIdx bond2 bond_atom)
  | None => None
  end.

(** [bondInsideDoubleBond]: for a chain double bond, the perpendicular
    pointing inside the angle of an outgoing bond. *)
Definition bondInsideDoubleBond (mol : ROMol) (bond : Bond)
    (at_cds : list Point2D) : option Point2D :=
  let at1 := getBeginAtomIdx bond in
  let at2 := getEndAtomIdx bond in
  let '(bond_atom, end_atom) :=
    if (1 <? getDegree mol at1)%nat then (at1, at2) else (at2, at1) in
  at3 <- find_at3 mol bond bond_atom ;;
  ce <- nth_error at_cds end_atom ;;
  cb <- nth_error at_cds bond_atom ;;
  c3 <- nth_error at_cds at3 ;;
  Some (calcInnerPerpendicular ce cb c3).

(** The four end points [l1s, l1f, l2s, l2f] of a pair of lines. *)
Record LinePair : Type := mkLinePair {
  l1s : Point2D; l1f : Point2D; l2s : Point2D; l2f : Point2D
}.

(** the percent shorter that the extra bonds in a double bond are *)
Definition multipleBondTruncation : R := 0.15.

(** The first test of [calcDoubleBondLines], with the short circuit of
    [||] written out. *)
Definition terminal_or_linear (mol : ROMol) (bond : Bond)
    (at_cds : list Point2D) : option bool :=
  let at1 := getBeginAtomIdx bond in
  let at2 := getEndAtomIdx bond in
  if (1 =? getDegree mol at1)%nat then Some true
  else if (1 =? getDegree mol at2)%nat then Some true
  else
    lin1 <- isLinearAtom mol at1 at_cds ;;
    if lin1 then Some true else isLinearAtom mol at2 at_cds.

(** [calcDoubleBondLines]. *)
Definition calcDoubleBondLines (mol : ROMol) (offset : R) (bond : Bond)
    (at1_cds at2_cds : Point2D) (at_cds : list Point2D) : option LinePair :=
  sym <- terminal_or_linear mol bond at_cds ;;
  if sym then
    let perp := (calcPerpendicular at1_cds at2_cds * offset)%pt in
    Some (mkLinePair (at1_cds + perp)%pt (at2_cds + perp)%pt
                     (at1_cds - perp)%pt (at2_cds - perp)%pt)
  else if isEITHERDOUBLE (getBondDir bond) || isSTEREOANY (getStereo bond) then
    (* crossed bond *)
    let perp := (calcPerpendicular at1_cds at2_cds * offset)%pt in
    Some (mkLinePair (at1_cds + perp)%pt (at2_cds - perp)%pt
                     (at1_cds - perp)%pt (at2_cds + perp)%pt)
  else
    let offset := offset * 2.0 in
    perp <- (if (0 <? numBondRings mol (getIdx bond))%nat
             then bondInsideRing mol bond at1_cds at2_cds at_cds
             else bondInsideDoubleBond mol bond at_cds) ;;
    let bv := (at1_cds - at2_cds)%pt in
    Some (mkLinePair at1_cds at2_cds
            (at1_cds - bv * multipleBondTruncation + perp * offset)%pt
            (at2_cds + bv * multipleBondTruncation + perp * offset)%pt).

(** [calcTripleBondLines]: two lines, a bit shorter and offset on the
    perpendicular. *)
Definition calcTripleBondLines (mol : ROMol) (offset : R) (bond : Bond)
    (at1_cds at2_cds : Point2D) : LinePair :=
  let at1 := getBeginAtomIdx bond in
  let at2 := getEndAtomIdx bond in
  let dbo := 2.0 * offset in
  let perp := calcPerpendicular at1_cds at2_cds in
  let end1_trunc :=
    if (1 =? getDegree mol at1)%nat then 0.0 else multipleBondTruncation in
  let end2_trunc :=
    if (1 =? getDegree mol at2)%nat then 0.0 else multipleBondTruncation in
  let bv := (at1_cds - at2_cds)%pt in
  mkLinePair (at1_cds - (bv * end1_trunc) + perp * dbo)%pt
             (at2_cds + (bv * end2_trunc) + perp * dbo)%pt
             (at1_cds - (bv * end1_trunc) - perp * dbo)%pt
             (at2_cds + (bv * end2_trunc) - perp * dbo)%pt.

(** The squared distance of the start of the second line from the straight
    line through the first one: how far apart the two lines run. *)
Definition line_separation_sq (lp : LinePair) : R :=
  let d := psub (l2s lp) (l1s lp) in
  let v := psub (l1f lp) (l1s lp) in
  let cross := px d * py v - py d * px v in
  cross * cross / lengthSq v.

(** The asymmetric pair the way the specification words it: the second
    line runs at the multiple-bond offset from the first. *)
Definition spec_line_separation (offset : R) (lp : LinePair) : Prop :=
  line_separation_sq lp = offset * offset.

(** A double bond between two branch points:
<<
      0           4
       \         /
        2 ===== 3
       /         \
      1           5
>> *)
Definition plainBond (i a1 a2 : nat) (bt : BondType) : Bond :=
  mkBond i a1 a2 bt NONE STEREONONE false None.

Definition butene_like_bond : Bond := plainBond 2 2 3 DOUBLE.

Definition butene_like_cds : list Point2D :=
  [mkPoint2D (-1) 1; mkPoint2D (-1) (-1); mkPoint2D 0 0; mkPoint2D 2 0;
   mkPoint2D 3 1; mkPoint2D 3 (-1)].

Definition butene_like : ROMol :=
  mkROMol 6
    [plainBond 0 0 2 SINGLE; plainBond 1 1 2 SINGLE; butene_like_bond;
     plainBond 3 3 4 SINGLE; plainBond 4 3 5 SINGLE]
    [] [butene_like_cds].

(* ================================================================== *)
(** ** The drawer *)

(** A colour (red, green, blue). *)
Record DrawColour : Type := mkDrawColour { red : R; green : R; blue : R }.

(** The drawing options the modelled functions read
    ([drawOptions()], a [MolDrawOptions]). *)
Record MolDrawOptions : Type := mkMolDrawOptions {
  padding : R;
  fixedScale : R;
  fixedBondLength : R;
  multipleBondOffset : R;
  annotationFontScale : R;
  rotate : R;
  highlightRadius : R;
  highlightColour : DrawColour;
  splitBonds : bool;
  scaleBondWidth : bool;
  scaleHighlightBondWidth : bool;
  fillHighlights : bool;
  includeAtomTags : bool;
  atomRegions : list (list nat);
  prepareMolsBeforeDrawing : bool;
  centreMoleculesBeforeDrawing : bool;
  clearBackground : bool;
  continuousHighlight : bool;
  circleAtoms : bool;
  includeMetadata : bool;
  comicMode : bool
}.

Definition set_scaleBondWidth (v : bool) (o : MolDrawOptions) : MolDrawOptions :=
  mkMolDrawOptions (padding o) (fixedScale o) (fixedBondLength o)
    (multipleBondOffset o) (annotationFontScale o) (rotate o)
    (highlightRadius o) (highlightColour o) (splitBonds o)
    v (scaleHighlightBondWidth o) (fillHighlights o) (includeAtomTags o)
    (atomRegions o) (prepareMolsBeforeDrawing o)
    (centreMoleculesBeforeDrawing o) (clearBackground o)
    (continuousHighlight o) (circleAtoms o) (includeMetadata o) (comicMode o).

Definition set_atomRegions (v : list (list nat)) (o : MolDrawOptions)
  : MolDrawOptions :=
  mkMolDrawOptions (padding o) (fixedScale o) (fixedBondLength o)
    (multipleBondOffset o) (annotationFontScale o) (rotate o)
    (highlightRadius o) (highlightColour o) (splitBonds o)
    (scaleBondWidth o) (scaleHighlightBondWidth o) (fillHighlights o)
    (includeAtomTags o) v (prepareMolsBeforeDrawing o)
    (centreMoleculesBeforeDrawing o) (clearBackground o)
    (continuousHighlight o) (circleAtoms o) (includeMetadata o) (comicMode o).

(** What reaches the canvas, in the order it is sent: the drawing
    primitives of the backend, the style settings, and the hooks a backend
    may override. *)
Inductive Cmd : Type :=
  | DrawLine (cds1 cds2 : Point2D)
  | DrawPolygon (pts : list Point2D)
  | DrawString (text : string) (cds : Point2D)
  | SetColour (col : DrawColour)
  | SetDash (pattern : list R)
  | SetLineWidth (w : Z)
  | SetFillPolys (fill : bool)
  | SetScaleBondWidth (on : bool)
  | SetActiveAtmIdx (at1 at2 : Z)
  | ClearDrawing
  | TagAtoms.

Definition is_primitive (c : Cmd) : bool :=
  match c with
  | DrawLine _ _ | DrawPolygon _ | DrawString _ _ => true
  | _ => false
  end.

(** Modelled from the spec: [DrawText.h] is not among the sources.  A
    [StringRect] is the string rectangle of the data model (position,
    width, height) with the clash score of the glossary. *)
Record StringRect : Type := mkStringRect {
  trans_ : Point2D;
  rect_width_ : R;    (* [width_] *)
  rect_height_ : R;   (* [height_] *)
  clash_score_ : Z
}.

Definition set_trans (p : Point2D) (r : StringRect) : StringRect :=
  mkStringRect p (rect_width_ r) (rect_height_ r) (clash_score_ r).
Definition set_clash_score (c : Z) (r : StringRect) : StringRect :=
  mkStringRect (trans_ r) (rect_width_ r) (rect_height_ r) c.

Inductive TextAlignType : Type := MIDDLE | START | END_.
Inductive OrientType : Type := C_ | N_ | E_ | S_ | W_.

Record AnnotationType : Type := mkAnnotationType {
  text_ : string;
  rect_ : StringRect;
  align_ : TextAlignType;
  scaleText_ : bool
}.

Definition set_rect (r : StringRect) (a : AnnotationType) : AnnotationType :=
  mkAnnotationType (text_ a) r (align_ a) (scaleText_ a).

(** A drawn shape: the points are all the layout engine reads. *)
Record MolDrawShape : Type := mkMolDrawShape { points : list Point2D }.

(** The per-molecule arrays of one draw pass, read together: the entries
    of [at_cds_], [atomic_nums_], [atom_syms_], [annotations_],
    [pre_shapes_], [post_shapes_] and [radicals_] at one index. *)
Record RenderContext : Type := mkRenderContext {
  ctx_at_cds : list Point2D;
  ctx_atomic_nums : list Z;
  ctx_atom_syms : list (string * OrientType);
  ctx_annotations : list AnnotationType;
  ctx_pre_shapes : list MolDrawShape;
  ctx_post_shapes : list MolDrawShape;
  ctx_radicals : list (StringRect * OrientType)
}.

Definition emptyContext : RenderContext := mkRenderContext [] [] [] [] [] [] [].

(** The drawer: its scale state, its options, the seven per-molecule
    vectors with the active index, the text drawer it owns, and the canvas
    it has written to. *)
Record MolDraw2D (T : Type) : Type := mkMolDraw2D {
  scaling : ScaleState;
  options_ : MolDrawOptions;
  fill_polys_ : bool;
  lineWidth_ : Z;
  activeMolIdx_ : Z;
  at_cds_ : list (list Point2D);
  atomic_nums_ : list (list Z);
  atom_syms_ : list (list (string * OrientType));
  annotations_ : list (list AnnotationType);
  pre_shapes_ : list (list MolDrawShape);
  post_shapes_ : list (list MolDrawShape);
  radicals_ : list (list (StringRect * OrientType));
  text_drawer_ : T;
  canvas : list Cmd
}.

Arguments mkMolDraw2D {T}.
Arguments scaling {T}.
Arguments options_ {T}.
Arguments fill_polys_ {T}.
Arguments lineWidth_ {T}.
Arguments activeMolIdx_ {T}.
Arguments at_cds_ {T}.
Arguments atomic_nums_ {T}.
Arguments atom_syms_ {T}.
Arguments annotations_ {T}.
Arguments pre_shapes_ {T}.
Arguments post_shapes_ {T}.
Arguments radicals_ {T}.
Arguments text_drawer_ {T}.
Arguments canvas {T}.

Section Updates.
Context {T : Type}.
Implicit Type d : MolDraw2D T.

Definition set_scaling (s : ScaleState) d : MolDraw2D T :=
  mkMolDraw2D s (options_ d) (fill_polys_ d) (lineWidth_ d)
    (activeMolIdx_ d) (at_cds_ d) (atomic_nums_ d) (atom_syms_ d)
    (annotations_ d) (pre_shapes_ d) (post_shapes_ d) (radicals_ d)
    (text_drawer_ d) (canvas d).

Definition set_options (o : MolDrawOptions) d : MolDraw2D T :=
  mkMolDraw2D (scaling d) o (fill_polys_ d) (lineWidth_ d)
    (activeMolIdx_ d) (at_cds_ d) (atomic_nums_ d) (atom_syms_ d)
    (annotations_ d) (pre_shapes_ d) (post_shapes_ d) (radicals_ d)
    (text_drawer_ d) (canvas d).

Definition set_text_drawer (t : T) d : MolDraw2D T :=
  mkMolDraw2D (scaling d) (options_ d) (fill_polys_ d) (lineWidth_ d)
    (activeMolIdx_ d) (at_cds_ d) (atomic_nums_ d) (atom_syms_ d)
    (annotations_ d) (pre_shapes_ d) (post_shapes_ d) (radicals_ d)
    t (canvas d).

(** Sending a command to the canvas appends it to what the canvas holds;
    [setFillPolys], [setLineWidth] and the assignments to
    [drawOptions().scaleBondWidth] also set the member. *)
Definition send (d : MolDraw2D T) (c : Cmd) : MolDraw2D T :=
  mkMolDraw2D (scaling d)
    (match c with
     | SetScaleBondWidth v => set_scaleBondWidth v (options_ d)
     | _ => options_ d
     end)
    (match c with SetFillPolys v => v | _ => fill_polys_ d end)
    (match c with SetLineWidth w => w | _ => lineWidth_ d end)
    (activeMolIdx_ d) (at_cds_ d) (atomic_nums_ d) (atom_syms_ d)
    (annotations_ d) (pre_shapes_ d) (post_shapes_ d) (radicals_ d)
    (text_drawer_ d) (canvas d ++ [c]).

Definition emit (cs : list Cmd) d : MolDraw2D T := fold_left send cs d.

Definition setFillPolys (v : bool) d : MolDraw2D T := send d (SetFillPolys v).
Definition setLineWidth (w : Z) d : MolDraw2D T := send d (SetLineWidth w).

(** [pushDrawDetails]: a fresh empty entry on each of the seven vectors,
    and the active index moves up. *)
Definition pushDrawDetails d : MolDraw2D T :=
  mkMolDraw2D (scaling d) (options_ d) (fill_polys_ d) (lineWidth_ d)
    (activeMolIdx_ d + 1)%Z
    (at_cds_ d ++ [[]]) (atomic_nums_ d ++ [[]]) (atom_syms_ d ++ [[]])
    (annotations_ d ++ [[]]) (pre_shapes_ d ++ [[]])
    (post_shapes_ d ++ [[]]) (radicals_ d ++ [[]])
    (text_drawer_ d) (canvas d).

(** [popDrawDetails]: the active index moves down and the last entry
    of each vector goes.  ([pop_back] of an empty vector is undefined;
    [removelast] leaves it empty.) *)
Definition popDrawDetails d : MolDraw2D T :=
  mkMolDraw2D (scaling d) (options_ d) (fill_polys_ d) (lineWidth_ d)
    (activeMolIdx_ d - 1)%Z
    (removelast (at_cds_ d)) (removelast (atomic_nums_ d))
    (removelast (atom_syms_ d)) (removelast (annotations_ d))
    (removelast (pre_shapes_ d)) (removelast (post_shapes_ d))
    (removelast (radicals_ d))
    (text_drawer_ d) (canvas d).

(** The depths of the seven vectors, in the order of [pushDrawDetails]. *)
Definition stack_depths d : list nat :=
  [length (at_cds_ d); length (atomic_nums_ d); length (atom_syms_ d);
   length (annotations_ d); length (pre_shapes_ d);
   length (post_shapes_ d); length (radicals_ d)].

(** Reading [v_[activeMolIdx_]]. *)
Definition at_active {A : Type} (v : list A) d : option A :=
  if (activeMolIdx_ d <? 0)%Z then None
  else nth_error v (Z.to_nat (activeMolIdx_ d)).

(** Writing [v_[activeMolIdx_]]; out of range nothing is written. *)
Fixpoint list_set {A : Type} (v : list A) (i : nat) (a : A) : list A :=
  match v, i with
  | [], _ => []
  | _ :: rest, O => a :: rest
  | b :: rest, S j => b :: list_set rest j a
  end.

Definition getContext d : option RenderContext :=
  cds <- at_active (at_cds_ d) d ;;
  nums <- at_active (atomic_nums_ d) d ;;
  syms <- at_active (atom_syms_ d) d ;;
  annots <- at_active (annotations_ d) d ;;
  pre <- at_active (pre_shapes_ d) d ;;
  post <- at_active (post_shapes_ d) d ;;
  rads <- at_active (radicals_ d) d ;;
  Some (mkRenderContext cds nums syms annots pre post rads).

Definition setContext (c : RenderContext) d : MolDraw2D T :=
  let i := Z.to_nat (activeMolIdx_ d) in
  mkMolDraw2D (scaling d) (options_ d) (fill_polys_ d) (lineWidth_ d)
    (activeMolIdx_ d)
    (list_set (at_cds_ d) i (ctx_at_cds c))
    (list_set (atomic_nums_ d) i (ctx_atomic_nums c))
    (list_set (atom_syms_ d) i (ctx_atom_syms c))
    (list_set (annotations_ d) i (ctx_annotations c))
    (list_set (pre_shapes_ d) i (ctx_pre_shapes c))
    (list_set (post_shapes_ d) i (ctx_post_shapes c))
    (list_set (radicals_ d) i (ctx_radicals c))
    (text_drawer_ d) (canvas d).

(** A step that works on the arrays of the active molecule only. *)
Definition onContext (f : RenderContext -> RenderContext) d
  : option (MolDraw2D T) :=
  c <- getContext d ;;
  Some (setContext (f c) d).
End Updates.

(** Setters of the scale state. *)
Definition set_scale (v : R) (s : ScaleState) : ScaleState :=
  mkScaleState (needs_scale_ s) (width_ s) (height_ s) (panel_width_ s)
    (panel_height_ s) (legend_height_ s) v (x_min_ s) (y_min_ s)
    (x_range_ s) (y_range_ s) (x_trans_ s) (y_trans_ s) (x_offset_ s)
    (y_offset_ s).

Definition set_box (xmin ymin xrange yrange : R) (s : ScaleState) : ScaleState :=
  mkScaleState (needs_scale_ s) (width_ s) (height_ s) (panel_width_ s)
    (panel_height_ s) (legend_height_ s) (scale_ s) xmin ymin xrange yrange
    (x_trans_ s) (y_trans_ s) (x_offset_ s) (y_offset_ s).

Definition set_trans_xy (xt yt : R) (s : ScaleState) : ScaleState :=
  mkScaleState (needs_scale_ s) (width_ s) (height_ s) (panel_width_ s)
    (panel_height_ s) (legend_height_ s) (scale_ s) (x_min_ s) (y_min_ s)
    (x_range_ s) (y_range_ s) xt yt (x_offset_ s) (y_offset_ s).

Definition set_offset (xo yo : Z) (s : ScaleState) : ScaleState :=
  mkScaleState (needs_scale_ s) (width_ s) (height_ s) (panel_width_ s)
    (panel_height_ s) (legend_height_ s) (scale_ s) (x_min_ s) (y_min_ s)
    (x_range_ s) (y_range_ s) (x_trans_ s) (y_trans_ s) xo yo.

Definition set_min_xy (xmin ymin : R) (s : ScaleState) : ScaleState :=
  set_box xmin ymin (x_range_ s) (y_range_ s) s.

Definition set_needs_scale (v : bool) (s : ScaleState) : ScaleState :=
  mkScaleState v (width_ s) (height_ s) (panel_width_ s)
    (panel_height_ s) (legend_height_ s) (scale_ s) (x_min_ s) (y_min_ s)
    (x_range_ s) (y_range_ s) (x_trans_ s) (y_trans_ s) (x_offset_ s)
    (y_offset_ s).

(** Modelled from the spec: [MolDraw2D.h] is not among the sources.
    [drawHeight()] is the panel height less the legend height, the extent
    the vertical flip of the transform works on. *)
Definition drawHeight (s : ScaleState) : Z :=
  (panel_height_ s - legend_height_ s)%Z.

(* ================================================================== *)
(** ** Collaborators *)

(** The text metrics service the drawer owns ([text_drawer_], a
    [DrawText]): what the layout engine asks of it. *)
Class DrawText (T : Type) : Type := {
  fontScale : T -> R;
  setFontScale : R -> bool -> T -> T;
  baseFontSize : T -> R;
  setBaseFontSize : R -> T -> T;
  setupTextDrawer : MolDrawOptions -> T -> T
}.

(** The parts of the layout that measure text, and the capability flag of
    the backend.  Each adjustment returns the bounding box
    [(x_min_, y_min_, x_range_, y_range_)] it has grown. *)
Class LabelMetrics (T : Type) : Type := {
  supportsAnnotations : bool;
  adjustScaleForAtomLabels :
    option (list nat) -> option (list (nat * R)) -> T -> RenderContext ->
    ScaleState -> R * R * R * R;
  adjustScaleForRadicals :
    ROMol -> T -> RenderContext -> ScaleState ->
    list (StringRect * OrientType) * (R * R * R * R)
}.

(* ================================================================== *)
(** ** Scale and layout engine *)

(** [numeric_limits<double>::max()]. *)
Definition DBL_MAX : R := (2 - / 2 ^ 52) * 2 ^ 1023.

(** The running bounding box of [calculateScale]: the members [x_min_],
    [y_min_] and the locals [x_max], [y_max]. *)
Record Box : Type := mkBox { bx_min : R; by_min : R; bx_max : R; by_max : R }.

Definition emptyBox : Box := mkBox DBL_MAX DBL_MAX (- DBL_MAX) (- DBL_MAX).

Definition extendBox (b : Box) (pt : Point2D) : Box :=
  mkBox (Rmin (px pt) (bx_min b)) (Rmin (py pt) (by_min b))
        (Rmax (px pt) (bx_max b)) (Rmax (py pt) (by_max b)).

Definition shapePoints (shapes : list MolDrawShape) : list Point2D :=
  flat_map points shapes.

(** The bounding box defined by the atoms, adjusted for the shapes. *)
Definition atomsAndShapesBox (c : RenderContext) : Box :=
  fold_left extendBox
    (ctx_at_cds c ++ shapePoints (ctx_pre_shapes c)
       ++ shapePoints (ctx_post_shapes c))
    emptyBox.

(** The first part of [calculateScale(width, height, mol, ...)]: the
    bounding box, the x and y spans with their degenerate cases, and the
    first trial scale. *)
Definition calculateScale_box {T : Type} (width height : Z) (d : MolDraw2D T)
  : option (MolDraw2D T) :=
  if negb (0 <? width)%Z then None
  else if negb (0 <? height)%Z then None
  else
    c <- getContext d ;;
    let b := atomsAndShapesBox c in
    let x_min := bx_min b in
    let y_min := by_min b in
    let x_range := bx_max b - x_min in
    let y_range := by_max b - y_min in
    let '(x_range, x_min) :=
      if Rltb x_range 1e-4 then (2.0, x_min - 1.0) else (x_range, x_min) in
    let '(y_range, y_min) :=
      if Rltb y_range 1e-4 then (2.0, y_min - 1.0) else (y_range, y_min) in
    let s := set_box x_min y_min x_range y_range (scaling d) in
    let s := set_scale (Rmin (IZR width / x_range) (IZR height / y_range)) s in
    Some (set_scaling s d).

(** [adjustScaleForAnnotation]. *)
Definition annotationBox (b : Box) (pr : AnnotationType) : Box :=
  let note_rect := rect_ pr in
  let this_x := px (trans_ note_rect) in
  let this_y := py (trans_ note_rect) in
  let '(this_x_min, this_x_max) :=
    match align_ pr with
    | START => (this_x, this_x + rect_width_ note_rect)
    | END_ => (this_x - rect_width_ note_rect, this_x)
    | MIDDLE => (this_x - rect_width_ note_rect / 2.0,
                 this_x + rect_width_ note_rect / 2.0)
    end in
  let this_y_max := this_y + rect_height_ note_rect / 2.0 in
  let this_y_min := this_y - rect_height_ note_rect / 2.0 in
  mkBox (Rmin (bx_min b) this_x_min) (Rmin (by_min b) this_y_min)
        (Rmax (bx_max b) this_x_max) (Rmax (by_max b) this_y_max).

Definition adjustScaleForAnnotation (notes : list AnnotationType)
    (s : ScaleState) : ScaleState :=
  let b0 := mkBox (x_min_ s) (y_min_ s)
              (x_min_ s + x_range_ s) (y_min_ s + y_range_ s) in
  let b := fold_left annotationBox notes b0 in
  set_box (bx_min b) (by_min b)
    (Rmax (bx_max b - bx_min b) (x_range_ s))
    (Rmax (by_max b - by_min b) (y_range_ s)) s.

Definition set_radicals (r : list (StringRect * OrientType))
    (c : RenderContext) : RenderContext :=
  mkRenderContext (ctx_at_cds c) (ctx_atomic_nums c) (ctx_atom_syms c)
    (ctx_annotations c) (ctx_pre_shapes c) (ctx_post_shapes c) r.

(** One turn of the loop of [calculateScale]; the second component tells
    whether the loop breaks. *)
Definition calculateScale_turn {T : Type} `{DrawText T} `{LabelMetrics T}
    (width height : Z) (mol : ROMol)
    (highlight_atoms : option (list nat))
    (highlight_radii : option (list (nat * R)))
    (d : MolDraw2D T) : option (MolDraw2D T * bool) :=
  let d := set_text_drawer
             (setFontScale (scale_ (scaling d)) false (text_drawer_ d)) d in
  c <- getContext d ;;
  let '(xm, ym, xr, yr) :=
    adjustScaleForAtomLabels highlight_atoms highlight_radii
      (text_drawer_ d) c (scaling d) in
  let d := set_scaling (set_box xm ym xr yr (scaling d)) d in
  let '(rads, (xm, ym, xr, yr)) :=
    adjustScaleForRadicals mol (text_drawer_ d) c (scaling d) in
  let c := set_radicals rads c in
  let d := setContext c (set_scaling (set_box xm ym xr yr (scaling d)) d) in
  let d :=
    if supportsAnnotations
       && negb (length (annotations_ d) =? 0)%nat
       && negb (length (ctx_annotations c) =? 0)%nat
    then set_scaling (adjustScaleForAnnotation (ctx_annotations c) (scaling d)) d
    else d in
  let old_scale := scale_ (scaling d) in
  let scale := Rmin (IZR width / x_range_ (scaling d))
                    (IZR height / y_range_ (scaling d)) in
  let d := set_scaling (set_scale scale (scaling d)) d in
  Some (d, Rltb (Rabs (scale - old_scale)) 0.1).

(** The loop [while (scale_ > 1e-4) { ... }]; [fuel] bounds the number of
    turns, and running out of it is no result. *)
Fixpoint calculateScale_fit {T : Type} `{DrawText T} `{LabelMetrics T}
    (fuel : nat) (width height : Z) (mol : ROMol)
    (highlight_atoms : option (list nat))
    (highlight_radii : option (list (nat * R)))
    (d : MolDraw2D T) : option (MolDraw2D T) :=
  if Rgtb (scale_ (scaling d)) 1e-4 then
    match fuel with
    | O => None
    | S fuel' =>
        r <- calculateScale_turn width height mol highlight_atoms
               highlight_radii d ;;
        let '(d', stop) := r in
        if stop then Some d'
        else calculateScale_fit fuel' width height mol highlight_atoms
               highlight_radii d'
    end
  else Some d.

(** [centrePicture]: the translation that centres the bounding box.  The
    halves [width / 2] and [height / 2] are divisions of ints. *)
Definition centrePicture (width height : Z) (s : ScaleState) : ScaleState :=
  let y_mid := y_min_ s + 0.5 * y_range_ s in
  let x_mid := x_min_ s + 0.5 * x_range_ s in
  let mid_x := scale_ s * (x_mid - x_min_ s) in
  let mid_y := scale_ s * (y_mid - y_min_ s) in
  let mid_x := mid_x + IZR (x_offset_ s) in
  let mid_y := mid_y - IZR (y_offset_ s) in
  let mid_y := IZR height - mid_y in
  let mid_x := mid_x - IZR (x_offset_ s) in
  let mid_y := mid_y + IZR (y_offset_ s) in
  set_trans_xy ((IZR (width ÷ 2) - mid_x) / scale_ s)
               ((mid_y - IZR (height ÷ 2)) / scale_ s) s.

(** The part of [calculateScale] after the loop: the buffer round the
    drawing, the final scale and the centring. *)
Definition calculateScale_final (o : MolDrawOptions) (width height : Z)
    (s : ScaleState) : ScaleState :=
  let x_min := x_min_ s - padding o * x_range_ s in
  let x_range := x_range_ s * (1 + 2 * padding o) in
  let y_min := y_min_ s - padding o * y_range_ s in
  let y_range := y_range_ s * (1 + 2 * padding o) in
  let s := set_box x_min y_min x_range y_range s in
  if Rgtb x_range 1e-4 || Rgtb y_range 1e-4 then
    let scale := Rmin (IZR width / x_range) (IZR height / y_range) in
    let fix_scale := scale in
    let fix_scale :=
      if Rgtb (fixedBondLength o) 0.0 then fixedBondLength o else fix_scale in
    let fix_scale :=
      if Rgtb (fixedScale o) 0.0 then IZR width * fixedScale o else fix_scale in
    let scale := if Rgtb scale fix_scale then fix_scale else scale in
    centrePicture width height (set_scale scale s)
  else
    set_trans_xy 0 0 (set_scale 1 s).

(** Modelled from the spec: [GraphMol/Conformer.h] is not among the
    sources.  Conformer -1 is the first one; the depiction source supplies
    one 2D coordinate per atom. *)
Definition getConformer (mol : ROMol) (confId : Z) : option (list Point2D) :=
  if (confId <? 0)%Z then hd_error (conformers mol)
  else nth_error (conformers mol) (Z.to_nat confId).

(** The sum of the bond lengths of a conformer. *)
Fixpoint sumBondLengths (conf : list Point2D) (bs : list Bond) : option R :=
  match bs with
  | [] => Some 0
  | b :: rest =>
      p1 <- nth_error conf (getBeginAtomIdx b) ;;
      p2 <- nth_error conf (getEndAtomIdx b) ;;
      r <- sumBondLengths conf rest ;;
      Some (length2D (p1 - p2)%pt + r)
  end.

(** The end of [calculateScale]: the font correction for depictions with
    short bonds.  Without bonds the mean is 0/0, which is below nothing. *)
Definition calculateScale_font {T : Type} `{DrawText T} (mol : ROMol)
    (confId : Z) (d : MolDraw2D T) : option (MolDraw2D T) :=
  conf <- getConformer mol confId ;;
  total <- sumBondLengths conf (bonds mol) ;;
  let nBonds := length (bonds mol) in
  let t := text_drawer_ d in
  let t :=
    if negb (nBonds =? 0)%nat && Rltb (total / INR nBonds) 1.0
    then setBaseFontSize (baseFontSize t * 0.75) t else t in
  Some (set_text_drawer (setFontScale (scale_ (scaling d)) false t) d).

(** [calculateScale(width, height, mol, highlight_atoms, highlight_radii,
    confId)]. *)
Definition calculateScale {T : Type} `{DrawText T} `{LabelMetrics T}
    (fuel : nat) (width height : Z) (mol : ROMol)
    (highlight_atoms : option (list nat))
    (highlight_radii : option (list (nat * R)))
    (confId : Z) (d : MolDraw2D T) : option (MolDraw2D T) :=
  d <- calculateScale_box width height d ;;
  d <- calculateScale_fit fuel width height mol highlight_atoms
         highlight_radii d ;;
  let d := set_scaling
             (calculateScale_final (options_ d) width height (scaling d)) d in
  calculateScale_font mol confId d.

(** The centre of the bounding box of a scale state. *)
Definition boxCentre (s : ScaleState) : Point2D :=
  mkPoint2D (x_min_ s + 0.5 * x_range_ s) (y_min_ s + 0.5 * y_range_ s).

(** The explicit override of the scale, if any: a fixed scale goes before
    a fixed bond length. *)
Definition scaleOverride (o : MolDrawOptions) (width : Z) : option R :=
  if Rgtb (fixedScale o) 0 then Some (IZR width * fixedScale o)
  else if Rgtb (fixedBondLength o) 0 then Some (fixedBondLength o)
  else None.

(** The centre of a panel of [width] x [height] the way the specification
    words it: half the width, half the height. *)
Definition spec_panel_centre (width height : Z) : Point2D :=
  mkPoint2D (IZR width / 2) (IZR height / 2).

(** Sample data: options as a user might set them, and a drawer whose one
    molecule is a single atom at the origin. *)
Definition sample_options : MolDrawOptions :=
  mkMolDrawOptions 0.05 (-1) (-1) 0.15 0.5 0 0.3 (mkDrawColour 1 0.5 0.5)
    false false true true false [] true false true true true true false.

Definition single_atom_drawer : MolDraw2D unit :=
  mkMolDraw2D (initScaleState 300 300 (-1) (-1)) sample_options true 2 0
    [[mkPoint2D 0 0]] [[6%Z]] [[(EmptyString, C_)]] [[]] [[]] [[]] [[]] tt [].

(** The degenerate span the way the specification words it: a unit span,
    the minimum moved down by a half. *)
Definition spec_unit_span (raw_min new_range new_min : R) : Prop :=
  new_range = 1 /\ new_min = raw_min - 0.5.

(** A scale state after the fitting loop: a bounding box of 2 x 2 on a
    panel of 301 x 300. *)
Definition fitted_state : ScaleState :=
  mkScaleState false 301 300 301 300 0 100 (-1) (-1) 2 2 0 0 0 0.

(* ================================================================== *)
(** ** Bond geometry dispatcher *)

(** Modelled from the spec: [MolDraw2D.h] is not among the sources.  The
    dash patterns, as RDKit declares them. *)
Definition noDash : list R := [].
Definition dots : list R := [2.0; 6.0].
Definition dashes : list R := [6.0; 6.0].
Definition shortDashes : list R := [2.0; 2.0].

Definition DrawColour_eqb (a b : DrawColour) : bool :=
  (if Req_dec_T (red a) (red b) then true else false)
  && (if Req_dec_T (green a) (green b) then true else false)
  && (if Req_dec_T (blue a) (blue b) then true else false).

(** What the bond dispatcher and the draw pass ask of the rest of the
    drawer and of its helpers: atom colours, the pull-back of a bond end
    from a label, the bonds that carry no query, arcs and hand-drawn lines,
    and the passes over shapes, highlights, labels and metadata.  Every
    one of them leaves the seven per-molecule vectors as they are and
    answers with what it sends to the canvas. *)
Class Renderer (T : Type) : Type := {
  getColour :
    MolDraw2D T -> nat -> option (list nat) -> option (list (nat * DrawColour)) ->
    option DrawColour;
  getHighlightBondWidth : MolDraw2D T -> nat -> Z;
  adjustBondEndForLabel :
    MolDraw2D T -> string * OrientType -> Point2D -> Point2D -> Point2D;
  drawNormalBond :
    MolDraw2D T -> ROMol -> Bond -> bool -> Point2D -> Point2D ->
    list Point2D -> DrawColour -> DrawColour -> R -> list Cmd;
  arcPoints : Point2D -> Point2D -> R -> R -> list Point2D;
  handdrawnLine : Point2D -> Point2D -> R -> bool -> bool -> list Point2D;
  drawShapes : MolDraw2D T -> list MolDrawShape -> list Cmd;
  doContinuousHighlighting :
    MolDraw2D T -> ROMol -> option (list nat) -> option (list nat) -> list Cmd;
  finishMoleculeDraw : MolDraw2D T -> ROMol -> list DrawColour -> list Cmd;
  updateMetadata : MolDraw2D T -> ROMol -> Z -> list Cmd
}.

Section Bonds.
Context {T : Type} `{Renderer T}.
Implicit Type d : MolDraw2D T.

(** [setActiveAtmIdx(at_idx1 = -1, at_idx2 = -1)]. *)
Definition setActiveAtmIdx2 (a1 a2 : nat) : Cmd :=
  SetActiveAtmIdx (Z.of_nat a1) (Z.of_nat a2).
Definition setActiveAtmIdx1 (a1 : nat) : Cmd :=
  SetActiveAtmIdx (Z.of_nat a1) (-1).
Definition setActiveAtmIdx0 : Cmd := SetActiveAtmIdx (-1) (-1).

(** [MolDraw2D::drawLine(cds1, cds2, col1, col2)]. *)
Definition drawLine4 (cds1 cds2 : Point2D) (col1 col2 : DrawColour) d
  : MolDraw2D T :=
  let scale := scale_ (scaling d) in
  if comicMode (options_ d) then
    let d := setFillPolys false d in
    if DrawColour_eqb col1 col2 then
      emit [SetColour col1;
            DrawPolygon (handdrawnLine cds1 cds2 scale true true)] d
    else
      let mid := ((cds1 + cds2) * 0.5)%pt in
      emit [SetColour col1;
            DrawPolygon (handdrawnLine cds1 mid scale true false);
            SetColour col2;
            DrawPolygon (handdrawnLine mid cds2 scale false true)] d
  else if DrawColour_eqb col1 col2 then
    emit [SetColour col1; DrawLine cds1 cds2] d
  else
    let mid := ((cds1 + cds2) * 0.5)%pt in
    emit [SetColour col1; DrawLine cds1 mid;
          SetColour col2; DrawLine mid cds2] d.

(** [drawBondLine(d2d, bond, cds1, cds2, col1, col2, clearAIdx)]. *)
Definition drawBondLineCol (bond : Bond) (cds1 cds2 : Point2D)
    (col1 col2 : DrawColour) (clearAIdx : bool) d : MolDraw2D T :=
  if negb (splitBonds (options_ d)) then
    let d := emit [setActiveAtmIdx2 (getBeginAtomIdx bond)
                     (getEndAtomIdx bond)] d in
    let d := drawLine4 cds1 cds2 col1 col2 d in
    if clearAIdx then emit [setActiveAtmIdx0] d else d
  else
    let mid := ((cds1 + cds2) * 0.5)%pt in
    let d := emit [setActiveAtmIdx1 (getBeginAtomIdx bond)] d in
    let d := drawLine4 cds1 mid col1 col1 d in
    let d := emit [setActiveAtmIdx1 (getEndAtomIdx bond)] d in
    let d := drawLine4 mid cds2 col2 col2 d in
    if clearAIdx then emit [setActiveAtmIdx0] d else d.

(** [drawBondLine(d2d, bond, cds1, cds2, clearAIdx)]. *)
Definition drawBondLine (bond : Bond) (cds1 cds2 : Point2D)
    (clearAIdx : bool) d : MolDraw2D T :=
  if negb (splitBonds (options_ d)) then
    let d := emit [DrawLine cds1 cds2] d in
    if clearAIdx then emit [setActiveAtmIdx0] d else d
  else
    let midp := ((cds1 + cds2) / 2)%pt in
    let d := emit [setActiveAtmIdx1 (getBeginAtomIdx bond);
                   DrawLine cds1 midp;
                   setActiveAtmIdx1 (getEndAtomIdx bond);
                   DrawLine midp cds2] d in
    if clearAIdx then emit [setActiveAtmIdx0] d else d.

(** The dash pattern [tdash] of the query bonds. *)
Definition tdashFor (scale : R) : list R :=
  match shortDashes with
  | t0 :: t1 :: rest =>
      if Rltb scale 10 then (t0 / 4) :: (t1 / 3) :: rest
      else if Rltb scale 20 then (t0 / 2) :: (t1 / 1.5) :: rest
      else shortDashes
  | _ => shortDashes
  end.

(** The tail shared by the branches of [drawQueryBond] that draw a
    double-bond pair over [cds1 .. cds2], the second line dashed or not. *)
Definition drawPairOver (mol : ROMol) (bond : Bond) (offset : R)
    (cds1 cds2 : Point2D) (at_cds : list Point2D) (dash : option (list R)) d
  : option (MolDraw2D T) :=
  lp <- calcDoubleBondLines mol offset bond cds1 cds2 at_cds ;;
  Some (emit
          ([DrawLine (l1s lp) (l1f lp)]
           ++ match dash with
              | Some tdash =>
                  [SetDash tdash; DrawLine (l2s lp) (l2f lp); SetDash noDash]
              | None => [DrawLine (l2s lp) (l2f lp)]
              end) d).

(** The generic query: a dotted line. *)
Definition drawGenericQueryBond (bond : Bond) (highlight_bond : bool)
    (at1_cds at2_cds : Point2D) d : MolDraw2D T :=
  let d := emit [SetDash dots] d in
  let orig_slw := scaleBondWidth (options_ d) in
  let d := if highlight_bond
           then emit [SetScaleBondWidth
                        (scaleHighlightBondWidth (options_ d))] d
           else d in
  let d := drawBondLine bond at1_cds at2_cds true d in
  emit [SetScaleBondWidth orig_slw; SetDash noDash] d.

(** The glyph at the middle of a bond that is an order constraint AND a
    ring-membership constraint. *)
Definition drawRingQueryGlyph (mol : ROMol) (bond : Bond)
    (at1_cds at2_cds midp : Point2D) (at_cds : list Point2D)
    (queryColour : DrawColour) (offset : R) (q2_negated : bool) d
  : MolDraw2D T :=
  let d := emit (drawNormalBond d mol bond false at1_cds at2_cds at_cds
                   queryColour queryColour offset) d in
  let segment := (at2_cds - at1_cds)%pt in
  let d := setFillPolys false d in
  let slw := scaleBondWidth (options_ d) in
  let d := emit [SetScaleBondWidth false] d in
  let lw := lineWidth_ d in
  let d := setLineWidth 1 d in
  let d :=
    if negb q2_negated then
      let segment := (segment / (length2D segment * 6))%pt in
      let r1 := mkPoint2D (0.5 * px segment - 0.866 * py segment)
                          (0.866 * px segment + 0.5 * py segment) in
      let r2 := mkPoint2D (0.5 * px r1 - 0.866 * py r1)
                          (0.866 * px r1 + 0.5 * py r1) in
      emit [DrawPolygon [midp + segment; midp + r1; midp + r2;
                         midp - segment; midp - r1; midp - r2;
                         midp + segment]%pt] d
    else
      let segment := (segment / (length2D segment * 10))%pt in
      let l := length2D segment in
      let ll := mkPoint2D l l in
      emit [DrawPolygon
              (arcPoints (midp + segment + ll)%pt (midp + segment - ll)%pt
                 0 360);
            DrawPolygon
              (arcPoints (midp - segment + ll)%pt (midp - segment - ll)%pt
                 0 360)] d in
  setLineWidth lw (emit [SetScaleBondWidth slw] d).

(** [drawQueryBond]: the composite glyph of a bond that carries a
    query. *)
Definition drawQueryBond (mol : ROMol) (bond : Bond) (highlight_bond : bool)
    (at1_cds at2_cds : Point2D) (at_cds : list Point2D)
    (double_bond_offset : R) d : option (MolDraw2D T) :=
  qry <- getQuery bond ;;
  let d := if negb (splitBonds (options_ d))
           then emit [setActiveAtmIdx2 (getBeginAtomIdx bond)
                        (getEndAtomIdx bond)] d
           else d in
  let midp := ((at2_cds + at1_cds) / 2)%pt in
  let tdash := tdashFor (scale_ (scaling d)) in
  let queryColour := mkDrawColour 0.5 0.5 0.5 in
  let d := emit [SetColour queryColour] d in
  let split := splitBonds (options_ d) in
  let toBegin d := if split
                   then emit [setActiveAtmIdx1 (getBeginAtomIdx bond)] d
                   else d in
  let toEnd d := if split
                 then emit [setActiveAtmIdx1 (getEndAtomIdx bond)] d
                 else d in
  let descr := getDescription qry in
  d <- (if String.eqb descr "SingleOrDoubleBond" then
          let d := toBegin d in
          let d := emit [DrawLine at1_cds midp] d in
          let d := toEnd d in
          drawPairOver mol bond double_bond_offset midp at2_cds at_cds None d
        else if String.eqb descr "SingleOrAromaticBond" then
          let d := toBegin d in
          let d := emit [DrawLine at1_cds midp] d in
          let d := toEnd d in
          drawPairOver mol bond double_bond_offset midp at2_cds at_cds
            (Some tdash) d
        else if String.eqb descr "DoubleOrAromaticBond" then
          let d := toBegin d in
          d <- drawPairOver mol bond double_bond_offset at1_cds midp at_cds
                 None d ;;
          let d := toEnd d in
          drawPairOver mol bond double_bond_offset midp at2_cds at_cds
            (Some tdash) d
        else if String.eqb descr "BondNull" then
          let d := emit [SetDash tdash] d in
          let d := drawBondLine bond at1_cds at2_cds true d in
          Some (emit [SetDash noDash] d)
        else
          match
            (if String.eqb descr "BondAnd" then
               match getChildren qry with
               | [q1; q2] =>
                   let '(q1, q2) :=
                     if String.eqb (getDescription q2) "BondOrder"
                     then (q2, q1) else (q1, q2) in
                   if String.eqb (getDescription q1) "BondOrder"
                      && String.eqb (getDescription q2) "BondInRing"
                   then Some (getNegation q2) else None
               | _ => None
               end
             else None)
          with
          | Some q2_negated =>
              Some (drawRingQueryGlyph mol bond at1_cds at2_cds midp at_cds
                      queryColour double_bond_offset q2_negated d)
          | None =>
              Some (drawGenericQueryBond bond highlight_bond
                      at1_cds at2_cds d)
          end) ;;
  Some (emit [setActiveAtmIdx0] d).

(** How [drawBond] is told what to highlight and how to colour. *)
Record BondStyle : Type := mkBondStyle {
  highlight_bonds : option (list nat);
  highlight_bond_map : option (list (nat * DrawColour));
  bond_colours : option (list (DrawColour * DrawColour))
}.

Definition lookupColour (m : list (nat * DrawColour)) (idx : nat)
  : option DrawColour :=
  match find (fun kv => (fst kv =? idx)%nat) m with
  | Some kv => Some (snd kv)
  | None => None
  end.

(** [MolDraw2D::drawBond]. *)
Definition drawBond (mol : ROMol) (bond : Bond) (at1_idx at2_idx : nat)
    (st : BondStyle) d : option (MolDraw2D T) :=
  cds <- at_active (at_cds_ d) d ;;
  syms <- at_active (atom_syms_ d) d ;;
  let '(at1_idx, at2_idx) :=
    if negb (at1_idx =? getBeginAtomIdx bond)%nat
    then (at2_idx, at1_idx) else (at1_idx, at2_idx) in
  at1_cds <- nth_error cds at1_idx ;;
  at2_cds <- nth_error cds at2_idx ;;
  let double_bond_offset := multipleBondOffset (options_ d) in
  let double_bond_offset :=
    if Rltb (lengthSq (at1_cds - at2_cds)%pt) 1.4
    then double_bond_offset * 0.6 else double_bond_offset in
  sym1 <- nth_error syms at1_idx ;;
  let at1_cds := adjustBondEndForLabel d sym1 at2_cds at1_cds in
  sym2 <- nth_error syms at2_idx ;;
  let at2_cds := adjustBondEndForLabel d sym2 at1_cds at2_cds in
  let highlight_bond :=
    match highlight_bonds st with
    | Some hb => existsb (Nat.eqb (getIdx bond)) hb
    | None => false
    end in
  let orig_lw := lineWidth_ d in
  r <- match bond_colours st with
       | Some cols =>
           c <- nth_error cols (getIdx bond) ;;
           Some (fst c, snd c, d)
       | None =>
           if negb highlight_bond then
             c1 <- getColour d at1_idx None None ;;
             c2 <- getColour d at2_idx None None ;;
             Some (c1, c2, d)
           else
             let col :=
               match highlight_bond_map st with
               | Some m =>
                   match lookupColour m (getIdx bond) with
                   | Some c => c
                   | None => highlightColour (options_ d)
                   end
               | None => highlightColour (options_ d)
               end in
             let w := getHighlightBondWidth d (getIdx bond) in
             let d := if continuousHighlight (options_ d)
                      then setLineWidth w d
                      else setLineWidth (w ÷ 4) d in
             Some (col, col, d)
       end ;;
  let '(col1, col2, d) := r in
  let isComplex :=
    match getQuery bond with
    | Some q => getNegation q
                || negb (String.eqb (getDescription q) "BondOrder")
    | None => false
    end in
  d <- (if isComplex
        then drawQueryBond mol bond highlight_bond at1_cds at2_cds cds
               double_bond_offset d
        else Some (emit (drawNormalBond d mol bond highlight_bond
                           at1_cds at2_cds cds col1 col2
                           double_bond_offset) d)) ;;
  Some (if highlight_bond then setLineWidth orig_lw d else d).

(** The calls of [drawBond] that [drawBonds] makes, in order: for every
    atom, for every bond at it, when the neighbour has coordinates and a
    higher index. *)
Definition drawBonds_calls (mol : ROMol) (n_cds : nat)
  : list (Bond * nat * nat) :=
  flat_map
    (fun this_idx =>
       flat_map
         (fun bond =>
            let nbr_idx := getOtherAtomIdx bond this_idx in
            if (nbr_idx <? n_cds)%nat && (this_idx <? nbr_idx)%nat
            then [(bond, this_idx, nbr_idx)] else [])
         (getAtomBonds mol this_idx))
    (seq 0 (getNumAtoms mol)).

Fixpoint drawBond_all (mol : ROMol) (st : BondStyle)
    (calls : list (Bond * nat * nat)) d : option (MolDraw2D T) :=
  match calls with
  | [] => Some d
  | (bond, this_idx, nbr_idx) :: rest =>
      d <- drawBond mol bond this_idx nbr_idx st d ;;
      drawBond_all mol st rest d
  end.

(** [MolDraw2D::drawBonds].  The size of the coordinate array is read
    only when some atom has a bond. *)
Definition drawBonds (mol : ROMol) (st : BondStyle) d
  : option (MolDraw2D T) :=
  match at_active (at_cds_ d) d with
  | Some cds => drawBond_all mol st (drawBonds_calls mol (length cds)) d
  | None =>
      if forallb (fun a => (getDegree mol a =? 0)%nat)
                 (seq 0 (getNumAtoms mol))
      then Some d else None
  end.
End Bonds.



(** Sample collaborators: a text drawer and a renderer that do as little
    as the interfaces allow. *)
#[export] Instance unit_DrawText : DrawText unit := {
  fontScale := fun _ => 1;
  setFontScale := fun _ _ t => t;
  baseFontSize := fun _ => 0.6;
  setBaseFontSize := fun _ t => t;
  setupTextDrawer := fun _ t => t
}.

#[export] Instance unit_LabelMetrics : LabelMetrics unit := {
  supportsAnnotations := true;
  adjustScaleForAtomLabels := fun _ _ _ _ s =>
    (x_min_ s, y_min_ s, x_range_ s, y_range_ s);
  adjustScaleForRadicals := fun _ _ c s =>
    (ctx_radicals c, (x_min_ s, y_min_ s, x_range_ s, y_range_ s))
}.

#[export] Instance unit_Renderer : Renderer unit := {
  getColour := fun _ _ _ _ => Some (mkDrawColour 0 0 0);
  getHighlightBondWidth := fun d _ => lineWidth_ d;
  adjustBondEndForLabel := fun _ _ _ cds => cds;
  drawNormalBond := fun _ _ _ _ at1_cds at2_cds _ _ _ _ =>
    [DrawLine at1_cds at2_cds];
  arcPoints := fun cds1 cds2 _ _ => [cds1; cds2];
  handdrawnLine := fun cds1 cds2 _ _ _ => [cds1; cds2];
  drawShapes := fun _ shapes => map (fun s => DrawPolygon (points s)) shapes;
  doContinuousHighlighting := fun _ _ _ _ => [];
  finishMoleculeDraw := fun _ _ _ => [];
  updateMetadata := fun _ _ _ => []
}.

Definition noBondStyle : BondStyle := mkBondStyle None None None.

(** A drawer whose active molecule is the sample molecule. *)
Definition butene_like_drawer : MolDraw2D unit :=
  mkMolDraw2D (initScaleState 300 300 (-1) (-1)) sample_options true 2 0
    [butene_like_cds] [[6; 6; 6; 6; 6; 6]%Z]
    [repeat (EmptyString, C_) 6] [[]] [[]] [[]] [[]] tt [].

(** The primitives of a single-or-double query bond the way the
    specification words them: a plain segment over the first third, the
    double-bond pair over the other two thirds. *)
Definition spec_singleOrDouble_primitives (mol : ROMol) (offset : R)
    (bond : Bond) (at1_cds at2_cds : Point2D) (at_cds : list Point2D)
  : option (list Cmd) :=
  let third := (at1_cds + (at2_cds - at1_cds) * (1 / 3))%pt in
  lp <- calcDoubleBondLines mol offset bond third at2_cds at_cds ;;
  Some [DrawLine at1_cds third;
        DrawLine (l1s lp) (l1f lp); DrawLine (l2s lp) (l2f lp)].

(** Two atoms three units apart, joined by a single-or-double query bond. *)
Definition query_bond : Bond :=
  mkBond 0 0 1 SINGLE NONE STEREONONE false
    (Some (mkQuery "SingleOrDoubleBond" false [])).

Definition query_cds : list Point2D := [mkPoint2D 0 0; mkPoint2D 3 0].

Definition query_mol : ROMol := mkROMol 2 [query_bond] [] [query_cds].

Definition query_drawer : MolDraw2D unit :=
  mkMolDraw2D (initScaleState 300 300 (-1) (-1)) sample_options true 2 0
    [query_cds] [[6; 6]%Z] [repeat (EmptyString, C_) 2] [[]] [[]] [[]] [[]]
    tt [].

(* ================================================================== *)
(** ** Draw orchestrator *)

(** The depiction and preparation services, and the extraction passes
    that fill the arrays of the active molecule from a prepared molecule
    (atom symbols, notes and radicals; then substance groups, variable
    bonds, brackets, molecule notes and link nodes). *)
Class MolServices (T : Type) : Type := {
  prepareMolForDrawing : ROMol -> ROMol;
  computeCentroid : list Point2D -> Point2D;
  simplifyStereoGroupLabel : MolDrawOptions -> ROMol -> ROMol;
  addIndexAnnotations : MolDrawOptions -> ROMol -> ROMol;
  rotatePoint : R -> Point2D -> Point2D;
  extractLabels : MolDraw2D T -> ROMol -> RenderContext -> RenderContext;
  extractShapes : MolDraw2D T -> ROMol -> RenderContext -> RenderContext
}.

(** What the caller asks to be highlighted. *)
Record Highlights : Type := mkHighlights {
  highlight_atoms : option (list nat);
  highlight_bonds_ : option (list nat);
  highlight_atom_map : option (list (nat * DrawColour));
  highlight_bond_map_ : option (list (nat * DrawColour));
  highlight_radii : option (list (nat * R))
}.

Definition lookupRadius (m : list (nat * R)) (idx : nat) : option R :=
  match find (fun kv => (fst kv =? idx)%nat) m with
  | Some kv => Some (snd kv)
  | None => None
  end.

Definition set_conformer (mol : ROMol) (confId : Z) (conf : list Point2D)
  : ROMol :=
  mkROMol (getNumAtoms mol) (bonds mol) (bondRings mol)
    (list_set (conformers mol)
       (if (confId <? 0)%Z then 0%nat else Z.to_nat confId) conf).

Section Orchestrator.
Context {T : Type} `{DrawText T} `{LabelMetrics T} `{Renderer T}
        `{MolServices T}.
Implicit Type d : MolDraw2D T.

(** [centerMolForDrawing]. *)
Definition centerMolForDrawing (mol : ROMol) (confId : Z) : option ROMol :=
  conf <- getConformer mol confId ;;
  let centroid := pmul (computeCentroid conf) (-1) in
  Some (set_conformer mol confId (map (fun p => (p + centroid)%pt) conf)).

(** The molecule [setupDrawMolecule] works on: the copy of [mol] after
    the preparation step, as it stands where the conformers are counted. *)
Definition preparedMol (o : MolDrawOptions) (mol : ROMol) (confId : Z)
  : option ROMol :=
  let rwmol := mol in
  let rwmol :=
    if prepareMolsBeforeDrawing o || (getNumConformers mol =? 0)%nat
    then prepareMolForDrawing rwmol else rwmol in
  rwmol <- (if centreMoleculesBeforeDrawing o
               && negb (getNumConformers rwmol =? 0)%nat
            then centerMolForDrawing rwmol confId else Some rwmol) ;;
  Some (simplifyStereoGroupLabel o rwmol).

Definition set_at_cds (cds : list Point2D) (c : RenderContext)
  : RenderContext :=
  mkRenderContext cds (ctx_atomic_nums c) (ctx_atom_syms c)
    (ctx_annotations c) (ctx_pre_shapes c) (ctx_post_shapes c)
    (ctx_radicals c).

Definition clear_shapes (c : RenderContext) : RenderContext :=
  mkRenderContext (ctx_at_cds c) (ctx_atomic_nums c) (ctx_atom_syms c)
    (ctx_annotations c) [] [] (ctx_radicals c).

(** [extractAtomCoords]; the member [bbox_], which nothing here reads,
    is left out. *)
Definition extractAtomCoords (mol : ROMol) (confId : Z) d
  : option (MolDraw2D T) :=
  c <- getContext d ;;
  if (getNumConformers mol =? 0)%nat then None
  else
    locs <- getConformer mol confId ;;
    let rot := - rotate (options_ d) * PI / 180.0 in
    cds <- (fix collect (idxs : list nat) : option (list Point2D) :=
              match idxs with
              | [] => Some []
              | this_idx :: rest =>
                  pt <- nth_error locs this_idx ;;
                  let pt := if Req_dec_T rot 0.0 then pt
                            else rotatePoint rot pt in
                  tl <- collect rest ;;
                  Some (pt :: tl)
              end) (seq 0 (getNumAtoms mol)) ;;
    Some (setContext (set_at_cds cds c) d).

(** [setupDrawMolecule]: the prepared molecule and the drawer after the
    extraction passes.  The scale state is reset for the passes and put
    back after them; the early return for a molecule without conformers
    comes before it is put back. *)
Definition setupDrawMolecule (fuel : nat) (mol : ROMol) (hl : Highlights)
    (confId : Z) (width height : Z) d : option (ROMol * MolDraw2D T) :=
  let curr := scaling d in
  let curr_font_scale := fontScale (text_drawer_ d) in
  let d := set_scaling (set_scale 1.0 (scaling d)) d in
  let d := set_text_drawer (setFontScale 1.0 true (text_drawer_ d)) d in
  let d := set_scaling
             (set_min_xy 0.0 0.0
                (set_offset 0 0 (set_trans_xy 0.0 0.0 (scaling d)))) d in
  rwmol <- preparedMol (options_ d) mol confId ;;
  if (getNumConformers rwmol =? 0)%nat then
    (* clearly, the molecule is in a sorry state. *)
    Some (rwmol, d)
  else
    let rwmol := addIndexAnnotations (options_ d) rwmol in
    let d := if (activeMolIdx_ d =? 0)%Z && clearBackground (options_ d)
             then emit [ClearDrawing] d else d in
    d <- extractAtomCoords rwmol confId d ;;
    d <- onContext (extractLabels d rwmol) d ;;
    d <- (if (0 <=? activeMolIdx_ d)%Z
             && (Z.to_nat (activeMolIdx_ d) <? length (post_shapes_ d))%nat
             && (Z.to_nat (activeMolIdx_ d) <? length (pre_shapes_ d))%nat
          then onContext clear_shapes d else Some d) ;;
    d <- onContext (extractShapes d rwmol) d ;;
    (* set everything to as it was before. *)
    let d := set_scaling
               (set_min_xy (x_min_ curr) (y_min_ curr)
                  (set_offset (x_offset_ curr) (y_offset_ curr)
                     (set_trans_xy (x_trans_ curr) (y_trans_ curr)
                        (set_scale (scale_ curr) (scaling d))))) d in
    let d := set_text_drawer
               (setFontScale curr_font_scale true (text_drawer_ d)) d in
    d <- (if (activeMolIdx_ d =? 0)%Z && needs_scale_ (scaling d) then
            d <- calculateScale fuel width height rwmol (highlight_atoms hl)
                   (highlight_radii hl) confId d ;;
            Some (set_scaling (set_needs_scale false (scaling d)) d)
          else Some d) ;;
    Some (rwmol, d).

(** [MolDraw2D::drawRect]. *)
Definition drawRect (cds1 cds2 : Point2D) d : MolDraw2D T :=
  let pts := [cds1; mkPoint2D (px cds1) (py cds2); cds2;
              mkPoint2D (px cds2) (py cds1)] in
  let pts := if negb (fill_polys_ d) then pts ++ [cds1] else pts in
  emit [DrawPolygon pts] d.

(** The rectangle round one atom region of [setupMoleculeDraw]. *)
Definition drawAtomRegion (region : list nat) d : option (MolDraw2D T) :=
  if (1 <? length region)%nat then
    cds <- at_active (at_cds_ d) d ;;
    first <- nth_error cds (hd 0%nat region) ;;
    box <- (fix grow (idxs : list nat) (minv maxv : Point2D)
              : option (Point2D * Point2D) :=
              match idxs with
              | [] => Some (minv, maxv)
              | idx :: rest =>
                  pt <- nth_error cds idx ;;
                  grow rest
                    (mkPoint2D (Rmin (px minv) (px pt)) (Rmin (py minv) (py pt)))
                    (mkPoint2D (Rmax (px maxv) (px pt)) (Rmax (py maxv) (py pt)))
              end) region first first ;;
    let '(minv, maxv) := box in
    let size := ((maxv - minv) * 0.2)%pt in
    let minv := (minv - size / 2)%pt in
    let maxv := (maxv + size / 2)%pt in
    let d := emit [SetColour (mkDrawColour 0.8 0.8 0.8)] d in
    Some (drawRect minv maxv d)
  else Some d.

Fixpoint drawAtomRegions (regions : list (list nat)) d
  : option (MolDraw2D T) :=
  match regions with
  | [] => Some d
  | region :: rest =>
      d <- drawAtomRegion region d ;;
      drawAtomRegions rest d
  end.

(** [setupMoleculeDraw]. *)
Definition setupMoleculeDraw (fuel : nat) (mol : ROMol) (hl : Highlights)
    (confId : Z) d : option (ROMol * MolDraw2D T) :=
  r <- setupDrawMolecule fuel mol hl confId (panelWidth (scaling d))
         (drawHeight (scaling d)) d ;;
  let '(draw_mol, d) := r in
  let d := if includeAtomTags (options_ d) then emit [TagAtoms] d else d in
  d <- drawAtomRegions (atomRegions (options_ d)) d ;;
  Some (draw_mol, d).

(** The circles round the highlighted atoms, drawn when the highlighting
    is not continuous. *)
Fixpoint circleHighlights (hl : Highlights) (ha : list nat)
    (atoms : list nat) d : option (MolDraw2D T) :=
  match atoms with
  | [] => Some d
  | this_idx :: rest =>
      if existsb (Nat.eqb this_idx) ha then
        let col :=
          match highlight_atom_map hl with
          | Some m => match lookupColour m this_idx with
                      | Some c => c
                      | None => highlightColour (options_ d)
                      end
          | None => highlightColour (options_ d)
          end in
        let d := emit [SetColour col] d in
        cds <- at_active (at_cds_ d) d ;;
        p <- nth_error cds this_idx ;;
        let radius :=
          match highlight_radii hl with
          | Some m => match lookupRadius m this_idx with
                      | Some r => r
                      | None => highlightRadius (options_ d)
                      end
          | None => highlightRadius (options_ d)
          end in
        let offset := mkPoint2D radius radius in
        let d := emit [DrawPolygon
                         (arcPoints (p - offset)%pt (p + offset)%pt 0 360)] d in
        circleHighlights hl ha rest d
      else circleHighlights hl ha rest d
  end.

Fixpoint atomColours (hl : Highlights) (atoms : list nat) d
  : option (list DrawColour) :=
  match atoms with
  | [] => Some []
  | this_idx :: rest =>
      c <- getColour d this_idx (highlight_atoms hl) (highlight_atom_map hl) ;;
      cs <- atomColours hl rest d ;;
      Some (c :: cs)
  end.

Definition no_highlights (hl : Highlights) : Highlights :=
  mkHighlights None None (highlight_atom_map hl) (highlight_bond_map_ hl)
    (highlight_radii hl).

(** [MolDraw2D::drawMolecule(mol, highlight_atoms, highlight_bonds,
    highlight_atom_map, highlight_bond_map, highlight_radii, confId)].
    The source has its [popDrawDetails()] commented out. *)
Definition drawMolecule (fuel : nat) (mol : ROMol) (hl : Highlights)
    (confId : Z) d : option (MolDraw2D T) :=
  let origWidth := lineWidth_ d in
  let d := pushDrawDetails d in
  let d := set_text_drawer
             (setupTextDrawer (options_ d) (text_drawer_ d)) d in
  r <- setupMoleculeDraw fuel mol hl confId d ;;
  let '(draw_mol, d) := r in
  if (getNumConformers draw_mol =? 0)%nat then
    (* clearly, the molecule is in a sorry state. *)
    Some d
  else
    pre <- at_active (pre_shapes_ d) d ;;
    let d := if negb (length pre =? 0)%nat
             then emit (drawShapes d pre) d else d in
    let atoms := seq 0 (getNumAtoms draw_mol) in
    r <- (if continuousHighlight (options_ d) then
            let d := emit (doContinuousHighlighting d draw_mol
                             (highlight_atoms hl) (highlight_bonds_ hl)) d in
            Some (no_highlights hl, d)
          else
            match highlight_atoms hl with
            | Some ha =>
                if circleAtoms (options_ d) then
                  let d := setFillPolys (fillHighlights (options_ d)) d in
                  d <- circleHighlights hl ha atoms d ;;
                  Some (hl, setFillPolys true d)
                else Some (hl, d)
            | None => Some (hl, d)
            end) ;;
    let '(hl, d) := r in
    d <- drawBonds draw_mol
           (mkBondStyle (highlight_bonds_ hl) (highlight_bond_map_ hl) None) d ;;
    atom_colours <- atomColours hl atoms d ;;
    let d := emit (finishMoleculeDraw d draw_mol atom_colours) d in
    (* popDrawDetails(); *)
    let d := setLineWidth origWidth d in
    let d := if includeMetadata (options_ d)
             then emit (updateMetadata d draw_mol confId) d else d in
    Some d.
End Orchestrator.

(** What the draw passes must leave alone once a context is pushed: the
    depths of the seven vectors and the active index. *)
Definition frame {T : Type} (d : MolDraw2D T) : list nat * Z :=
  (stack_depths d, activeMolIdx_ d).

#[export] Instance unit_MolServices : MolServices unit := {
  prepareMolForDrawing := fun mol => mol;
  computeCentroid := fun _ => mkPoint2D 0 0;
  simplifyStereoGroupLabel := fun _ mol => mol;
  addIndexAnnotations := fun _ mol => mol;
  rotatePoint := fun _ p => p;
  extractLabels := fun _ mol c =>
    mkRenderContext (ctx_at_cds c) (repeat 6%Z (getNumAtoms mol))
      (repeat (EmptyString, C_) (getNumAtoms mol)) (ctx_annotations c)
      (ctx_pre_shapes c) (ctx_post_shapes c) (ctx_radicals c);
  extractShapes := fun _ _ c => c
}.

Definition noHighlights : Highlights := mkHighlights None None None None None.

(** A fresh drawer of 300 x 300, as the constructor leaves it; and one
    whose scale has been settled beforehand. *)
Definition fresh_drawer : MolDraw2D unit :=
  mkMolDraw2D (initScaleState 300 300 (-1) (-1)) sample_options true 2 (-1)
    [] [] [] [] [] [] [] tt [].

Definition scaled_drawer : MolDraw2D unit :=
  mkMolDraw2D
    (mkScaleState false 300 300 300 300 0 50 (-2) (-2) 6 6 0 0 0 0)
    sample_options true 2 (-1) [] [] [] [] [] [] [] tt [].

(** A molecule that comes without coordinates and gets none. *)
Definition no_coords_mol : ROMol := mkROMol 2 [plainBond 0 0 1 SINGLE] [] [].

(** The fresh drawer with one atom region set. *)
Definition region_drawer : MolDraw2D unit :=
  set_options (set_atomRegions [[0; 1]%nat] sample_options) fresh_drawer.

(** The render context the way the specification words it: what was
    pushed on entry is popped on exit, so depths and active index are
    those from before the call. *)
Definition spec_context_restored {T : Type} (before after : MolDraw2D T)
  : Prop :=
  stack_depths after = stack_depths before /\
  activeMolIdx_ after = activeMolIdx_ before.

(* ================================================================== *)
(** ** Annotation placement engine *)

(** The geometric queries the placement engine puts to the text metrics
    service: the rectangles of a string, and whether those rectangles,
    placed at a position, meet a line, a string or another rectangle. *)
Class TextGeometry (T : Type) : Type := {
  getStringRects : T -> string -> OrientType -> TextAlignType -> list StringRect;
  doesLineIntersect :
    T -> list StringRect -> Point2D -> Point2D -> Point2D -> R -> bool;
  doesStringIntersect :
    T -> list StringRect -> Point2D -> string -> OrientType -> Point2D -> bool;
  doesRectIntersect : T -> list StringRect -> Point2D -> StringRect -> bool
}.

(** Modelled from the spec: [DrawText.h] is not among the sources.  A
    default-constructed [StringRect] sits at the origin with no extent
    and no clash. *)
Definition defaultStringRect : StringRect :=
  mkStringRect (mkPoint2D 0 0) 0 0 0.

Section Annotations.
Context {T : Type} `{DrawText T} `{TextGeometry T}.
Implicit Type d : MolDraw2D T.

(** [MolDraw2D::getDrawCoords(int at_num)]. *)
Definition getDrawCoordsOfAtom (at_num : nat) d : option Point2D :=
  cds <- at_active (at_cds_ d) d ;;
  p <- nth_error cds at_num ;;
  Some (getDrawCoords (scaling d) p).

(** The loop of [doesNoteClashNbourBonds] over the neighbours;
    [double_bond_offset] starts at -1 and is set at the first bond that
    is not single. *)
Fixpoint clashNbourBonds_loop (note_pos : Point2D) (rects : list StringRect)
    (mol : ROMol) (atom : nat) (cds : list Point2D) (at2_dcds : Point2D)
    (line_width : R) (double_bond_offset : R) (nbrs : list nat) d
  : option bool :=
  match nbrs with
  | [] => Some false
  | nbr :: rest =>
      c1 <- nth_error cds nbr ;;
      let at1_dcds := getDrawCoords (scaling d) c1 in
      if doesLineIntersect (text_drawer_ d) rects note_pos at1_dcds at2_dcds
           line_width
      then Some true
      else
        bond <- getBondBetweenAtoms mol atom nbr ;;
        let bt := getBondType bond in
        if BondType_eqb bt SINGLE
        then clashNbourBonds_loop note_pos rects mol atom cds at2_dcds
               line_width double_bond_offset rest d
        else
          let double_bond_offset :=
            if Rltb double_bond_offset 0.0 then
              let dbo := multipleBondOffset (options_ d) in
              if Rltb (lengthSq (at1_dcds - at2_dcds)%pt)
                      (1.4 * scale_ (scaling d))
              then dbo * 0.6 else dbo
            else double_bond_offset in
          c2 <- nth_error cds atom ;;
          lines <-
            (if BondType_eqb bt DOUBLE || BondType_eqb bt AROMATIC then
               lp <- calcDoubleBondLines mol double_bond_offset bond c1 c2 cds ;;
               Some (Some lp)
             else if BondType_eqb bt TRIPLE then
               Some (Some (calcTripleBondLines mol double_bond_offset bond c1 c2))
             else Some None) ;;
          match lines with
          | Some lp =>
              let s := scaling d in
              if doesLineIntersect (text_drawer_ d) rects note_pos
                   (getDrawCoords s (l1s lp)) (getDrawCoords s (l1f lp))
                   line_width
                 || doesLineIntersect (text_drawer_ d) rects note_pos
                      (getDrawCoords s (l2s lp)) (getDrawCoords s (l2f lp))
                      line_width
              then Some true
              else clashNbourBonds_loop note_pos rects mol atom cds at2_dcds
                     line_width double_bond_offset rest d
          | None =>
              clashNbourBonds_loop note_pos rects mol atom cds at2_dcds
                line_width double_bond_offset rest d
          end
  end.

(** [doesNoteClashNbourBonds]. *)
Definition doesNoteClashNbourBonds (note_pos : Point2D)
    (rects : list StringRect) (mol : ROMol) (atom : nat) d : option bool :=
  cds <- at_active (at_cds_ d) d ;;
  c <- nth_error cds atom ;;
  let at2_dcds := getDrawCoords (scaling d) c in
  let line_width := IZR (lineWidth_ d) * scale_ (scaling d) * 0.02 in
  clashNbourBonds_loop note_pos rects mol atom cds at2_dcds line_width (-1.0)
    (getAtomNeighbors mol atom) d.

(** [doesNoteClashAtomLabels]. *)
Definition doesNoteClashAtomLabels (note_pos : Point2D)
    (rects : list StringRect) (mol : ROMol) (atom_idx : nat) d
  : option bool :=
  draw_cds <- getDrawCoordsOfAtom atom_idx d ;;
  syms <- at_active (atom_syms_ d) d ;;
  sym <- nth_error syms atom_idx ;;
  if doesStringIntersect (text_drawer_ d) rects note_pos (fst sym) (snd sym)
       draw_cds
  then Some true
  else
    (fix others (atoms : list nat) : option bool :=
       match atoms with
       | [] => Some false
       | a :: rest =>
           if (atom_idx =? a)%nat then others rest
           else
             atsym <- nth_error syms a ;;
             if String.eqb (fst atsym) EmptyString then others rest
             else
               draw_cds <- getDrawCoordsOfAtom a d ;;
               if doesStringIntersect (text_drawer_ d) rects note_pos
                    (fst atsym) (snd atsym) draw_cds
               then Some true else others rest
       end) (seq 0 (getNumAtoms mol)).

(** [doesNoteClashOtherNotes]. *)
Definition doesNoteClashOtherNotes (note_pos : Point2D)
    (rects : list StringRect) d : option bool :=
  annots <- at_active (annotations_ d) d ;;
  Some (existsb
          (fun annot =>
             doesRectIntersect (text_drawer_ d) rects note_pos (rect_ annot))
          annots).

(** The three tests of a note position, in the order of the source; the
    score names the first that fails. *)
Definition noteClashScore (note_pos : Point2D) (rects : list StringRect)
    (mol : ROMol) (atom : nat) d : option Z :=
  bonds_clash <- doesNoteClashNbourBonds note_pos rects mol atom d ;;
  if bonds_clash then Some 1%Z
  else
    labels_clash <- doesNoteClashAtomLabels note_pos rects mol atom d ;;
    if labels_clash then Some 2%Z
    else
      notes_clash <- doesNoteClashOtherNotes note_pos rects d ;;
      if notes_clash then Some 3%Z else Some 0%Z.

(** [doesAtomNoteClash]. *)
Definition doesAtomNoteClash (note_pos : Point2D) (rects : list StringRect)
    (mol : ROMol) (atom_idx : nat) d : option Z :=
  if (atom_idx <? getNumAtoms mol)%nat
  then noteClashScore note_pos rects mol atom_idx d
  else None.

(** [doesBondNoteClash]: the tests are those of the begin atom. *)
Definition doesBondNoteClash (note_pos : Point2D) (rects : list StringRect)
    (mol : ROMol) (bond : Bond) d : option Z :=
  noteClashScore note_pos rects mol (getBeginAtomIdx bond) d.

(** The scan shared by the two placement searches.  Each candidate is
    written to [annot.rect_.trans_] and tested at the position
    [getAtomCoords] makes of it; a score of 0 returns at once; otherwise
    [least_worst_rect] takes the rectangle of the annotation when the
    score is below its [clash_score_].  [finish] is what the function
    does after the loops. *)
Fixpoint scanCandidates (score : Point2D -> option Z)
    (finish : StringRect -> AnnotationType -> AnnotationType)
    (least_worst_rect : StringRect) (annot : AnnotationType)
    (candidates : list Point2D) d : option AnnotationType :=
  match candidates with
  | [] => Some (finish least_worst_rect annot)
  | p :: rest =>
      let annot := set_rect (set_trans p (rect_ annot)) annot in
      let note_pos := getAtomCoords (scaling d) (as_pair p) in
      clash_score <- score note_pos ;;
      if (clash_score =? 0)%Z then Some annot
      else
        let least_worst_rect :=
          if (clash_score <? clash_score_ least_worst_rect)%Z
          then rect_ annot else least_worst_rect in
        scanCandidates score finish least_worst_rect annot rest d
  end.

(** The positions [calcAtomAnnotationPosition] tries, in order: three
    radii (the first is skipped when the atom has a symbol), twelve steps
    of 30 degrees each. *)
Definition atomNoteCandidates (at_cds : Point2D) (start_ang : R)
    (has_symbol : bool) : list Point2D :=
  flat_map
    (fun j =>
       let note_rad := INR j * 0.25 in
       if (j =? 1)%nat && has_symbol then []
       else
         map (fun i =>
                let ang := start_ang + INR i * 30.0 * PI / 180.0 in
                mkPoint2D (px at_cds + cos ang * note_rad)
                          (py at_cds + sin ang * note_rad))
             (seq 0 12))
    [1; 2; 3]%nat.

(** The rectangles of the note text, measured at the annotation font
    scale; the font scale is put back afterwards. *)
Definition noteRects (text : string) (orient : OrientType)
    (align : TextAlignType) d : list StringRect * MolDraw2D T :=
  let full_font_scale := fontScale (text_drawer_ d) in
  let t := setFontScale (annotationFontScale (options_ d)) true
             (text_drawer_ d) in
  let rects := getStringRects t text orient align in
  (rects, set_text_drawer (setFontScale full_font_scale true t) d).

(** [calcAtomAnnotationPosition]. *)
Definition calcAtomAnnotationPosition (mol : ROMol) (atom : nat)
    (start_ang : R) (annot : AnnotationType) d
  : option (AnnotationType * MolDraw2D T) :=
  cds <- at_active (at_cds_ d) d ;;
  at_cds <- nth_error cds atom ;;
  syms <- at_active (atom_syms_ d) d ;;
  atsym <- nth_error syms atom ;;
  let '(rects, d) := noteRects (text_ annot) C_ (align_ annot) d in
  let least_worst_rect := set_clash_score 100 defaultStringRect in
  annot <- scanCandidates
             (fun note_pos => doesAtomNoteClash note_pos rects mol atom d)
             (fun least_worst_rect annot => set_rect least_worst_rect annot)
             least_worst_rect annot
             (atomNoteCandidates at_cds start_ang
                (negb (String.eqb (fst atsym) EmptyString))) d ;;
  Some (annot, d).

(** The positions [calcAnnotationPosition] tries for a bond note: five
    points along the bond, up to five offsets, on both sides. *)
Definition bondNoteCandidates (at1_cds at2_cds : Point2D) (offset_step : R)
    (multiple : bool) : list Point2D :=
  let perp := calcPerpendicular at1_cds at2_cds in
  let bond_vec := directionVector at1_cds at2_cds in
  let bond_len := length2D (at1_cds - at2_cds)%pt in
  flat_map
    (fun mo =>
       let mid := (at1_cds + bond_vec * bond_len * mo)%pt in
       flat_map
         (fun j =>
            if (j =? 1)%nat && multiple then []
            else
              let offset := INR j * offset_step in
              [(mid + perp * offset)%pt; (mid - perp * offset)%pt])
         [1; 2; 3; 4; 5]%nat)
    [0.5; 0.33; 0.66; 0.25; 0.75].

Definition set_rect_width (w : R) (a : AnnotationType) : AnnotationType :=
  set_rect (mkStringRect (trans_ (rect_ a)) w (rect_height_ (rect_ a))
              (clash_score_ (rect_ a))) a.

(** [calcAnnotationPosition(mol, bond, annot)]: after the loops nothing
    is assigned, the annotation keeps the last position tried. *)
Definition calcBondAnnotationPosition (mol : ROMol) (bond : Bond)
    (annot : AnnotationType) d : option (AnnotationType * MolDraw2D T) :=
  let annot := if String.eqb (text_ annot) EmptyString
               then set_rect_width (-1.0) annot else annot in
  let '(rects, d) := noteRects (text_ annot) N_ MIDDLE d in
  cds <- at_active (at_cds_ d) d ;;
  at1_cds <- nth_error cds (getBeginAtomIdx bond) ;;
  at2_cds <- nth_error cds (getEndAtomIdx bond) ;;
  let least_worst_rect := set_clash_score 100 defaultStringRect in
  annot <- scanCandidates
             (fun note_pos => doesBondNoteClash note_pos rects mol bond d)
             (fun _ annot => annot)
             least_worst_rect annot
             (bondNoteCandidates at1_cds at2_cds
                (multipleBondOffset (options_ d))
                (1 <? bondTypeAsInt (getBondType bond))%Z) d ;;
  Some (annot, d).
End Annotations.

(** The position a clash test is put to for a tried position. *)
Definition testedAt (s : ScaleState) (p : Point2D) : Point2D :=
  getAtomCoords s (as_pair p).


(** Sample text geometry: the rectangles of a note meet a bond line
    unless the tested position lies between 0.2 and 0.3 (squared) from the
    point (0, 300), they meet no atom label, and they meet every other
    annotation. *)
Definition radial_sq (note_pos : Point2D) : R :=
  px note_pos * px note_pos + (300 - py note_pos) * (300 - py note_pos).

#[export] Instance radial_TextGeometry : TextGeometry unit := {
  getStringRects := fun _ _ _ _ => [defaultStringRect];
  doesLineIntersect := fun _ _ note_pos _ _ _ =>
    negb (Rltb 0.2 (radial_sq note_pos) && Rltb (radial_sq note_pos) 0.3);
  doesStringIntersect := fun _ _ _ _ _ _ => false;
  doesRectIntersect := fun _ _ _ _ => true
}.

(** Two carbon atoms joined by a single bond; atom 0, at the origin,
    carries a note, and one annotation has been placed before. *)
Definition note_mol : ROMol :=
  mkROMol 2 [plainBond 0 0 1 SINGLE] [] [[mkPoint2D 0 0; mkPoint2D 1 0]].

Definition earlier_note : AnnotationType :=
  mkAnnotationType "1" defaultStringRect MIDDLE true.

Definition atom_note : AnnotationType :=
  mkAnnotationType "note" defaultStringRect MIDDLE true.

Definition note_drawer : MolDraw2D unit :=
  mkMolDraw2D (initScaleState 300 300 (-1) (-1)) sample_options true 2 0
    [[mkPoint2D 0 0; mkPoint2D 1 0]] [[6; 6]%Z]
    [[(EmptyString, C_); (EmptyString, C_)]] [[earlier_note]] [[]] [[]] [[]]
    tt [].

(** The candidate at radius [rad] and angle [ang] round the origin. *)
Definition radial (ang rad : R) : Point2D :=
  mkPoint2D (0 + cos ang * rad) (0 + sin ang * rad).

(** Whether a run has a result. *)
Definition is_some {A : Type} (o : option A) : bool :=
  match o with Some _ => true | None => false end.

(* ================================================================== *)
(** ** Segments *)

Definition Rleb (a b : R) : bool := if Rle_dec a b then true else false.

(** [doLinesIntersect]: whether two segments meet.  [Some ip] is the answer
    [true], with the point the function writes to [*ip]; [None] is the
    answer [false]. *)
Definition doLinesIntersect (l1s l1f l2s l2f : Point2D) : option Point2D :=
  let s1_x := px l1f - px l1s in
  let s1_y := py l1f - py l1s in
  let s2_x := px l2f - px l2s in
  let s2_y := py l2f - py l2s in
  let d := - s2_x * s1_y + s1_x * s2_y in
  if Req_dec_T d 0.0 then
    (* parallel lines. *)
    None
  else
    let s := (- s1_y * (px l1s - px l2s) + s1_x * (py l1s - py l2s)) / d in
    let t := (s2_x * (py l1s - py l2s) - s2_y * (px l1s - px l2s)) / d in
    if Rleb 0 s && Rleb s 1 && Rleb 0 t && Rleb t 1
    then Some (mkPoint2D (px l1s + t * s1_x) (py l1s + t * s1_y))
    else None.

(** Where a point lies with respect to the ellipse round [centre] with
    the given radii: below 1 inside, 1 on the ellipse, above 1 outside. *)
Definition ellipse_level (centre : Point2D) (xradius yradius : R)
    (p : Point2D) : R :=
  (px p - px centre) * (px p - px centre) / (xradius * xradius)
  + (py p - py centre) * (py p - py centre) / (yradius * yradius).

Definition on_ellipse (centre : Point2D) (xradius yradius : R) (p : Point2D)
  : Prop :=
  ellipse_level centre xradius yradius p = 1.

(** A double bond between two branch points, as [butene_like], drawn with
    unspecified stereo. *)
Definition crossed_bond : Bond :=
  mkBond 2 2 3 DOUBLE NONE STEREOANY false None.

Definition crossed_mol : ROMol :=
  mkROMol 6
    [plainBond 0 0 2 SINGLE; plainBond 1 1 2 SINGLE; crossed_bond;
     plainBond 3 3 4 SINGLE; plainBond 4 3 5 SINGLE]
    [] [butene_like_cds].

(** A point of the segment from [a] to [b]. *)
Definition on_segment (p a b : Point2D) : Prop :=
  exists t, 0 <= t <= 1 /\ p = (a + (b - a) * t)%pt.

(** The cross product of two vectors; zero when they are parallel. *)
Definition cross2 (u v : Point2D) : R := px u * py v - py u * px v.

(** [getBondHighlightsForAtoms]: for every pair of highlighted atoms, in
    the order of the list, the index of the bond between them. *)
Fixpoint getBondHighlightsForAtoms (mol : ROMol) (highlight_atoms : list nat)
  : list nat :=
  match highlight_atoms with
  | [] => []
  | ai :: rest =>
      flat_map
        (fun aj =>
           match getBondBetweenAtoms mol ai aj with
           | Some bnd => [getIdx bnd]
           | None => []
           end) rest
      ++ getBondHighlightsForAtoms mol rest
  end.

(* ================================================================== *)
(** ** Further drawing options *)

(** Fields of [MolDrawOptions] that only the functions below read. *)
Record MolDrawOptionsExt : Type := mkMolDrawOptionsExt {
  atomHighlightsAreCircles : bool;
  highlightBondWidthMultiplier : Z;
  atomColourPalette : list (Z * DrawColour);
  additionalAtomLabelPadding : R;
  legendFontSize : Z;
  legendColour : DrawColour
}.

(** [palette.find(key)] on the [std::map] of the palette. *)
Definition paletteFind (palette : list (Z * DrawColour)) (key : Z)
  : option DrawColour :=
  match find (fun kv => (fst kv =? key)%Z) palette with
  | Some kv => Some (snd kv)
  | None => None
  end.

(** The member functions that the interfaces above leave to the drawer,
    as the file defines them. *)
Module Impl.

(** [getColourByAtomicNum]. *)
Definition getColourByAtomicNum (ox : MolDrawOptionsExt) (atomic_num : Z)
  : DrawColour :=
  match paletteFind (atomColourPalette ox) atomic_num with
  | Some res => res
  | None =>
      if negb (atomic_num =? -1)%Z then
        match paletteFind (atomColourPalette ox) (-1) with
        | Some res => res
        | None => mkDrawColour 0 0 0
        end
      else mkDrawColour 0 0 0
  end.

(** [MolDraw2D::getColour]. *)
Definition getColour {T : Type} (ox : MolDrawOptionsExt) (d : MolDraw2D T)
    (atom_idx : Z) (highlight_atoms : option (list nat))
    (highlight_map : option (list (nat * DrawColour))) : option DrawColour :=
  if (activeMolIdx_ d <? 0)%Z then None
  else if (atom_idx <? 0)%Z then None
  else
    nums <- at_active (atomic_nums_ d) d ;;
    if negb (atom_idx <? Z.of_nat (length nums))%Z then None
    else
      num <- nth_error nums (Z.to_nat atom_idx) ;;
      let retval := getColourByAtomicNum ox num in
      if negb (circleAtoms (options_ d))
         && negb (continuousHighlight (options_ d)) then
        let retval :=
          match highlight_atoms with
          | Some ha =>
              if existsb (Nat.eqb (Z.to_nat atom_idx)) ha
              then highlightColour (options_ d) else retval
          | None => retval
          end in
        let retval :=
          match highlight_map with
          | Some m =>
              match lookupColour m (Z.to_nat atom_idx) with
              | Some c => c
              | None => retval
              end
          | None => retval
          end in
        Some retval
      else Some retval.

(** [getHighlightBondWidth]; [bond_idx] is an int, -1 in some calls. *)
Definition getHighlightBondWidth {T : Type} (ox : MolDrawOptionsExt)
    (d : MolDraw2D T) (bond_idx : Z)
    (highlight_linewidth_multipliers : option (list (Z * Z))) : Z :=
  let bwm := highlightBondWidthMultiplier ox in
  let bwm :=
    if negb (fillHighlights (options_ d)) then
      let bwm := (bwm ÷ 2)%Z in
      if (bwm <? 1)%Z then 1%Z else bwm
    else bwm in
  let bwm :=
    match highlight_linewidth_multipliers with
    | Some m =>
        if negb (length m =? 0)%nat then
          match find (fun kv => (fst kv =? bond_idx)%Z) m with
          | Some kv => snd kv
          | None => bwm
          end
        else bwm
    | None => bwm
    end in
  (lineWidth_ d * bwm)%Z.

(** [getDrawLineWidth]. *)
Definition getDrawLineWidth {T : Type} (d : MolDraw2D T) : R :=
  let width := IZR (lineWidth_ d) in
  if scaleBondWidth (options_ d) then
    let width := width * (scale_ (scaling d) * 0.02) in
    if Rltb width 0.0 then 0.0 else width
  else width.

End Impl.

(* ================================================================== *)
(** ** Highlights *)

(** What [getStringExtremes] asks of the text drawer: the extremes
    [(x_min, y_min, x_max, y_max)] of a label relative to where it is
    drawn, in pixels. *)
Class TextExtremes (T : Type) : Type := {
  textExtremes : T -> string -> OrientType -> R * R * R * R
}.

(** [int(x)] for a double: the fraction is dropped, towards zero. *)
Definition double_to_int (x : R) : Z :=
  if Rle_dec 0 x then Int_part x else (- Int_part (- x))%Z.

Section Highlighting.
Context {T : Type} `{Renderer T} `{TextExtremes T}.
Implicit Type d : MolDraw2D T.

(** [MolDraw2D::getStringExtremes]: the extremes of a label drawn at
    [cds], in molecule coordinates. *)
Definition getStringExtremes (label : string) (orient : OrientType)
    (cds : Point2D) d : R * R * R * R :=
  let '(x_min, y_min, x_max, y_max) :=
    textExtremes (text_drawer_ d) label orient in
  let draw_cds := getDrawCoords (scaling d) cds in
  let x_min := x_min + px draw_cds in
  let x_max := x_max + px draw_cds in
  let y_min := y_min + py draw_cds in
  let y_max := y_max + py draw_cds in
  let new_mins := getAtomCoords (scaling d) (x_min, y_min) in
  let new_maxs := getAtomCoords (scaling d) (x_max, y_max) in
  let x_min := px new_mins in
  let y_min := py new_mins in
  let x_max := px new_maxs in
  let y_max := py new_maxs in
  (* draw coords to atom coords reverses y *)
  if Rgtb y_min y_max then (x_min, y_max, x_max, y_min)
  else (x_min, y_min, x_max, y_max).

(** [calcLabelEllipse]: centre and radii of the highlight of an atom. *)
Definition calcLabelEllipse (ox : MolDrawOptionsExt) (atom_idx : nat)
    (highlight_radii : option (list (nat * R))) d
  : option (Point2D * R * R) :=
  cds <- at_active (at_cds_ d) d ;;
  centre <- nth_error cds atom_idx ;;
  let xradius := highlightRadius (options_ d) in
  let xradius :=
    match highlight_radii with
    | Some m => match lookupRadius m atom_idx with
                | Some r => r
                | None => xradius
                end
    | None => xradius
    end in
  let yradius := xradius in
  if atomHighlightsAreCircles ox then Some (centre, xradius, yradius)
  else
    syms <- at_active (atom_syms_ d) d ;;
    sym <- nth_error syms atom_idx ;;
    if String.eqb (fst sym) EmptyString then Some (centre, xradius, yradius)
    else
      let '(x_min, y_min, x_max, y_max) :=
        getStringExtremes (fst sym) (snd sym) centre d in
      let root_2 := sqrt 2.0 in
      let xradius := Rmax xradius (root_2 * 0.5 * (x_max - x_min)) in
      let yradius := Rmax yradius (root_2 * 0.5 * (y_max - y_min)) in
      Some (mkPoint2D (0.5 * (x_max + x_min)) (0.5 * (y_max + y_min)),
            xradius, yradius).

(** The part of [adjustLineEndForHighlight] after the ellipse is known:
    the new [p2], where the line from [p1] meets the ellipse. *)
Definition lineEndOnEllipse (centre : Point2D) (xradius yradius : R)
    (p1 p2 : Point2D) : Point2D :=
  if Rltb xradius 1.0e-6 || Rltb yradius 1.0e-6 then p2
  else
    let orig_p2 := p2 in
    (* move everything so the ellipse is centred on the origin. *)
    let p1 := (p1 - centre)%pt in
    let p2 := (p2 - centre)%pt in
    let a2 := xradius * xradius in
    let b2 := yradius * yradius in
    let A := (px p2 - px p1) * (px p2 - px p1) / a2
             + (py p2 - py p1) * (py p2 - py p1) / b2 in
    let B := 2.0 * px p1 * (px p2 - px p1) / a2
             + 2.0 * py p1 * (py p2 - py p1) / b2 in
    let C := px p1 * px p1 / a2 + py p1 * py p1 / b2 - 1.0 in
    let t_to_point := fun t : R =>
      mkPoint2D (px p1 + (px p2 - px p1) * t + px centre)
                (py p1 + (py p2 - py p1) * t + py centre) in
    let disc := B * B - 4.0 * A * C in
    if Rltb disc 0.0 then
      (* no solutions, leave things as they are. *)
      orig_p2
    else if Rltb (Rabs disc) 1.0e-6 then
      (* 1 solution *)
      t_to_point (- B / (2.0 * A))
    else
      (* 2 solutions - take the one nearest p1. *)
      let disc_rt := sqrt disc in
      let t1 := (- B + disc_rt) / (2.0 * A) in
      let t2 := (- B - disc_rt) / (2.0 * A) in
      let t1_ok := Rleb 0.0 t1 && Rleb t1 1.0 in
      let t2_ok := Rleb 0.0 t2 && Rleb t2 1.0 in
      if t1_ok && negb t2_ok then t_to_point t1
      else if t2_ok && negb t1_ok then t_to_point t2
      else if t1_ok && t2_ok then t_to_point (Rmin t1 t2)
      else
        (* the intersections are both outside the line between p1 and p2 *)
        orig_p2.

(** The discriminant [disc] of the quadratic that [lineEndOnEllipse]
    solves. *)
Definition ellipseLineDisc (centre : Point2D) (xradius yradius : R)
    (p1 p2 : Point2D) : R :=
  let p1 := (p1 - centre)%pt in
  let p2 := (p2 - centre)%pt in
  let a2 := xradius * xradius in
  let b2 := yradius * yradius in
  let A := (px p2 - px p1) * (px p2 - px p1) / a2
           + (py p2 - py p1) * (py p2 - py p1) / b2 in
  let B := 2.0 * px p1 * (px p2 - px p1) / a2
           + 2.0 * py p1 * (py p2 - py p1) / b2 in
  let C := px p1 * px p1 / a2 + py p1 * py p1 / b2 - 1.0 in
  B * B - 4.0 * A * C.

(** [adjustLineEndForHighlight]: the new value of [p2]. *)
Definition adjustLineEndForHighlight (ox : MolDrawOptionsExt) (at_idx : nat)
    (highlight_radii : option (list (nat * R))) (p1 p2 : Point2D) d
  : option Point2D :=
  e <- calcLabelEllipse ox at_idx highlight_radii d ;;
  let '(centre, xradius, yradius) := e in
  Some (lineEndOnEllipse centre xradius yradius p1 p2).

(** [drawArrow]. *)
Definition drawArrow (arrowBegin arrowEnd : Point2D) (asPolygon : bool)
    (frac angle : R) d : MolDraw2D T :=
  let delta := (arrowBegin - arrowEnd)%pt in
  let cos_angle := cos angle in
  let sin_angle := sin angle in
  let p1 :=
    mkPoint2D
      (px arrowEnd + frac * (px delta * cos_angle + py delta * sin_angle))
      (py arrowEnd + frac * (py delta * cos_angle - px delta * sin_angle)) in
  let p2 :=
    mkPoint2D
      (px arrowEnd + frac * (px delta * cos_angle - py delta * sin_angle))
      (py arrowEnd + frac * (py delta * cos_angle + px delta * sin_angle)) in
  let d := emit [DrawLine arrowBegin arrowEnd] d in
  if negb asPolygon then
    emit [DrawLine arrowEnd p1; DrawLine arrowEnd p2] d
  else
    let fps := fill_polys_ d in
    let d := setFillPolys true d in
    let d := emit [DrawPolygon [p1; arrowEnd; p2]] d in
    setFillPolys fps d.

(** [drawEllipse]. *)
Definition drawEllipse (cds1 cds2 : Point2D) d : MolDraw2D T :=
  emit [DrawPolygon (arcPoints cds1 cds2 0 360)] d.

(** The points of [drawArc], for the steps from [i] on. *)
Definition arcPoint (centre : Point2D) (xradius yradius : R)
    (start_ang_rads ang_incr : R) (i : nat) : Point2D :=
  let ang := start_ang_rads + INR i * ang_incr in
  mkPoint2D (px centre + xradius * cos ang) (py centre + yradius * sin ang).

(** [drawArc(centre, xradius, yradius, ang1, ang2)].  With no step at all
    the increment is a quotient by zero, which is no real number. *)
Definition drawArc (centre : Point2D) (xradius yradius : R) (ang1 ang2 : R)
    d : option (MolDraw2D T) :=
  let num_steps := (1 + double_to_int ((ang2 - ang1) / 5.0))%Z in
  if (num_steps =? 0)%Z then None
  else
    let ang_incr := (ang2 - ang1) / IZR num_steps * PI / 180.0 in
    let start_ang_rads := ang2 * PI / 180.0 in
    let pts := map (arcPoint centre xradius yradius start_ang_rads ang_incr)
                   (seq 0 (Z.to_nat (num_steps + 1))) in
    let pts := if fill_polys_ d then pts ++ [centre] else pts in
    Some (emit [DrawPolygon pts] d).

(** The loop of [drawHighlightedAtom] over several colours. *)
Fixpoint drawHighlightArcs (centre : Point2D) (xradius yradius : R)
    (arc_size : R) (colours : list DrawColour) (arc_start : R) d
  : option (MolDraw2D T) :=
  match colours with
  | [] => Some d
  | colour :: rest =>
      let d := emit [SetColour colour] d in
      d <- drawArc centre xradius yradius arc_start (arc_start + arc_size) d ;;
      drawHighlightArcs centre xradius yradius arc_size rest
        (arc_start + arc_size) d
  end.

(** [drawHighlightedAtom]. *)
Definition drawHighlightedAtom (ox : MolDrawOptionsExt) (atom_idx : nat)
    (colours : list DrawColour) (highlight_radii : option (list (nat * R))) d
  : option (MolDraw2D T) :=
  e <- calcLabelEllipse ox atom_idx highlight_radii d ;;
  let '(centre, xradius, yradius) := e in
  let orig_lw := lineWidth_ d in
  let orig_fp := fill_polys_ d in
  let d :=
    if negb (fillHighlights (options_ d)) then
      setFillPolys false
        (setLineWidth (Impl.getHighlightBondWidth ox d (-1) None) d)
    else setFillPolys true d in
  d <- (if (length colours =? 1)%nat then
          match colours with
          | colour :: _ =>
              let d := emit [SetColour colour] d in
              let offset := mkPoint2D xradius yradius in
              let p1 := (centre - offset)%pt in
              let p2 := (centre + offset)%pt in
              let d := if fill_polys_ d then setLineWidth 1 d else d in
              Some (drawEllipse p1 p2 d)
          | [] => None
          end
        else
          let arc_size := 360.0 / INR (length colours) in
          drawHighlightArcs centre xradius yradius arc_size colours (-90.0) d) ;;
  Some (setLineWidth orig_lw (setFillPolys orig_fp d)).

(** [drawWavyLine], as the base class has it: a straight line.  The
    last argument is [None] where the caller leaves it to its default. *)
Definition drawWavyLine (cds1 cds2 : Point2D) (col1 col2 : DrawColour)
    (nSegments : nat) (vertOffset : option R) d : MolDraw2D T :=
  drawLine4 cds1 cds2 col1 col2 d.

(** [drawAttachmentLine]: the line at [cds2], perpendicular to the line
    [cds1]-[cds2]. *)
Definition drawAttachmentLine (cds1 cds2 : Point2D) (col : DrawColour)
    (len : R) (nSegments : nat) d : MolDraw2D T :=
  let perp := calcPerpendicular cds1 cds2 in
  let p1 := mkPoint2D (px cds2 - px perp * len / 2)
                      (py cds2 - py perp * len / 2) in
  let p2 := mkPoint2D (px cds2 + px perp * len / 2)
                      (py cds2 + py perp * len / 2) in
  drawWavyLine p1 p2 col col nSegments None d.
End Highlighting.

(* ================================================================== *)
(** ** Setting the scale by hand *)

Section SetScale.
Context {T : Type} `{DrawText T} `{LabelMetrics T} `{Renderer T}
        `{MolServices T}.
Implicit Type d : MolDraw2D T.

(** The end of [setScale], from the spans on: the degenerate spans, the
    buffer round the drawing, the scale and the centring. *)
Definition setScale_finish (x_max y_max : R) (s : ScaleState)
  : ScaleState :=
  let x_range := x_max - x_min_ s in
  let y_range := y_max - y_min_ s in
  let s := set_box (x_min_ s) (y_min_ s) x_range y_range s in
  let s := set_needs_scale false s in
  let s := if Rltb (x_range_ s) 1.0e-4
           then set_box (-0.5) (y_min_ s) 1.0 (y_range_ s) s else s in
  let s := if Rltb (y_range_ s) 1.0e-4
           then set_box (x_min_ s) (-0.5) (x_range_ s) 1.0 s else s in
  s.

(** [setScale(width, height, minv, maxv, mol)]. *)
Definition setScale (fuel : nat) (width height : Z) (minv maxv : Point2D)
    (mol : option ROMol) d : option (MolDraw2D T) :=
  if negb (0 <? width)%Z then None
  else if negb (0 <? height)%Z then None
  else
    r <- match mol with
         | Some mol =>
             let d := pushDrawDetails d in
             r <- setupDrawMolecule fuel mol noHighlights (-1) width height d ;;
             let '(tmol, d) := r in
             d <- calculateScale fuel height width tmol None None (-1) d ;;
             let d := popDrawDetails d in
             let s := scaling d in
             let s := set_min_xy (Rmin (px minv) (x_min_ s)) (y_min_ s) s in
             let s := set_min_xy (x_min_ s) (Rmin (py minv) (y_min_ s)) s in
             let x_max := Rmax (px maxv) (x_range_ s + x_min_ s) in
             let y_max := Rmax (py maxv) (y_range_ s + y_min_ s) in
             Some (x_max, y_max, set_scaling s d)
         | None =>
             let s := set_min_xy (px minv) (py minv) (scaling d) in
             Some (px maxv, py maxv, set_scaling s d)
         end ;;
    let '(x_max, y_max, d) := r in
    let s := setScale_finish x_max y_max (scaling d) in
    (* put a buffer round the drawing and calculate a final scale *)
    let pad := padding (options_ d) in
    let s := set_min_xy (x_min_ s - pad * x_range_ s) (y_min_ s) s in
    let s := set_box (x_min_ s) (y_min_ s)
               (x_range_ s * (1 + 2 * pad)) (y_range_ s) s in
    let s := set_min_xy (x_min_ s) (y_min_ s - pad * y_range_ s) s in
    let s := set_box (x_min_ s) (y_min_ s)
               (x_range_ s) (y_range_ s * (1 + 2 * pad)) s in
    let s := set_scale (Rmin (IZR width / x_range_ s)
                             (IZR height / y_range_ s)) s in
    let d := set_text_drawer
               (setFontScale (scale_ s) false (text_drawer_ d)) d in
    let y_mid := y_min_ s + 0.5 * y_range_ s in
    let x_mid := x_min_ s + 0.5 * x_range_ s in
    let s := set_trans_xy 0.0 0.0 s in
    let mid := getDrawCoords s (mkPoint2D x_mid y_mid) in
    (* that used the offset, we need to remove that: *)
    let mid_x := px mid - IZR (x_offset_ s) in
    let mid_y := py mid + IZR (y_offset_ s) in
    let s := set_trans_xy ((IZR (width ÷ 2) - mid_x) / scale_ s)
                          ((mid_y - IZR (height ÷ 2)) / scale_ s) s in
    Some (set_scaling s d).
End SetScale.

(** The bounding box a scale state holds: [x_min_], [y_min_] and the
    maxima [x_min_ + x_range_], [y_min_ + y_range_]. *)
Definition scaleBox (s : ScaleState) : Box :=
  mkBox (x_min_ s) (y_min_ s) (x_min_ s + x_range_ s) (y_min_ s + y_range_ s).

(** A box that lies within another. *)
Definition box_within (inner outer : Box) : Prop :=
  bx_min outer <= bx_min inner /\ by_min outer <= by_min inner /\
  bx_max inner <= bx_max outer /\ by_max inner <= by_max outer.

(** A point of a box. *)
Definition in_box (p : Point2D) (b : Box) : Prop :=
  bx_min b <= px p <= bx_max b /\ by_min b <= py p <= by_max b.

(** The commands that put something on the canvas or choose its colour. *)
Definition paints (c : Cmd) : bool :=
  match c with
  | SetColour _ | DrawLine _ _ | DrawPolygon _ | DrawString _ _ => true
  | _ => false
  end.

(** One colour setting followed by one polygon, for each colour. *)
Definition colouredPolygons (colours : list DrawColour)
    (polys : list (list Point2D)) : list Cmd :=
  flat_map (fun cp => [SetColour (fst cp); DrawPolygon (snd cp)])
           (combine colours polys).

(** Sample data: the further options at their usual values, and a text
    drawer whose labels are all 8 by 10 pixels, centred. *)
Definition sample_options_ext : MolDrawOptionsExt :=
  mkMolDrawOptionsExt false 8
    [((-1)%Z, mkDrawColour 0 0 0); (7%Z, mkDrawColour 0 0 1);
     (8%Z, mkDrawColour 1 0 0)] 0 16 (mkDrawColour 0 0 0).

#[export] Instance unit_TextExtremes : TextExtremes unit := {
  textExtremes := fun _ _ _ => (-4, -5, 4, 5)
}.

(** A drawer whose active molecule is a nitrogen atom bound to a carbon
    atom, the nitrogen labelled. *)
Definition labelled_drawer : MolDraw2D unit :=
  mkMolDraw2D
    (mkScaleState false 300 300 300 300 0 50 (-2) (-2) 6 6 0 0 0 0)
    sample_options true 2 0
    [[mkPoint2D 0 0; mkPoint2D 1 0]] [[7; 6]%Z]
    [[("N"%string, C_); (EmptyString, C_)]] [[]] [[]] [[]] [[]] tt [].

(* ================================================================== *)
(** ** Legends and molecule notes *)

Definition newline : Ascii.ascii := Ascii.ascii_of_nat 10.

Definition not_newline (c : Ascii.ascii) : bool := negb (Ascii.eqb c newline).

Definition string_is_empty (s : string) : bool :=
  match s with EmptyString => true | String _ _ => false end.

(** The loop of [drawLegend] that splits the legend on newlines:
    [next_piece] is the piece being collected, and empty pieces are
    dropped. *)
Fixpoint legendBits_from (legend : string) (next_piece : string)
  : list string :=
  match legend with
  | EmptyString =>
      if negb (string_is_empty next_piece) then [next_piece] else []
  | String c rest =>
      if Ascii.eqb c newline then
        (if negb (string_is_empty next_piece) then [next_piece] else [])
        ++ legendBits_from rest EmptyString
      else legendBits_from rest (next_piece ++ String c EmptyString)
  end.

Definition legendBits (legend : string) : list string :=
  legendBits_from legend EmptyString.

Section MolNotes.
Context {T : Type} `{DrawText T} `{TextGeometry T}.
Implicit Type d : MolDraw2D T.

(** The sums and extremes that [calcAnnotationPosition(mol, annot)]
    gathers over the atoms: the running [centroid], [minPt], [maxPt]. *)
Definition gatherAtoms (acc : Point2D * Point2D * Point2D) (pt : Point2D)
  : Point2D * Point2D * Point2D :=
  let '(centroid, minPt, maxPt) := acc in
  ((centroid + pt)%pt,
   mkPoint2D (Rmin (px pt) (px minPt)) (Rmin (py pt) (py minPt)),
   mkPoint2D (Rmax (px pt) (px maxPt)) (Rmax (py pt) (py maxPt))).

(** [calcAnnotationPosition(mol, annot)], the note of the whole molecule.
    The rectangles are asked for with the default alignment, as for a bond
    note.  With no atom the centroid is a quotient by zero, which is no
    real number. *)
Definition calcMolAnnotationPosition (annot : AnnotationType) d
  : option (AnnotationType * MolDraw2D T) :=
  if string_is_empty (text_ annot) then
    Some (set_rect_width (-1.0) annot, d)
  else
    let full_font_scale := fontScale (text_drawer_ d) in
    let t := setFontScale 1 true (text_drawer_ d) in
    let rects := getStringRects t (text_ annot) N_ MIDDLE in
    let d := set_text_drawer (setFontScale full_font_scale true t) d in
    let annot :=
      set_rect_width
        (fold_left (fun w rect => w + rect_width_ rect) rects
           (rect_width_ (rect_ annot))) annot in
    cds <- at_active (at_cds_ d) d ;;
    let '(centroid, minPt, maxPt) :=
      fold_left gatherAtoms cds
        (mkPoint2D 0 0, mkPoint2D 100000 100000,
         mkPoint2D (-100000) (-100000)) in
    if (length cds =? 0)%nat then None
    else
      let centroid := (centroid / INR (length cds))%pt in
      let vect := (maxPt - centroid)%pt in
      let loc := (centroid + vect * 0.9)%pt in
      Some (set_rect (set_trans loc (rect_ annot)) annot, d).
End MolNotes.

(* ================================================================== *)
(** ** Highlighted bonds, the legend, and the draw pass with highlights *)

Definition set_legend_height (v : Z) (s : ScaleState) : ScaleState :=
  mkScaleState (needs_scale_ s) (width_ s) (height_ s) (panel_width_ s)
    (panel_height_ s) v (scale_ s) (x_min_ s) (y_min_ s)
    (x_range_ s) (y_range_ s) (x_trans_ s) (y_trans_ s) (x_offset_ s)
    (y_offset_ s).

(** What [drawLegend] asks of the text drawer: the font size, the
    extremes of a line of the legend (asked for unsplit), and the colour
    of the text. *)
Class LegendText (T : Type) : Type := {
  fontSize : T -> R;
  legendExtremes : T -> string -> R * R * R * R;
  setTextColour : DrawColour -> T -> T
}.

Section Highlights.
Context {T : Type} `{DrawText T} `{LabelMetrics T} `{Renderer T}
        `{MolServices T} `{TextExtremes T} `{LegendText T}.
Implicit Type d : MolDraw2D T.

(** The lambda [draw_adjusted_line] of [drawHighlightedBonds]. *)
Definition draw_adjusted_line (ox : MolDrawOptionsExt) (at1_idx at2_idx : nat)
    (highlight_radii : option (list (nat * R))) (p1 p2 : Point2D) d
  : option (MolDraw2D T) :=
  p1 <- adjustLineEndForHighlight ox at1_idx highlight_radii p2 p1 d ;;
  p2 <- adjustLineEndForHighlight ox at2_idx highlight_radii p1 p2 d ;;
  let orig_lws := scaleBondWidth (options_ d) in
  let d := emit [SetScaleBondWidth (scaleHighlightBondWidth (options_ d))] d in
  let d := emit [DrawLine p1 p2] d in
  Some (emit [SetScaleBondWidth orig_lws] d).

(** The filled stripes of a bond highlighted in several colours. *)
Fixpoint drawHighlightStripes (perp : Point2D) (col_rad : R)
    (colours : list DrawColour) (p1 p2 : Point2D) d : MolDraw2D T :=
  match colours with
  | [] => d
  | colour :: rest =>
      let d := emit [SetColour colour] d in
      let line_pts := [p1; (p1 + perp * col_rad)%pt;
                       (p2 + perp * col_rad)%pt; p2] in
      let d := emit [DrawPolygon line_pts] d in
      drawHighlightStripes perp col_rad rest
        (p1 + perp * col_rad)%pt (p2 + perp * col_rad)%pt d
  end.

(** The lines of a bond highlighted in several colours, not filled: even
    numbers from the bottom, odd from the top. *)
Fixpoint drawHighlightLines (ox : MolDrawOptionsExt) (at1_idx at2_idx : nat)
    (highlight_radii : option (list (nat * R)))
    (at1_cds at2_cds perp : Point2D) (rad col_rad : R)
    (colours : list DrawColour) (i : nat) (step : nat) d
  : option (MolDraw2D T) :=
  match colours with
  | [] => Some d
  | colour :: rest =>
      let d := emit [SetColour colour] d in
      let offset := (perp * (rad - INR step * col_rad))%pt in
      if Nat.even i then
        d <- draw_adjusted_line ox at1_idx at2_idx highlight_radii
               (at1_cds - offset)%pt (at2_cds - offset)%pt d ;;
        drawHighlightLines ox at1_idx at2_idx highlight_radii at1_cds at2_cds
          perp rad col_rad rest (S i) step d
      else
        d <- draw_adjusted_line ox at1_idx at2_idx highlight_radii
               (at1_cds + offset)%pt (at2_cds + offset)%pt d ;;
        drawHighlightLines ox at1_idx at2_idx highlight_radii at1_cds at2_cds
          perp rad col_rad rest (S i) (S step) d
  end.

(** One turn of the loop of [drawHighlightedBonds]. *)
Definition drawHighlightedBond (ox : MolDrawOptionsExt) (mol : ROMol)
    (orig_lw : Z) (hb : nat * list DrawColour)
    (highlight_linewidth_multipliers : list (Z * Z))
    (highlight_radii : option (list (nat * R))) d : option (MolDraw2D T) :=
  let bond_idx := fst hb in
  let d :=
    if negb (fillHighlights (options_ d)) then
      setLineWidth
        (Impl.getHighlightBondWidth ox d (Z.of_nat bond_idx)
           (Some highlight_linewidth_multipliers)) d
    else d in
  bond <- getBondWithIdx mol bond_idx ;;
  let at1_idx := getBeginAtomIdx bond in
  let at2_idx := getEndAtomIdx bond in
  cds <- at_active (at_cds_ d) d ;;
  at1_cds <- nth_error cds at1_idx ;;
  at2_cds <- nth_error cds at2_idx ;;
  let perp := calcPerpendicular at1_cds at2_cds in
  let rad := 0.7 * highlightRadius (options_ d) in
  d <- (if (length (snd hb) <? 2)%nat then
          let col := match snd hb with
                     | [] => highlightColour (options_ d)
                     | front :: _ => front
                     end in
          let d := emit [SetColour col] d in
          if fillHighlights (options_ d) then
            Some (emit [DrawPolygon
                          [(at1_cds + perp * rad)%pt; (at2_cds + perp * rad)%pt;
                           (at2_cds - perp * rad)%pt; (at1_cds - perp * rad)%pt]]
                    d)
          else
            d <- draw_adjusted_line ox at1_idx at2_idx highlight_radii
                   (at1_cds + perp * rad)%pt (at2_cds + perp * rad)%pt d ;;
            draw_adjusted_line ox at1_idx at2_idx highlight_radii
              (at1_cds - perp * rad)%pt (at2_cds - perp * rad)%pt d
        else
          let col_rad := 2.0 * rad / INR (length (snd hb)) in
          if fillHighlights (options_ d) then
            Some (drawHighlightStripes perp col_rad (snd hb)
                    (at1_cds - perp * rad)%pt (at2_cds - perp * rad)%pt d)
          else
            drawHighlightLines ox at1_idx at2_idx highlight_radii
              at1_cds at2_cds perp rad col_rad (snd hb) 0 0 d) ;;
  Some (setLineWidth orig_lw d).

(** [drawHighlightedBonds]. *)
Fixpoint drawHighlightedBonds_loop (ox : MolDrawOptionsExt) (mol : ROMol)
    (orig_lw : Z) (highlight_bond_map : list (nat * list DrawColour))
    (highlight_linewidth_multipliers : list (Z * Z))
    (highlight_radii : option (list (nat * R))) d : option (MolDraw2D T) :=
  match highlight_bond_map with
  | [] => Some d
  | hb :: rest =>
      d <- drawHighlightedBond ox mol orig_lw hb
             highlight_linewidth_multipliers highlight_radii d ;;
      drawHighlightedBonds_loop ox mol orig_lw rest
        highlight_linewidth_multipliers highlight_radii d
  end.

Definition drawHighlightedBonds (ox : MolDrawOptionsExt) (mol : ROMol)
    (highlight_bond_map : list (nat * list DrawColour))
    (highlight_linewidth_multipliers : list (Z * Z))
    (highlight_radii : option (list (nat * R))) d : option (MolDraw2D T) :=
  drawHighlightedBonds_loop ox mol (lineWidth_ d) highlight_bond_map
    highlight_linewidth_multipliers highlight_radii d.

(** The lambda [calc_legend_height] of [drawLegend]: total width and
    total height of the lines. *)
Definition calc_legend_height (t : T) (legend_bits : list string) : R * R :=
  fold_left
    (fun acc bit =>
       let '(x_min, y_min, x_max, y_max) := legendExtremes t bit in
       (Rmax (fst acc) (x_max - x_min), snd acc + (y_max - y_min)))
    legend_bits (0, 0).

(** The loop of [drawLegend] that draws the lines, each below the one
    before. *)
Fixpoint drawLegendBits (legend_bits : list string) (loc : Point2D) d
  : MolDraw2D T :=
  match legend_bits with
  | [] => d
  | bit :: rest =>
      let d := emit [DrawString bit loc] d in
      let '(x_min, y_min, x_max, y_max) :=
        legendExtremes (text_drawer_ d) bit in
      drawLegendBits rest (mkPoint2D (px loc) (py loc + (y_max - y_min))) d
  end.

(** [drawLegend]. *)
Definition drawLegend (ox : MolDrawOptionsExt) (legend : string) d
  : MolDraw2D T :=
  let olh := legend_height_ (scaling d) in
  (* so we use the whole panel *)
  let d := set_scaling (set_legend_height 0 (scaling d)) d in
  let d :=
    if negb (string_is_empty legend) then
      let legend_bits := legendBits legend in
      let t := text_drawer_ d in
      let o_font_scale := fontScale t in
      let fsize := fontSize t in
      let new_font_scale :=
        o_font_scale * IZR (legendFontSize ox) / fsize in
      let t := setFontScale new_font_scale true t in
      let wh := calc_legend_height t legend_bits in
      let '(new_font_scale, t, wh) :=
        if Rgtb (snd wh) (IZR olh) then
          let new_font_scale := new_font_scale * (IZR olh / snd wh) in
          let t := setFontScale new_font_scale true t in
          (new_font_scale, t, calc_legend_height t legend_bits)
        else (new_font_scale, t, wh) in
      let '(new_font_scale, t, wh) :=
        if Rgtb (fst wh) (IZR (panelWidth (scaling d))) then
          let new_font_scale :=
            new_font_scale * (IZR (panelWidth (scaling d)) / fst wh) in
          let t := setFontScale new_font_scale true t in
          (new_font_scale, t, calc_legend_height t legend_bits)
        else (new_font_scale, t, wh) in
      let t := setTextColour (legendColour ox) t in
      let loc :=
        mkPoint2D
          (IZR (x_offset_ (scaling d) + panelWidth (scaling d) ÷ 2))
          (IZR (y_offset_ (scaling d) + panelHeight (scaling d)) - snd wh) in
      let d := drawLegendBits legend_bits loc (set_text_drawer t d) in
      set_text_drawer (setFontScale o_font_scale true (text_drawer_ d)) d
    else d in
  set_scaling (set_legend_height olh (scaling d)) d.

(** The loop of [drawMoleculeWithHighlights] over the highlighted atoms. *)
Fixpoint drawHighlightedAtoms (ox : MolDrawOptionsExt)
    (highlight_atom_map : list (nat * list DrawColour))
    (highlight_radii : option (list (nat * R))) d : option (MolDraw2D T) :=
  match highlight_atom_map with
  | [] => Some d
  | ha :: rest =>
      d <- drawHighlightedAtom ox (fst ha) (snd ha) highlight_radii d ;;
      drawHighlightedAtoms ox rest highlight_radii d
  end.

Definition lookupColours (m : list (nat * list DrawColour)) (idx : nat)
  : option (list DrawColour) :=
  match find (fun kv => (fst kv =? idx)%nat) m with
  | Some kv => Some (snd kv)
  | None => None
  end.

(** The colours of the plain bonds drawn on top of the highlights: black
    when either end colour is not among the highlight colours of the
    bond. *)
Fixpoint highlightBondColours
    (highlight_bond_map : list (nat * list DrawColour)) (bs : list Bond) d
  : option (list (DrawColour * DrawColour)) :=
  match bs with
  | [] => Some []
  | bond :: rest =>
      col1 <- getColour d (getBeginAtomIdx bond) None None ;;
      col2 <- getColour d (getEndAtomIdx bond) None None ;;
      let cols :=
        match lookupColours highlight_bond_map (getIdx bond) with
        | Some cols =>
            if negb (existsb (DrawColour_eqb col1) cols)
               || negb (existsb (DrawColour_eqb col2) cols)
            then (mkDrawColour 0.0 0.0 0.0, mkDrawColour 0.0 0.0 0.0)
            else (col1, col2)
        | None => (col1, col2)
        end in
      tl <- highlightBondColours highlight_bond_map rest d ;;
      Some (cols :: tl)
  end.

(** The colours of the atom labels: black where the colour by atomic
    number is one of the highlight colours of the atom. *)
Fixpoint highlightAtomColours
    (highlight_atom_map : list (nat * list DrawColour)) (atoms : list nat) d
  : option (list DrawColour) :=
  match atoms with
  | [] => Some []
  | this_idx :: rest =>
      c <- getColour d this_idx None None ;;
      let c :=
        match lookupColours highlight_atom_map this_idx with
        | Some cols =>
            if existsb (DrawColour_eqb c) cols
            then mkDrawColour 0.0 0.0 0.0 else c
        | None => c
        end in
      tl <- highlightAtomColours highlight_atom_map rest d ;;
      Some (c :: tl)
  end.

(** [drawMoleculeWithHighlights].  The maps are lists in the order of
    their keys. *)
Definition drawMoleculeWithHighlights (fuel : nat) (ox : MolDrawOptionsExt)
    (mol : ROMol) (legend : string)
    (highlight_atom_map : list (nat * list DrawColour))
    (highlight_bond_map : list (nat * list DrawColour))
    (highlight_radii : list (nat * R))
    (highlight_linewidth_multipliers : list (Z * Z)) (confId : Z) d
  : option (MolDraw2D T) :=
  let origWidth := lineWidth_ d in
  let highlight_atoms := map fst highlight_atom_map in
  let d :=
    set_scaling
      (set_legend_height
         (if negb (string_is_empty legend)
          then double_to_int (0.05 * IZR (panelHeight (scaling d)))
          else 0%Z) (scaling d)) d in
  let d := pushDrawDetails d in
  r <- setupMoleculeDraw fuel mol
         (mkHighlights (Some highlight_atoms) None None None
            (Some highlight_radii)) confId d ;;
  let '(draw_mol, d) := r in
  if (getNumConformers draw_mol =? 0)%nat then
    (* clearly, the molecule is in a sorry state. *)
    Some d
  else
    pre <- at_active (pre_shapes_ d) d ;;
    let d := if negb (length pre =? 0)%nat
             then emit (drawShapes d pre) d else d in
    let orig_fp := fill_polys_ d in
    let d := setFillPolys (fillHighlights (options_ d)) d in
    d <- drawHighlightedBonds ox draw_mol highlight_bond_map
           highlight_linewidth_multipliers (Some highlight_radii) d ;;
    d <- drawHighlightedAtoms ox highlight_atom_map (Some highlight_radii) d ;;
    let d := setFillPolys orig_fp d in
    bond_colours <- highlightBondColours highlight_bond_map
                      (bonds draw_mol) d ;;
    d <- drawBonds draw_mol (mkBondStyle None None (Some bond_colours)) d ;;
    atom_colours <- highlightAtomColours highlight_atom_map
                      (seq 0 (getNumAtoms draw_mol)) d ;;
    (* this puts on atom labels and such *)
    let d := emit (finishMoleculeDraw d draw_mol atom_colours) d in
    let d := setLineWidth origWidth d in
    let d := drawLegend ox legend d in
    Some (popDrawDetails d).
End Highlights.

#[export] Instance unit_LegendText : LegendText unit := {
  fontSize := fun _ => 12;
  legendExtremes := fun _ _ => (-20, -6, 20, 6);
  setTextColour := fun _ t => t
}.
(* ================================================================== *)
(** * Properties *)

(** ** Helper lemmas *)

Lemma point_eq (a b : Point2D) : px a = px b -> py a = py b -> a = b.
Proof. destruct a, b; simpl; intros -> ->; reflexivity. Qed.

Lemma Rltb_true (a b : R) : Rltb a b = true <-> a < b.
Proof. unfold Rltb; destruct (Rlt_dec a b); split; intros; auto; discriminate. Qed.

Lemma Rltb_false (a b : R) : Rltb a b = false <-> b <= a.
Proof.
  unfold Rltb; destruct (Rlt_dec a b); split; intros; auto; try discriminate; lra.
Qed.

(* ================================================================== *)
(** ** Theorems: coordinate transform *)

(** C1: for a nonzero scale, [getDrawCoords] followed by [getAtomCoords]
    gives the point back, and so does [getAtomCoords] followed by
    [getDrawCoords]: the two conversions are mutual inverses. *)
Theorem getDrawCoords_getAtomCoords_inverse :
  forall (s : ScaleState) (p : Point2D),
    scale_ s <> 0 ->
    getAtomCoords s (as_pair (getDrawCoords s p)) = p /\
    getDrawCoords s (getAtomCoords s (as_pair p)) = p.
Proof.
  intros s p Hs; split; apply point_eq;
    unfold getAtomCoords, getDrawCoords, as_pair; simpl; field; exact Hs.
Qed.

Lemma getDrawCoords_getAtomCoords_inverse_witness :
  scale_ offset_surface <> 0 /\
  getAtomCoords offset_surface
    (as_pair (getDrawCoords offset_surface (mkPoint2D 2 3))) = mkPoint2D 2 3.
Proof.
  assert (H : scale_ offset_surface <> 0) by (simpl; lra).
  split; [exact H |].
  exact (proj1 (getDrawCoords_getAtomCoords_inverse offset_surface (mkPoint2D 2 3) H)).
Defined.

(** C4 as stated fails: with a vertical pixel offset of 10 the device
    ordinate of the origin is 310, not the 290 the stated formula gives. *)
Lemma getDrawCoords_spec_order_counterexample :
  py (getDrawCoords offset_surface (mkPoint2D 0 0))
  <> spec_device_y offset_surface (mkPoint2D 0 0).
Proof.
  unfold getDrawCoords, spec_device_y; simpl. lra.
Qed.

(** C4, amended: the conversion scales, adds the horizontal translation and
    the horizontal pixel offset; vertically it subtracts the pixel offset
    BEFORE flipping about panel height minus legend height, so the device
    ordinate is (panelHeight - legendHeight - scale*(p.y - y_min + y_trans))
    PLUS y_offset. *)
Theorem getDrawCoords_formula :
  forall (s : ScaleState) (p : Point2D),
    px (getDrawCoords s p)
      = scale_ s * (px p - x_min_ s + x_trans_ s) + IZR (x_offset_ s) /\
    py (getDrawCoords s p)
      = (IZR (panelHeight s) - IZR (legend_height_ s)
         - scale_ s * (py p - y_min_ s + y_trans_ s)) + IZR (y_offset_ s).
Proof.
  intros s p; unfold getDrawCoords; simpl; split; ring.
Qed.

(* ================================================================== *)
(** ** Geometry primitives *)

Definition unit_perp (p c1 c2 : Point2D) : Prop :=
  lengthSq p = 1 /\ dotProduct p (psub c2 c1) = 0.

Lemma distinct_points_pos (c1 c2 : Point2D) :
  c1 <> c2 ->
  0 < - (py c1 - py c2) * - (py c1 - py c2) + (px c1 - px c2) * (px c1 - px c2).
Proof.
  intros Hne.
  destruct (Req_dec (px c1) (px c2)) as [Hx | Hx];
    destruct (Req_dec (py c1) (py c2)) as [Hy | Hy].
  - exfalso; apply Hne; apply point_eq; assumption.
  - assert (0 < (py c1 - py c2) * (py c1 - py c2)) by nra. nra.
  - assert (0 < (px c1 - px c2) * (px c1 - px c2)) by nra. nra.
  - assert (0 < (px c1 - px c2) * (px c1 - px c2)) by nra. nra.
Qed.

Lemma calcPerpendicular_unit (c1 c2 : Point2D) :
  c1 <> c2 -> unit_perp (calcPerpendicular c1 c2) c1 c2.
Proof.
  intros Hne. pose proof (distinct_points_pos c1 c2 Hne) as Hpos.
  unfold unit_perp, calcPerpendicular, lengthSq, dotProduct; simpl.
  set (q := - (py c1 - py c2) * - (py c1 - py c2)
            + (px c1 - px c2) * (px c1 - px c2)) in *.
  assert (HL : 0 < sqrt q) by (apply sqrt_lt_R0; exact Hpos).
  assert (Hq : sqrt q * sqrt q = q) by (apply sqrt_sqrt; lra).
  set (L := sqrt q) in *. clearbody L.
  split.
  - transitivity (q / (L * L)).
    + unfold q; field; lra.
    + rewrite Hq; field; lra.
  - field; lra.
Qed.

Lemma unit_perp_flip (p c1 c2 : Point2D) :
  unit_perp p c1 c2 -> unit_perp (mkPoint2D (px p * -1) (py p * -1)) c1 c2.
Proof.
  unfold unit_perp, lengthSq, dotProduct; simpl; intros [H1 H2]; split; nra.
Qed.

Lemma unit_perp_swap (p c1 c2 : Point2D) :
  unit_perp p c1 c2 -> unit_perp p c2 c1.
Proof.
  unfold unit_perp, lengthSq, dotProduct; simpl; intros [H1 H2]; split; nra.
Qed.

Lemma calcInnerPerpendicular_unit (c1 c2 c3 : Point2D) :
  c1 <> c2 -> unit_perp (calcInnerPerpendicular c1 c2 c3) c1 c2.
Proof.
  intros Hne. unfold calcInnerPerpendicular.
  destruct (Rltb _ 0).
  - apply unit_perp_flip, calcPerpendicular_unit, Hne.
  - apply calcPerpendicular_unit, Hne.
Qed.

(** Reads within a well-formed molecule succeed. *)

Lemma wf_bond_in (mol : ROMol) (b : Bond) :
  wf_mol mol -> In b (bonds mol) ->
  nth_error (bonds mol) (getIdx b) = Some b /\
  (getBeginAtomIdx b < getNumAtoms mol)%nat /\
  (getEndAtomIdx b < getNumAtoms mol)%nat /\
  getBeginAtomIdx b <> getEndAtomIdx b.
Proof.
  intros [Hb _] Hin. apply In_nth_error in Hin as [i Hi].
  destruct (Hb i b Hi) as (Hidx & H1 & H2 & H3).
  rewrite Hidx. auto.
Qed.

Lemma getAtomBonds_in (mol : ROMol) (a : nat) (b : Bond) :
  In b (getAtomBonds mol a) -> In b (bonds mol) /\ incident a b = true.
Proof. unfold getAtomBonds; intros H; apply filter_In in H; exact H. Qed.

Lemma getOtherAtomIdx_lt (mol : ROMol) (a : nat) (b : Bond) :
  wf_mol mol -> In b (getAtomBonds mol a) ->
  (getOtherAtomIdx b a < getNumAtoms mol)%nat.
Proof.
  intros Hwf Hin. apply getAtomBonds_in in Hin as [Hin _].
  destruct (wf_bond_in mol b Hwf Hin) as (_ & H1 & H2 & _).
  unfold getOtherAtomIdx. destruct (getBeginAtomIdx b =? a)%nat; assumption.
Qed.

Lemma nth_error_some_lt {A : Type} (l : list A) (i : nat) :
  (i < length l)%nat -> exists v, nth_error l i = Some v.
Proof.
  intros H. destruct (nth_error l i) eqn:E; [eauto |].
  apply nth_error_None in E. lia.
Qed.

Lemma wf_bonds_NoDup (mol : ROMol) : wf_mol mol -> NoDup (bonds mol).
Proof.
  intros [Hb _]. apply NoDup_nth_error. intros i j Hi Hij.
  destruct (nth_error_some_lt (bonds mol) i Hi) as [b Hbi].
  rewrite Hbi in Hij. symmetry in Hij.
  destruct (Hb i b Hbi) as [E1 _]. destruct (Hb j b Hij) as [E2 _]. congruence.
Qed.

Lemma ring_ok_total (mol : ROMol) (bond : Bond) (ring : list nat) :
  (forall idx, In idx ring -> (idx < length (bonds mol))%nat) ->
  exists ok, ring_ok mol bond ring = Some ok.
Proof.
  induction ring as [| i ring IH]; intros Hr; simpl; [eauto |].
  destruct (nth_error_some_lt (bonds mol) i (Hr i (or_introl eq_refl))) as [b2 Hb2].
  unfold getBondWithIdx; rewrite Hb2; simpl.
  destruct (eqb _ _); [| eauto].
  apply IH; intros idx Hin; apply Hr; right; exact Hin.
Qed.

(** What [calc_perp] can return: nothing, or the inner perpendicular of
    the two end points and some third coordinate. *)
Definition inner_or_null (r : option Point2D) (cds1 cds2 : Point2D) : Prop :=
  match r with
  | None => True
  | Some p => exists c3, p = calcInnerPerpendicular cds1 cds2 c3
  end.

Lemma calc_perp_loop_total (bond : Bond) (ring : list nat) (cds1 cds2 : Point2D)
    (at_cds : list Point2D) (nbrs : list Bond) :
  (forall b2, In b2 nbrs ->
     (getOtherAtomIdx b2 (getBeginAtomIdx bond) < length at_cds)%nat) ->
  exists r, calc_perp_loop bond ring cds1 cds2 at_cds nbrs = Some r
            /\ inner_or_null r cds1 cds2.
Proof.
  induction nbrs as [| b2 nbrs IH]; intros Hn; simpl.
  - exists None; split; [reflexivity | exact I].
  - assert (IH' := IH (fun b Hb => Hn b (or_intror Hb))).
    destruct (getIdx b2 =? getIdx bond)%nat; [exact IH' |].
    destruct (ringHasBond (getIdx b2) ring); [| exact IH'].
    destruct (nth_error_some_lt at_cds _ (Hn b2 (or_introl eq_refl))) as [c3 Hc3].
    rewrite Hc3; simpl. exists (Some (calcInnerPerpendicular cds1 cds2 c3)).
    split; [reflexivity | exists c3; reflexivity].
Qed.

Lemma calc_perp_total (mol : ROMol) (bond : Bond) (ring : list nat)
    (cds1 cds2 : Point2D) (at_cds : list Point2D) :
  wf_mol mol -> length at_cds = getNumAtoms mol ->
  exists r, calc_perp mol bond ring cds1 cds2 at_cds = Some r
            /\ inner_or_null r cds1 cds2.
Proof.
  intros Hwf Hlen. unfold calc_perp. apply calc_perp_loop_total.
  intros b2 Hin. rewrite Hlen. eapply getOtherAtomIdx_lt; eauto.
Qed.

Lemma choose_ring_total (mol : ROMol) (bond : Bond) (cds1 cds2 : Point2D)
    (at_cds : list Point2D) (rings : list (list nat)) :
  wf_mol mol -> length at_cds = getNumAtoms mol ->
  (forall ring, In ring rings -> In ring (bondRings mol)) ->
  exists r, choose_ring mol bond cds1 cds2 at_cds rings = Some r
            /\ inner_or_null r cds1 cds2.
Proof.
  intros Hwf Hlen. induction rings as [| ring rings IH]; intros Hsub; simpl.
  - exists None; split; [reflexivity | exact I].
  - assert (IH' := IH (fun r Hr => Hsub r (or_intror Hr))).
    destruct (ring_ok_total mol bond ring) as [ok Hok].
    { intros idx Hidx. destruct Hwf as [_ Hr]. eapply Hr; eauto. apply Hsub; left; reflexivity. }
    rewrite Hok; simpl. destruct ok; simpl; [| exact IH'].
    destruct (calc_perp_total mol bond ring cds1 cds2 at_cds Hwf Hlen) as (r & Hr & Hin).
    rewrite Hr; simpl. destruct r as [p |]; [| exact IH'].
    exists (Some p); split; [reflexivity | exact Hin].
Qed.

Lemma bondInsideRing_total (mol : ROMol) (bond : Bond) (cds1 cds2 : Point2D)
    (at_cds : list Point2D) :
  wf_mol mol -> length at_cds = getNumAtoms mol ->
  (0 < numBondRings mol (getIdx bond))%nat -> cds1 <> cds2 ->
  exists p, bondInsideRing mol bond cds1 cds2 at_cds = Some p
            /\ unit_perp p cds1 cds2.
Proof.
  intros Hwf Hlen Hnum Hne. unfold bondInsideRing, numBondRings in *.
  set (rings := filter (ringHasBond (getIdx bond)) (bondRings mol)) in *.
  assert (Hsub : forall ring, In ring rings -> In ring (bondRings mol)).
  { intros ring Hin. apply filter_In in Hin. tauto. }
  assert (Hearly : exists r,
             (if (1 <? length rings)%nat
              then choose_ring mol bond cds1 cds2 at_cds rings
              else Some None) = Some r /\ inner_or_null r cds1 cds2).
  { destruct (1 <? length rings)%nat.
    - apply choose_ring_total; assumption.
    - exists None; split; [reflexivity | exact I]. }
  destruct Hearly as (r & Hr & Hin). rewrite Hr; simpl.
  destruct r as [p |].
  - exists p; split; [reflexivity |]. destruct Hin as [c3 ->].
    apply calcInnerPerpendicular_unit, Hne.
  - destruct rings as [| ring rest] eqn:Erings; [simpl in Hnum; lia |]. simpl.
    destruct (calc_perp_total mol bond ring cds1 cds2 at_cds Hwf Hlen) as (r & Hr' & Hin').
    rewrite Hr'; simpl. destruct r as [p |].
    + exists p; split; [reflexivity |]. destruct Hin' as [c3 ->].
      apply calcInnerPerpendicular_unit, Hne.
    + eexists; split; [reflexivity |]. apply calcPerpendicular_unit, Hne.
Qed.

Lemma find_at3_total (mol : ROMol) (bond : Bond) (a : nat) :
  wf_mol mol -> (1 < getDegree mol a)%nat ->
  exists at3, find_at3 mol bond a = Some at3 /\ (at3 < getNumAtoms mol)%nat.
Proof.
  intros Hwf Hdeg. unfold find_at3.
  destruct (find _ (getAtomBonds mol a)) as [bond2 |] eqn:Efind.
  - apply find_some in Efind as [Hin _]. eexists; split; [reflexivity |].
    eapply getOtherAtomIdx_lt; eauto.
  - exfalso. unfold getDegree in Hdeg.
    assert (Hnd : NoDup (getAtomBonds mol a))
      by (apply NoDup_filter, wf_bonds_NoDup, Hwf).
    destruct (getAtomBonds mol a) as [| b1 [| b2 rest]] eqn:El;
      simpl in Hdeg; try lia.
    assert (Hsame : forall b, In b (b1 :: b2 :: rest) ->
                              nth_error (bonds mol) (getIdx bond) = Some b).
    { intros b Hb. pose proof (find_none _ _ Efind b Hb) as Hidx.
      apply negb_false_iff, Nat.eqb_eq in Hidx. rewrite <- Hidx.
      rewrite <- El in Hb. apply getAtomBonds_in in Hb as [Hb _].
      apply (wf_bond_in mol b Hwf Hb). }
    assert (b1 = b2).
    { pose proof (Hsame b1 (or_introl eq_refl)) as E1.
      pose proof (Hsame b2 (or_intror (or_introl eq_refl))) as E2. congruence. }
    subst b2. inversion Hnd as [| ? ? Hnotin _]. apply Hnotin; left; reflexivity.
Qed.

Lemma bondInsideDoubleBond_total (mol : ROMol) (bond : Bond)
    (at_cds : list Point2D) (c1 c2 : Point2D) :
  wf_mol mol -> length at_cds = getNumAtoms mol ->
  nth_error at_cds (getBeginAtomIdx bond) = Some c1 ->
  nth_error at_cds (getEndAtomIdx bond) = Some c2 ->
  (1 < getDegree mol (getBeginAtomIdx bond))%nat -> c1 <> c2 ->
  exists p, bondInsideDoubleBond mol bond at_cds = Some p /\ unit_perp p c1 c2.
Proof.
  intros Hwf Hlen H1 H2 Hdeg Hne. unfold bondInsideDoubleBond.
  apply Nat.ltb_lt in Hdeg as Hdegb. rewrite Hdegb.
  destruct (find_at3_total mol bond _ Hwf Hdeg) as (at3 & Hat3 & Hlt).
  rewrite Hat3; simpl. rewrite H2, H1; simpl.
  rewrite <- Hlen in Hlt.
  destruct (nth_error_some_lt at_cds at3 Hlt) as [c3 Hc3]. rewrite Hc3; simpl.
  eexists; split; [reflexivity |].
  apply unit_perp_swap, calcInnerPerpendicular_unit. congruence.
Qed.

(** The third branch of [calcDoubleBondLines], for a bond between two
    branch points that is neither linear nor crossed. *)
Lemma calcDoubleBondLines_inner (mol : ROMol) (offset : R) (bond : Bond)
    (at_cds : list Point2D) (c1 c2 : Point2D) :
  wf_mol mol -> length at_cds = getNumAtoms mol ->
  nth_error at_cds (getBeginAtomIdx bond) = Some c1 ->
  nth_error at_cds (getEndAtomIdx bond) = Some c2 ->
  c1 <> c2 ->
  (1 < getDegree mol (getBeginAtomIdx bond))%nat ->
  (1 < getDegree mol (getEndAtomIdx bond))%nat ->
  isLinearAtom mol (getBeginAtomIdx bond) at_cds = Some false ->
  isLinearAtom mol (getEndAtomIdx bond) at_cds = Some false ->
  getBondDir bond <> EITHERDOUBLE ->
  getStereo bond <> STEREOANY ->
  exists perp,
    (if (0 <? numBondRings mol (getIdx bond))%nat
     then bondInsideRing mol bond c1 c2 at_cds
     else bondInsideDoubleBond mol bond at_cds) = Some perp /\
    unit_perp perp c1 c2 /\
    calcDoubleBondLines mol offset bond c1 c2 at_cds =
      Some (mkLinePair c1 c2
              (c1 - (c1 - c2) * multipleBondTruncation + perp * (offset * 2.0))%pt
              (c2 + (c1 - c2) * multipleBondTruncation + perp * (offset * 2.0))%pt).
Proof.
  intros Hwf Hlen H1 H2 Hne Hd1 Hd2 Hl1 Hl2 Hdir Hst.
  assert (Hperp : exists perp,
            (if (0 <? numBondRings mol (getIdx bond))%nat
             then bondInsideRing mol bond c1 c2 at_cds
             else bondInsideDoubleBond mol bond at_cds) = Some perp /\
            unit_perp perp c1 c2).
  { destruct (0 <? numBondRings mol (getIdx bond))%nat eqn:Ering.
    - apply Nat.ltb_lt in Ering. apply bondInsideRing_total; assumption.
    - apply bondInsideDoubleBond_total; assumption. }
  destruct Hperp as (perp & Hp & Hu). exists perp. split; [exact Hp |].
  split; [exact Hu |].
  unfold calcDoubleBondLines, terminal_or_linear.
  assert (E1 : (1 =? getDegree mol (getBeginAtomIdx bond))%nat = false)
    by (apply Nat.eqb_neq; lia).
  assert (E2 : (1 =? getDegree mol (getEndAtomIdx bond))%nat = false)
    by (apply Nat.eqb_neq; lia).
  rewrite E1, E2, Hl1; simpl. rewrite Hl2; simpl.
  assert (Ed : isEITHERDOUBLE (getBondDir bond) = false)
    by (destruct (getBondDir bond); try reflexivity; congruence).
  assert (Es : isSTEREOANY (getStereo bond) = false)
    by (destruct (getStereo bond); try reflexivity; congruence).
  rewrite Ed, Es; simpl. rewrite Hp; simpl. reflexivity.
Qed.

(** How far from the first line such a second line runs: twice the
    offset. *)
Lemma inner_line_separation (offset : R) (c1 c2 perp : Point2D) :
  c1 <> c2 -> unit_perp perp c1 c2 ->
  line_separation_sq
    (mkLinePair c1 c2
       (c1 - (c1 - c2) * multipleBondTruncation + perp * (offset * 2.0))%pt
       (c2 + (c1 - c2) * multipleBondTruncation + perp * (offset * 2.0))%pt)
  = (2 * offset) * (2 * offset).
Proof.
  intros Hne [Hu Hd]. pose proof (distinct_points_pos c1 c2 Hne) as Hpos.
  unfold line_separation_sq, lengthSq, dotProduct, multipleBondTruncation in *;
    simpl in *.
  set (vx := px c2 - px c1) in *. set (vy := py c2 - py c1) in *.
  assert (Hv : 0 < vx * vx + vy * vy) by (unfold vx, vy; nra).
  assert (Hcross : (px perp * vy - py perp * vx) * (px perp * vy - py perp * vx)
                   = vx * vx + vy * vy) by nra.
  apply Rmult_eq_reg_r with (r := vx * vx + vy * vy); [| lra].
  unfold Rdiv. rewrite Rmult_assoc, Rinv_l, Rmult_1_r; [| lra].
  replace (px c1 - (px c1 - px c2) * 0.15 + px perp * (offset * 2.0) - px c1)
    with (0.15 * vx + (2 * offset) * px perp) by (unfold vx; lra).
  replace (py c1 - (py c1 - py c2) * 0.15 + py perp * (offset * 2.0) - py c1)
    with (0.15 * vy + (2 * offset) * py perp) by (unfold vy; lra).
  nra.
Qed.

(** The sample bond meets every premise of the third branch. *)
Lemma butene_like_wf : wf_mol butene_like.
Proof.
  split.
  - intros i b H.
    do 5 (destruct i as [| i];
          [inversion H; subst; unfold wf_bond; simpl; repeat split; lia |]).
    destruct i; discriminate H.
  - intros ring idx H; inversion H.
Qed.

Lemma butene_like_distinct : mkPoint2D 0 0 <> mkPoint2D 2 0.
Proof. intros H; inversion H; lra. Qed.

(* ================================================================== *)
(** ** Theorems: double-bond lines *)

(** C5 as stated fails: for the double bond 2=3 of the sample molecule,
    whose two ends have degree 3, with a multiple-bond offset of 0.15 the
    second line does not run at 0.15 from the first (it runs at 0.30). *)
Lemma calcDoubleBondLines_offset_counterexample :
  getBondType butene_like_bond = DOUBLE /\
  getDegree butene_like 2 = 3%nat /\ getDegree butene_like 3 = 3%nat /\
  isLinearAtom butene_like 2 butene_like_cds = Some false /\
  isLinearAtom butene_like 3 butene_like_cds = Some false /\
  exists lp,
    calcDoubleBondLines butene_like 0.15 butene_like_bond
      (mkPoint2D 0 0) (mkPoint2D 2 0) butene_like_cds = Some lp /\
    ~ spec_line_separation 0.15 lp.
Proof.
  repeat (split; [reflexivity |]).
  assert (H : exists perp,
             unit_perp perp (mkPoint2D 0 0) (mkPoint2D 2 0) /\
             calcDoubleBondLines butene_like 0.15 butene_like_bond
               (mkPoint2D 0 0) (mkPoint2D 2 0) butene_like_cds =
             Some (mkLinePair (mkPoint2D 0 0) (mkPoint2D 2 0)
                     (mkPoint2D 0 0 - (mkPoint2D 0 0 - mkPoint2D 2 0)
                        * multipleBondTruncation + perp * (0.15 * 2.0))%pt
                     (mkPoint2D 2 0 + (mkPoint2D 0 0 - mkPoint2D 2 0)
                        * multipleBondTruncation + perp * (0.15 * 2.0))%pt)).
  { destruct (calcDoubleBondLines_inner butene_like 0.15 butene_like_bond
                butene_like_cds (mkPoint2D 0 0) (mkPoint2D 2 0))
      as (perp & _ & Hu & Hlines);
      try reflexivity; try (unfold getDegree; simpl; lia); try discriminate;
      try exact butene_like_wf; try exact butene_like_distinct.
    exists perp; split; assumption. }
  destruct H as (perp & Hu & Hlines).
  eexists; split; [exact Hlines |].
  unfold spec_line_separation.
  rewrite (inner_line_separation 0.15 _ _ perp butene_like_distinct Hu). lra.
Qed.

(** C5, amended: for a bond whose two ends both have degree greater than 1
    and are not linear, and whose stereo is not either/any, the first line
    runs exactly from atom coordinate to atom coordinate; the second is
    parallel to it, shortened by 0.15 of the bond vector at each end, and
    displaced along the unit perpendicular chosen by the ring-inside or
    neighbour-inside resolution by TWICE the offset passed in, so that the
    two lines run at twice that offset from each other. *)
Theorem calcDoubleBondLines_inner_pair :
  forall (mol : ROMol) (offset : R) (bond : Bond) (at_cds : list Point2D)
         (c1 c2 : Point2D),
    wf_mol mol -> length at_cds = getNumAtoms mol ->
    nth_error at_cds (getBeginAtomIdx bond) = Some c1 ->
    nth_error at_cds (getEndAtomIdx bond) = Some c2 ->
    c1 <> c2 ->
    (1 < getDegree mol (getBeginAtomIdx bond))%nat ->
    (1 < getDegree mol (getEndAtomIdx bond))%nat ->
    isLinearAtom mol (getBeginAtomIdx bond) at_cds = Some false ->
    isLinearAtom mol (getEndAtomIdx bond) at_cds = Some false ->
    getBondDir bond <> EITHERDOUBLE ->
    getStereo bond <> STEREOANY ->
    exists (perp : Point2D) (lp : LinePair),
      calcDoubleBondLines mol offset bond c1 c2 at_cds = Some lp /\
      (if (0 <? numBondRings mol (getIdx bond))%nat
       then bondInsideRing mol bond c1 c2 at_cds
       else bondInsideDoubleBond mol bond at_cds) = Some perp /\
      lengthSq perp = 1 /\ dotProduct perp (c2 - c1)%pt = 0 /\
      l1s lp = c1 /\ l1f lp = c2 /\
      l2s lp = (c1 + (c2 - c1) * 0.15 + perp * (2 * offset))%pt /\
      l2f lp = (c2 - (c2 - c1) * 0.15 + perp * (2 * offset))%pt /\
      (l2f lp - l2s lp)%pt = ((c2 - c1) * 0.7)%pt /\
      line_separation_sq lp = (2 * offset) * (2 * offset).
Proof.
  intros mol offset bond at_cds c1 c2 Hwf Hlen H1 H2 Hne Hd1 Hd2 Hl1 Hl2 Hdir Hst.
  destruct (calcDoubleBondLines_inner mol offset bond at_cds c1 c2
              Hwf Hlen H1 H2 Hne Hd1 Hd2 Hl1 Hl2 Hdir Hst)
    as (perp & Hp & Hu & Hlines).
  exists perp. eexists. split; [exact Hlines |]. split; [exact Hp |].
  destruct Hu as [Hu1 Hu2].
  split; [exact Hu1 |]. split; [exact Hu2 |].
  split; [reflexivity |]. split; [reflexivity |].
  split; [apply point_eq; unfold multipleBondTruncation; simpl; lra |].
  split; [apply point_eq; unfold multipleBondTruncation; simpl; lra |].
  split; [apply point_eq; unfold multipleBondTruncation; simpl; lra |].
  apply inner_line_separation; [exact Hne | split; assumption].
Qed.

Lemma calcDoubleBondLines_inner_pair_witness :
  exists (perp : Point2D) (lp : LinePair),
    calcDoubleBondLines butene_like 0.15 butene_like_bond
      (mkPoint2D 0 0) (mkPoint2D 2 0) butene_like_cds = Some lp /\
    (if (0 <? numBondRings butene_like (getIdx butene_like_bond))%nat
     then bondInsideRing butene_like butene_like_bond
            (mkPoint2D 0 0) (mkPoint2D 2 0) butene_like_cds
     else bondInsideDoubleBond butene_like butene_like_bond butene_like_cds)
    = Some perp /\
    lengthSq perp = 1 /\
    dotProduct perp (mkPoint2D 2 0 - mkPoint2D 0 0)%pt = 0 /\
    l1s lp = mkPoint2D 0 0 /\ l1f lp = mkPoint2D 2 0 /\
    l2s lp = (mkPoint2D 0 0 + (mkPoint2D 2 0 - mkPoint2D 0 0) * 0.15
              + perp * (2 * 0.15))%pt /\
    l2f lp = (mkPoint2D 2 0 - (mkPoint2D 2 0 - mkPoint2D 0 0) * 0.15
              + perp * (2 * 0.15))%pt /\
    (l2f lp - l2s lp)%pt = ((mkPoint2D 2 0 - mkPoint2D 0 0) * 0.7)%pt /\
    line_separation_sq lp = (2 * 0.15) * (2 * 0.15).
Proof.
  apply (calcDoubleBondLines_inner_pair butene_like 0.15 butene_like_bond
           butene_like_cds (mkPoint2D 0 0) (mkPoint2D 2 0));
    try reflexivity; try (unfold getDegree; simpl; lia); try discriminate;
    try exact butene_like_wf; try exact butene_like_distinct.
Defined.

(* ================================================================== *)
(** ** Scale and layout engine *)

Ltac case_Rltb :=
  match goal with
  | |- context [Rltb ?a ?b] =>
      let E := fresh "E" in
      destruct (Rltb a b) eqn:E;
      [apply Rltb_true in E | apply Rltb_false in E]
  end.

Lemma DBL_MAX_pos : 0 < DBL_MAX.
Proof.
  unfold DBL_MAX.
  assert (H1 : 1 <= 2 ^ 52) by (apply pow_R1_Rle; lra).
  assert (H2 : / 2 ^ 52 <= / 1) by (apply Rinv_le_contravar; lra).
  rewrite Rinv_1 in H2.
  assert (H3 : 0 < 2 ^ 1023) by (apply pow_lt; lra).
  apply Rmult_lt_0_compat; lra.
Qed.

(** The spans [calculateScale] starts from. *)
Lemma calculateScale_box_spans {T : Type} (width height : Z)
    (d : MolDraw2D T) (c : RenderContext) :
  (0 < width)%Z -> (0 < height)%Z -> getContext d = Some c ->
  exists d', calculateScale_box width height d = Some d' /\
    let b := atomsAndShapesBox c in
    (bx_max b - bx_min b < 1e-4 ->
       x_range_ (scaling d') = 2 /\ x_min_ (scaling d') = bx_min b - 1) /\
    (1e-4 <= bx_max b - bx_min b ->
       x_range_ (scaling d') = bx_max b - bx_min b /\
       x_min_ (scaling d') = bx_min b) /\
    (by_max b - by_min b < 1e-4 ->
       y_range_ (scaling d') = 2 /\ y_min_ (scaling d') = by_min b - 1) /\
    (1e-4 <= by_max b - by_min b ->
       y_range_ (scaling d') = by_max b - by_min b /\
       y_min_ (scaling d') = by_min b).
Proof.
  intros Hw Hh Hc. unfold calculateScale_box.
  apply Z.ltb_lt in Hw, Hh. rewrite Hw, Hh, Hc; simpl.
  set (b := atomsAndShapesBox c).
  destruct (Rltb (bx_max b - bx_min b) 1e-4) eqn:Ex;
    destruct (Rltb (by_max b - by_min b) 1e-4) eqn:Ey;
    [apply Rltb_true in Ex | apply Rltb_true in Ex
     | apply Rltb_false in Ex | apply Rltb_false in Ex];
    [apply Rltb_true in Ey | apply Rltb_false in Ey
     | apply Rltb_true in Ey | apply Rltb_false in Ey];
    eexists; (split; [reflexivity |]); simpl;
    repeat split; intros; try lra.
Qed.

Lemma single_atom_context :
  getContext single_atom_drawer
  = Some (mkRenderContext [mkPoint2D 0 0] [6%Z] [(EmptyString, C_)] [] [] [] []).
Proof. reflexivity. Qed.

Lemma single_atom_box :
  atomsAndShapesBox
    (mkRenderContext [mkPoint2D 0 0] [6%Z] [(EmptyString, C_)] [] [] [] [])
  = mkBox 0 0 0 0.
Proof.
  pose proof DBL_MAX_pos as H.
  unfold atomsAndShapesBox, emptyBox, extendBox; simpl.
  rewrite !Rmin_left by lra. rewrite !Rmax_left by lra. reflexivity.
Qed.

(* ================================================================== *)
(** ** Theorems: degenerate spans *)

(** C6 as stated fails: for a single atom at the origin the x span is 0,
    and what comes out is a range of 2 from -1, not a unit span from -0.5. *)
Lemma calculateScale_unit_span_counterexample :
  exists d' b,
    calculateScale_box 300 300 single_atom_drawer = Some d' /\
    getContext single_atom_drawer
      = Some (mkRenderContext [mkPoint2D 0 0] [6%Z] [(EmptyString, C_)]
                [] [] [] []) /\
    b = atomsAndShapesBox
          (mkRenderContext [mkPoint2D 0 0] [6%Z] [(EmptyString, C_)]
             [] [] [] []) /\
    bx_max b - bx_min b < 1e-4 /\
    ~ spec_unit_span (bx_min b) (x_range_ (scaling d')) (x_min_ (scaling d')).
Proof.
  destruct (calculateScale_box_spans 300 300 single_atom_drawer _
              eq_refl eq_refl single_atom_context) as (d' & Hd & Hx & _).
  exists d'. eexists. split; [exact Hd |]. split; [reflexivity |].
  split; [reflexivity |].
  rewrite single_atom_box in *. simpl in *.
  split; [lra |].
  destruct Hx as [Hr Hm]; [lra |].
  unfold spec_unit_span. rewrite Hr. lra.
Qed.

(** C6, amended: in the single-molecule scale calculation, a span of the
    bounding box (over atom coordinates and the points of the registered
    shapes) below 1e-4 is replaced by a span of 2 centred on the value:
    the range along that axis becomes 2 and the minimum goes down by 1. *)
Theorem calculateScale_degenerate_span :
  forall (T : Type) (width height : Z) (d : MolDraw2D T) (c : RenderContext),
    (0 < width)%Z -> (0 < height)%Z -> getContext d = Some c ->
    exists d', calculateScale_box width height d = Some d' /\
      (bx_max (atomsAndShapesBox c) - bx_min (atomsAndShapesBox c) < 1e-4 ->
         x_range_ (scaling d') = 2 /\
         x_min_ (scaling d') = bx_min (atomsAndShapesBox c) - 1) /\
      (by_max (atomsAndShapesBox c) - by_min (atomsAndShapesBox c) < 1e-4 ->
         y_range_ (scaling d') = 2 /\
         y_min_ (scaling d') = by_min (atomsAndShapesBox c) - 1).
Proof.
  intros T width height d c Hw Hh Hc.
  destruct (calculateScale_box_spans width height d c Hw Hh Hc)
    as (d' & Hd & Hx & _ & Hy & _).
  exists d'. split; [exact Hd |]. split; assumption.
Qed.

Lemma calculateScale_degenerate_span_witness :
  exists d', calculateScale_box 300 300 single_atom_drawer = Some d' /\
    (bx_max (atomsAndShapesBox
               (mkRenderContext [mkPoint2D 0 0] [6%Z] [(EmptyString, C_)]
                  [] [] [] []))
     - bx_min (atomsAndShapesBox
               (mkRenderContext [mkPoint2D 0 0] [6%Z] [(EmptyString, C_)]
                  [] [] [] [])) < 1e-4 ->
       x_range_ (scaling d') = 2 /\
       x_min_ (scaling d')
       = bx_min (atomsAndShapesBox
                   (mkRenderContext [mkPoint2D 0 0] [6%Z] [(EmptyString, C_)]
                      [] [] [] [])) - 1) /\
    (by_max (atomsAndShapesBox
               (mkRenderContext [mkPoint2D 0 0] [6%Z] [(EmptyString, C_)]
                  [] [] [] []))
     - by_min (atomsAndShapesBox
               (mkRenderContext [mkPoint2D 0 0] [6%Z] [(EmptyString, C_)]
                  [] [] [] [])) < 1e-4 ->
       y_range_ (scaling d') = 2 /\
       y_min_ (scaling d')
       = by_min (atomsAndShapesBox
                   (mkRenderContext [mkPoint2D 0 0] [6%Z] [(EmptyString, C_)]
                      [] [] [] [])) - 1).
Proof.
  apply (calculateScale_degenerate_span unit 300 300 single_atom_drawer);
    reflexivity.
Defined.

(* ================================================================== *)
(** ** The final scale and the centring *)

Lemma Rgtb_true (a b : R) : Rgtb a b = true <-> b < a.
Proof. unfold Rgtb; apply Rltb_true. Qed.

Lemma Rgtb_false (a b : R) : Rgtb a b = false <-> a <= b.
Proof. unfold Rgtb; apply Rltb_false. Qed.

(** What [centrePicture] makes of the centre of the bounding box. *)
Lemma centrePicture_centre (width height : Z) (s : ScaleState) :
  scale_ s <> 0 ->
  let s' := centrePicture width height s in
  px (getDrawCoords s' (boxCentre s')) = IZR (width ÷ 2) + IZR (x_offset_ s) /\
  py (getDrawCoords s' (boxCentre s'))
    = IZR (panelHeight s) - IZR (legend_height_ s) - IZR height
      + IZR (height ÷ 2) - IZR (y_offset_ s).
Proof.
  intros Hs; unfold centrePicture, getDrawCoords, boxCentre, panelHeight; simpl.
  split; field; exact Hs.
Qed.

Lemma Rmin_pos (a b : R) : 0 < a -> 0 < b -> 0 < Rmin a b.
Proof. intros; apply Rmin_glb_lt; assumption. Qed.

(** The padded box and the scale [calculateScale_final] settles on. *)
Lemma calculateScale_final_scale (o : MolDrawOptions) (width height : Z)
    (s : ScaleState) :
  let xr := x_range_ s * (1 + 2 * padding o) in
  let yr := y_range_ s * (1 + 2 * padding o) in
  let fit := Rmin (IZR width / xr) (IZR height / yr) in
  1e-4 < xr \/ 1e-4 < yr ->
  exists scale,
    scale = match scaleOverride o width with
            | Some f => Rmin fit f
            | None => fit
            end /\
    calculateScale_final o width height s
    = centrePicture width height
        (set_scale scale
           (set_box (x_min_ s - padding o * x_range_ s)
                    (y_min_ s - padding o * y_range_ s) xr yr s)).
Proof.
  intros xr yr fit Hnd. unfold calculateScale_final.
  fold xr yr. fold fit.
  assert (Hb : Rgtb xr 1e-4 || Rgtb yr 1e-4 = true).
  { apply orb_true_iff. destruct Hnd; [left | right]; apply Rgtb_true; assumption. }
  rewrite Hb. eexists; split; [| reflexivity].
  unfold scaleOverride.
  destruct (Rgtb (fixedScale o) 0.0) eqn:E1.
  - assert (E1' : Rgtb (fixedScale o) 0 = true)
      by (apply Rgtb_true; apply Rgtb_true in E1; lra).
    rewrite E1'.
    destruct (Rgtb fit (IZR width * fixedScale o)) eqn:E2.
    + apply Rgtb_true in E2. rewrite Rmin_right by lra. reflexivity.
    + apply Rgtb_false in E2. rewrite Rmin_left by lra. reflexivity.
  - assert (E1' : Rgtb (fixedScale o) 0 = false)
      by (apply Rgtb_false; apply Rgtb_false in E1; lra).
    rewrite E1'.
    destruct (Rgtb (fixedBondLength o) 0.0) eqn:E3.
    + assert (E3' : Rgtb (fixedBondLength o) 0 = true)
        by (apply Rgtb_true; apply Rgtb_true in E3; lra).
      rewrite E3'.
      destruct (Rgtb fit (fixedBondLength o)) eqn:E2.
      * apply Rgtb_true in E2. rewrite Rmin_right by lra. reflexivity.
      * apply Rgtb_false in E2. rewrite Rmin_left by lra. reflexivity.
    + assert (E3' : Rgtb (fixedBondLength o) 0 = false)
        by (apply Rgtb_false; apply Rgtb_false in E3; lra).
      rewrite E3'.
      destruct (Rgtb fit fit) eqn:E2; [apply Rgtb_true in E2; lra | reflexivity].
Qed.

(** With a box of positive spans on a panel of positive size, that scale
    is positive. *)
Lemma final_scale_pos (o : MolDrawOptions) (width height : Z) (xr yr : R) :
  (0 < width)%Z -> (0 < height)%Z -> 0 < xr -> 0 < yr ->
  0 < match scaleOverride o width with
      | Some f => Rmin (Rmin (IZR width / xr) (IZR height / yr)) f
      | None => Rmin (IZR width / xr) (IZR height / yr)
      end.
Proof.
  intros Hw Hh Hx Hy.
  apply IZR_lt in Hw, Hh.
  assert (Hfit : 0 < Rmin (IZR width / xr) (IZR height / yr))
    by (apply Rmin_pos; apply Rdiv_lt_0_compat; assumption).
  unfold scaleOverride.
  destruct (Rgtb (fixedScale o) 0) eqn:E1.
  - apply Rgtb_true in E1. apply Rmin_pos; [exact Hfit |].
    apply Rmult_lt_0_compat; assumption.
  - destruct (Rgtb (fixedBondLength o) 0) eqn:E2; [| exact Hfit].
    apply Rgtb_true in E2. apply Rmin_pos; assumption.
Qed.

(** The whole of the last part of [calculateScale], for a box of positive
    spans that is not degenerate after padding. *)
Lemma calculateScale_final_spec (o : MolDrawOptions) (width height : Z)
    (s : ScaleState) :
  (0 < width)%Z -> (0 < height)%Z ->
  0 < x_range_ s -> 0 < y_range_ s -> 0 <= padding o ->
  1e-4 < x_range_ s * (1 + 2 * padding o)
  \/ 1e-4 < y_range_ s * (1 + 2 * padding o) ->
  let s' := calculateScale_final o width height s in
  let fit := Rmin (IZR width / x_range_ s') (IZR height / y_range_ s') in
  x_min_ s' = x_min_ s - padding o * x_range_ s /\
  x_range_ s' = x_range_ s * (1 + 2 * padding o) /\
  y_min_ s' = y_min_ s - padding o * y_range_ s /\
  y_range_ s' = y_range_ s * (1 + 2 * padding o) /\
  scale_ s' = match scaleOverride o width with
              | Some f => Rmin fit f
              | None => fit
              end /\
  0 < scale_ s' /\
  px (getDrawCoords s' (boxCentre s')) = IZR (width ÷ 2) + IZR (x_offset_ s) /\
  py (getDrawCoords s' (boxCentre s'))
    = IZR (panelHeight s) - IZR (legend_height_ s) - IZR height
      + IZR (height ÷ 2) - IZR (y_offset_ s).
Proof.
  intros Hw Hh Hx Hy Hp Hnd.
  destruct (calculateScale_final_scale o width height s Hnd) as (scale & Hsc & Hfin).
  assert (Hpos : 0 < scale).
  { rewrite Hsc. apply final_scale_pos; try assumption; nra. }
  cbv zeta. rewrite Hfin.
  pose proof (centrePicture_centre width height
                (set_scale scale
                   (set_box (x_min_ s - padding o * x_range_ s)
                            (y_min_ s - padding o * y_range_ s)
                            (x_range_ s * (1 + 2 * padding o))
                            (y_range_ s * (1 + 2 * padding o)) s))) as Hc.
  simpl in Hc. specialize (Hc ltac:(lra)). destruct Hc as [Hcx Hcy].
  repeat split; try reflexivity; try assumption.
Qed.

(* ================================================================== *)
(** ** Theorems: final scale and centring *)

(** C7 as stated fails: on a panel 301 pixels wide the centre of the
    bounding box lands on x = 150, the integer half of the width, not on
    the panel centre x = 150.5. *)
Lemma calculateScale_centre_counterexample :
  getDrawCoords (calculateScale_final sample_options 301 300 fitted_state)
    (boxCentre (calculateScale_final sample_options 301 300 fitted_state))
  <> spec_panel_centre 301 300.
Proof.
  assert (Hx : px (getDrawCoords
                     (calculateScale_final sample_options 301 300 fitted_state)
                     (boxCentre
                        (calculateScale_final sample_options 301 300 fitted_state)))
               = IZR (301 ÷ 2) + IZR (x_offset_ fitted_state)).
  { apply (calculateScale_final_spec sample_options 301 300 fitted_state);
      try reflexivity; try (simpl; lra). }
  intros Heq. apply (f_equal px) in Heq. rewrite Hx in Heq.
  unfold spec_panel_centre in Heq; simpl in Heq.
  change (301 ÷ 2)%Z with 150%Z in Heq. lra.
Qed.

(** C7, amended: after the fit, the padding fraction is applied to both
    axes symmetrically; the final scale is the smaller of the fit-to-box
    scale and the explicit override, if any (width x fixedScale when a
    fixed scale is set, else the fixed bond length when that is set); and
    the centring translation then maps the centre of the bounding box
    horizontally to the INTEGER half of the width plus the horizontal pixel
    offset, and - for a vertical pixel offset of zero and a height equal to
    panel height minus legend height - vertically to the integer half of
    the height. *)
Theorem calculateScale_final_scale_and_centre :
  forall (o : MolDrawOptions) (width height : Z) (s : ScaleState),
    (0 < width)%Z -> (0 < height)%Z ->
    0 < x_range_ s -> 0 < y_range_ s -> 0 <= padding o ->
    1e-4 < x_range_ s * (1 + 2 * padding o)
    \/ 1e-4 < y_range_ s * (1 + 2 * padding o) ->
    let s' := calculateScale_final o width height s in
    let fit := Rmin (IZR width / x_range_ s') (IZR height / y_range_ s') in
    x_min_ s' = x_min_ s - padding o * x_range_ s /\
    x_range_ s' = x_range_ s * (1 + 2 * padding o) /\
    y_min_ s' = y_min_ s - padding o * y_range_ s /\
    y_range_ s' = y_range_ s * (1 + 2 * padding o) /\
    scale_ s' = match scaleOverride o width with
                | Some f => Rmin fit f
                | None => fit
                end /\
    px (getDrawCoords s' (boxCentre s')) = IZR (width ÷ 2) + IZR (x_offset_ s) /\
    (y_offset_ s = 0%Z -> drawHeight s = height ->
     py (getDrawCoords s' (boxCentre s')) = IZR (height ÷ 2)).
Proof.
  intros o width height s Hw Hh Hx Hy Hp Hnd.
  destruct (calculateScale_final_spec o width height s Hw Hh Hx Hy Hp Hnd)
    as (H1 & H2 & H3 & H4 & H5 & _ & H7 & H8).
  cbv zeta. repeat (split; [assumption |]).
  intros Hoff Hdh. rewrite H8, Hoff. unfold drawHeight, panelHeight in *.
  rewrite <- Hdh, minus_IZR. lra.
Qed.

Lemma calculateScale_final_scale_and_centre_witness :
  let s' := calculateScale_final sample_options 301 300 fitted_state in
  let fit := Rmin (IZR 301 / x_range_ s') (IZR 300 / y_range_ s') in
  x_min_ s' = x_min_ fitted_state - padding sample_options * x_range_ fitted_state /\
  x_range_ s' = x_range_ fitted_state * (1 + 2 * padding sample_options) /\
  y_min_ s' = y_min_ fitted_state - padding sample_options * y_range_ fitted_state /\
  y_range_ s' = y_range_ fitted_state * (1 + 2 * padding sample_options) /\
  scale_ s' = match scaleOverride sample_options 301 with
              | Some f => Rmin fit f
              | None => fit
              end /\
  px (getDrawCoords s' (boxCentre s'))
    = IZR (301 ÷ 2) + IZR (x_offset_ fitted_state) /\
  (y_offset_ fitted_state = 0%Z -> drawHeight fitted_state = 300%Z ->
   py (getDrawCoords s' (boxCentre s')) = IZR (300 ÷ 2)).
Proof.
  apply (calculateScale_final_scale_and_centre sample_options 301 300 fitted_state);
    try reflexivity; try (simpl; lra).
Defined.

(* ================================================================== *)
(** ** The loop over the bonds *)








(* ================================================================== *)
(** ** Theorem: every bond is drawn once *)





(* ================================================================== *)
(** ** What a step sends to the canvas *)

Section Canvas.
Context {T : Type}.
Implicit Type d : MolDraw2D T.

Lemma canvas_emit (cs : list Cmd) d : canvas (emit cs d) = canvas d ++ cs.
Proof.
  revert d; induction cs as [| c cs IH]; intros d; simpl.
  - rewrite app_nil_r; reflexivity.
  - unfold emit in *; simpl. rewrite IH; simpl. rewrite <- app_assoc. reflexivity.
Qed.

Lemma splitBonds_emit (cs : list Cmd) d :
  splitBonds (options_ (emit cs d)) = splitBonds (options_ d).
Proof.
  revert d; induction cs as [| c cs IH]; intros d; [reflexivity |].
  unfold emit in *; simpl. rewrite IH. destruct c; reflexivity.
Qed.

Lemma scaling_emit (cs : list Cmd) d : scaling (emit cs d) = scaling d.
Proof.
  revert d; induction cs as [| c cs IH]; intros d; [reflexivity |].
  unfold emit in *; simpl. rewrite IH. reflexivity.
Qed.
End Canvas.

(* ================================================================== *)
(** ** Query bonds *)

(** What [drawQueryBond] sends for a single-or-double query. *)
Lemma drawQueryBond_singleOrDouble {T : Type} `{Renderer T}
    (d : MolDraw2D T) (mol : ROMol) (bond : Bond) (highlight_bond : bool)
    (at1_cds at2_cds : Point2D) (at_cds : list Point2D) (offset : R)
    (qry : Query) (lp : LinePair) :
  getQuery bond = Some qry ->
  getDescription qry = "SingleOrDoubleBond"%string ->
  calcDoubleBondLines mol offset bond ((at2_cds + at1_cds) / 2)%pt at2_cds at_cds
    = Some lp ->
  exists d' cmds,
    drawQueryBond mol bond highlight_bond at1_cds at2_cds at_cds offset d
      = Some d' /\
    canvas d' = canvas d ++ cmds /\
    filter is_primitive cmds
      = [DrawLine at1_cds ((at2_cds + at1_cds) / 2)%pt;
         DrawLine (l1s lp) (l1f lp); DrawLine (l2s lp) (l2f lp)].
Proof.
  intros Hq Hdescr Hlp. unfold drawQueryBond. rewrite Hq; simpl.
  rewrite Hdescr. rewrite String.eqb_refl.
  unfold drawPairOver. rewrite Hlp; simpl.
  set (midp := ((at2_cds + at1_cds) / 2)%pt) in *.
  set (split := splitBonds (options_ d)).
  eexists.
  exists ((if split then []
           else [setActiveAtmIdx2 (getBeginAtomIdx bond) (getEndAtomIdx bond)])
          ++ [SetColour (mkDrawColour 0.5 0.5 0.5)]
          ++ (if split then [setActiveAtmIdx1 (getBeginAtomIdx bond)] else [])
          ++ [DrawLine at1_cds midp]
          ++ (if split then [setActiveAtmIdx1 (getEndAtomIdx bond)] else [])
          ++ [DrawLine (l1s lp) (l1f lp); DrawLine (l2s lp) (l2f lp);
              setActiveAtmIdx0]).
  split; [reflexivity |].
  unfold split. destruct (splitBonds (options_ d)) eqn:Es; simpl;
    repeat rewrite splitBonds_emit; rewrite ?Es; simpl;
    repeat rewrite canvas_emit; repeat rewrite <- app_assoc; simpl;
    split; reflexivity.
Qed.

Lemma query_bond_pair :
  exists lp,
    calcDoubleBondLines query_mol (multipleBondOffset sample_options) query_bond
      ((mkPoint2D 3 0 + mkPoint2D 0 0) / 2)%pt (mkPoint2D 3 0) query_cds
    = Some lp.
Proof. eexists. reflexivity. Qed.

(** [drawBond] hands such a bond to [drawQueryBond], with the bond ends
    pulled back from the atom labels. *)
Lemma drawBond_singleOrDouble {T : Type} `{Renderer T}
    (d : MolDraw2D T) (mol : ROMol) (bond : Bond)
    (cds : list Point2D) (syms : list (string * OrientType))
    (c1 c2 : Point2D) (s1 s2 : string * OrientType) (col1 col2 : DrawColour)
    (qry : Query) (lp : LinePair) :
  at_active (at_cds_ d) d = Some cds ->
  at_active (atom_syms_ d) d = Some syms ->
  nth_error cds (getBeginAtomIdx bond) = Some c1 ->
  nth_error cds (getEndAtomIdx bond) = Some c2 ->
  nth_error syms (getBeginAtomIdx bond) = Some s1 ->
  nth_error syms (getEndAtomIdx bond) = Some s2 ->
  getColour d (getBeginAtomIdx bond) None None = Some col1 ->
  getColour d (getEndAtomIdx bond) None None = Some col2 ->
  getQuery bond = Some qry ->
  getDescription qry = "SingleOrDoubleBond"%string ->
  let offset :=
    if Rltb (lengthSq (c1 - c2)%pt) 1.4
    then multipleBondOffset (options_ d) * 0.6
    else multipleBondOffset (options_ d) in
  let at1_cds := adjustBondEndForLabel d s1 c2 c1 in
  let at2_cds := adjustBondEndForLabel d s2 at1_cds c2 in
  calcDoubleBondLines mol offset bond ((at2_cds + at1_cds) / 2)%pt at2_cds cds
    = Some lp ->
  exists d' cmds,
    drawBond mol bond (getBeginAtomIdx bond) (getEndAtomIdx bond)
      noBondStyle d = Some d' /\
    canvas d' = canvas d ++ cmds /\
    filter is_primitive cmds
      = [DrawLine at1_cds ((at2_cds + at1_cds) / 2)%pt;
         DrawLine (l1s lp) (l1f lp); DrawLine (l2s lp) (l2f lp)].
Proof.
  intros Hcds Hsyms Hc1 Hc2 Hs1 Hs2 Hcol1 Hcol2 Hq Hdescr offset at1_cds
         at2_cds Hlp.
  destruct (drawQueryBond_singleOrDouble d mol bond false at1_cds at2_cds cds
              offset qry lp Hq Hdescr Hlp) as (d' & cmds & Hd & Hc & Hp).
  exists d', cmds. split; [| split; assumption].
  unfold drawBond. rewrite Hcds, Hsyms. cbn [bind].
  rewrite Nat.eqb_refl. cbn [negb]. cbv iota beta.
  rewrite Hc1, Hc2. cbn [bind]. rewrite Hs1. cbn [bind].
  rewrite Hs2. cbn [bind].
  cbn [noBondStyle highlight_bonds bond_colours highlight_bond_map negb].
  rewrite Hcol1, Hcol2. cbn [bind]. cbv iota beta.
  rewrite Hq, Hdescr. cbn [String.eqb Ascii.eqb Bool.eqb negb orb andb].
  rewrite orb_true_r.
  fold offset. fold at1_cds. fold at2_cds. rewrite Hd. reflexivity.
Qed.

(* ================================================================== *)
(** ** Theorems: the single-or-double query bond *)

(** C8 as stated fails: for a single-or-double query bond from (0,0) to
    (3,0) the plain segment that is drawn ends at the middle of the bond,
    x = 1.5, not at its first third, x = 1. *)
Lemma drawQueryBond_thirds_counterexample :
  exists d' prims,
    drawQueryBond query_mol query_bond false (mkPoint2D 0 0) (mkPoint2D 3 0)
      query_cds (multipleBondOffset sample_options) query_drawer = Some d' /\
    spec_singleOrDouble_primitives query_mol (multipleBondOffset sample_options)
      query_bond (mkPoint2D 0 0) (mkPoint2D 3 0) query_cds = Some prims /\
    filter is_primitive (canvas d') <> prims.
Proof.
  destruct query_bond_pair as [lp Hlp].
  destruct (drawQueryBond_singleOrDouble query_drawer query_mol query_bond false
              (mkPoint2D 0 0) (mkPoint2D 3 0) query_cds
              (multipleBondOffset sample_options)
              (mkQuery "SingleOrDoubleBond" false []) lp
              eq_refl eq_refl Hlp) as (d' & cmds & Hd & Hc & Hp).
  exists d'. eexists. split; [exact Hd |]. split; [reflexivity |].
  rewrite Hc. simpl. rewrite Hp. intros Heq. inversion Heq as [[Hx Hrest]]. lra.
Qed.

(** C8, amended: for a query bond whose description is
    "SingleOrDoubleBond", [drawQueryBond] - which [drawBond] calls for it -
    draws a plain single line over the first HALF of the bond, from the
    begin atom to the midpoint, and the two lines of a double bond over the
    second half, from the midpoint to the end atom; it draws nothing
    else. *)
Theorem drawQueryBond_singleOrDouble_halves :
  forall (T : Type) (Rd : Renderer T) (d : MolDraw2D T) (mol : ROMol)
         (bond : Bond) (highlight_bond : bool) (at1_cds at2_cds : Point2D)
         (at_cds : list Point2D) (offset : R) (qry : Query) (lp : LinePair),
    getQuery bond = Some qry ->
    getDescription qry = "SingleOrDoubleBond"%string ->
    calcDoubleBondLines mol offset bond ((at2_cds + at1_cds) / 2)%pt at2_cds
      at_cds = Some lp ->
    exists d' cmds,
      drawQueryBond mol bond highlight_bond at1_cds at2_cds at_cds offset d
        = Some d' /\
      canvas d' = canvas d ++ cmds /\
      filter is_primitive cmds
        = [DrawLine at1_cds ((at2_cds + at1_cds) / 2)%pt;
           DrawLine (l1s lp) (l1f lp); DrawLine (l2s lp) (l2f lp)].
Proof.
  intros T Rd d mol bond highlight_bond at1_cds at2_cds at_cds offset qry lp.
  apply drawQueryBond_singleOrDouble.
Qed.

Lemma drawQueryBond_singleOrDouble_halves_witness :
  exists lp d' cmds,
    calcDoubleBondLines query_mol (multipleBondOffset sample_options) query_bond
      ((mkPoint2D 3 0 + mkPoint2D 0 0) / 2)%pt (mkPoint2D 3 0) query_cds
      = Some lp /\
    drawQueryBond query_mol query_bond false (mkPoint2D 0 0) (mkPoint2D 3 0)
      query_cds (multipleBondOffset sample_options) query_drawer = Some d' /\
    canvas d' = canvas query_drawer ++ cmds /\
    filter is_primitive cmds
      = [DrawLine (mkPoint2D 0 0) ((mkPoint2D 3 0 + mkPoint2D 0 0) / 2)%pt;
         DrawLine (l1s lp) (l1f lp); DrawLine (l2s lp) (l2f lp)].
Proof.
  eexists.
  destruct (drawQueryBond_singleOrDouble_halves unit unit_Renderer query_drawer
              query_mol query_bond false (mkPoint2D 0 0) (mkPoint2D 3 0)
              query_cds (multipleBondOffset sample_options)
              (mkQuery "SingleOrDoubleBond" false []) _
              eq_refl eq_refl eq_refl) as (d' & cmds & Hd & Hc & Hp).
  exists d', cmds. split; [reflexivity |]. split; [exact Hd |].
  split; [exact Hc | exact Hp].
Defined.

(* ================================================================== *)
(** ** The context stack across the draw passes *)

Create Rewrite HintDb frame.

Ltac inv_bind H :=
  repeat match type of H with
         | bind ?e _ = Some _ =>
             let E := fresh "E" in
             destruct e eqn:E; simpl in H; [| discriminate H]
         | (if ?b then _ else _) = Some _ =>
             let E := fresh "E" in destruct b eqn:E; try discriminate H
         | (let '(_, _) := ?p in _) = Some _ =>
             destruct p
         | Some _ = Some _ => inversion H; subst; clear H
         end.

Section Frame.
Context {T : Type}.
Implicit Type d : MolDraw2D T.

Lemma length_list_set {A : Type} (v : list A) (i : nat) (a : A) :
  length (list_set v i a) = length v.
Proof.
  revert i; induction v as [| b v IH]; intros i; [reflexivity |].
  destruct i; simpl; [reflexivity | rewrite IH; reflexivity].
Qed.

Lemma frame_send d c : frame (send d c) = frame d.
Proof. reflexivity. Qed.

Lemma frame_emit cs d : frame (emit cs d) = frame d.
Proof.
  revert d; induction cs as [| c cs IH]; intros d; [reflexivity |].
  unfold emit in *; simpl. rewrite IH. reflexivity.
Qed.

Lemma frame_setFillPolys v d : frame (setFillPolys v d) = frame d.
Proof. reflexivity. Qed.

Lemma frame_setLineWidth w d : frame (setLineWidth w d) = frame d.
Proof. reflexivity. Qed.

Lemma frame_set_scaling s d : frame (set_scaling s d) = frame d.
Proof. reflexivity. Qed.

Lemma frame_set_text_drawer t d : frame (set_text_drawer t d) = frame d.
Proof. reflexivity. Qed.

Lemma frame_setContext c d : frame (setContext c d) = frame d.
Proof.
  unfold frame, stack_depths, setContext; simpl.
  rewrite !length_list_set. reflexivity.
Qed.

Lemma frame_onContext f d d' :
  onContext f d = Some d' -> frame d' = frame d.
Proof.
  unfold onContext; intros H. inv_bind H. apply frame_setContext.
Qed.

Lemma frame_pushDrawDetails d :
  frame (pushDrawDetails d)
  = (map S (stack_depths d), (activeMolIdx_ d + 1)%Z).
Proof.
  unfold frame, stack_depths, pushDrawDetails; simpl.
  rewrite !length_app; simpl. rewrite !Nat.add_1_r. reflexivity.
Qed.
End Frame.

#[local] Hint Rewrite @frame_send @frame_emit @frame_setFillPolys
  @frame_setLineWidth @frame_set_scaling @frame_set_text_drawer
  @frame_setContext : frame.

Section FrameScale.
Context {T : Type} `{DrawText T} `{LabelMetrics T}.
Implicit Type d : MolDraw2D T.

Lemma frame_calculateScale_box width height d d' :
  calculateScale_box width height d = Some d' -> frame d' = frame d.
Proof.
  unfold calculateScale_box; intros Hd. inv_bind Hd.
  repeat match goal with
         | |- context [if ?b then _ else _] => destruct b
         end; reflexivity.
Qed.

Lemma frame_calculateScale_turn width height mol ha hr d d' stop :
  calculateScale_turn width height mol ha hr d = Some (d', stop) ->
  frame d' = frame d.
Proof.
  unfold calculateScale_turn; intros Hd.
  destruct (getContext _) as [c |] eqn:Ec; simpl in Hd; [| discriminate].
  repeat match type of Hd with
         | context [match ?p with (_, _) => _ end] => destruct p
         end.
  inversion Hd; subst; clear Hd.
  repeat match goal with
         | |- context [if ?b then _ else _] => destruct b
         end; autorewrite with frame; reflexivity.
Qed.

Lemma frame_calculateScale_fit fuel width height mol ha hr d d' :
  calculateScale_fit fuel width height mol ha hr d = Some d' ->
  frame d' = frame d.
Proof.
  revert d; induction fuel as [| fuel IH]; intros d Hd; simpl in Hd.
  - destruct (Rgtb _ _); [discriminate | inversion Hd; reflexivity].
  - destruct (Rgtb _ _); [| inversion Hd; reflexivity].
    destruct (calculateScale_turn width height mol ha hr d)
      as [[d1 stop] |] eqn:Et; simpl in Hd; [| discriminate].
    apply frame_calculateScale_turn in Et.
    destruct stop.
    + inversion Hd; subst. exact Et.
    + rewrite (IH _ Hd). exact Et.
Qed.

Lemma frame_calculateScale_font mol confId d d' :
  calculateScale_font mol confId d = Some d' -> frame d' = frame d.
Proof.
  unfold calculateScale_font; intros Hd. inv_bind Hd. reflexivity.
Qed.

Lemma frame_calculateScale fuel width height mol ha hr confId d d' :
  calculateScale fuel width height mol ha hr confId d = Some d' ->
  frame d' = frame d.
Proof.
  unfold calculateScale; intros Hd.
  destruct (calculateScale_box width height d) as [d1 |] eqn:E1;
    simpl in Hd; [| discriminate].
  destruct (calculateScale_fit fuel width height mol ha hr d1) as [d2 |] eqn:E2;
    simpl in Hd; [| discriminate].
  apply frame_calculateScale_font in Hd.
  apply frame_calculateScale_fit in E2.
  apply frame_calculateScale_box in E1.
  rewrite Hd; autorewrite with frame. congruence.
Qed.
End FrameScale.

Section FrameBonds.
Context {T : Type} `{Renderer T}.
Implicit Type d : MolDraw2D T.

Ltac split_ifs :=
  repeat match goal with
         | |- context [if ?b then _ else _] => destruct b
         end.

Lemma frame_drawLine4 cds1 cds2 col1 col2 d :
  frame (drawLine4 cds1 cds2 col1 col2 d) = frame d.
Proof.
  unfold drawLine4. split_ifs; autorewrite with frame; reflexivity.
Qed.

Lemma frame_drawBondLineCol bond cds1 cds2 col1 col2 clearAIdx d :
  frame (drawBondLineCol bond cds1 cds2 col1 col2 clearAIdx d) = frame d.
Proof.
  unfold drawBondLineCol.
  split_ifs; repeat (autorewrite with frame; rewrite ?frame_drawLine4);
    reflexivity.
Qed.

Lemma frame_drawBondLine bond cds1 cds2 clearAIdx d :
  frame (drawBondLine bond cds1 cds2 clearAIdx d) = frame d.
Proof.
  unfold drawBondLine. split_ifs; autorewrite with frame; reflexivity.
Qed.

Lemma frame_drawPairOver mol bond offset cds1 cds2 at_cds dash d d' :
  drawPairOver mol bond offset cds1 cds2 at_cds dash d = Some d' ->
  frame d' = frame d.
Proof.
  unfold drawPairOver; intros Hd.
  destruct (calcDoubleBondLines _ _ _ _ _ _); [| discriminate].
  unfold bind in Hd. inversion Hd; subst.
  autorewrite with frame. reflexivity.
Qed.

Lemma frame_drawGenericQueryBond bond highlight_bond at1_cds at2_cds d :
  frame (drawGenericQueryBond bond highlight_bond at1_cds at2_cds d) = frame d.
Proof.
  unfold drawGenericQueryBond.
  split_ifs; repeat (autorewrite with frame; rewrite ?frame_drawBondLine);
    reflexivity.
Qed.

Lemma frame_drawRingQueryGlyph mol bond at1_cds at2_cds midp at_cds col
    offset neg d :
  frame (drawRingQueryGlyph mol bond at1_cds at2_cds midp at_cds col offset
           neg d) = frame d.
Proof.
  unfold drawRingQueryGlyph. split_ifs; autorewrite with frame; reflexivity.
Qed.

Ltac frame_crush :=
  repeat (autorewrite with frame;
          rewrite ?frame_drawBondLine, ?frame_drawRingQueryGlyph,
            ?frame_drawGenericQueryBond;
          try reflexivity;
          match goal with
          | |- context [if ?b then _ else _] => destruct b
          end);
  autorewrite with frame; try reflexivity.

Lemma frame_drawQueryBond mol bond highlight_bond at1_cds at2_cds at_cds
    offset d d' :
  drawQueryBond mol bond highlight_bond at1_cds at2_cds at_cds offset d
    = Some d' ->
  frame d' = frame d.
Proof.
  unfold drawQueryBond; intros Hd.
  destruct (getQuery bond) as [qry |]; [| discriminate].
  unfold bind at 1 in Hd.
  match type of Hd with
  | bind ?e _ = Some _ => destruct e as [d1 |] eqn:E; [| discriminate]
  end.
  unfold bind in Hd. inversion Hd; subst; clear Hd. autorewrite with frame.
  repeat match type of E with
         | (if ?b then _ else _) = Some _ => destruct b
         end.
  - apply frame_drawPairOver in E. rewrite E. frame_crush.
  - apply frame_drawPairOver in E. rewrite E. frame_crush.
  - match type of E with
    | bind ?e _ = Some _ => destruct e as [d2 |] eqn:E2; [| discriminate]
    end.
    unfold bind in E.
    apply frame_drawPairOver in E. apply frame_drawPairOver in E2.
    rewrite E.
    transitivity (frame d2); [frame_crush |]. rewrite E2. frame_crush.
  - inversion E; subst; clear E. frame_crush.
  - match type of E with
    | match ?m with _ => _ end = Some _ => destruct m
    end; inversion E; subst; clear E; frame_crush.
Qed.

Lemma frame_drawBond mol bond at1_idx at2_idx st d d' :
  drawBond mol bond at1_idx at2_idx st d = Some d' -> frame d' = frame d.
Proof.
  unfold drawBond; intros Hd.
  destruct (at_active (at_cds_ d) d) as [cds |]; simpl in Hd; [| discriminate].
  destruct (at_active (atom_syms_ d) d) as [syms |]; simpl in Hd;
    [| discriminate].
  destruct (if negb (at1_idx =? getBeginAtomIdx bond)%nat
            then (at2_idx, at1_idx) else (at1_idx, at2_idx)) as [a1 a2].
  destruct (nth_error cds a1) as [c1 |]; simpl in Hd; [| discriminate].
  destruct (nth_error cds a2) as [c2 |]; simpl in Hd; [| discriminate].
  destruct (nth_error syms a1) as [s1 |]; simpl in Hd; [| discriminate].
  destruct (nth_error syms a2) as [s2 |]; simpl in Hd; [| discriminate].
  match type of Hd with
  | bind ?e _ = Some _ => destruct e as [[[col1 col2] d1] |] eqn:E1;
                          simpl in Hd; [| discriminate]
  end.
  assert (F1 : frame d1 = frame d).
  { destruct (bond_colours st) as [cols |].
    - destruct (nth_error cols (getIdx bond)); simpl in E1; [| discriminate].
      inversion E1; subst; reflexivity.
    - destruct (negb _).
      + destruct (getColour d a1 None None); simpl in E1; [| discriminate].
        destruct (getColour d a2 None None); simpl in E1; [| discriminate].
        inversion E1; subst; reflexivity.
      + inversion E1; subst.
        destruct (continuousHighlight (options_ d)); reflexivity. }
  match type of Hd with
  | bind ?e _ = Some _ => destruct e as [d2 |] eqn:E2; simpl in Hd;
                          [| discriminate]
  end.
  assert (F2 : frame d2 = frame d1).
  { match type of E2 with
    | (if ?b then _ else _) = Some _ => destruct b
    end.
    - eapply frame_drawQueryBond; eauto.
    - inversion E2; subst. apply frame_emit. }
  inversion Hd; subst.
  match goal with |- context [if ?b then _ else _] => destruct b end;
    autorewrite with frame; congruence.
Qed.

Lemma frame_drawBond_all mol st calls d d' :
  drawBond_all mol st calls d = Some d' -> frame d' = frame d.
Proof.
  revert d; induction calls as [| [[bond a] n] calls IH]; intros d Hd;
    simpl in Hd.
  - inversion Hd; reflexivity.
  - destruct (drawBond mol bond a n st d) as [d1 |] eqn:E; simpl in Hd;
      [| discriminate].
    rewrite (IH _ Hd). eapply frame_drawBond; eauto.
Qed.

Lemma frame_drawBonds mol st d d' :
  drawBonds mol st d = Some d' -> frame d' = frame d.
Proof.
  unfold drawBonds; intros Hd.
  destruct (at_active (at_cds_ d) d).
  - eapply frame_drawBond_all; eauto.
  - destruct (forallb _ _); [inversion Hd; reflexivity | discriminate].
Qed.
End FrameBonds.

Section FrameOrchestrator.
Context {T : Type} `{DrawText T} `{LabelMetrics T} `{Renderer T}
        `{MolServices T}.
Implicit Type d : MolDraw2D T.

Lemma frame_extractAtomCoords mol confId d d' :
  extractAtomCoords mol confId d = Some d' -> frame d' = frame d.
Proof.
  unfold extractAtomCoords; intros Hd.
  destruct (getContext d); [| discriminate]. unfold bind at 1 in Hd.
  destruct (getNumConformers mol =? 0)%nat; [discriminate |].
  destruct (getConformer mol confId); [| discriminate]. unfold bind at 1 in Hd.
  match type of Hd with
  | bind ?e _ = Some _ => destruct e; [| discriminate]
  end.
  unfold bind in Hd. inversion Hd; subst. apply frame_setContext.
Qed.

Lemma frame_setupDrawMolecule fuel mol hl confId width height d rwmol d' :
  setupDrawMolecule fuel mol hl confId width height d = Some (rwmol, d') ->
  frame d' = frame d.
Proof.
  unfold setupDrawMolecule; intros Hd.
  match type of Hd with
  | bind ?e _ = Some _ => destruct e as [m |]; [| discriminate]
  end.
  unfold bind at 1 in Hd.
  destruct (getNumConformers m =? 0)%nat.
  { inversion Hd; subst. reflexivity. }
  match type of Hd with
  | bind (extractAtomCoords ?m' ?c ?d0) _ = Some _ =>
      destruct (extractAtomCoords m' c d0) as [d1 |] eqn:E1; [| discriminate];
      assert (F1 : frame d1 = frame d)
        by (rewrite (frame_extractAtomCoords _ _ _ _ E1);
            destruct ((activeMolIdx_ _ =? 0)%Z && _);
            autorewrite with frame; reflexivity)
  end.
  unfold bind at 1 in Hd.
  match type of Hd with
  | bind ?e _ = Some _ => destruct e as [d2 |] eqn:E2; [| discriminate]
  end.
  apply frame_onContext in E2. unfold bind at 1 in Hd.
  match type of Hd with
  | bind ?e _ = Some _ => destruct e as [d3 |] eqn:E3; [| discriminate]
  end.
  assert (F3 : frame d3 = frame d2).
  { match type of E3 with
    | (if ?b then _ else _) = Some _ => destruct b
    end; [eapply frame_onContext; eauto | inversion E3; reflexivity]. }
  unfold bind at 1 in Hd.
  match type of Hd with
  | bind ?e _ = Some _ => destruct e as [d4 |] eqn:E4; [| discriminate]
  end.
  apply frame_onContext in E4. unfold bind at 1 in Hd.
  match type of Hd with
  | bind ?e _ = Some _ => destruct e as [d5 |] eqn:E5; [| discriminate]
  end.
  unfold bind in Hd. inversion Hd; subst; clear Hd.
  match type of E5 with
  | (if ?b then _ else _) = Some _ => destruct b
  end.
  - match type of E5 with
    | bind ?e _ = Some _ => destruct e as [d6 |] eqn:E6; [| discriminate]
    end.
    unfold bind in E5. inversion E5; subst; clear E5.
    apply frame_calculateScale in E6.
    autorewrite with frame. rewrite E6. autorewrite with frame. congruence.
  - inversion E5; subst. autorewrite with frame. congruence.
Qed.

Lemma frame_drawAtomRegion region d d' :
  drawAtomRegion region d = Some d' -> frame d' = frame d.
Proof.
  unfold drawAtomRegion; intros Hd.
  destruct (1 <? length region)%nat; [| inversion Hd; reflexivity].
  destruct (at_active (at_cds_ d) d) as [cds |]; [| discriminate].
  unfold bind at 1 in Hd.
  destruct (nth_error cds (hd 0%nat region)); [| discriminate].
  unfold bind at 1 in Hd.
  match type of Hd with
  | bind ?e _ = Some _ => destruct e as [[minv maxv] |]; [| discriminate]
  end.
  unfold bind in Hd. inversion Hd; subst.
  unfold drawRect. autorewrite with frame. reflexivity.
Qed.

Lemma frame_drawAtomRegions regions d d' :
  drawAtomRegions regions d = Some d' -> frame d' = frame d.
Proof.
  revert d; induction regions as [| region rest IH]; intros d Hd; simpl in Hd.
  - inversion Hd; reflexivity.
  - destruct (drawAtomRegion region d) as [d1 |] eqn:E; [| discriminate].
    unfold bind in Hd. rewrite (IH _ Hd). eapply frame_drawAtomRegion; eauto.
Qed.

Lemma frame_setupMoleculeDraw fuel mol hl confId d draw_mol d' :
  setupMoleculeDraw fuel mol hl confId d = Some (draw_mol, d') ->
  frame d' = frame d.
Proof.
  unfold setupMoleculeDraw; intros Hd.
  destruct (setupDrawMolecule _ _ _ _ _ _ _) as [[m d1] |] eqn:E1;
    [| discriminate].
  apply frame_setupDrawMolecule in E1. unfold bind at 1 in Hd.
  match type of Hd with
  | bind ?e _ = Some _ => destruct e as [d2 |] eqn:E2; [| discriminate]
  end.
  unfold bind in Hd. inversion Hd; subst; clear Hd.
  apply frame_drawAtomRegions in E2. rewrite E2.
  destruct (includeAtomTags (options_ d1)); autorewrite with frame; exact E1.
Qed.

Lemma frame_circleHighlights hl ha atoms d d' :
  circleHighlights hl ha atoms d = Some d' -> frame d' = frame d.
Proof.
  revert d; induction atoms as [| a atoms IH]; intros d Hd; simpl in Hd.
  - inversion Hd; reflexivity.
  - destruct (existsb (Nat.eqb a) ha); [| apply IH; exact Hd].
    match type of Hd with
    | bind ?e _ = Some _ => destruct e as [cds |]; [| discriminate]
    end.
    unfold bind at 1 in Hd.
    destruct (nth_error cds a); [| discriminate]. unfold bind in Hd.
    rewrite (IH _ Hd). autorewrite with frame. reflexivity.
Qed.

(** A call of [drawMolecule] that returns leaves one more entry on each
    of the seven vectors and the active index one higher. *)
Lemma frame_drawMolecule fuel mol hl confId d d' :
  drawMolecule fuel mol hl confId d = Some d' ->
  frame d' = (map S (stack_depths d), (activeMolIdx_ d + 1)%Z).
Proof.
  unfold drawMolecule; intros Hd.
  rewrite <- frame_pushDrawDetails.
  match type of Hd with
  | bind ?e _ = Some _ => destruct e as [[draw_mol d1] |] eqn:E1;
                          [| discriminate]
  end.
  apply frame_setupMoleculeDraw in E1. rewrite frame_set_text_drawer in E1.
  unfold bind at 1 in Hd.
  destruct (getNumConformers draw_mol =? 0)%nat.
  { inversion Hd; subst. exact E1. }
  destruct (at_active (pre_shapes_ d1) d1) as [pre |]; [| discriminate].
  unfold bind at 1 in Hd.
  match type of Hd with
  | bind ?e _ = Some _ => destruct e as [[hl2 d2] |] eqn:E2; [| discriminate]
  end.
  assert (F2 : frame d2 = frame d1).
  { destruct (continuousHighlight _).
    - inversion E2; subst. autorewrite with frame.
      destruct (negb _); autorewrite with frame; reflexivity.
    - destruct (highlight_atoms hl) as [ha |].
      + destruct (circleAtoms _).
        * match type of E2 with
          | bind ?e _ = Some _ => destruct e as [d3 |] eqn:E3; [| discriminate]
          end.
          unfold bind in E2. inversion E2; subst.
          apply frame_circleHighlights in E3. autorewrite with frame.
          rewrite E3. autorewrite with frame.
          destruct (negb _); autorewrite with frame; reflexivity.
        * inversion E2; subst.
          destruct (negb _); autorewrite with frame; reflexivity.
      + inversion E2; subst.
        destruct (negb _); autorewrite with frame; reflexivity. }
  unfold bind at 1 in Hd.
  match type of Hd with
  | bind ?e _ = Some _ => destruct e as [d4 |] eqn:E4; [| discriminate]
  end.
  apply frame_drawBonds in E4. unfold bind at 1 in Hd.
  match type of Hd with
  | bind ?e _ = Some _ => destruct e as [cols |]; [| discriminate]
  end.
  unfold bind in Hd. inversion Hd; subst; clear Hd.
  match goal with |- context [if ?b then _ else _] => destruct b end;
    autorewrite with frame; congruence.
Qed.
End FrameOrchestrator.

(* ================================================================== *)
(** ** Theorems: the draw pass and the context stack *)

(** C2 as stated fails: [drawMolecule] on a fresh drawer, for a molecule
    without conformers (the early return), comes back with one entry on
    each of the seven vectors and the active index at 0, where they were
    empty and -1. *)
Lemma drawMolecule_context_counterexample :
  exists d',
    drawMolecule 0 no_coords_mol noHighlights (-1) fresh_drawer = Some d' /\
    stack_depths fresh_drawer = [0; 0; 0; 0; 0; 0; 0]%nat /\
    activeMolIdx_ fresh_drawer = (-1)%Z /\
    stack_depths d' = [1; 1; 1; 1; 1; 1; 1]%nat /\
    activeMolIdx_ d' = 0%Z /\
    ~ spec_context_restored fresh_drawer d'.
Proof.
  eexists. split; [reflexivity |].
  repeat (split; [reflexivity |]).
  intros [Hdepth _]. discriminate Hdepth.
Qed.

(** C2, amended: a draw pass pushes a render context on entry and does not
    pop it: after any call of [drawMolecule] that returns (the early return
    for a molecule without conformers included) each of the seven
    per-molecule vectors is one entry deeper than before the call and the
    active index is one higher. *)
Theorem drawMolecule_pushes_one_context :
  forall (T : Type) (DT : DrawText T) (LM : LabelMetrics T) (Rd : Renderer T)
         (MS : MolServices T) (fuel : nat) (mol : ROMol) (hl : Highlights)
         (confId : Z) (d d' : MolDraw2D T),
    drawMolecule fuel mol hl confId d = Some d' ->
    stack_depths d' = map S (stack_depths d) /\
    activeMolIdx_ d' = (activeMolIdx_ d + 1)%Z.
Proof.
  intros T DT LM Rd MS fuel mol hl confId d d' Hd.
  pose proof (frame_drawMolecule fuel mol hl confId d d' Hd) as Hf.
  unfold frame in Hf.
  split; [exact (f_equal fst Hf) | exact (f_equal snd Hf)].
Qed.

Lemma butene_like_run_returns :
  is_some (drawMolecule 0 butene_like noHighlights (-1) scaled_drawer) = true.
Proof. lazy. reflexivity. Qed.

Lemma drawMolecule_pushes_one_context_witness :
  exists d',
    drawMolecule 0 butene_like noHighlights (-1) scaled_drawer = Some d' /\
    getNumConformers butene_like = 1%nat /\
    stack_depths d' = map S (stack_depths scaled_drawer) /\
    activeMolIdx_ d' = (activeMolIdx_ scaled_drawer + 1)%Z.
Proof.
  destruct (drawMolecule 0 butene_like noHighlights (-1) scaled_drawer)
    as [d' |] eqn:Erun.
  - exists d'. split; [reflexivity |]. split; [reflexivity |].
    exact (drawMolecule_pushes_one_context unit unit_DrawText unit_LabelMetrics
             unit_Renderer unit_MolServices 0 butene_like noHighlights (-1)
             scaled_drawer d' Erun).
  - exfalso. pose proof butene_like_run_returns as Hrun.
    rewrite Erun in Hrun. discriminate Hrun.
Defined.

(* ================================================================== *)
(** ** The molecule without coordinates *)

Section NoCoordinates.
Context {T : Type} `{DrawText T} `{LabelMetrics T} `{Renderer T}
        `{MolServices T}.
Implicit Type d : MolDraw2D T.

Lemma drawAtomRegions_small regions d :
  (forall region, In region regions -> (length region <= 1)%nat) ->
  drawAtomRegions regions d = Some d.
Proof.
  induction regions as [| region rest IH]; intros Hs; simpl; [reflexivity |].
  unfold drawAtomRegion.
  assert (E : (1 <? length region)%nat = false).
  { apply Nat.ltb_ge. apply Hs. left; reflexivity. }
  rewrite E; simpl. apply IH. intros r Hr. apply Hs. right; exact Hr.
Qed.

(** Without an atom region of more than one atom, a molecule that has
    no conformer after the preparation step is a no-op of the canvas:
    [drawMolecule] returns and has drawn nothing. *)
Lemma drawMolecule_no_conformer_noop fuel mol hl confId d rwmol :
  preparedMol (options_ d) mol confId = Some rwmol ->
  getNumConformers rwmol = 0%nat ->
  (forall region, In region (atomRegions (options_ d)) ->
                  (length region <= 1)%nat) ->
  exists d', drawMolecule fuel mol hl confId d = Some d' /\
             filter is_primitive (canvas d')
             = filter is_primitive (canvas d).
Proof.
  intros Hprep Hnone Hregions.
  unfold drawMolecule, setupMoleculeDraw, setupDrawMolecule.
  cbn [options_ set_scaling set_text_drawer pushDrawDetails].
  rewrite Hprep. cbn [bind]. rewrite Hnone. cbn [Nat.eqb bind].
  cbn [options_ set_scaling set_text_drawer pushDrawDetails].
  destruct (includeAtomTags (options_ d)) eqn:Etag.
  - replace (options_ (emit [TagAtoms] _)) with (options_ d) by reflexivity.
    rewrite drawAtomRegions_small by exact Hregions.
    cbn [bind]. rewrite Hnone. cbn [Nat.eqb].
    eexists; split; [reflexivity |].
    rewrite canvas_emit. cbn [canvas]. rewrite filter_app; simpl.
    rewrite app_nil_r. reflexivity.
  - cbn [options_].
    rewrite drawAtomRegions_small by exact Hregions.
    cbn [bind]. rewrite Hnone. cbn [Nat.eqb].
    eexists; split; reflexivity.
Qed.
End NoCoordinates.

(* ================================================================== *)
(** ** The molecule without coordinates and an atom region *)

(** The sample preparation service hands the molecule on as it is.  With
    the atom region {0, 1} set in the options, [drawMolecule] for a
    molecule that this service leaves without a conformer does not return
    normally: [setupMoleculeDraw] reads the coordinate of atom 0 from the
    array that [pushDrawDetails] has just pushed empty, before
    [drawMolecule] gets to test the conformers. *)
Lemma drawMolecule_no_conformer_atomRegions_fault :
  preparedMol (options_ region_drawer) no_coords_mol (-1) = Some no_coords_mol /\
  getNumConformers no_coords_mol = 0%nat /\
  atomRegions (options_ region_drawer) = [[0; 1]%nat] /\
  drawMolecule 0 no_coords_mol noHighlights (-1) region_drawer = None /\
  exists d', drawMolecule 0 no_coords_mol noHighlights (-1) fresh_drawer
             = Some d' /\ canvas d' = [].
Proof.
  repeat (split; [reflexivity |]).
  eexists; split; reflexivity.
Qed.

(* ================================================================== *)
(** ** Annotation placement *)

Section Placement.
Context {T : Type} `{DrawText T} `{TextGeometry T}.
Implicit Type d : MolDraw2D T.

(** The score names the first test that fails: 1 for an incident bond,
    2 for an atom label, 3 for another annotation, 0 for none. *)
Lemma noteClashScore_cases note_pos rects mol atom d s :
  noteClashScore note_pos rects mol atom d = Some s ->
  (s = 1%Z /\ doesNoteClashNbourBonds note_pos rects mol atom d = Some true)
  \/ (s = 2%Z /\ doesNoteClashNbourBonds note_pos rects mol atom d = Some false
      /\ doesNoteClashAtomLabels note_pos rects mol atom d = Some true)
  \/ (s = 3%Z /\ doesNoteClashNbourBonds note_pos rects mol atom d = Some false
      /\ doesNoteClashAtomLabels note_pos rects mol atom d = Some false
      /\ doesNoteClashOtherNotes note_pos rects d = Some true)
  \/ (s = 0%Z /\ doesNoteClashNbourBonds note_pos rects mol atom d = Some false
      /\ doesNoteClashAtomLabels note_pos rects mol atom d = Some false
      /\ doesNoteClashOtherNotes note_pos rects d = Some false).
Proof.
  unfold noteClashScore; intros Hs.
  destruct (doesNoteClashNbourBonds note_pos rects mol atom d) as [[|] |];
    simpl in Hs; try discriminate.
  { inversion Hs; auto. }
  destruct (doesNoteClashAtomLabels note_pos rects mol atom d) as [[|] |];
    simpl in Hs; try discriminate.
  { inversion Hs; auto. }
  destruct (doesNoteClashOtherNotes note_pos rects d) as [[|] |];
    simpl in Hs; try discriminate; inversion Hs; auto 10.
Qed.

Lemma noteClashScore_range note_pos rects mol atom d s :
  noteClashScore note_pos rects mol atom d = Some s -> (0 <= s <= 3)%Z.
Proof.
  intros Hs. apply noteClashScore_cases in Hs.
  destruct Hs as [[-> _] | [[-> _] | [[-> _] | [-> _]]]]; lia.
Qed.

(** When every candidate clashes, the scan that finishes with
    [annot.rect_ = least_worst_rect] stores a rectangle that sits at one
    of the candidates. *)
Lemma scanCandidates_least_worst_in (score : Point2D -> option Z)
    (univ : list Point2D) d :
  forall (cands : list Point2D) (lw : StringRect) (annot : AnnotationType),
    (forall p, In p cands -> In p univ) ->
    (forall p, In p cands ->
       exists s, score (testedAt (scaling d) p) = Some s /\ (1 <= s <= 3)%Z) ->
    In (trans_ lw) univ \/ (3 < clash_score_ lw)%Z ->
    cands <> [] \/ In (trans_ lw) univ ->
    exists annot',
      scanCandidates score (fun lw a => set_rect lw a) lw annot cands d
        = Some annot' /\
      In (trans_ (rect_ annot')) univ.
Proof.
  induction cands as [| p rest IH]; intros lw annot Hsub Hclash Hlw Hne.
  - simpl. eexists; split; [reflexivity |]. simpl.
    destruct Hne as [Hne | Hin]; [contradiction | exact Hin].
  - simpl. destruct (Hclash p (or_introl eq_refl)) as (s & Hs & Hr).
    unfold testedAt in Hs. rewrite Hs; simpl.
    assert (E0 : (s =? 0)%Z = false) by (apply Z.eqb_neq; lia).
    rewrite E0.
    apply IH.
    + intros q Hq; apply Hsub; right; exact Hq.
    + intros q Hq; apply Hclash; right; exact Hq.
    + left. destruct (s <? clash_score_ lw)%Z eqn:E; simpl.
      * apply Hsub; left; reflexivity.
      * apply Z.ltb_ge in E. destruct Hlw as [Hin | Hbig]; [exact Hin | lia].
    + right. destruct (s <? clash_score_ lw)%Z eqn:E; simpl.
      * apply Hsub; left; reflexivity.
      * apply Z.ltb_ge in E. destruct Hlw as [Hin | Hbig]; [exact Hin | lia].
Qed.

(** When every candidate clashes, the scan that finishes without an
    assignment leaves the annotation at the last candidate. *)
Lemma scanCandidates_keep_last (score : Point2D -> option Z) d :
  forall (cands : list Point2D) (lw : StringRect) (annot : AnnotationType),
    (forall p, In p cands ->
       exists s, score (testedAt (scaling d) p) = Some s /\ (1 <= s <= 3)%Z) ->
    exists annot',
      scanCandidates score (fun _ a => a) lw annot cands d = Some annot' /\
      trans_ (rect_ annot') = last cands (trans_ (rect_ annot)).
Proof.
  induction cands as [| p rest IH]; intros lw annot Hclash.
  - simpl. eexists; split; reflexivity.
  - simpl scanCandidates.
    destruct (Hclash p (or_introl eq_refl)) as (s & Hs & Hr).
    unfold testedAt in Hs. rewrite Hs; simpl bind.
    assert (E0 : (s =? 0)%Z = false) by (apply Z.eqb_neq; lia).
    rewrite E0.
    match goal with
    | |- exists a, scanCandidates _ _ ?lw' ?annot1 rest d = Some a /\ _ =>
        destruct (IH lw' annot1 (fun q Hq => Hclash q (or_intror Hq)))
          as (annot' & Hscan & Hlast)
    end.
    exists annot'. split; [exact Hscan |]. rewrite Hlast.
    destruct rest as [| p' rest']; [reflexivity |].
    cbn [last]. generalize (trans_ (rect_ annot)).
    generalize (trans_ (rect_ (set_rect (set_trans p (rect_ annot)) annot))).
    clear. revert p'. induction rest' as [| x l IHl]; intros p' a b;
      [reflexivity |].
    cbn [last]. apply (IHl x).
Qed.

Lemma atomNoteCandidates_nonempty at_cds start_ang has_symbol :
  atomNoteCandidates at_cds start_ang has_symbol <> [].
Proof.
  unfold atomNoteCandidates; simpl.
  destruct has_symbol; simpl; discriminate.
Qed.

Lemma bondNoteCandidates_nonempty at1_cds at2_cds step multiple :
  bondNoteCandidates at1_cds at2_cds step multiple <> [].
Proof.
  unfold bondNoteCandidates; simpl.
  destruct multiple; simpl; discriminate.
Qed.

Lemma last_in {A : Type} (l : list A) (a : A) : l <> [] -> In (last l a) l.
Proof.
  induction l as [| x l IH]; intros Hne; [contradiction |].
  destruct l as [| y l]; [left; reflexivity |].
  right. apply IH. discriminate.
Qed.
End Placement.

(* ================================================================== *)
(** ** Theorems: the position of a note that always clashes *)

(** For an atom note and for a bond note, when none of the tried
    candidate positions is clash-free, the position finally stored in the
    annotation is one of the tried positions, and it clashes like them,
    with a score of 1 for an incident bond, else 2 for an atom label, else
    3 for a previously placed annotation.  For a bond note it is the last
    position tried: [least_worst_rect] is never assigned back. *)
Theorem note_position_is_a_tried_position :
  forall (T : Type) (DT : DrawText T) (TG : TextGeometry T) (mol : ROMol),
    (forall (d d1 : MolDraw2D T) (atom : nat) (start_ang : R)
            (annot : AnnotationType) (cds : list Point2D) (at_cds : Point2D)
            (syms : list (string * OrientType)) (atsym : string * OrientType)
            (rects : list StringRect),
        at_active (at_cds_ d) d = Some cds ->
        nth_error cds atom = Some at_cds ->
        at_active (atom_syms_ d) d = Some syms ->
        nth_error syms atom = Some atsym ->
        noteRects (text_ annot) C_ (align_ annot) d = (rects, d1) ->
        let cands := atomNoteCandidates at_cds start_ang
                       (negb (String.eqb (fst atsym) EmptyString)) in
        (forall p, In p cands ->
           exists s, doesAtomNoteClash (testedAt (scaling d1) p) rects mol
                       atom d1 = Some s /\ s <> 0%Z) ->
        exists annot' s,
          calcAtomAnnotationPosition mol atom start_ang annot d
            = Some (annot', d1) /\
          In (trans_ (rect_ annot')) cands /\
          doesAtomNoteClash (testedAt (scaling d1) (trans_ (rect_ annot')))
            rects mol atom d1 = Some s /\
          (1 <= s <= 3)%Z)
    /\
    (forall (d d1 : MolDraw2D T) (bond : Bond) (annot : AnnotationType)
            (cds : list Point2D) (at1_cds at2_cds : Point2D)
            (rects : list StringRect),
        text_ annot <> EmptyString ->
        at_active (at_cds_ d) d = Some cds ->
        nth_error cds (getBeginAtomIdx bond) = Some at1_cds ->
        nth_error cds (getEndAtomIdx bond) = Some at2_cds ->
        noteRects (text_ annot) N_ MIDDLE d = (rects, d1) ->
        let cands := bondNoteCandidates at1_cds at2_cds
                       (multipleBondOffset (options_ d))
                       (1 <? bondTypeAsInt (getBondType bond))%Z in
        (forall p, In p cands ->
           exists s, doesBondNoteClash (testedAt (scaling d1) p) rects mol
                       bond d1 = Some s /\ s <> 0%Z) ->
        exists annot' s,
          calcBondAnnotationPosition mol bond annot d = Some (annot', d1) /\
          In (trans_ (rect_ annot')) cands /\
          trans_ (rect_ annot') = last cands (trans_ (rect_ annot)) /\
          doesBondNoteClash (testedAt (scaling d1) (trans_ (rect_ annot')))
            rects mol bond d1 = Some s /\
          (1 <= s <= 3)%Z).
Proof.
  intros T DT TG mol. split.
  - intros d d1 atom start_ang annot cds at_cds syms atsym rects
           Hcds Hat Hsyms Hsym Hrects cands Hclash.
    assert (Hrange : forall p, In p cands ->
              exists s, doesAtomNoteClash (testedAt (scaling d1) p) rects mol
                          atom d1 = Some s /\ (1 <= s <= 3)%Z).
    { intros p Hp. destruct (Hclash p Hp) as (s & Hs & Hnz).
      exists s; split; [exact Hs |].
      unfold doesAtomNoteClash in Hs.
      destruct (atom <? getNumAtoms mol)%nat; [| discriminate].
      apply noteClashScore_range in Hs. lia. }
    destruct (scanCandidates_least_worst_in
                (fun note_pos => doesAtomNoteClash note_pos rects mol atom d1)
                cands d1 cands (set_clash_score 100 defaultStringRect) annot
                (fun p Hp => Hp) Hrange)
      as (annot' & Hscan & Hin).
    { right; simpl; lia. }
    { left; apply atomNoteCandidates_nonempty. }
    destruct (Hrange _ Hin) as (s & Hs & Hr).
    exists annot', s. split; [| split; [exact Hin | split; assumption]].
    unfold calcAtomAnnotationPosition.
    rewrite Hcds; cbn [bind]. rewrite Hat; cbn [bind].
    rewrite Hsyms; cbn [bind]. rewrite Hsym; cbn [bind].
    rewrite Hrects. fold cands. rewrite Hscan. reflexivity.
  - intros d d1 bond annot cds at1_cds at2_cds rects
           Htext Hcds Hat1 Hat2 Hrects cands Hclash.
    assert (Hrange : forall p, In p cands ->
              exists s, doesBondNoteClash (testedAt (scaling d1) p) rects mol
                          bond d1 = Some s /\ (1 <= s <= 3)%Z).
    { intros p Hp. destruct (Hclash p Hp) as (s & Hs & Hnz).
      exists s; split; [exact Hs |].
      unfold doesBondNoteClash in Hs.
      apply noteClashScore_range in Hs. lia. }
    destruct (scanCandidates_keep_last
                (fun note_pos => doesBondNoteClash note_pos rects mol bond d1)
                d1 cands (set_clash_score 100 defaultStringRect) annot Hrange)
      as (annot' & Hscan & Hlast).
    assert (Hin : In (trans_ (rect_ annot')) cands).
    { rewrite Hlast. apply last_in. apply bondNoteCandidates_nonempty. }
    destruct (Hrange _ Hin) as (s & Hs & Hr).
    exists annot', s.
    split; [| split; [exact Hin | split; [exact Hlast | split; assumption]]].
    unfold calcBondAnnotationPosition.
    assert (Et : String.eqb (text_ annot) EmptyString = false)
      by (apply String.eqb_neq; exact Htext).
    rewrite Et. rewrite Hrects.
    assert (Hd1 : d1 = set_text_drawer (text_drawer_ d1) d).
    { unfold noteRects in Hrects. inversion Hrects; subst. reflexivity. }
    assert (Hcds1 : at_active (at_cds_ d1) d1 = Some cds)
      by (rewrite Hd1; exact Hcds).
    assert (Hopt : options_ d1 = options_ d) by (rewrite Hd1; reflexivity).
    rewrite Hcds1; cbn [bind]. rewrite Hat1; cbn [bind].
    rewrite Hat2; cbn [bind].
    rewrite Hopt. fold cands. rewrite Hscan. reflexivity.
Qed.


(** The sample note: what the clash tests make of a position. *)
Lemma note_clash_score (note_pos : Point2D) :
  noteClashScore note_pos [defaultStringRect] note_mol 0 note_drawer
  = Some (if Rltb 0.2 (radial_sq note_pos) && Rltb (radial_sq note_pos) 0.3
          then 3%Z else 1%Z).
Proof.
  unfold noteClashScore, doesNoteClashNbourBonds,
    doesNoteClashAtomLabels, doesNoteClashOtherNotes, getDrawCoordsOfAtom.
  simpl.
  destruct (Rltb 0.2 (radial_sq _)); destruct (Rltb (radial_sq _) 0.3);
    reflexivity.
Qed.

Lemma note_score (p : Point2D) :
  doesAtomNoteClash (testedAt (scaling note_drawer) p) [defaultStringRect]
    note_mol 0 note_drawer
  = Some (if Rltb 0.2 (radial_sq (testedAt (scaling note_drawer) p))
             && Rltb (radial_sq (testedAt (scaling note_drawer) p)) 0.3
          then 3%Z else 1%Z).
Proof. apply note_clash_score. Qed.

Lemma bond_note_clash (p : Point2D) :
  exists s,
    doesBondNoteClash (testedAt (scaling note_drawer) p) [defaultStringRect]
      note_mol (plainBond 0 0 1 SINGLE) note_drawer = Some s /\ s <> 0%Z.
Proof.
  unfold doesBondNoteClash. cbn [getBeginAtomIdx plainBond].
  rewrite note_clash_score.
  destruct (Rltb 0.2 _ && Rltb _ 0.3); eexists; split; try reflexivity;
    discriminate.
Qed.

Lemma radial_sq_radial (ang rad : R) :
  radial_sq (testedAt (scaling note_drawer) (radial ang rad)) = rad * rad.
Proof.
  unfold radial_sq, testedAt, getAtomCoords, as_pair, radial; simpl.
  pose proof (sin2_cos2 ang) as Htrig. unfold Rsqr in Htrig.
  replace (0 + cos ang * rad - 0) with (cos ang * rad) by ring.
  replace (300 - (0 - 0 - (0 + sin ang * rad - 0 - 300 + 0) / 1))
    with (sin ang * rad) by field.
  replace (cos ang * rad / 1 + 0 - 0) with (cos ang * rad) by field.
  nra.
Qed.

Lemma note_score_radial (ang rad : R) :
  doesAtomNoteClash (testedAt (scaling note_drawer) (radial ang rad))
    [defaultStringRect] note_mol 0 note_drawer
  = Some (if Rltb 0.2 (rad * rad) && Rltb (rad * rad) 0.3 then 3%Z else 1%Z).
Proof. rewrite note_score, radial_sq_radial. reflexivity. Qed.

Lemma note_candidates_radial (p : Point2D) :
  In p (atomNoteCandidates (mkPoint2D 0 0) 0 false) ->
  exists ang rad, p = radial ang rad.
Proof.
  unfold atomNoteCandidates. intros Hin.
  apply in_flat_map in Hin as (j & _ & Hin).
  destruct ((j =? 1)%nat && false); [inversion Hin |].
  apply in_map_iff in Hin as (i & <- & _).
  eexists; eexists; reflexivity.
Qed.

Lemma note_candidates_clash (p : Point2D) :
  In p (atomNoteCandidates (mkPoint2D 0 0) 0 false) ->
  exists s,
    doesAtomNoteClash (testedAt (scaling note_drawer) p) [defaultStringRect]
      note_mol 0 note_drawer = Some s /\ (1 <= s <= 3)%Z.
Proof.
  intros Hin. destruct (note_candidates_radial p Hin) as (ang & rad & ->).
  rewrite note_score_radial.
  destruct (Rltb 0.2 (rad * rad) && Rltb (rad * rad) 0.3);
    eexists; split; try reflexivity; lia.
Qed.

(** Whatever [clash_score_] the annotation carries, a scan whose last
    candidate meets a bond ends on a position that meets a bond, when the
    position held on entry does. *)
Lemma scanCandidates_ends_on_bond {T : Type} (score : Point2D -> option Z)
    (d : MolDraw2D T) (c0 : Z) :
  forall (cands : list Point2D) (lw : StringRect) (annot : AnnotationType),
    clash_score_ (rect_ annot) = c0 ->
    clash_score_ lw = c0 ->
    (forall p, In p cands ->
       exists s, score (testedAt (scaling d) p) = Some s /\ (1 <= s <= 3)%Z) ->
    (cands <> [] ->
     forall dflt, score (testedAt (scaling d) (last cands dflt)) = Some 1%Z) ->
    score (testedAt (scaling d) (trans_ lw)) = Some 1%Z \/
    (cands <> [] /\ (1 < c0)%Z) ->
    exists annot',
      scanCandidates score (fun lw a => set_rect lw a) lw annot cands d
        = Some annot' /\
      score (testedAt (scaling d) (trans_ (rect_ annot'))) = Some 1%Z.
Proof.
  induction cands as [| p rest IH]; intros lw annot Hannot Hlw Hclash Hlast Hinv.
  - simpl. eexists; split; [reflexivity |].
    destruct Hinv as [Hinv | [Hne _]]; [exact Hinv | contradiction].
  - simpl scanCandidates.
    destruct (Hclash p (or_introl eq_refl)) as (s & Hs & Hr).
    pose proof Hs as Hs'. unfold testedAt in Hs'. rewrite Hs'; simpl bind.
    assert (E0 : (s =? 0)%Z = false) by (apply Z.eqb_neq; lia).
    rewrite E0.
    apply IH.
    + exact Hannot.
    + destruct (s <? clash_score_ lw)%Z; [exact Hannot | exact Hlw].
    + intros q Hq. apply Hclash. right; exact Hq.
    + intros Hne dflt. destruct rest as [| r rest']; [contradiction |].
      apply (Hlast ltac:(discriminate) dflt).
    + destruct rest as [| r rest'].
      * left. specialize (Hlast ltac:(discriminate) p). simpl in Hlast.
        rewrite Hs in Hlast. injection Hlast as ->.
        destruct (1 <? clash_score_ lw)%Z eqn:E1.
        -- exact Hs.
        -- destruct Hinv as [Hinv | [_ Hc]]; [exact Hinv |].
           apply Z.ltb_ge in E1. lia.
      * destruct (s <? clash_score_ lw)%Z eqn:E1.
        -- right. split; [discriminate |]. apply Z.ltb_lt in E1. lia.
        -- destruct Hinv as [Hinv | [_ Hc]].
           ++ left; exact Hinv.
           ++ right. split; [discriminate | exact Hc].
Qed.

(** The sample note with any [clash_score_] of its own: the position
    stored meets the bond of the atom. *)
Lemma atom_note_ends_on_bond (c0 : Z) :
  exists annot',
    calcAtomAnnotationPosition note_mol 0 0
      (mkAnnotationType "note" (set_clash_score c0 defaultStringRect)
         MIDDLE true) note_drawer
      = Some (annot', note_drawer) /\
    doesAtomNoteClash (testedAt (scaling note_drawer) (trans_ (rect_ annot')))
      [defaultStringRect] note_mol 0 note_drawer = Some 1%Z.
Proof.
  set (note := mkAnnotationType "note" (set_clash_score c0 defaultStringRect)
                 MIDDLE true).
  set (ang0 := 0 + INR 0 * 30.0 * PI / 180.0).
  set (ang11 := 0 + INR 11 * 30.0 * PI / 180.0).
  set (p0 := radial ang0 (INR 1 * 0.25)).
  assert (Hcands : atomNoteCandidates (mkPoint2D 0 0) 0 false
                   = p0 :: tl (atomNoteCandidates (mkPoint2D 0 0) 0 false))
    by reflexivity.
  assert (Hs0 : doesAtomNoteClash (testedAt (scaling note_drawer) p0)
                  [defaultStringRect] note_mol 0 note_drawer = Some 1%Z).
  { unfold p0. rewrite note_score_radial.
    assert (E : Rltb 0.2 (INR 1 * 0.25 * (INR 1 * 0.25)) = false)
      by (apply Rltb_false; simpl; lra).
    rewrite E. reflexivity. }
  destruct (scanCandidates_ends_on_bond
              (fun note_pos =>
                 doesAtomNoteClash note_pos [defaultStringRect] note_mol 0
                   note_drawer)
              note_drawer c0
              (tl (atomNoteCandidates (mkPoint2D 0 0) 0 false))
              (set_trans p0 (rect_ note))
              (set_rect (set_trans p0 (rect_ note)) note))
    as (annot' & Hscan & Hscore).
  { reflexivity. }
  { reflexivity. }
  { intros p Hp. apply note_candidates_clash. rewrite Hcands. right; exact Hp. }
  { intros _ dflt.
    change (last (tl (atomNoteCandidates (mkPoint2D 0 0) 0 false)) dflt)
      with (radial ang11 (INR 3 * 0.25)).
    rewrite note_score_radial.
    assert (E : Rltb (INR 3 * 0.25 * (INR 3 * 0.25)) 0.3 = false)
      by (apply Rltb_false; simpl; lra).
    rewrite E, andb_false_r. reflexivity. }
  { left. exact Hs0. }
  exists annot'. split; [| exact Hscore].
  unfold calcAtomAnnotationPosition.
  change (at_active (at_cds_ note_drawer) note_drawer)
    with (Some [mkPoint2D 0 0; mkPoint2D 1 0]).
  cbn [bind nth_error].
  change (at_active (atom_syms_ note_drawer) note_drawer)
    with (Some [(EmptyString, C_); (EmptyString, C_)]).
  cbn [bind nth_error fst String.eqb negb].
  change (noteRects (text_ note) C_ (align_ note) note_drawer)
    with ([defaultStringRect], note_drawer).
  cbv iota beta.
  rewrite Hcands. cbn [scanCandidates].
  unfold testedAt in Hs0. rewrite Hs0. cbn [bind Z.eqb].
  change (1 <? clash_score_ (set_clash_score 100 defaultStringRect))%Z
    with true.
  cbv iota.
  change (rect_ (set_rect (set_trans p0 (rect_ note)) note))
    with (set_trans p0 (rect_ note)).
  rewrite Hscan. reflexivity.
Qed.



Lemma note_position_is_a_tried_position_witness :
  (exists annot' s,
     calcAtomAnnotationPosition note_mol 0 0 atom_note note_drawer
       = Some (annot', note_drawer) /\
     In (trans_ (rect_ annot')) (atomNoteCandidates (mkPoint2D 0 0) 0 false) /\
     doesAtomNoteClash (testedAt (scaling note_drawer) (trans_ (rect_ annot')))
       [defaultStringRect] note_mol 0 note_drawer = Some s /\
     (1 <= s <= 3)%Z)
  /\
  (exists annot' s,
     calcBondAnnotationPosition note_mol (plainBond 0 0 1 SINGLE) atom_note
       note_drawer = Some (annot', note_drawer) /\
     In (trans_ (rect_ annot'))
        (bondNoteCandidates (mkPoint2D 0 0) (mkPoint2D 1 0) 0.15 false) /\
     trans_ (rect_ annot')
       = last (bondNoteCandidates (mkPoint2D 0 0) (mkPoint2D 1 0) 0.15 false)
              (trans_ (rect_ atom_note)) /\
     doesBondNoteClash (testedAt (scaling note_drawer) (trans_ (rect_ annot')))
       [defaultStringRect] note_mol (plainBond 0 0 1 SINGLE) note_drawer
       = Some s /\
     (1 <= s <= 3)%Z).
Proof.
  destruct (note_position_is_a_tried_position unit unit_DrawText
              radial_TextGeometry note_mol) as [Hatom Hbond].
  split.
  - apply (Hatom note_drawer note_drawer 0%nat 0 atom_note
             [mkPoint2D 0 0; mkPoint2D 1 0] (mkPoint2D 0 0)
             [(EmptyString, C_); (EmptyString, C_)] (EmptyString, C_)
             [defaultStringRect] eq_refl eq_refl eq_refl eq_refl eq_refl).
    intros p Hp. destruct (note_candidates_clash p Hp) as (s & Hs & Hr).
    exists s. split; [exact Hs | lia].
  - apply (Hbond note_drawer note_drawer (plainBond 0 0 1 SINGLE) atom_note
             [mkPoint2D 0 0; mkPoint2D 1 0] (mkPoint2D 0 0) (mkPoint2D 1 0)
             [defaultStringRect]).
    + discriminate.
    + reflexivity.
    + reflexivity.
    + reflexivity.
    + reflexivity.
    + intros p _. apply bond_note_clash.
Defined.

(* ================================================================== *)
(** ** Further properties: perpendiculars and bond lines *)

Lemma Rleb_true (a b : R) : Rleb a b = true <-> a <= b.
Proof. unfold Rleb; destruct (Rle_dec a b); split; intros; try discriminate; auto; lra. Qed.

Lemma Rleb_false (a b : R) : Rleb a b = false <-> b < a.
Proof. unfold Rleb; destruct (Rle_dec a b); split; intros; try discriminate; auto; lra. Qed.

(** X1: for two distinct points, [calcPerpendicular] is a unit vector at
    right angles to the line through them, and giving the points in the
    other order turns it round. *)
Theorem calcPerpendicular_unit_normal :
  forall c1 c2 : Point2D,
    c1 <> c2 ->
    lengthSq (calcPerpendicular c1 c2) = 1 /\
    dotProduct (calcPerpendicular c1 c2) (c1 - c2)%pt = 0 /\
    calcPerpendicular c2 c1 = pneg (calcPerpendicular c1 c2).
Proof.
  intros c1 c2 Hne.
  destruct (calcPerpendicular_unit c1 c2 Hne) as [Hu Ho].
  split; [exact Hu |]. split.
  - unfold dotProduct in *; simpl in *. lra.
  - unfold calcPerpendicular, pneg; simpl.
    replace (- (py c2 - py c1) * - (py c2 - py c1)
             + (px c2 - px c1) * (px c2 - px c1))
      with (- (py c1 - py c2) * - (py c1 - py c2)
            + (px c1 - px c2) * (px c1 - px c2)) by ring.
    pose proof (distinct_points_pos c1 c2 Hne) as Hpos.
    assert (HL : 0 < sqrt (- (py c1 - py c2) * - (py c1 - py c2)
                           + (px c1 - px c2) * (px c1 - px c2)))
      by (apply sqrt_lt_R0; exact Hpos).
    apply point_eq; simpl; field; lra.
Qed.

Lemma calcPerpendicular_unit_normal_witness :
  lengthSq (calcPerpendicular (mkPoint2D 0 0) (mkPoint2D 2 0)) = 1 /\
  dotProduct (calcPerpendicular (mkPoint2D 0 0) (mkPoint2D 2 0))
    (mkPoint2D 0 0 - mkPoint2D 2 0)%pt = 0 /\
  calcPerpendicular (mkPoint2D 2 0) (mkPoint2D 0 0)
  = pneg (calcPerpendicular (mkPoint2D 0 0) (mkPoint2D 2 0)).
Proof.
  apply (calcPerpendicular_unit_normal (mkPoint2D 0 0) (mkPoint2D 2 0)).
  exact butene_like_distinct.
Defined.

(** X2: for distinct [cds1] and [cds2], [calcInnerPerpendicular] is a unit
    vector at right angles to the line through them that does not point
    away from [cds3]: its scalar product with the vector from [cds2] to
    [cds3] is not negative. *)
Theorem calcInnerPerpendicular_points_inside :
  forall c1 c2 c3 : Point2D,
    c1 <> c2 ->
    lengthSq (calcInnerPerpendicular c1 c2 c3) = 1 /\
    dotProduct (calcInnerPerpendicular c1 c2 c3) (c1 - c2)%pt = 0 /\
    0 <= dotProduct (calcInnerPerpendicular c1 c2 c3) (c3 - c2)%pt.
Proof.
  intros c1 c2 c3 Hne.
  destruct (calcPerpendicular_unit c1 c2 Hne) as [Hu Ho].
  unfold calcInnerPerpendicular.
  set (perp := calcPerpendicular c1 c2) in *. clearbody perp.
  destruct perp as [a b], c1 as [x1 y1], c2 as [x2 y2], c3 as [x3 y3].
  unfold lengthSq, dotProduct in *; cbn [px py psub] in *.
  destruct (Rltb _ 0) eqn:E; cbn [px py].
  - apply Rltb_true in E. repeat split; lra.
  - apply Rltb_false in E. repeat split; lra.
Qed.

Lemma calcInnerPerpendicular_points_inside_witness :
  lengthSq (calcInnerPerpendicular (mkPoint2D 0 0) (mkPoint2D 2 0)
              (mkPoint2D 3 (-1))) = 1 /\
  dotProduct (calcInnerPerpendicular (mkPoint2D 0 0) (mkPoint2D 2 0)
                (mkPoint2D 3 (-1))) (mkPoint2D 0 0 - mkPoint2D 2 0)%pt = 0 /\
  0 <= dotProduct (calcInnerPerpendicular (mkPoint2D 0 0) (mkPoint2D 2 0)
                     (mkPoint2D 3 (-1))) (mkPoint2D 3 (-1) - mkPoint2D 2 0)%pt.
Proof.
  apply (calcInnerPerpendicular_points_inside (mkPoint2D 0 0) (mkPoint2D 2 0)
           (mkPoint2D 3 (-1))).
  exact butene_like_distinct.
Defined.

(** X3: the two outer lines of a triple bond run parallel to the bond, one
    on each side of it, four times the offset apart; an end at a terminal
    atom is not shortened, any other end is shortened by 0.15 of the bond
    vector. *)
Theorem calcTripleBondLines_mirror_pair :
  forall (mol : ROMol) (offset : R) (bond : Bond) (c1 c2 : Point2D),
    c1 <> c2 ->
    let lp := calcTripleBondLines mol offset bond c1 c2 in
    let perp := calcPerpendicular c1 c2 in
    (l1s lp - l2s lp)%pt = (perp * (4 * offset))%pt /\
    (l1f lp - l2f lp)%pt = (perp * (4 * offset))%pt /\
    lengthSq (l1s lp - l2s lp)%pt = (4 * offset) * (4 * offset) /\
    ((l1s lp + l2s lp) * 0.5)%pt
    = (if (1 =? getDegree mol (getBeginAtomIdx bond))%nat then c1
       else c1 + (c2 - c1) * 0.15)%pt /\
    ((l1f lp + l2f lp) * 0.5)%pt
    = (if (1 =? getDegree mol (getEndAtomIdx bond))%nat then c2
       else c2 - (c2 - c1) * 0.15)%pt.
Proof.
  intros mol offset bond c1 c2 Hne lp perp.
  destruct (calcPerpendicular_unit c1 c2 Hne) as [Hu _].
  unfold lp, calcTripleBondLines, multipleBondTruncation.
  fold perp. fold perp in Hu. clearbody perp.
  destruct perp as [a b], c1 as [x1 y1], c2 as [x2 y2].
  unfold lengthSq in *; cbn [px py] in Hu.
  destruct (1 =? getDegree mol (getBeginAtomIdx bond))%nat;
    destruct (1 =? getDegree mol (getEndAtomIdx bond))%nat;
    cbn [l1s l1f l2s l2f]; unfold padd, psub, pmul; cbn [px py];
    (split; [apply point_eq; cbn [px py]; lra |]);
    (split; [apply point_eq; cbn [px py]; lra |]);
    (split; [transitivity ((a * a + b * b) * (16 * (offset * offset)));
             [nra | rewrite Hu; ring] |]);
    (split; apply point_eq; cbn [px py]; lra).
Qed.

Lemma calcTripleBondLines_mirror_pair_witness :
  lengthSq (l1s (calcTripleBondLines butene_like 0.15 butene_like_bond
                   (mkPoint2D 0 0) (mkPoint2D 2 0))
            - l2s (calcTripleBondLines butene_like 0.15 butene_like_bond
                     (mkPoint2D 0 0) (mkPoint2D 2 0)))%pt
  = (4 * 0.15) * (4 * 0.15).
Proof.
  exact (proj1 (proj2 (proj2
           (calcTripleBondLines_mirror_pair butene_like 0.15 butene_like_bond
              (mkPoint2D 0 0) (mkPoint2D 2 0) butene_like_distinct)))).
Defined.

(** X4: for a double bond with a terminal atom at one end, the two lines
    run the whole length of the bond, one on each side of it, each at the
    offset from it: the bond is their centre line. *)
Theorem calcDoubleBondLines_terminal_pair :
  forall (mol : ROMol) (offset : R) (bond : Bond) (c1 c2 : Point2D)
         (at_cds : list Point2D),
    c1 <> c2 ->
    getDegree mol (getBeginAtomIdx bond) = 1%nat \/
    getDegree mol (getEndAtomIdx bond) = 1%nat ->
    exists lp : LinePair,
      calcDoubleBondLines mol offset bond c1 c2 at_cds = Some lp /\
      ((l1s lp + l2s lp) * 0.5)%pt = c1 /\
      ((l1f lp + l2f lp) * 0.5)%pt = c2 /\
      (l1f lp - l1s lp)%pt = (c2 - c1)%pt /\
      (l2f lp - l2s lp)%pt = (c2 - c1)%pt /\
      lengthSq (l1s lp - c1)%pt = offset * offset /\
      lengthSq (l2s lp - c1)%pt = offset * offset /\
      dotProduct (l1s lp - c1)%pt (c2 - c1)%pt = 0.
Proof.
  intros mol offset bond c1 c2 at_cds Hne Hdeg.
  destruct (calcPerpendicular_unit c1 c2 Hne) as [Hu Ho].
  assert (Hsym : terminal_or_linear mol bond at_cds = Some true).
  { unfold terminal_or_linear.
    destruct (1 =? getDegree mol (getBeginAtomIdx bond))%nat eqn:E1;
      [reflexivity |].
    destruct (1 =? getDegree mol (getEndAtomIdx bond))%nat eqn:E2;
      [reflexivity |].
    apply Nat.eqb_neq in E1, E2. destruct Hdeg; congruence. }
  unfold calcDoubleBondLines. rewrite Hsym. cbn [bind].
  eexists; split; [reflexivity |].
  set (perp := calcPerpendicular c1 c2) in *. clearbody perp.
  destruct perp as [a b], c1 as [x1 y1], c2 as [x2 y2].
  unfold lengthSq, dotProduct, padd, psub, pmul in *;
    cbn [l1s l1f l2s l2f px py] in *.
  do 4 (split; [apply point_eq; cbn [px py]; lra |]).
  split; [| split].
  - transitivity ((a * a + b * b) * (offset * offset)); [ring |].
    rewrite Hu; ring.
  - transitivity ((a * a + b * b) * (offset * offset)); [ring |].
    rewrite Hu; ring.
  - transitivity ((a * (x2 - x1) + b * (y2 - y1)) * offset); [ring |].
    rewrite Ho; ring.
Qed.

Lemma calcDoubleBondLines_terminal_pair_witness :
  exists lp : LinePair,
    calcDoubleBondLines query_mol 0.15 query_bond (mkPoint2D 0 0)
      (mkPoint2D 3 0) query_cds = Some lp /\
    ((l1s lp + l2s lp) * 0.5)%pt = mkPoint2D 0 0 /\
    ((l1f lp + l2f lp) * 0.5)%pt = mkPoint2D 3 0 /\
    (l1f lp - l1s lp)%pt = (mkPoint2D 3 0 - mkPoint2D 0 0)%pt /\
    (l2f lp - l2s lp)%pt = (mkPoint2D 3 0 - mkPoint2D 0 0)%pt /\
    lengthSq (l1s lp - mkPoint2D 0 0)%pt = 0.15 * 0.15 /\
    lengthSq (l2s lp - mkPoint2D 0 0)%pt = 0.15 * 0.15 /\
    dotProduct (l1s lp - mkPoint2D 0 0)%pt (mkPoint2D 3 0 - mkPoint2D 0 0)%pt
    = 0.
Proof.
  apply (calcDoubleBondLines_terminal_pair query_mol 0.15 query_bond
           (mkPoint2D 0 0) (mkPoint2D 3 0) query_cds).
  - intros E. injection E as E. lra.
  - left. reflexivity.
Defined.

(* ================================================================== *)
(** ** Further properties: crossing segments *)

Lemma doLinesIntersect_some (a b c d ip : Point2D) :
  doLinesIntersect a b c d = Some ip ->
  cross2 (b - a)%pt (d - c)%pt <> 0 /\ on_segment ip a b /\ on_segment ip c d.
Proof.
  unfold doLinesIntersect, cross2, on_segment.
  destruct a as [ax ay], b as [bx by_], c as [cx cy], d as [dx dy].
  unfold psub, padd, pmul; cbn [px py].
  set (D := - (dx - cx) * (by_ - ay) + (bx - ax) * (dy - cy)).
  destruct (Req_dec_T D 0.0) as [E0 | E0]; [discriminate |].
  set (s := (- (by_ - ay) * (ax - cx) + (bx - ax) * (ay - cy)) / D).
  set (t := ((dx - cx) * (ay - cy) - (dy - cy) * (ax - cx)) / D).
  destruct (Rleb 0 s) eqn:Es0; [| discriminate].
  destruct (Rleb s 1) eqn:Es1; [| discriminate].
  destruct (Rleb 0 t) eqn:Et0; [| discriminate].
  destruct (Rleb t 1) eqn:Et1; [| discriminate].
  cbn [andb]. intros E; injection E as <-.
  apply Rleb_true in Es0, Es1, Et0, Et1.
  assert (HD : D <> 0) by lra.
  split; [unfold D in HD; lra |].
  split.
  - exists t. split; [lra |]. apply point_eq; cbn [px py]; ring.
  - exists s. split; [lra |].
    apply point_eq; cbn [px py]; unfold s, t, D in *; field; exact HD.
Qed.

Lemma doLinesIntersect_complete (a b c d : Point2D) (s t : R) :
  cross2 (b - a)%pt (d - c)%pt <> 0 ->
  0 <= s <= 1 -> 0 <= t <= 1 ->
  (a + (b - a) * t)%pt = (c + (d - c) * s)%pt ->
  doLinesIntersect a b c d = Some (a + (b - a) * t)%pt.
Proof.
  unfold doLinesIntersect, cross2.
  destruct a as [ax ay], b as [bx by_], c as [cx cy], d as [dx dy].
  unfold psub, padd, pmul; cbn [px py].
  intros Hcross Hs Ht Heq. injection Heq as Hx Hy.
  set (D := - (dx - cx) * (by_ - ay) + (bx - ax) * (dy - cy)).
  assert (HD : D <> 0) by (unfold D; lra).
  destruct (Req_dec_T D 0.0) as [E0 | E0]; [exfalso; lra |].
  assert (HU : ax - cx = (dx - cx) * s - (bx - ax) * t) by lra.
  assert (HV : ay - cy = (dy - cy) * s - (by_ - ay) * t) by lra.
  assert (Es : (- (by_ - ay) * (ax - cx) + (bx - ax) * (ay - cy)) / D = s).
  { rewrite HU, HV. unfold D. field. exact HD. }
  assert (Et : ((dx - cx) * (ay - cy) - (dy - cy) * (ax - cx)) / D = t).
  { rewrite HU, HV. unfold D. field. exact HD. }
  rewrite Es, Et.
  rewrite (proj2 (Rleb_true 0 s)), (proj2 (Rleb_true s 1)),
    (proj2 (Rleb_true 0 t)), (proj2 (Rleb_true t 1)) by lra.
  cbn [andb]. f_equal. apply point_eq; cbn [px py]; ring.
Qed.

(** X5: [doLinesIntersect] answers [true] exactly when the two segments
    are not parallel and have a point in common, and the point it gives
    is that common point.  Parallel segments get the answer [false] even
    when they overlap. *)
Theorem doLinesIntersect_iff :
  forall a b c d ip : Point2D,
    doLinesIntersect a b c d = Some ip <->
    cross2 (b - a)%pt (d - c)%pt <> 0 /\ on_segment ip a b /\ on_segment ip c d.
Proof.
  intros a b c d ip. split.
  - apply doLinesIntersect_some.
  - intros (Hcross & (t & Ht & Hab) & (s & Hs & Hcd)).
    rewrite Hab.
    apply (doLinesIntersect_complete a b c d s t Hcross Hs Ht).
    rewrite <- Hab. exact Hcd.
Qed.

(** X6: the answer of [doLinesIntersect], and the point it gives, do not
    depend on the order in which the two segments are passed. *)
Theorem doLinesIntersect_sym :
  forall a b c d : Point2D,
    doLinesIntersect c d a b = doLinesIntersect a b c d.
Proof.
  intros a b c d.
  assert (Hflip : forall u v, cross2 u v <> 0 -> cross2 v u <> 0)
    by (intros u v; unfold cross2; lra).
  destruct (doLinesIntersect a b c d) as [ip |] eqn:E1.
  - apply doLinesIntersect_some in E1 as (Hcross & (t & Ht & Hab) & (s & Hs & Hcd)).
    rewrite Hcd.
    apply (doLinesIntersect_complete c d a b t s (Hflip _ _ Hcross) Ht Hs).
    rewrite <- Hab. symmetry. exact Hcd.
  - destruct (doLinesIntersect c d a b) as [ip |] eqn:E2; [| reflexivity].
    apply doLinesIntersect_some in E2 as (Hcross & (s & Hs & Hcd) & (t & Ht & Hab)).
    pose proof (doLinesIntersect_complete a b c d s t (Hflip _ _ Hcross)
                  Hs Ht) as Hc.
    rewrite <- Hab, <- Hcd in Hc. rewrite Hc in E1 by reflexivity.
    discriminate.
Qed.

(** X7: the two lines of a crossed double bond (unspecified stereo, no
    terminal or linear end) do cross, and they cross at the middle of the
    bond. *)
Theorem calcDoubleBondLines_crossed_lines_cross :
  forall (mol : ROMol) (offset : R) (bond : Bond) (c1 c2 : Point2D)
         (at_cds : list Point2D),
    c1 <> c2 -> offset <> 0 ->
    getDegree mol (getBeginAtomIdx bond) <> 1%nat ->
    getDegree mol (getEndAtomIdx bond) <> 1%nat ->
    isLinearAtom mol (getBeginAtomIdx bond) at_cds = Some false ->
    isLinearAtom mol (getEndAtomIdx bond) at_cds = Some false ->
    getBondDir bond = EITHERDOUBLE \/ getStereo bond = STEREOANY ->
    exists lp : LinePair,
      calcDoubleBondLines mol offset bond c1 c2 at_cds = Some lp /\
      doLinesIntersect (l1s lp) (l1f lp) (l2s lp) (l2f lp)
      = Some ((c1 + c2) * 0.5)%pt.
Proof.
  intros mol offset bond c1 c2 at_cds Hne Hoff Hd1 Hd2 Hl1 Hl2 Hcrossed.
  destruct (calcPerpendicular_unit c1 c2 Hne) as [Hu Ho].
  pose proof (distinct_points_pos c1 c2 Hne) as Hpos.
  assert (Hsym : terminal_or_linear mol bond at_cds = Some false).
  { unfold terminal_or_linear.
    destruct (1 =? getDegree mol (getBeginAtomIdx bond))%nat eqn:E1;
      [apply Nat.eqb_eq in E1; congruence |].
    destruct (1 =? getDegree mol (getEndAtomIdx bond))%nat eqn:E2;
      [apply Nat.eqb_eq in E2; congruence |].
    rewrite Hl1. cbn [bind]. exact Hl2. }
  assert (Hc : isEITHERDOUBLE (getBondDir bond) || isSTEREOANY (getStereo bond)
               = true).
  { destruct Hcrossed as [-> | ->]; [reflexivity |]. apply orb_true_r. }
  unfold calcDoubleBondLines. rewrite Hsym. cbn [bind]. rewrite Hc.
  eexists; split; [reflexivity |]. cbn [l1s l1f l2s l2f].
  set (perp := calcPerpendicular c1 c2) in *. clearbody perp.
  assert (E : ((c1 + c2) * 0.5)%pt
              = (c1 + perp * offset
                 + (c2 - perp * offset - (c1 + perp * offset)) * (1 / 2))%pt).
  { apply point_eq; unfold padd, psub, pmul; cbn [px py]; lra. }
  rewrite E.
  apply (doLinesIntersect_complete _ _ _ _ (1 / 2) (1 / 2)); try lra.
  - destruct perp as [a b], c1 as [x1 y1], c2 as [x2 y2].
    unfold cross2, lengthSq, dotProduct, padd, psub, pmul in *;
      cbn [px py] in *.
    set (vx := x2 - x1) in *. set (vy := y2 - y1) in *.
    assert (Hv : 0 < vx * vx + vy * vy) by (unfold vx, vy; nra).
    set (K := vx * b - vy * a).
    assert (HK : K * K = vx * vx + vy * vy).
    { transitivity ((vx * vx + vy * vy) * (a * a + b * b)
                    - (a * vx + b * vy) * (a * vx + b * vy));
        [unfold K; ring |].
      rewrite Hu, Ho. ring. }
    intros H0.
    assert (HKo : 4 * offset * K = 0).
    { rewrite <- H0. unfold K, vx, vy. ring. }
    assert (HK0 : K = 0).
    { destruct (Rmult_integral _ _ HKo) as [H4 | H4]; [| exact H4].
      exfalso. apply Hoff. lra. }
    rewrite HK0 in HK. lra.
  - apply point_eq; unfold padd, psub, pmul; cbn [px py]; lra.
Qed.

Lemma calcDoubleBondLines_crossed_lines_cross_witness :
  exists lp : LinePair,
    calcDoubleBondLines crossed_mol 0.15 crossed_bond (mkPoint2D 0 0)
      (mkPoint2D 2 0) butene_like_cds = Some lp /\
    doLinesIntersect (l1s lp) (l1f lp) (l2s lp) (l2f lp)
    = Some ((mkPoint2D 0 0 + mkPoint2D 2 0) * 0.5)%pt.
Proof.
  apply (calcDoubleBondLines_crossed_lines_cross crossed_mol 0.15 crossed_bond
           (mkPoint2D 0 0) (mkPoint2D 2 0) butene_like_cds).
  - exact butene_like_distinct.
  - lra.
  - unfold getDegree; simpl; lia.
  - unfold getDegree; simpl; lia.
  - reflexivity.
  - reflexivity.
  - right; reflexivity.
Defined.

(* ================================================================== *)
(** ** Further properties: the end of a line at a highlight *)

(** X8: when the far end [p1] of a line lies outside the highlight ellipse
    of an atom (or on it) and the near end [p2] inside, and the two are
    far enough apart for the quadratic to have two separate roots, the
    adjusted end lies on the ellipse and between the two original ends. *)
Theorem lineEndOnEllipse_meets_ellipse :
  forall (centre : Point2D) (xradius yradius : R) (p1 p2 : Point2D),
    1.0e-6 <= xradius -> 1.0e-6 <= yradius ->
    1 <= ellipse_level centre xradius yradius p1 ->
    ellipse_level centre xradius yradius p2 < 1 ->
    1.0e-6 <= ellipseLineDisc centre xradius yradius p1 p2 ->
    on_ellipse centre xradius yradius
      (lineEndOnEllipse centre xradius yradius p1 p2) /\
    on_segment (lineEndOnEllipse centre xradius yradius p1 p2) p1 p2.
Proof.
  intros [cx cy] xr yr [x1 y1] [x2 y2] Hxr Hyr Hout Hin Hdisc.
  assert (Hxr0 : 0 < xr) by lra. assert (Hyr0 : 0 < yr) by lra.
  unfold lineEndOnEllipse.
  rewrite (proj2 (Rltb_false xr 1.0e-6)), (proj2 (Rltb_false yr 1.0e-6))
    by assumption.
  cbn [orb].
  unfold ellipse_level, ellipseLineDisc, on_ellipse, on_segment,
    psub, padd, pmul in *; cbn [px py] in *.
  replace 2.0 with 2 in * by lra. replace 4.0 with 4 in * by lra.
  replace 1.0 with 1 in * by lra. replace 0.0 with 0 in * by lra.
  (* normalised coordinates *)
  set (p := (x1 - cx) / xr) in *. set (q := (y1 - cy) / yr) in *.
  set (m := (x2 - cx - (x1 - cx)) / xr) in *.
  set (n := (y2 - cy - (y1 - cy)) / yr) in *.
  set (A := (x2 - cx - (x1 - cx)) * (x2 - cx - (x1 - cx)) / (xr * xr)
            + (y2 - cy - (y1 - cy)) * (y2 - cy - (y1 - cy)) / (yr * yr)) in *.
  set (B := 2 * (x1 - cx) * (x2 - cx - (x1 - cx)) / (xr * xr)
            + 2 * (y1 - cy) * (y2 - cy - (y1 - cy)) / (yr * yr)) in *.
  set (C := (x1 - cx) * (x1 - cx) / (xr * xr)
            + (y1 - cy) * (y1 - cy) / (yr * yr) - 1) in *.
  assert (EA : A = m * m + n * n) by (unfold A, m, n; field; lra).
  assert (EB : B = 2 * (p * m + q * n)) by (unfold B, p, q, m, n; field; lra).
  assert (EC : C = p * p + q * q - 1) by (unfold C, p, q; field; lra).
  assert (HC : 0 <= C) by (unfold C; lra).
  assert (HABC : A + B + C < 0).
  { replace (A + B + C)
      with ((x2 - cx) * (x2 - cx) / (xr * xr)
            + (y2 - cy) * (y2 - cy) / (yr * yr) - 1)
      by (unfold A, B, C; field; lra).
    lra. }
  assert (HCS : B * B <= 4 * A * (C + 1)).
  { rewrite EA, EB, EC.
    assert (Hsq : 0 <= (p * n - q * m) * (p * n - q * m))
      by apply Rle_0_sqr.
    assert (Hid : 4 * (m * m + n * n) * (p * p + q * q - 1 + 1)
                  - 2 * (p * m + q * n) * (2 * (p * m + q * n))
                  = 4 * ((p * n - q * m) * (p * n - q * m))) by ring.
    lra. }
  assert (HA : 0 < A) by nra.
  set (disc := B * B - 4 * A * C) in *.
  assert (Hd0 : 0 < disc) by lra.
  rewrite (proj2 (Rltb_false disc 0)) by lra.
  rewrite (proj2 (Rltb_false (Rabs disc) _))
    by (rewrite Rabs_pos_eq; lra).
  set (D := sqrt disc).
  assert (HD : 0 < D) by (apply sqrt_lt_R0; exact Hd0).
  assert (HD2 : D * D = disc) by (apply sqrt_sqrt; lra).
  set (t1 := (- B + D) / (2 * A)). set (t2 := (- B - D) / (2 * A)).
  assert (Et1 : t1 * (2 * A) = - B + D) by (unfold t1; field; lra).
  assert (Et2 : t2 * (2 * A) = - B - D) by (unfold t2; field; lra).
  assert (HB : B < 0) by lra.
  assert (Hgap : (2 * A + B) * (2 * A + B) < D * D).
  { rewrite HD2. unfold disc.
    assert (0 < A * - (A + B + C)) by (apply Rmult_lt_0_compat; lra).
    lra. }
  assert (HAC : 0 <= A * C) by (apply Rmult_le_pos; lra).
  assert (HDB : D <= - B).
  { destruct (Rle_dec D (- B)) as [Hle | Hgt]; [exact Hle |].
    exfalso. assert (HBD : - B < D) by lra.
    assert (- B * - B < D * D)
      by (apply Rmult_le_0_lt_compat; lra).
    rewrite HD2 in *. unfold disc in *. lra. }
  assert (HDgt : 2 * A + B < D).
  { destruct (Rlt_dec (2 * A + B) D) as [Hlt | Hge]; [exact Hlt |].
    exfalso. assert (HDle : D <= 2 * A + B) by lra.
    assert (D * D <= (2 * A + B) * (2 * A + B))
      by (apply Rmult_le_compat; lra).
    lra. }
  assert (HDgt' : - (2 * A + B) < D).
  { destruct (Rlt_dec (- (2 * A + B)) D) as [Hlt | Hge]; [exact Hlt |].
    exfalso. assert (HDle : D <= - (2 * A + B)) by lra.
    assert (D * D <= - (2 * A + B) * - (2 * A + B))
      by (apply Rmult_le_compat; lra).
    lra. }
  assert (Ht1 : 1 < t1).
  { apply (Rmult_lt_reg_r (2 * A)); [lra |]. rewrite Et1. lra. }
  assert (Ht2a : 0 <= t2).
  { apply (Rmult_le_reg_r (2 * A)); [lra |]. rewrite Et2. lra. }
  assert (Ht2b : t2 < 1).
  { apply (Rmult_lt_reg_r (2 * A)); [lra |]. rewrite Et2. lra. }
  rewrite (proj2 (Rleb_false t1 1)) by exact Ht1.
  rewrite (proj2 (Rleb_true 0 t2)), (proj2 (Rleb_true t2 1)) by lra.
  rewrite !andb_false_r. cbn [andb negb].
  unfold ellipse_level. cbn [px py]. split.
  - assert (Hroot : A * (t2 * t2) + B * t2 + C = 0).
    { assert (H4 : 4 * A * (A * (t2 * t2) + B * t2 + C) = 0).
      { transitivity ((t2 * (2 * A)) * (t2 * (2 * A))
                      + 2 * B * (t2 * (2 * A)) + 4 * A * C); [ring |].
        rewrite Et2. unfold disc in HD2.
        transitivity (D * D - (B * B - 4 * A * C)); [ring | lra]. }
      destruct (Rmult_integral _ _ H4) as [H0 | H0]; [lra | exact H0]. }
    transitivity (A * (t2 * t2) + B * t2 + C + 1); [| lra].
    unfold A, B, C. field. lra.
  - exists t2. split; [lra |]. apply point_eq; cbn [px py]; ring.
Qed.

Lemma lineEndOnEllipse_meets_ellipse_witness :
  on_ellipse (mkPoint2D 0 0) 1 1
    (lineEndOnEllipse (mkPoint2D 0 0) 1 1 (mkPoint2D 2 0) (mkPoint2D 0 0)) /\
  on_segment
    (lineEndOnEllipse (mkPoint2D 0 0) 1 1 (mkPoint2D 2 0) (mkPoint2D 0 0))
    (mkPoint2D 2 0) (mkPoint2D 0 0).
Proof.
  apply (lineEndOnEllipse_meets_ellipse (mkPoint2D 0 0) 1 1
           (mkPoint2D 2 0) (mkPoint2D 0 0)).
  - lra.
  - lra.
  - unfold ellipse_level; simpl; lra.
  - unfold ellipse_level; simpl; lra.
  - unfold ellipseLineDisc; simpl; lra.
Defined.

(* ================================================================== *)
(** ** Further properties: attachment lines and highlighted bonds *)

Lemma DrawColour_eqb_refl (c : DrawColour) : DrawColour_eqb c c = true.
Proof.
  unfold DrawColour_eqb.
  destruct (Req_dec_T (red c) (red c)); [| congruence].
  destruct (Req_dec_T (green c) (green c)); [| congruence].
  destruct (Req_dec_T (blue c) (blue c)); [| congruence].
  reflexivity.
Qed.

(** X9: outside comic mode, the attachment line at the end [cds2] of the
    line from [cds1] is one straight line in the given colour, centred on
    [cds2], of length [len], at right angles to the line from [cds1]. *)
Theorem drawAttachmentLine_geometry :
  forall (T : Type) (Rd : Renderer T) (d : MolDraw2D T)
         (cds1 cds2 : Point2D) (col : DrawColour) (len : R) (nSegments : nat),
    cds1 <> cds2 ->
    comicMode (options_ d) = false ->
    exists p1 p2 : Point2D,
      canvas (drawAttachmentLine cds1 cds2 col len nSegments d)
      = canvas d ++ [SetColour col; DrawLine p1 p2] /\
      ((p1 + p2) * 0.5)%pt = cds2 /\
      lengthSq (p2 - p1)%pt = len * len /\
      dotProduct (p2 - p1)%pt (cds2 - cds1)%pt = 0.
Proof.
  intros T Rd d cds1 cds2 col len nSegments Hne Hcomic.
  destruct (calcPerpendicular_unit cds1 cds2 Hne) as [Hu Ho].
  unfold drawAttachmentLine, drawWavyLine, drawLine4.
  rewrite Hcomic, DrawColour_eqb_refl.
  eexists; eexists. split; [apply canvas_emit |].
  set (perp := calcPerpendicular cds1 cds2) in *. clearbody perp.
  destruct perp as [a b], cds1 as [x1 y1], cds2 as [x2 y2].
  unfold lengthSq, dotProduct, padd, psub, pmul in *; cbn [px py] in *.
  split; [apply point_eq; cbn [px py]; lra |]. split.
  - transitivity ((a * a + b * b) * (len * len)); [field |].
    rewrite Hu; ring.
  - transitivity ((a * (x2 - x1) + b * (y2 - y1)) * len); [field |].
    rewrite Ho; ring.
Qed.

Lemma drawAttachmentLine_geometry_witness :
  exists p1 p2 : Point2D,
    canvas (drawAttachmentLine (mkPoint2D 0 0) (mkPoint2D 2 0)
              (mkDrawColour 0 0 0) 1 16 butene_like_drawer)
    = canvas butene_like_drawer ++ [SetColour (mkDrawColour 0 0 0);
                                    DrawLine p1 p2] /\
    ((p1 + p2) * 0.5)%pt = mkPoint2D 2 0 /\
    lengthSq (p2 - p1)%pt = 1 * 1 /\
    dotProduct (p2 - p1)%pt (mkPoint2D 2 0 - mkPoint2D 0 0)%pt = 0.
Proof.
  apply (drawAttachmentLine_geometry unit unit_Renderer butene_like_drawer
           (mkPoint2D 0 0) (mkPoint2D 2 0) (mkDrawColour 0 0 0) 1 16).
  - exact butene_like_distinct.
  - reflexivity.
Defined.

Lemma getBondBetweenAtoms_some (mol : ROMol) (a1 a2 : nat) (b : Bond) :
  getBondBetweenAtoms mol a1 a2 = Some b ->
  In b (bonds mol) /\
  ((getBeginAtomIdx b = a1 /\ getEndAtomIdx b = a2) \/
   (getBeginAtomIdx b = a2 /\ getEndAtomIdx b = a1)).
Proof.
  unfold getBondBetweenAtoms. intros Hf.
  apply find_some in Hf as [Hin Hb]. split; [exact Hin |].
  apply orb_true_iff in Hb as [Hb | Hb];
    apply andb_true_iff in Hb as [H1 H2];
    apply Nat.eqb_eq in H1, H2; [left | right]; split; assumption.
Qed.

Lemma getBondBetweenAtoms_found (mol : ROMol) (a1 a2 : nat) (b : Bond) :
  In b (bonds mol) ->
  (getBeginAtomIdx b = a1 /\ getEndAtomIdx b = a2) \/
  (getBeginAtomIdx b = a2 /\ getEndAtomIdx b = a1) ->
  exists b', getBondBetweenAtoms mol a1 a2 = Some b'.
Proof.
  intros Hin Hends. unfold getBondBetweenAtoms.
  match goal with |- exists b', find ?f ?l = Some b' =>
    destruct (find f l) as [b' |] eqn:Hf end.
  - exists b'; reflexivity.
  - exfalso. pose proof (find_none _ _ Hf b Hin) as Hb. cbv beta in Hb.
    destruct Hends as [[<- <-] | [<- <-]];
      rewrite !Nat.eqb_refl in Hb; cbn in Hb;
      try discriminate; rewrite orb_true_r in Hb; discriminate.
Qed.

Lemma getBondHighlightsForAtoms_in (mol : ROMol) (ha : list nat) (idx : nat) :
  In idx (getBondHighlightsForAtoms mol ha) ->
  exists b, In b (bonds mol) /\ getIdx b = idx /\
            In (getBeginAtomIdx b) ha /\ In (getEndAtomIdx b) ha.
Proof.
  induction ha as [| ai rest IH]; simpl; [intros [] |].
  intros Hin. apply in_app_or in Hin as [Hin | Hin].
  - apply in_flat_map in Hin as (aj & Haj & Hin).
    destruct (getBondBetweenAtoms mol ai aj) as [b |] eqn:Hb; [| inversion Hin].
    destruct Hin as [<- | []].
    apply getBondBetweenAtoms_some in Hb as (Hbin & [[H1 H2] | [H1 H2]]);
      exists b; rewrite H1, H2; auto.
  - destruct (IH Hin) as (b & Hb & Hi & H1 & H2). exists b; auto.
Qed.

Lemma getBondHighlightsForAtoms_pair (mol : ROMol) (ha : list nat)
    (a1 a2 : nat) (b : Bond) :
  In a1 ha -> In a2 ha -> a1 <> a2 ->
  In b (bonds mol) ->
  (getBeginAtomIdx b = a1 /\ getEndAtomIdx b = a2) ->
  exists b',
    In (getIdx b') (getBondHighlightsForAtoms mol ha) /\
    In b' (bonds mol) /\
    ((getBeginAtomIdx b' = a1 /\ getEndAtomIdx b' = a2) \/
     (getBeginAtomIdx b' = a2 /\ getEndAtomIdx b' = a1)).
Proof.
  intros H1 H2 Hne Hb Hends.
  induction ha as [| ai rest IH]; [inversion H1 |].
  simpl in H1, H2. simpl getBondHighlightsForAtoms.
  assert (Hhit : forall x y, In y rest ->
            (getBeginAtomIdx b = x /\ getEndAtomIdx b = y) \/
            (getBeginAtomIdx b = y /\ getEndAtomIdx b = x) ->
            exists b',
              In (getIdx b')
                 (flat_map
                    (fun aj => match getBondBetweenAtoms mol x aj with
                               | Some bnd => [getIdx bnd]
                               | None => []
                               end) rest) /\
              getBondBetweenAtoms mol x y = Some b').
  { intros x y Hy Hxy.
    destruct (getBondBetweenAtoms_found mol x y b Hb Hxy) as (b' & Hb').
    exists b'. split; [| exact Hb'].
    apply in_flat_map. exists y. split; [exact Hy |].
    rewrite Hb'. left; reflexivity. }
  destruct H1 as [E1 | H1], H2 as [E2 | H2].
  - congruence.
  - subst ai. destruct (Hhit a1 a2 H2 (or_introl Hends)) as (b' & Hin & Hb').
    exists b'. split; [apply in_or_app; left; exact Hin |].
    apply getBondBetweenAtoms_some in Hb'. exact Hb'.
  - subst ai. destruct (Hhit a2 a1 H1 (or_intror Hends)) as (b' & Hin & Hb').
    exists b'. split; [apply in_or_app; left; exact Hin |].
    apply getBondBetweenAtoms_some in Hb' as (Hbin & Hor).
    split; [exact Hbin |]. destruct Hor; [right | left]; assumption.
  - destruct (IH H1 H2) as (b' & Hin & Hrest).
    exists b'. split; [apply in_or_app; right; exact Hin | exact Hrest].
Qed.

(** X10: [getBondHighlightsForAtoms] lists only bonds that join two of
    the highlighted atoms, and for every bond of the molecule that joins
    two different highlighted atoms it lists a bond between those two
    atoms. *)
Theorem getBondHighlightsForAtoms_joins_highlighted :
  forall (mol : ROMol) (highlight_atoms : list nat),
    (forall idx, In idx (getBondHighlightsForAtoms mol highlight_atoms) ->
       exists b, In b (bonds mol) /\ getIdx b = idx /\
                 In (getBeginAtomIdx b) highlight_atoms /\
                 In (getEndAtomIdx b) highlight_atoms) /\
    (forall b, In b (bonds mol) ->
       In (getBeginAtomIdx b) highlight_atoms ->
       In (getEndAtomIdx b) highlight_atoms ->
       getBeginAtomIdx b <> getEndAtomIdx b ->
       exists b',
         In (getIdx b') (getBondHighlightsForAtoms mol highlight_atoms) /\
         In b' (bonds mol) /\
         ((getBeginAtomIdx b' = getBeginAtomIdx b /\
           getEndAtomIdx b' = getEndAtomIdx b) \/
          (getBeginAtomIdx b' = getEndAtomIdx b /\
           getEndAtomIdx b' = getBeginAtomIdx b))).
Proof.
  intros mol ha. split.
  - apply getBondHighlightsForAtoms_in.
  - intros b Hb H1 H2 Hne.
    apply (getBondHighlightsForAtoms_pair mol ha _ _ b H1 H2 Hne Hb).
    split; reflexivity.
Qed.

(* ================================================================== *)
(** ** Further properties: bounding boxes *)

Lemma extendBox_fold (pts : list Point2D) :
  forall b0 : Box,
    box_within b0 (fold_left extendBox pts b0) /\
    forall p, In p pts -> in_box p (fold_left extendBox pts b0).
Proof.
  induction pts as [| q rest IH]; intros b0; simpl.
  - split; [unfold box_within; lra | intros p []].
  - destruct (IH (extendBox b0 q)) as [Hw Hin].
    unfold box_within, in_box, extendBox in *; simpl in *.
    pose proof (Rmin_l (px q) (bx_min b0)). pose proof (Rmin_r (px q) (bx_min b0)).
    pose proof (Rmin_l (py q) (by_min b0)). pose proof (Rmin_r (py q) (by_min b0)).
    pose proof (Rmax_l (px q) (bx_max b0)). pose proof (Rmax_r (px q) (bx_max b0)).
    pose proof (Rmax_l (py q) (by_max b0)). pose proof (Rmax_r (py q) (by_max b0)).
    split; [lra |].
    intros p [<- | Hp]; [lra | apply Hin; exact Hp].
Qed.

(** X11: the first part of [calculateScale] leaves a bounding box that
    holds every atom and every point of the registered shapes, with spans
    of at least 1e-4 and a positive trial scale. *)
Theorem calculateScale_box_holds_atoms :
  forall (T : Type) (width height : Z) (d : MolDraw2D T) (c : RenderContext),
    (0 < width)%Z -> (0 < height)%Z -> getContext d = Some c ->
    exists d',
      calculateScale_box width height d = Some d' /\
      1e-4 <= x_range_ (scaling d') /\ 1e-4 <= y_range_ (scaling d') /\
      0 < scale_ (scaling d') /\
      forall p,
        In p (ctx_at_cds c ++ shapePoints (ctx_pre_shapes c)
                ++ shapePoints (ctx_post_shapes c)) ->
        in_box p (scaleBox (scaling d')).
Proof.
  intros T width height d c Hw Hh Hc.
  destruct (calculateScale_box_spans width height d c Hw Hh Hc)
    as (d' & Hd' & Hx1 & Hx2 & Hy1 & Hy2).
  exists d'. split; [exact Hd' |].
  cbv zeta in Hx1, Hx2, Hy1, Hy2.
  destruct (extendBox_fold
              (ctx_at_cds c ++ shapePoints (ctx_pre_shapes c)
                 ++ shapePoints (ctx_post_shapes c)) emptyBox) as [_ Hin].
  fold (atomsAndShapesBox c) in Hin.
  set (b := atomsAndShapesBox c) in *.
  assert (Hxr : 1e-4 <= x_range_ (scaling d')).
  { destruct (Rlt_dec (bx_max b - bx_min b) 1e-4) as [Hlt | Hge].
    - destruct (Hx1 Hlt) as [-> _]. lra.
    - destruct (Hx2 ltac:(lra)) as [-> _]. lra. }
  assert (Hyr : 1e-4 <= y_range_ (scaling d')).
  { destruct (Rlt_dec (by_max b - by_min b) 1e-4) as [Hlt | Hge].
    - destruct (Hy1 Hlt) as [-> _]. lra.
    - destruct (Hy2 ltac:(lra)) as [-> _]. lra. }
  split; [exact Hxr |]. split; [exact Hyr |]. split.
  - unfold calculateScale_box in Hd'.
    apply Z.ltb_lt in Hw, Hh. rewrite Hw, Hh, Hc in Hd'. cbn [negb bind] in Hd'.
    fold b in Hd'.
    destruct (Rltb (bx_max b - bx_min b) 1e-4) eqn:Ex;
      destruct (Rltb (by_max b - by_min b) 1e-4) eqn:Ey;
      injection Hd' as <-; cbn [scaling set_scaling scale_ set_scale];
      apply Z.ltb_lt in Hw, Hh; apply IZR_lt in Hw, Hh;
      try apply Rltb_false in Ex; try apply Rltb_false in Ey;
      apply Rmin_pos; apply Rdiv_lt_0_compat; lra.
  - intros p Hp. specialize (Hin p Hp).
    unfold in_box, scaleBox in *; cbn [bx_min bx_max by_min by_max].
    destruct Hin as [[Hx_lo Hx_hi] [Hy_lo Hy_hi]].
    split.
    + destruct (Rlt_dec (bx_max b - bx_min b) 1e-4) as [Hlt | Hge].
      * destruct (Hx1 Hlt) as [-> ->]. lra.
      * destruct (Hx2 ltac:(lra)) as [-> ->]. lra.
    + destruct (Rlt_dec (by_max b - by_min b) 1e-4) as [Hlt | Hge].
      * destruct (Hy1 Hlt) as [-> ->]. lra.
      * destruct (Hy2 ltac:(lra)) as [-> ->]. lra.
Qed.

Lemma calculateScale_box_holds_atoms_witness :
  exists d',
    calculateScale_box 300 300 single_atom_drawer = Some d' /\
    1e-4 <= x_range_ (scaling d') /\ 1e-4 <= y_range_ (scaling d') /\
    0 < scale_ (scaling d') /\
    forall p,
      In p ([mkPoint2D 0 0] ++ shapePoints [] ++ shapePoints []) ->
      in_box p (scaleBox (scaling d')).
Proof.
  apply (calculateScale_box_holds_atoms unit 300 300 single_atom_drawer
           (mkRenderContext [mkPoint2D 0 0] [6%Z] [(EmptyString, C_)]
              [] [] [] [])).
  - lia.
  - lia.
  - exact single_atom_context.
Defined.

Lemma box_within_refl (b : Box) : box_within b b.
Proof. unfold box_within; lra. Qed.

Lemma box_within_trans (a b c : Box) :
  box_within a b -> box_within b c -> box_within a c.
Proof. unfold box_within; intros; lra. Qed.

Lemma annotationBox_within (b : Box) (pr : AnnotationType) :
  box_within b (annotationBox b pr).
Proof.
  unfold box_within, annotationBox.
  destruct (align_ pr); cbn [bx_min by_min bx_max by_max];
    repeat split;
    solve [apply Rmin_l | apply Rmax_l].
Qed.

Lemma annotationBox_absorbed (b b' : Box) (pr : AnnotationType) :
  box_within (annotationBox b pr) b' -> annotationBox b' pr = b'.
Proof.
  unfold box_within, annotationBox. destruct b' as [x0 y0 x1 y1].
  destruct (align_ pr); cbn [bx_min by_min bx_max by_max];
    intros (H1 & H2 & H3 & H4);
    match goal with
    | |- mkBox (Rmin _ ?u1) (Rmin _ ?u2) (Rmax _ ?u3) (Rmax _ ?u4) = _ =>
        pose proof (Rmin_r (bx_min b) u1); pose proof (Rmin_r (by_min b) u2);
        pose proof (Rmax_r (bx_max b) u3); pose proof (Rmax_r (by_max b) u4)
    end;
    rewrite !Rmin_left, !Rmax_left by lra; reflexivity.
Qed.

Lemma annotationBox_fold (notes : list AnnotationType) :
  forall b0 : Box,
    box_within b0 (fold_left annotationBox notes b0) /\
    forall pr b', In pr notes ->
      box_within (fold_left annotationBox notes b0) b' ->
      annotationBox b' pr = b'.
Proof.
  induction notes as [| n rest IH]; intros b0; simpl.
  - split; [apply box_within_refl | intros pr b' []].
  - destruct (IH (annotationBox b0 n)) as [Hw Habs].
    split.
    + eapply box_within_trans; [apply annotationBox_within | exact Hw].
    + intros pr b' [<- | Hin] Hb'.
      * apply (annotationBox_absorbed b0).
        eapply box_within_trans; [exact Hw | exact Hb'].
      * apply Habs; assumption.
Qed.

Lemma annotationBox_fold_fixed (notes : list AnnotationType) (b : Box) :
  (forall pr, In pr notes -> annotationBox b pr = b) ->
  fold_left annotationBox notes b = b.
Proof.
  induction notes as [| n rest IH]; intros Hfix; simpl; [reflexivity |].
  rewrite (Hfix n (or_introl eq_refl)).
  apply IH. intros pr Hpr. apply Hfix. right; exact Hpr.
Qed.

(** X12: [adjustScaleForAnnotation] only grows the bounding box: the new
    box holds the old one, it holds the rectangle of every annotation
    (growing it by any of them again changes nothing), and a second call
    with the same annotations changes nothing. *)
Theorem adjustScaleForAnnotation_grows_box :
  forall (notes : list AnnotationType) (s : ScaleState),
    let s' := adjustScaleForAnnotation notes s in
    box_within (scaleBox s) (scaleBox s') /\
    (forall pr, In pr notes -> annotationBox (scaleBox s') pr = scaleBox s') /\
    adjustScaleForAnnotation notes s' = s'.
Proof.
  intros notes s s'.
  destruct (annotationBox_fold notes (scaleBox s)) as [Hw Habs].
  set (b := fold_left annotationBox notes (scaleBox s)) in *.
  assert (Hbox : box_within b (scaleBox s')).
  { unfold s', adjustScaleForAnnotation. fold (scaleBox s). fold b.
    unfold box_within, scaleBox; simpl.
    pose proof (Rmax_l (bx_max b - bx_min b) (x_range_ s)).
    pose proof (Rmax_l (by_max b - by_min b) (y_range_ s)).
    lra. }
  assert (Hfix : forall pr, In pr notes ->
                   annotationBox (scaleBox s') pr = scaleBox s')
    by (intros pr Hpr; apply (Habs pr _ Hpr Hbox)).
  split; [eapply box_within_trans; [exact Hw | exact Hbox] |].
  split; [exact Hfix |].
  unfold adjustScaleForAnnotation at 1. fold (scaleBox s').
  rewrite (annotationBox_fold_fixed notes (scaleBox s') Hfix).
  unfold scaleBox; cbn [bx_min by_min bx_max by_max].
  replace (x_min_ s' + x_range_ s' - x_min_ s') with (x_range_ s') by ring.
  replace (y_min_ s' + y_range_ s' - y_min_ s') with (y_range_ s') by ring.
  rewrite !Rmax_left by lra.
  unfold s', adjustScaleForAnnotation. reflexivity.
Qed.

(* ================================================================== *)
(** ** Further properties: setting the scale by hand *)

Ltac scale_state_cbn :=
  cbn [px py set_min_xy set_box set_needs_scale set_scale set_trans_xy
       scaling set_scaling set_text_drawer options_
       needs_scale_ width_ height_ panel_width_ panel_height_ legend_height_
       scale_ x_min_ y_min_ x_range_ y_range_ x_trans_ y_trans_
       x_offset_ y_offset_ getDrawCoords panelHeight].

Lemma setScale_finish_regular (x_max y_max : R) (s : ScaleState) :
  1.0e-4 <= x_max - x_min_ s -> 1.0e-4 <= y_max - y_min_ s ->
  setScale_finish x_max y_max s
  = set_needs_scale false
      (set_box (x_min_ s) (y_min_ s) (x_max - x_min_ s) (y_max - y_min_ s) s).
Proof.
  intros Hx Hy. unfold setScale_finish. scale_state_cbn.
  rewrite (proj2 (Rltb_false (x_max - x_min_ s) 1.0e-4)) by lra.
  scale_state_cbn.
  rewrite (proj2 (Rltb_false (y_max - y_min_ s) 1.0e-4)) by lra.
  reflexivity.
Qed.

Lemma setScale_finish_degenerate (x_max y_max : R) (s : ScaleState) :
  x_max - x_min_ s < 1.0e-4 -> y_max - y_min_ s < 1.0e-4 ->
  setScale_finish x_max y_max s
  = set_needs_scale false (set_box (-0.5) (-0.5) 1.0 1.0 s).
Proof.
  intros Hx Hy. unfold setScale_finish. scale_state_cbn.
  rewrite (proj2 (Rltb_true (x_max - x_min_ s) 1.0e-4)) by lra.
  scale_state_cbn.
  rewrite (proj2 (Rltb_true (y_max - y_min_ s) 1.0e-4)) by lra.
  reflexivity.
Qed.

(** X13: [setScale] without a molecule, for a box that spans at least
    1e-4 on both axes and a padding that is not negative: the scale is
    positive, [needs_scale_] is cleared, and every point of the box is
    drawn within half the width of [width / 2 + x_offset_] and within
    half the height of [height / 2 - y_offset_] (the halves of the ints
    taken as ints). *)
Theorem setScale_box_fits :
  forall (T : Type) (DT : DrawText T) (LM : LabelMetrics T) (Rd : Renderer T)
         (MS : MolServices T) (fuel : nat) (width height : Z)
         (minv maxv : Point2D) (d : MolDraw2D T),
    (0 < width)%Z -> (0 < height)%Z ->
    0 <= padding (options_ d) ->
    1.0e-4 <= px maxv - px minv -> 1.0e-4 <= py maxv - py minv ->
    exists d',
      setScale fuel width height minv maxv None d = Some d' /\
      needs_scale_ (scaling d') = false /\
      0 < scale_ (scaling d') /\
      forall p,
        px minv <= px p <= px maxv -> py minv <= py p <= py maxv ->
        Rabs (px (getDrawCoords (scaling d') p)
              - (IZR (width ÷ 2) + IZR (x_offset_ (scaling d))))
          <= IZR width / 2 /\
        Rabs (py (getDrawCoords (scaling d') p)
              - (IZR (height ÷ 2) - IZR (y_offset_ (scaling d))))
          <= IZR height / 2.
Proof.
  intros T DT LM Rd MS fuel width height [mx my] [Mx My] d Hw Hh Hpad Hx Hy.
  cbn [px py] in Hx, Hy.
  unfold setScale.
  pose proof Hw as Hw'. pose proof Hh as Hh'.
  apply Z.ltb_lt in Hw', Hh'. rewrite Hw', Hh'.
  cbv beta iota delta [bind negb].
  rewrite setScale_finish_regular by (scale_state_cbn; lra).
  scale_state_cbn.
  set (pad := padding (options_ d)) in *.
  set (xr := (Mx - mx) * (1 + 2 * pad)).
  set (yr := (My - my) * (1 + 2 * pad)).
  set (S := Rmin (IZR width / xr) (IZR height / yr)).
  apply IZR_lt in Hw, Hh.
  assert (Hxr : 0 < xr) by (unfold xr; nra).
  assert (Hyr : 0 < yr) by (unfold yr; nra).
  assert (HS : 0 < S)
    by (apply Rmin_pos; apply Rdiv_lt_0_compat; assumption).
  assert (HSx : S * xr <= IZR width).
  { pose proof (Rmin_l (IZR width / xr) (IZR height / yr)) as Hl. fold S in Hl.
    replace (IZR width) with (IZR width / xr * xr) by (field; lra).
    apply Rmult_le_compat_r; lra. }
  assert (HSy : S * yr <= IZR height).
  { pose proof (Rmin_r (IZR width / xr) (IZR height / yr)) as Hl. fold S in Hl.
    replace (IZR height) with (IZR height / yr * yr) by (field; lra).
    apply Rmult_le_compat_r; lra. }
  eexists. split; [reflexivity |].
  scale_state_cbn.
  split; [reflexivity |]. split; [exact HS |].
  intros [x y] Hpx Hpy. cbn [px py] in *.
  replace 0.0 with 0 by lra. replace 0.5 with (1 / 2) by lra.
  set (xo := IZR (x_offset_ (scaling d))). set (yo := IZR (y_offset_ (scaling d))).
  set (ph := IZR (panel_height_ (scaling d))).
  set (lh := IZR (legend_height_ (scaling d))).
  set (W2 := IZR (width ÷ 2)). set (H2 := IZR (height ÷ 2)).
  split; apply Rabs_le.
  - match goal with |- - _ <= ?e - _ <= _ =>
      replace e with (S * (x - (mx + (Mx - mx) / 2)) + W2 + xo)
        by (unfold xr; field; lra)
    end.
    assert (Ha : S * (x - (mx + (Mx - mx) / 2)) <= S * (xr / 2))
      by (apply Rmult_le_compat_l; [lra | unfold xr; nra]).
    assert (Hb : S * - (xr / 2) <= S * (x - (mx + (Mx - mx) / 2)))
      by (apply Rmult_le_compat_l; [lra | unfold xr; nra]).
    lra.
  - match goal with |- - _ <= ?e - _ <= _ =>
      replace e with (- (S * (y - (my + (My - my) / 2))) + H2 - yo)
        by (unfold yr; field; lra)
    end.
    assert (Ha : S * (y - (my + (My - my) / 2)) <= S * (yr / 2))
      by (apply Rmult_le_compat_l; [lra | unfold yr; nra]).
    assert (Hb : S * - (yr / 2) <= S * (y - (my + (My - my) / 2)))
      by (apply Rmult_le_compat_l; [lra | unfold yr; nra]).
    lra.
Qed.

Lemma setScale_box_fits_witness :
  exists d',
    setScale 0 300 300 (mkPoint2D 0 0) (mkPoint2D 1 1) None fresh_drawer
    = Some d' /\
    needs_scale_ (scaling d') = false /\
    0 < scale_ (scaling d') /\
    forall p,
      px (mkPoint2D 0 0) <= px p <= px (mkPoint2D 1 1) ->
      py (mkPoint2D 0 0) <= py p <= py (mkPoint2D 1 1) ->
      Rabs (px (getDrawCoords (scaling d') p)
            - (IZR (300 ÷ 2) + IZR (x_offset_ (scaling fresh_drawer))))
        <= IZR 300 / 2 /\
      Rabs (py (getDrawCoords (scaling d') p)
            - (IZR (300 ÷ 2) - IZR (y_offset_ (scaling fresh_drawer))))
        <= IZR 300 / 2.
Proof.
  apply (setScale_box_fits unit unit_DrawText unit_LabelMetrics unit_Renderer
           unit_MolServices 0 300 300 (mkPoint2D 0 0) (mkPoint2D 1 1)
           fresh_drawer).
  - lia.
  - lia.
  - change (0 <= 0.05); lra.
  - cbn [px py]; lra.
  - cbn [px py]; lra.
Defined.

(** X14: [setScale] without a molecule, for a box that spans less than
    1e-4 on both axes: the position of the box is forgotten.  Whatever
    the box, the drawer ends in the same state, with a range of 1 widened
    by the padding on each axis and a minimum of -0.5 less the padding. *)
Theorem setScale_degenerate_box_forgets_position :
  forall (T : Type) (DT : DrawText T) (LM : LabelMetrics T) (Rd : Renderer T)
         (MS : MolServices T) (fuel : nat) (width height : Z)
         (minv maxv minv' maxv' : Point2D) (d : MolDraw2D T),
    (0 < width)%Z -> (0 < height)%Z ->
    px maxv - px minv < 1.0e-4 -> py maxv - py minv < 1.0e-4 ->
    px maxv' - px minv' < 1.0e-4 -> py maxv' - py minv' < 1.0e-4 ->
    exists d',
      setScale fuel width height minv maxv None d = Some d' /\
      setScale fuel width height minv' maxv' None d = Some d' /\
      x_range_ (scaling d') = 1 + 2 * padding (options_ d) /\
      y_range_ (scaling d') = 1 + 2 * padding (options_ d) /\
      x_min_ (scaling d') = -0.5 - padding (options_ d) /\
      y_min_ (scaling d') = -0.5 - padding (options_ d).
Proof.
  intros T DT LM Rd MS fuel width height [mx my] [Mx My] [mx' my'] [Mx' My'] d
         Hw Hh Hx Hy Hx' Hy'.
  cbn [px py] in *.
  unfold setScale.
  apply Z.ltb_lt in Hw, Hh. rewrite Hw, Hh.
  cbv beta iota delta [bind negb].
  rewrite !setScale_finish_degenerate by (scale_state_cbn; lra).
  scale_state_cbn.
  eexists. split; [reflexivity |]. split; [reflexivity |].
  scale_state_cbn.
  repeat split; lra.
Qed.

Lemma setScale_degenerate_box_forgets_position_witness :
  exists d',
    setScale 0 300 300 (mkPoint2D 0 0) (mkPoint2D 0 0) None fresh_drawer
    = Some d' /\
    setScale 0 300 300 (mkPoint2D 100 100) (mkPoint2D 100 100) None
      fresh_drawer = Some d' /\
    x_range_ (scaling d') = 1 + 2 * padding (options_ fresh_drawer) /\
    y_range_ (scaling d') = 1 + 2 * padding (options_ fresh_drawer) /\
    x_min_ (scaling d') = -0.5 - padding (options_ fresh_drawer) /\
    y_min_ (scaling d') = -0.5 - padding (options_ fresh_drawer).
Proof.
  apply (setScale_degenerate_box_forgets_position unit unit_DrawText
           unit_LabelMetrics unit_Renderer unit_MolServices 0 300 300
           (mkPoint2D 0 0) (mkPoint2D 0 0) (mkPoint2D 100 100)
           (mkPoint2D 100 100) fresh_drawer).
  - lia.
  - lia.
  - cbn [px py]; lra.
  - cbn [px py]; lra.
  - cbn [px py]; lra.
  - cbn [px py]; lra.
Defined.

(* ================================================================== *)
(** ** Further properties: the context stack and the drawing state *)

(** X15: [popDrawDetails] undoes [pushDrawDetails]: pushing a context and
    popping it at once gives the drawer back as it was, vectors, active
    index and all. *)
Theorem popDrawDetails_pushDrawDetails :
  forall (T : Type) (d : MolDraw2D T), popDrawDetails (pushDrawDetails d) = d.
Proof.
  intros T d. destruct d.
  unfold popDrawDetails, pushDrawDetails; simpl.
  rewrite !removelast_last.
  f_equal. lia.
Qed.

(** X16: [drawArrow] draws the shaft and two barbs that start at the tip
    [arrowEnd]; each barb is [frac] times as long as the shaft, and both
    make the same angle with it (their scalar products with the shaft are
    the same, [frac * cos angle] times the squared length of the shaft).
    Drawn as a polygon, the head is filled and the fill mode is put back
    afterwards. *)
Theorem drawArrow_barbs :
  forall (T : Type) (d : MolDraw2D T)
         (arrowBegin arrowEnd : Point2D) (asPolygon : bool) (frac angle : R),
    exists p1 p2 : Point2D,
      canvas (drawArrow arrowBegin arrowEnd asPolygon frac angle d)
      = canvas d ++
        (if asPolygon
         then [DrawLine arrowBegin arrowEnd; SetFillPolys true;
               DrawPolygon [p1; arrowEnd; p2]; SetFillPolys (fill_polys_ d)]
         else [DrawLine arrowBegin arrowEnd; DrawLine arrowEnd p1;
               DrawLine arrowEnd p2]) /\
      fill_polys_ (drawArrow arrowBegin arrowEnd asPolygon frac angle d)
      = fill_polys_ d /\
      lengthSq (p1 - arrowEnd)%pt
      = frac * frac * lengthSq (arrowBegin - arrowEnd)%pt /\
      lengthSq (p2 - arrowEnd)%pt
      = frac * frac * lengthSq (arrowBegin - arrowEnd)%pt /\
      dotProduct (p1 - arrowEnd)%pt (arrowBegin - arrowEnd)%pt
      = frac * cos angle * lengthSq (arrowBegin - arrowEnd)%pt /\
      dotProduct (p2 - arrowEnd)%pt (arrowBegin - arrowEnd)%pt
      = frac * cos angle * lengthSq (arrowBegin - arrowEnd)%pt.
Proof.
  intros T d [bx by_] [ex ey] asPolygon frac angle.
  pose proof (sin2_cos2 angle) as Htrig. unfold Rsqr in Htrig.
  unfold drawArrow. eexists; eexists.
  split; [| split].
  - destruct asPolygon; cbn [negb].
    + unfold setFillPolys, emit; cbn [fold_left send canvas fill_polys_].
      rewrite <- !app_assoc. reflexivity.
    + unfold emit; cbn [fold_left send canvas].
      rewrite <- !app_assoc. reflexivity.
  - destruct asPolygon; reflexivity.
  - unfold lengthSq, dotProduct, psub; cbn [px py].
    set (c := cos angle) in *. set (s := sin angle) in *.
    set (dx := bx - ex). set (dy := by_ - ey).
    repeat split.
    + transitivity (frac * frac * ((s * s + c * c) * (dx * dx + dy * dy)));
        [ring | rewrite Htrig; ring].
    + transitivity (frac * frac * ((s * s + c * c) * (dx * dx + dy * dy)));
        [ring | rewrite Htrig; ring].
    + ring.
    + ring.
Qed.

Lemma double_to_int_nonneg (x : R) : 0 <= x -> (0 <= double_to_int x)%Z.
Proof.
  intros Hx. unfold double_to_int.
  destruct (Rle_dec 0 x) as [_ | Hn]; [| contradiction].
  unfold Int_part. destruct (archimed x) as [Hup _].
  assert (H0 : (0 < up x)%Z) by (apply lt_IZR; lra).
  lia.
Qed.

Lemma nth_error_map_seq {A : Type} (f : nat -> A) (len i : nat) :
  forall start, (i < len)%nat ->
    nth_error (map f (seq start len)) i = Some (f (start + i)%nat).
Proof.
  revert i. induction len as [| len IH]; intros i start Hi; [lia |].
  destruct i as [| i]; simpl.
  - rewrite Nat.add_0_r. reflexivity.
  - rewrite IH by lia. f_equal. f_equal. lia.
Qed.

Lemma arcPoint_on_ellipse (centre : Point2D) (xradius yradius : R)
    (start incr : R) (i : nat) :
  let p := arcPoint centre xradius yradius start incr i in
  (px p - px centre) * (px p - px centre) * (yradius * yradius)
  + (py p - py centre) * (py p - py centre) * (xradius * xradius)
  = xradius * xradius * (yradius * yradius).
Proof.
  unfold arcPoint; cbn [px py].
  set (ang := start + INR i * incr).
  pose proof (sin2_cos2 ang) as Htrig. unfold Rsqr in Htrig.
  transitivity ((sin ang * sin ang + cos ang * cos ang)
                * (xradius * xradius * (yradius * yradius)));
    [ring | rewrite Htrig; ring].
Qed.

Lemma drawArc_returns {T : Type} (d : MolDraw2D T) (centre : Point2D)
    (xradius yradius ang1 ang2 : R) :
  ang1 <= ang2 ->
  exists pts : list Point2D,
    drawArc centre xradius yradius ang1 ang2 d
    = Some (emit [DrawPolygon pts] d).
Proof.
  intros Hang.
  assert (Hq : 0 <= (ang2 - ang1) / 5.0)
    by (apply Rmult_le_pos; [lra | apply Rlt_le, Rinv_0_lt_compat; lra]).
  pose proof (double_to_int_nonneg _ Hq) as Hk.
  unfold drawArc.
  assert (E0 : (1 + double_to_int ((ang2 - ang1) / 5.0) =? 0)%Z = false)
    by (apply Z.eqb_neq; lia).
  rewrite E0. eexists; reflexivity.
Qed.

(** X17: for [ang1 <= ang2], [drawArc] sends one polygon of
    [2 + int((ang2 - ang1) / 5)] points that all lie on the ellipse round
    [centre], followed by [centre] itself when polygons are filled.  The
    sweep starts at the angle [ang2], not [ang1], and ends at
    [ang2 + (ang2 - ang1)]. *)
Theorem drawArc_sweep :
  forall (T : Type) (d : MolDraw2D T) (centre : Point2D)
         (xradius yradius ang1 ang2 : R),
    ang1 <= ang2 ->
    let n := Z.to_nat (1 + double_to_int ((ang2 - ang1) / 5.0)) in
    let at_angle := fun ang : R =>
      mkPoint2D (px centre + xradius * cos (ang * PI / 180))
                (py centre + yradius * sin (ang * PI / 180)) in
    exists pts : list Point2D,
      drawArc centre xradius yradius ang1 ang2 d
      = Some (emit [DrawPolygon (if fill_polys_ d then pts ++ [centre]
                                 else pts)] d) /\
      length pts = S n /\ (1 <= n)%nat /\
      (forall p, In p pts ->
         (px p - px centre) * (px p - px centre) * (yradius * yradius)
         + (py p - py centre) * (py p - py centre) * (xradius * xradius)
         = xradius * xradius * (yradius * yradius)) /\
      nth_error pts 0 = Some (at_angle ang2) /\
      nth_error pts n = Some (at_angle (ang2 + (ang2 - ang1))).
Proof.
  intros T d centre xr yr ang1 ang2 Hang n at_angle.
  assert (Hq : 0 <= (ang2 - ang1) / 5.0)
    by (apply Rmult_le_pos; [lra | apply Rlt_le, Rinv_0_lt_compat; lra]).
  pose proof (double_to_int_nonneg _ Hq) as Hk.
  set (k := double_to_int ((ang2 - ang1) / 5.0)) in *.
  unfold drawArc. fold k.
  assert (E0 : (1 + k =? 0)%Z = false) by (apply Z.eqb_neq; lia).
  rewrite E0.
  assert (En : Z.to_nat (1 + k + 1) = S n) by (unfold n; lia).
  rewrite En.
  eexists. split; [reflexivity |].
  split; [rewrite length_map, length_seq; reflexivity |].
  split; [unfold n; lia |].
  assert (HIn : IZR (1 + k) = INR n).
  { unfold n. rewrite INR_IZR_INZ, Z2Nat.id by lia. reflexivity. }
  assert (Hn0 : INR n <> 0).
  { rewrite <- HIn. apply not_0_IZR. lia. }
  split; [| split].
  - intros p Hp. apply in_map_iff in Hp as (i & <- & _).
    apply arcPoint_on_ellipse.
  - rewrite nth_error_map_seq by lia. f_equal.
    unfold arcPoint, at_angle. cbn [Nat.add INR].
    replace 180.0 with 180 by lra.
    replace (ang2 * PI / 180 + 0 * ((ang2 - ang1) / IZR (1 + k) * PI / 180))
      with (ang2 * PI / 180) by ring.
    reflexivity.
  - rewrite nth_error_map_seq by lia. f_equal.
    unfold arcPoint, at_angle. cbn [Nat.add].
    rewrite HIn. replace 180.0 with 180 by lra.
    replace (ang2 * PI / 180 + INR n * ((ang2 - ang1) / INR n * PI / 180))
      with ((ang2 + (ang2 - ang1)) * PI / 180) by (field; exact Hn0).
    reflexivity.
Qed.

Lemma drawArc_sweep_witness :
  exists pts : list Point2D,
    drawArc (mkPoint2D 0 0) 1 1 0 90 butene_like_drawer
    = Some (emit [DrawPolygon (if fill_polys_ butene_like_drawer
                               then pts ++ [mkPoint2D 0 0] else pts)]
              butene_like_drawer) /\
    length pts = S (Z.to_nat (1 + double_to_int ((90 - 0) / 5.0))) /\
    (1 <= Z.to_nat (1 + double_to_int ((90 - 0) / 5.0)))%nat /\
    (forall p, In p pts ->
       (px p - px (mkPoint2D 0 0)) * (px p - px (mkPoint2D 0 0)) * (1 * 1)
       + (py p - py (mkPoint2D 0 0)) * (py p - py (mkPoint2D 0 0)) * (1 * 1)
       = 1 * 1 * (1 * 1)) /\
    nth_error pts 0
    = Some (mkPoint2D (px (mkPoint2D 0 0) + 1 * cos (90 * PI / 180))
                      (py (mkPoint2D 0 0) + 1 * sin (90 * PI / 180))) /\
    nth_error pts (Z.to_nat (1 + double_to_int ((90 - 0) / 5.0)))
    = Some (mkPoint2D
              (px (mkPoint2D 0 0) + 1 * cos ((90 + (90 - 0)) * PI / 180))
              (py (mkPoint2D 0 0) + 1 * sin ((90 + (90 - 0)) * PI / 180))).
Proof.
  apply (drawArc_sweep unit butene_like_drawer (mkPoint2D 0 0) 1 1 0 90).
  lra.
Defined.

Lemma canvas_send {T : Type} (d : MolDraw2D T) (c : Cmd) :
  canvas (send d c) = canvas d ++ [c].
Proof. reflexivity. Qed.

Lemma state_emit_paints {T : Type} (cs : list Cmd) :
  forall d : MolDraw2D T,
    forallb paints cs = true ->
    fill_polys_ (emit cs d) = fill_polys_ d /\
    lineWidth_ (emit cs d) = lineWidth_ d.
Proof.
  induction cs as [| c cs IH]; intros d Hp; [split; reflexivity |].
  cbn [forallb] in Hp. apply andb_true_iff in Hp as [Hc Hcs].
  unfold emit in *. cbn [fold_left].
  destruct (IH (send d c) Hcs) as [-> ->].
  destruct c; try discriminate; split; reflexivity.
Qed.

Lemma drawHighlightArcs_spec {T : Type} (centre : Point2D)
    (xradius yradius arc_size : R) (colours : list DrawColour) :
  (colours <> [] -> 0 <= arc_size) ->
  forall (arc_start : R) (d : MolDraw2D T),
    exists d' polys,
      drawHighlightArcs centre xradius yradius arc_size colours arc_start d
      = Some d' /\
      canvas d' = canvas d ++ colouredPolygons colours polys /\
      length polys = length colours /\
      fill_polys_ d' = fill_polys_ d /\ lineWidth_ d' = lineWidth_ d.
Proof.
  induction colours as [| colour rest IH]; intros Hsize arc_start d.
  - exists d, []. cbn. rewrite app_nil_r. repeat split; reflexivity.
  - assert (Hpos : 0 <= arc_size) by (apply Hsize; discriminate).
    specialize (IH (fun _ => Hpos)).
    cbn [drawHighlightArcs].
    destruct (drawArc_returns (emit [SetColour colour] d) centre xradius
                yradius arc_start (arc_start + arc_size) ltac:(lra))
      as (pts & ->).
    cbn [bind].
    destruct (IH (arc_start + arc_size)
                (emit [DrawPolygon pts] (emit [SetColour colour] d)))
      as (d' & polys & -> & Hc & Hl & Hf & Hw).
    exists d', (pts :: polys).
    split; [reflexivity |].
    split; [| split; [cbn; lia | split; [exact Hf | exact Hw]]].
    rewrite Hc. unfold colouredPolygons. cbn [combine flat_map fst snd].
    unfold emit; cbn [fold_left send canvas].
    rewrite <- !app_assoc. reflexivity.
Qed.

Lemma filter_paints_coloured (colours : list DrawColour)
    (polys : list (list Point2D)) :
  filter paints (colouredPolygons colours polys)
  = colouredPolygons colours polys.
Proof.
  unfold colouredPolygons.
  induction (combine colours polys) as [| cp rest IH]; [reflexivity |].
  cbn [flat_map app filter paints]. rewrite IH. reflexivity.
Qed.

(** X18: whenever the highlight ellipse of the atom can be worked out,
    [drawHighlightedAtom] returns; what it paints is, for each colour in
    turn, that colour set and one polygon drawn; and it leaves the line
    width and the fill mode of the drawer as it found them. *)
Theorem drawHighlightedAtom_one_polygon_per_colour :
  forall (T : Type) (Rd : Renderer T) (TE : TextExtremes T)
         (ox : MolDrawOptionsExt) (d : MolDraw2D T) (atom_idx : nat)
         (colours : list DrawColour)
         (highlight_radii : option (list (nat * R)))
         (e : Point2D * R * R),
    calcLabelEllipse ox atom_idx highlight_radii d = Some e ->
    exists d' cmds polys,
      drawHighlightedAtom ox atom_idx colours highlight_radii d = Some d' /\
      canvas d' = canvas d ++ cmds /\
      filter paints cmds = colouredPolygons colours polys /\
      length polys = length colours /\
      lineWidth_ d' = lineWidth_ d /\
      fill_polys_ d' = fill_polys_ d.
Proof.
  intros T Rd TE ox d atom_idx colours hr [[centre xr] yr] He.
  unfold drawHighlightedAtom. rewrite He. cbn [bind].
  set (d1 := if negb (fillHighlights (options_ d))
             then setFillPolys false
                    (setLineWidth (Impl.getHighlightBondWidth ox d (-1) None) d)
             else setFillPolys true d).
  assert (Hd1 : exists pre, canvas d1 = canvas d ++ pre /\
                            filter paints pre = []).
  { unfold d1. destruct (fillHighlights (options_ d)); cbn [negb].
    - exists [SetFillPolys true]. split; reflexivity.
    - eexists [SetLineWidth _; SetFillPolys false].
      split; [| reflexivity].
      unfold setFillPolys, setLineWidth; cbn [send canvas].
      rewrite <- app_assoc. reflexivity. }
  destruct Hd1 as (pre & Hpre & Hfpre).
  destruct (length colours =? 1)%nat eqn:Elen.
  - apply Nat.eqb_eq in Elen.
    destruct colours as [| colour [| c2 rest]]; try discriminate Elen.
    cbn [bind].
    eexists. exists (pre ++ [SetColour colour]
                       ++ (if fill_polys_ d1 then [SetLineWidth 1] else [])
                       ++ [DrawPolygon
                             (arcPoints (centre - mkPoint2D xr yr)%pt
                                (centre + mkPoint2D xr yr)%pt 0 360)]
                       ++ [SetFillPolys (fill_polys_ d);
                           SetLineWidth (lineWidth_ d)]).
    eexists [_].
    split; [reflexivity |].
    split; [| split; [| split; [reflexivity | split; reflexivity]]].
    + unfold setLineWidth, setFillPolys, drawEllipse, emit.
      cbn [fold_left send canvas fill_polys_].
      destruct (fill_polys_ d1); cbn [send canvas];
        rewrite Hpre, <- !app_assoc; reflexivity.
    + rewrite filter_app, Hfpre.
      destruct (fill_polys_ d1); reflexivity.
  - assert (Hsize : colours <> [] -> 0 <= 360.0 / INR (length colours)).
    { intros Hne. destruct colours as [| c rest]; [contradiction |].
      apply Rmult_le_pos; [lra |].
      apply Rlt_le, Rinv_0_lt_compat, lt_0_INR. cbn; lia. }
    destruct (drawHighlightArcs_spec centre xr yr _ colours Hsize (-90.0) d1)
      as (d2 & polys & -> & Hc & Hl & Hf & Hw).
    cbn [bind].
    eexists. exists (pre ++ colouredPolygons colours polys
                       ++ [SetFillPolys (fill_polys_ d);
                           SetLineWidth (lineWidth_ d)]).
    exists polys.
    split; [reflexivity |].
    split; [| split; [| split; [exact Hl | split; reflexivity]]].
    + unfold setLineWidth, setFillPolys. cbn [send canvas].
      rewrite Hc, Hpre. rewrite <- !app_assoc. reflexivity.
    + rewrite !filter_app, Hfpre, filter_paints_coloured.
      cbn. rewrite app_nil_r. reflexivity.
Qed.

Lemma drawHighlightedAtom_one_polygon_per_colour_witness :
  exists d' cmds polys,
    drawHighlightedAtom sample_options_ext 2
      [mkDrawColour 1 0 0; mkDrawColour 0 0 1] None butene_like_drawer
    = Some d' /\
    canvas d' = canvas butene_like_drawer ++ cmds /\
    filter paints cmds
    = colouredPolygons [mkDrawColour 1 0 0; mkDrawColour 0 0 1] polys /\
    length polys = length [mkDrawColour 1 0 0; mkDrawColour 0 0 1] /\
    lineWidth_ d' = lineWidth_ butene_like_drawer /\
    fill_polys_ d' = fill_polys_ butene_like_drawer.
Proof.
  apply (drawHighlightedAtom_one_polygon_per_colour unit unit_Renderer
           unit_TextExtremes sample_options_ext butene_like_drawer 2
           [mkDrawColour 1 0 0; mkDrawColour 0 0 1] None
           (mkPoint2D 0 0, 0.3, 0.3)).
  reflexivity.
Defined.

(* ================================================================== *)
(** ** Further properties: labels and their highlights *)

Lemma getStringExtremes_formula {T : Type} `{TextExtremes T}
    (label : string) (orient : OrientType) (cds : Point2D) (d : MolDraw2D T)
    (x0 y0 x1 y1 : R) :
  scale_ (scaling d) <> 0 ->
  textExtremes (text_drawer_ d) label orient = (x0, y0, x1, y1) ->
  getStringExtremes label orient cds d
  = (px cds + x0 / scale_ (scaling d),
     Rmin (py cds - y0 / scale_ (scaling d)) (py cds - y1 / scale_ (scaling d)),
     px cds + x1 / scale_ (scaling d),
     Rmax (py cds - y0 / scale_ (scaling d)) (py cds - y1 / scale_ (scaling d))).
Proof.
  intros Hs Ht. unfold getStringExtremes. rewrite Ht.
  unfold getAtomCoords, getDrawCoords; cbn [px py fst snd].
  set (s := scale_ (scaling d)) in *.
  match goal with
  | |- (if Rgtb ?a ?b then _ else _) = _ =>
      replace a with (py cds - y0 / s) by (field; exact Hs);
      replace b with (py cds - y1 / s) by (field; exact Hs)
  end.
  match goal with
  | |- (if _ then (?a, _, ?b, _) else _) = _ =>
      replace a with (px cds + x0 / s) by (field; exact Hs);
      replace b with (px cds + x1 / s) by (field; exact Hs)
  end.
  destruct (Rgtb (py cds - y0 / s) (py cds - y1 / s)) eqn:E.
  - apply Rgtb_true in E.
    rewrite Rmin_right, Rmax_left by lra. reflexivity.
  - apply Rgtb_false in E.
    rewrite Rmin_left, Rmax_right by lra. reflexivity.
Qed.

(** X19: in molecule coordinates the extremes of a label are the pixel
    extremes the text drawer reports, divided by the scale and laid round
    the atom with the y axis turned over; the smaller y comes first. *)
Theorem getStringExtremes_in_molecule_units :
  forall (T : Type) (TE : TextExtremes T) (label : string)
         (orient : OrientType) (cds : Point2D) (d : MolDraw2D T)
         (x0 y0 x1 y1 : R),
    scale_ (scaling d) <> 0 ->
    textExtremes (text_drawer_ d) label orient = (x0, y0, x1, y1) ->
    getStringExtremes label orient cds d
    = (px cds + x0 / scale_ (scaling d),
       Rmin (py cds - y0 / scale_ (scaling d))
            (py cds - y1 / scale_ (scaling d)),
       px cds + x1 / scale_ (scaling d),
       Rmax (py cds - y0 / scale_ (scaling d))
            (py cds - y1 / scale_ (scaling d))).
Proof.
  intros T TE label orient cds d x0 y0 x1 y1.
  apply getStringExtremes_formula.
Qed.

Lemma getStringExtremes_in_molecule_units_witness :
  getStringExtremes "N" C_ (mkPoint2D 0 0) labelled_drawer
  = (px (mkPoint2D 0 0) + -4 / scale_ (scaling labelled_drawer),
     Rmin (py (mkPoint2D 0 0) - -5 / scale_ (scaling labelled_drawer))
          (py (mkPoint2D 0 0) - 5 / scale_ (scaling labelled_drawer)),
     px (mkPoint2D 0 0) + 4 / scale_ (scaling labelled_drawer),
     Rmax (py (mkPoint2D 0 0) - -5 / scale_ (scaling labelled_drawer))
          (py (mkPoint2D 0 0) - 5 / scale_ (scaling labelled_drawer))).
Proof.
  apply (getStringExtremes_in_molecule_units unit unit_TextExtremes "N" C_
           (mkPoint2D 0 0) labelled_drawer (-4) (-5) 4 5).
  - cbn [labelled_drawer scaling scale_]. lra.
  - reflexivity.
Defined.

(** X20: for an atom with a label, when highlights are not forced to be
    circles, the highlight ellipse of [calcLabelEllipse] is centred on the
    label, its radii are at least the highlight radius asked for, and it
    holds the whole box of the label. *)
Theorem calcLabelEllipse_holds_label :
  forall (T : Type) (Rd : Renderer T) (TE : TextExtremes T)
         (ox : MolDrawOptionsExt) (d : MolDraw2D T) (atom_idx : nat)
         (highlight_radii : option (list (nat * R)))
         (cds : list Point2D) (at_cds : Point2D)
         (syms : list (string * OrientType)) (sym : string * OrientType)
         (x_min y_min x_max y_max : R),
    at_active (at_cds_ d) d = Some cds ->
    nth_error cds atom_idx = Some at_cds ->
    at_active (atom_syms_ d) d = Some syms ->
    nth_error syms atom_idx = Some sym ->
    fst sym <> EmptyString ->
    atomHighlightsAreCircles ox = false ->
    getStringExtremes (fst sym) (snd sym) at_cds d
    = (x_min, y_min, x_max, y_max) ->
    x_min <= x_max -> y_min <= y_max ->
    exists (centre : Point2D) (xradius yradius : R),
      calcLabelEllipse ox atom_idx highlight_radii d
      = Some (centre, xradius, yradius) /\
      centre = mkPoint2D (0.5 * (x_max + x_min)) (0.5 * (y_max + y_min)) /\
      (match highlight_radii with
       | Some m => match lookupRadius m atom_idx with
                   | Some r => r
                   | None => highlightRadius (options_ d)
                   end
       | None => highlightRadius (options_ d)
       end <= Rmin xradius yradius) /\
      forall x y,
        x_min <= x <= x_max -> y_min <= y <= y_max ->
        (x - px centre) * (x - px centre) * (yradius * yradius)
        + (y - py centre) * (y - py centre) * (xradius * xradius)
        <= xradius * xradius * (yradius * yradius).
Proof.
  intros T Rd TE ox d atom_idx hr cds at_cds syms sym x_min y_min x_max y_max
         Hcds Hat Hsyms Hsym Hne Hcirc Hext Hx Hy.
  unfold calcLabelEllipse.
  rewrite Hcds; cbn [bind]. rewrite Hat; cbn [bind]. rewrite Hcirc.
  rewrite Hsyms; cbn [bind]. rewrite Hsym; cbn [bind].
  assert (Eempty : String.eqb (fst sym) EmptyString = false)
    by (apply String.eqb_neq; exact Hne).
  rewrite Eempty, Hext.
  set (r0 := match hr with
             | Some m => match lookupRadius m atom_idx with
                         | Some r => r
                         | None => highlightRadius (options_ d)
                         end
             | None => highlightRadius (options_ d)
             end).
  set (xr := Rmax r0 (sqrt 2.0 * 0.5 * (x_max - x_min))).
  set (yr := Rmax r0 (sqrt 2.0 * 0.5 * (y_max - y_min))).
  exists (mkPoint2D (0.5 * (x_max + x_min)) (0.5 * (y_max + y_min))), xr, yr.
  split; [reflexivity |]. split; [reflexivity |].
  assert (H2 : sqrt 2.0 * sqrt 2.0 = 2) by (rewrite sqrt_sqrt; lra).
  assert (Hs2 : 0 < sqrt 2.0) by (apply sqrt_lt_R0; lra).
  set (a := 0.5 * (x_max - x_min)). set (b := 0.5 * (y_max - y_min)).
  assert (Ha : 0 <= a) by (unfold a; lra).
  assert (Hb : 0 <= b) by (unfold b; lra).
  assert (Hxr : sqrt 2.0 * a <= xr)
    by (unfold xr, a; replace (sqrt 2.0 * (0.5 * (x_max - x_min)))
          with (sqrt 2.0 * 0.5 * (x_max - x_min)) by ring; apply Rmax_r).
  assert (Hyr : sqrt 2.0 * b <= yr)
    by (unfold yr, b; replace (sqrt 2.0 * (0.5 * (y_max - y_min)))
          with (sqrt 2.0 * 0.5 * (y_max - y_min)) by ring; apply Rmax_r).
  split.
  { apply Rmin_glb; [unfold xr | unfold yr]; apply Rmax_l. }
  intros x y Hxin Hyin. cbn [px py].
  assert (Hxr0 : 0 <= sqrt 2.0 * a) by (apply Rmult_le_pos; lra).
  assert (Hyr0 : 0 <= sqrt 2.0 * b) by (apply Rmult_le_pos; lra).
  assert (Hxr2 : 2 * (a * a) <= xr * xr).
  { replace (2 * (a * a)) with ((sqrt 2.0 * a) * (sqrt 2.0 * a))
      by (transitivity (sqrt 2.0 * sqrt 2.0 * (a * a)); [ring | rewrite H2; ring]).
    apply Rmult_le_compat; lra. }
  assert (Hyr2 : 2 * (b * b) <= yr * yr).
  { replace (2 * (b * b)) with ((sqrt 2.0 * b) * (sqrt 2.0 * b))
      by (transitivity (sqrt 2.0 * sqrt 2.0 * (b * b)); [ring | rewrite H2; ring]).
    apply Rmult_le_compat; lra. }
  set (u := x - 0.5 * (x_max + x_min)). set (v := y - 0.5 * (y_max + y_min)).
  assert (Hu : u * u <= a * a).
  { assert (- a <= u <= a) by (unfold u, a; lra).
    destruct (Rle_dec 0 u).
    - apply Rmult_le_compat; lra.
    - replace (u * u) with (- u * - u) by ring. apply Rmult_le_compat; lra. }
  assert (Hv : v * v <= b * b).
  { assert (- b <= v <= b) by (unfold v, b; lra).
    destruct (Rle_dec 0 v).
    - apply Rmult_le_compat; lra.
    - replace (v * v) with (- v * - v) by ring. apply Rmult_le_compat; lra. }
  assert (Huu : 0 <= u * u) by apply Rle_0_sqr.
  assert (Hvv : 0 <= v * v) by apply Rle_0_sqr.
  assert (Haa : 0 <= a * a) by apply Rle_0_sqr.
  assert (Hbb : 0 <= b * b) by apply Rle_0_sqr.
  assert (H1 : u * u * (yr * yr) <= a * a * (yr * yr))
    by (apply Rmult_le_compat_r; [apply Rle_0_sqr | exact Hu]).
  assert (H3 : v * v * (xr * xr) <= b * b * (xr * xr))
    by (apply Rmult_le_compat_r; [apply Rle_0_sqr | exact Hv]).
  assert (H4 : 2 * (a * a) * (yr * yr) <= xr * xr * (yr * yr))
    by (apply Rmult_le_compat_r; [apply Rle_0_sqr | exact Hxr2]).
  assert (H5 : (xr * xr) * (2 * (b * b)) <= xr * xr * (yr * yr))
    by (apply Rmult_le_compat_l; [apply Rle_0_sqr | exact Hyr2]).
  lra.
Qed.

Lemma calcLabelEllipse_holds_label_witness :
  exists (centre : Point2D) (xradius yradius : R),
    calcLabelEllipse sample_options_ext 0 None labelled_drawer
    = Some (centre, xradius, yradius) /\
    centre = mkPoint2D (0.5 * (4 / 50 + -4 / 50))
                       (0.5 * (Rmax (5 / 50) (-5 / 50)
                               + Rmin (5 / 50) (-5 / 50))) /\
    highlightRadius (options_ labelled_drawer) <= Rmin xradius yradius /\
    forall x y,
      -4 / 50 <= x <= 4 / 50 ->
      Rmin (5 / 50) (-5 / 50) <= y <= Rmax (5 / 50) (-5 / 50) ->
      (x - px centre) * (x - px centre) * (yradius * yradius)
      + (y - py centre) * (y - py centre) * (xradius * xradius)
      <= xradius * xradius * (yradius * yradius).
Proof.
  assert (Hext : getStringExtremes "N" C_ (mkPoint2D 0 0) labelled_drawer
                 = (-4 / 50, Rmin (5 / 50) (-5 / 50), 4 / 50,
                    Rmax (5 / 50) (-5 / 50))).
  { rewrite (getStringExtremes_formula "N" C_ (mkPoint2D 0 0) labelled_drawer
               (-4) (-5) 4 5);
      [| cbn [labelled_drawer scaling scale_]; lra | reflexivity].
    cbn [labelled_drawer scaling scale_ px py].
    replace (0 + -4 / 50) with (-4 / 50) by lra.
    replace (0 + 4 / 50) with (4 / 50) by lra.
    replace (0 - -5 / 50) with (5 / 50) by lra.
    replace (0 - 5 / 50) with (-5 / 50) by lra.
    reflexivity. }
  apply (calcLabelEllipse_holds_label unit unit_Renderer unit_TextExtremes
           sample_options_ext labelled_drawer 0 None
           [mkPoint2D 0 0; mkPoint2D 1 0] (mkPoint2D 0 0)
           [("N"%string, C_); (EmptyString, C_)] ("N"%string, C_)
           (-4 / 50) (Rmin (5 / 50) (-5 / 50)) (4 / 50)
           (Rmax (5 / 50) (-5 / 50))).
  - reflexivity.
  - reflexivity.
  - reflexivity.
  - reflexivity.
  - discriminate.
  - reflexivity.
  - exact Hext.
  - lra.
  - apply (Rle_trans _ (5 / 50)); [apply Rmin_l | apply Rmax_l].
Defined.

(* ================================================================== *)
(** ** Further properties: the order of the atoms of a bond *)

(** X21: [drawBond] draws a bond from its begin atom to its end atom
    whichever way round the two atom indices are passed. *)
Theorem drawBond_atom_order_irrelevant :
  forall (T : Type) (Rd : Renderer T) (mol : ROMol) (bond : Bond)
         (st : BondStyle) (d : MolDraw2D T),
    getBeginAtomIdx bond <> getEndAtomIdx bond ->
    drawBond mol bond (getEndAtomIdx bond) (getBeginAtomIdx bond) st d
    = drawBond mol bond (getBeginAtomIdx bond) (getEndAtomIdx bond) st d.
Proof.
  intros T Rd mol bond st d Hne.
  unfold drawBond.
  rewrite Nat.eqb_refl.
  assert (E : (getEndAtomIdx bond =? getBeginAtomIdx bond)%nat = false)
    by (apply Nat.eqb_neq; congruence).
  rewrite E. reflexivity.
Qed.

Lemma drawBond_atom_order_irrelevant_witness :
  drawBond butene_like butene_like_bond (getEndAtomIdx butene_like_bond)
    (getBeginAtomIdx butene_like_bond) noBondStyle butene_like_drawer
  = drawBond butene_like butene_like_bond (getBeginAtomIdx butene_like_bond)
      (getEndAtomIdx butene_like_bond) noBondStyle butene_like_drawer.
Proof.
  apply (drawBond_atom_order_irrelevant unit unit_Renderer butene_like
           butene_like_bond noBondStyle butene_like_drawer).
  discriminate.
Defined.

(* ================================================================== *)
(** ** Further properties: the lines of a legend *)

Lemma chars_append (s1 s2 : string) :
  list_ascii_of_string (String.append s1 s2)
  = list_ascii_of_string s1 ++ list_ascii_of_string s2.
Proof.
  induction s1 as [| c s1 IH]; [reflexivity |].
  cbn [String.append list_ascii_of_string app]. rewrite IH. reflexivity.
Qed.

Lemma string_is_empty_chars (s : string) :
  string_is_empty s = true <-> list_ascii_of_string s = [].
Proof. destruct s; split; intros E; try reflexivity; discriminate. Qed.

Lemma legendBits_from_spec (legend : string) :
  forall next_piece : string,
    ~ In newline (list_ascii_of_string next_piece) ->
    (forall bit, In bit (legendBits_from legend next_piece) ->
       bit <> EmptyString /\ ~ In newline (list_ascii_of_string bit)) /\
    flat_map list_ascii_of_string (legendBits_from legend next_piece)
    = list_ascii_of_string next_piece
      ++ filter not_newline (list_ascii_of_string legend).
Proof.
  induction legend as [| c rest IH]; intros piece Hpiece.
  - cbn [legendBits_from list_ascii_of_string filter].
    rewrite app_nil_r.
    destruct piece as [| p ps]; cbn [string_is_empty negb].
    + split; [intros bit [] | reflexivity].
    + split.
      * intros bit [<- | []]. split; [discriminate | exact Hpiece].
      * cbn [flat_map]. rewrite app_nil_r. reflexivity.
  - cbn [legendBits_from list_ascii_of_string filter]. unfold not_newline at 1.
    destruct (Ascii.eqb c newline) eqn:Ec; cbn [negb].
    + destruct (IH EmptyString (fun H => H)) as [Hbits Hcat].
      split.
      * intros bit Hin. apply in_app_or in Hin as [Hin | Hin].
        -- destruct piece as [| p ps]; cbn [string_is_empty negb] in Hin;
             [destruct Hin |].
           destruct Hin as [<- | []]. split; [discriminate | exact Hpiece].
        -- apply Hbits; exact Hin.
      * rewrite flat_map_app, Hcat. cbn [list_ascii_of_string app].
        f_equal.
        destruct piece as [| p ps]; cbn [string_is_empty negb flat_map];
          [reflexivity | rewrite app_nil_r; reflexivity].
    + assert (Hpiece' : ~ In newline
                          (list_ascii_of_string
                             (String.append piece (String c EmptyString)))).
      { rewrite chars_append. cbn [list_ascii_of_string].
        intros Hin. apply in_app_or in Hin as [Hin | [E | []]];
          [exact (Hpiece Hin) |].
        subst c. rewrite Ascii.eqb_refl in Ec. discriminate. }
      destruct (IH _ Hpiece') as [Hbits Hcat].
      split; [exact Hbits |].
      rewrite Hcat, chars_append. cbn [list_ascii_of_string].
      rewrite <- app_assoc. reflexivity.
Qed.

Lemma legendBits_from_newline (a b : string) :
  forall next_piece : string,
    legendBits_from (String.append a (String newline b)) next_piece
    = legendBits_from a next_piece ++ legendBits b.
Proof.
  induction a as [| c rest IH]; intros piece.
  - cbn [String.append legendBits_from]. rewrite Ascii.eqb_refl. reflexivity.
  - cbn [String.append legendBits_from].
    destruct (Ascii.eqb c newline).
    + rewrite IH, app_assoc. reflexivity.
    + apply IH.
Qed.

Lemma legendBits_from_plain (s : string) :
  forall next_piece : string,
    ~ In newline (list_ascii_of_string s) ->
    legendBits_from s next_piece
    = if string_is_empty (String.append next_piece s) then []
      else [String.append next_piece s].
Proof.
  induction s as [| c rest IH]; intros piece Hs.
  - cbn [legendBits_from].
    assert (E : String.append piece EmptyString = piece).
    { clear. induction piece as [| p ps IHp]; [reflexivity |].
      cbn [String.append]. rewrite IHp. reflexivity. }
    rewrite E. destruct (string_is_empty piece); reflexivity.
  - cbn [legendBits_from].
    cbn [list_ascii_of_string] in Hs.
    assert (Ec : Ascii.eqb c newline = false).
    { apply Ascii.eqb_neq. intros ->. apply Hs. left; reflexivity. }
    rewrite Ec, IH by (intros H; apply Hs; right; exact H).
    assert (E : String.append (String.append piece (String c EmptyString)) rest
                = String.append piece (String c rest)).
    { clear. induction piece as [| p ps IHp]; [reflexivity |].
      cbn [String.append]. rewrite IHp. reflexivity. }
    rewrite E. reflexivity.
Qed.

(** X22: the lines [drawLegend] makes of a legend.  No line is empty and
    none holds a newline; put end to end they are the legend without its
    newlines; a legend without newlines is one line; and a newline joins
    the lines of what goes before it to the lines of what comes after. *)
Theorem legendBits_lines :
  (forall legend bit,
     In bit (legendBits legend) ->
     bit <> EmptyString /\ ~ In newline (list_ascii_of_string bit)) /\
  (forall legend,
     flat_map list_ascii_of_string (legendBits legend)
     = filter not_newline (list_ascii_of_string legend)) /\
  (forall s,
     s <> EmptyString -> ~ In newline (list_ascii_of_string s) ->
     legendBits s = [s]) /\
  (forall a b,
     legendBits (String.append a (String newline b))
     = legendBits a ++ legendBits b).
Proof.
  repeat split.
  - destruct (legendBits_from_spec legend EmptyString (fun H => H))
      as [Hbits _].
    apply (Hbits bit H).
  - destruct (legendBits_from_spec legend EmptyString (fun H => H))
      as [Hbits _].
    apply (Hbits bit H).
  - intros legend.
    destruct (legendBits_from_spec legend EmptyString (fun H => H))
      as [_ Hcat].
    exact Hcat.
  - intros s Hne Hs. unfold legendBits.
    rewrite legendBits_from_plain by exact Hs.
    cbn [String.append]. destruct s; [contradiction | reflexivity].
  - intros a b. apply legendBits_from_newline.
Qed.

(* ================================================================== *)
(** ** Further properties: the note of the whole molecule *)

Lemma gatherAtoms_fold (cds : list Point2D) :
  forall (c0 mn0 mx0 : Point2D) (lo hi : Point2D),
    (forall p, In p cds -> px lo <= px p <= px hi /\ py lo <= py p <= py hi) ->
    exists c mn mx,
      fold_left gatherAtoms cds (c0, mn0, mx0) = (c, mn, mx) /\
      px c0 + INR (length cds) * px lo <= px c
        <= px c0 + INR (length cds) * px hi /\
      py c0 + INR (length cds) * py lo <= py c
        <= py c0 + INR (length cds) * py hi /\
      px mx0 <= px mx /\ py mx0 <= py mx /\
      px mx <= Rmax (px mx0) (px hi) /\ py mx <= Rmax (py mx0) (py hi) /\
      (forall p, In p cds -> px p <= px mx /\ py p <= py mx).
Proof.
  induction cds as [| q rest IH]; intros c0 mn0 mx0 lo hi Hb.
  - exists c0, mn0, mx0. cbn [fold_left length INR].
    pose proof (Rmax_l (px mx0) (px hi)). pose proof (Rmax_l (py mx0) (py hi)).
    split; [reflexivity |].
    split; [lra |]. split; [lra |]. split; [lra |]. split; [lra |].
    split; [lra |]. split; [lra |]. intros p [].
  - cbn [fold_left gatherAtoms].
    destruct (IH (c0 + q)%pt
                (mkPoint2D (Rmin (px q) (px mn0)) (Rmin (py q) (py mn0)))
                (mkPoint2D (Rmax (px q) (px mx0)) (Rmax (py q) (py mx0)))
                lo hi (fun p Hp => Hb p (or_intror Hp)))
      as (c & mn & mx & Hfold & Hcx & Hcy & Hmx & Hmy & Hux & Huy & Hall).
    exists c, mn, mx. split; [exact Hfold |].
    destruct (Hb q (or_introl eq_refl)) as [Hqx Hqy].
    cbn [px py padd] in *.
    change (length (q :: rest)) with (S (length rest)). rewrite S_INR.
    pose proof (Rmax_l (px q) (px mx0)). pose proof (Rmax_r (px q) (px mx0)).
    pose proof (Rmax_l (py q) (py mx0)). pose proof (Rmax_r (py q) (py mx0)).
    assert (Hux' : px mx <= Rmax (px mx0) (px hi)).
    { eapply Rle_trans; [exact Hux |].
      apply Rmax_lub; [apply Rmax_lub |];
        [eapply Rle_trans; [exact (proj2 Hqx) | apply Rmax_r]
        | apply Rmax_l | apply Rmax_r]. }
    assert (Huy' : py mx <= Rmax (py mx0) (py hi)).
    { eapply Rle_trans; [exact Huy |].
      apply Rmax_lub; [apply Rmax_lub |];
        [eapply Rle_trans; [exact (proj2 Hqy) | apply Rmax_r]
        | apply Rmax_l | apply Rmax_r]. }
    split; [lra |]. split; [lra |]. split; [lra |]. split; [lra |].
    split; [exact Hux' |]. split; [exact Huy' |].
    intros p [<- | Hp]; [lra | apply (Hall _ Hp)].
Qed.

(** X23: the note of a whole molecule is put inside the atoms: for a note
    with a text, on a molecule with at least one atom, the position
    [calcAnnotationPosition] gives it lies within every upright box that
    holds all the atoms (atoms at -100000 or above on both axes). *)
Theorem calcMolAnnotationPosition_inside_atoms :
  forall (T : Type) (DT : DrawText T) (TG : TextGeometry T)
         (annot : AnnotationType) (d : MolDraw2D T) (cds : list Point2D)
         (lo hi : Point2D),
    text_ annot <> EmptyString ->
    at_active (at_cds_ d) d = Some cds ->
    cds <> [] ->
    (forall p, In p cds ->
       px lo <= px p <= px hi /\ py lo <= py p <= py hi) ->
    -100000 <= px hi -> -100000 <= py hi ->
    exists annot' d',
      calcMolAnnotationPosition annot d = Some (annot', d') /\
      text_ annot' = text_ annot /\
      px lo <= px (trans_ (rect_ annot')) <= px hi /\
      py lo <= py (trans_ (rect_ annot')) <= py hi.
Proof.
  intros T DT TG annot d cds lo hi Htext Hcds Hne Hbox Hhx Hhy.
  unfold calcMolAnnotationPosition.
  destruct (string_is_empty (text_ annot)) eqn:Eempty.
  { destruct (text_ annot); [contradiction | discriminate]. }
  match goal with
  | |- context [at_active (at_cds_ ?d1) ?d1] =>
      change (at_active (at_cds_ d1) d1) with (at_active (at_cds_ d) d)
  end.
  rewrite Hcds. cbn [bind].
  destruct (gatherAtoms_fold cds (mkPoint2D 0 0) (mkPoint2D 100000 100000)
              (mkPoint2D (-100000) (-100000)) lo hi Hbox)
    as (c & mn & mx & -> & Hcx & Hcy & _ & _ & Hux & Huy & Hall).
  cbn [px py] in *.
  assert (Hlen : (length cds =? 0)%nat = false)
    by (destruct cds; [contradiction | reflexivity]).
  rewrite Hlen.
  eexists; eexists. split; [reflexivity |].
  split; [reflexivity |].
  cbn [rect_ set_rect trans_ set_trans px py padd psub pmul pdiv].
  unfold padd, psub, pmul, pdiv; cbn [px py].
  set (n := INR (length cds)) in *.
  assert (Hn : 0 < n)
    by (unfold n; apply lt_0_INR; destruct cds; [contradiction | cbn; lia]).
  rewrite Rmax_right in Hux, Huy by lra.
  destruct cds as [| q rest]; [contradiction |].
  destruct (Hall q (or_introl eq_refl)) as [Hqx Hqy].
  destruct (Hbox q (or_introl eq_refl)) as [Hbx Hby].
  assert (Hcxn : px lo <= px c / n <= px hi).
  { split.
    - apply (Rmult_le_reg_r n); [exact Hn |].
      replace (px c / n * n) with (px c) by (field; lra). lra.
    - apply (Rmult_le_reg_r n); [exact Hn |].
      replace (px c / n * n) with (px c) by (field; lra). lra. }
  assert (Hcyn : py lo <= py c / n <= py hi).
  { split.
    - apply (Rmult_le_reg_r n); [exact Hn |].
      replace (py c / n * n) with (py c) by (field; lra). lra.
    - apply (Rmult_le_reg_r n); [exact Hn |].
      replace (py c / n * n) with (py c) by (field; lra). lra. }
  split; lra.
Qed.

Lemma calcMolAnnotationPosition_inside_atoms_witness :
  exists annot' d',
    calcMolAnnotationPosition atom_note labelled_drawer = Some (annot', d') /\
    text_ annot' = text_ atom_note /\
    px (mkPoint2D 0 0) <= px (trans_ (rect_ annot')) <= px (mkPoint2D 1 0) /\
    py (mkPoint2D 0 0) <= py (trans_ (rect_ annot')) <= py (mkPoint2D 1 0).
Proof.
  apply (calcMolAnnotationPosition_inside_atoms unit unit_DrawText
           radial_TextGeometry atom_note labelled_drawer
           [mkPoint2D 0 0; mkPoint2D 1 0] (mkPoint2D 0 0) (mkPoint2D 1 0)).
  - discriminate.
  - reflexivity.
  - discriminate.
  - intros p [<- | [<- | []]]; cbn [px py]; lra.
  - cbn [px]; lra.
  - cbn [py]; lra.
Defined.

(* ================================================================== *)
(** ** Further properties: the drawing fits its panel *)

Lemma getDrawCoords_difference (s : ScaleState) (p q : Point2D) :
  px (getDrawCoords s p) - px (getDrawCoords s q) = scale_ s * (px p - px q) /\
  py (getDrawCoords s p) - py (getDrawCoords s q)
  = - (scale_ s * (py p - py q)).
Proof. unfold getDrawCoords; cbn [px py]; split; ring. Qed.

(** X24: after the last part of [calculateScale] (buffer, final scale,
    centring), with or without a fixed scale or bond length, every point
    of the bounding box the part started from is drawn within half the
    width of the horizontal centre and within half the height of the
    vertical centre that the centring aims at. *)
Theorem calculateScale_final_fits_panel :
  forall (o : MolDrawOptions) (width height : Z) (s : ScaleState),
    (0 < width)%Z -> (0 < height)%Z ->
    0 < x_range_ s -> 0 < y_range_ s -> 0 <= padding o ->
    1e-4 < x_range_ s * (1 + 2 * padding o)
    \/ 1e-4 < y_range_ s * (1 + 2 * padding o) ->
    let s' := calculateScale_final o width height s in
    forall p : Point2D,
      in_box p (scaleBox s) ->
      Rabs (px (getDrawCoords s' p)
            - (IZR (width ÷ 2) + IZR (x_offset_ s))) <= IZR width / 2 /\
      Rabs (py (getDrawCoords s' p)
            - (IZR (panelHeight s) - IZR (legend_height_ s) - IZR height
               + IZR (height ÷ 2) - IZR (y_offset_ s))) <= IZR height / 2.
Proof.
  intros o width height s Hw Hh Hx Hy Hpad Hnd s' p Hp.
  destruct (calculateScale_final_spec o width height s Hw Hh Hx Hy Hpad Hnd)
    as (Hxm & Hxr & Hym & Hyr & Hsc & Hpos & Hcx & Hcy).
  fold s' in Hxm, Hxr, Hym, Hyr, Hsc, Hpos, Hcx, Hcy.
  destruct (getDrawCoords_difference s' p (boxCentre s')) as [Hdx Hdy].
  rewrite <- Hcx, <- Hcy. rewrite Hdx, Hdy.
  unfold boxCentre; cbn [px py]. rewrite Hxm, Hxr, Hym, Hyr.
  unfold in_box, scaleBox in Hp; cbn [bx_min bx_max by_min by_max] in Hp.
  destruct Hp as [Hpx Hpy].
  set (S := scale_ s') in *.
  set (pad := padding o) in *.
  set (xr := x_range_ s * (1 + 2 * pad)) in *.
  set (yr := y_range_ s * (1 + 2 * pad)) in *.
  apply IZR_lt in Hw, Hh.
  assert (Hxr0 : 0 < xr) by (unfold xr; nra).
  assert (Hyr0 : 0 < yr) by (unfold yr; nra).
  assert (Hfit : S <= Rmin (IZR width / xr) (IZR height / yr)).
  { rewrite Hsc. rewrite Hxr, Hyr. fold xr yr.
    destruct (scaleOverride o width); [apply Rmin_l | lra]. }
  assert (HSx : S * xr <= IZR width).
  { pose proof (Rmin_l (IZR width / xr) (IZR height / yr)) as Hl.
    replace (IZR width) with (IZR width / xr * xr) by (field; lra).
    apply Rmult_le_compat_r; lra. }
  assert (HSy : S * yr <= IZR height).
  { pose proof (Rmin_r (IZR width / xr) (IZR height / yr)) as Hl.
    replace (IZR height) with (IZR height / yr * yr) by (field; lra).
    apply Rmult_le_compat_r; lra. }
  replace 0.5 with (1 / 2) by lra.
  split; apply Rabs_le.
  - assert (Ha : S * (px p - (x_min_ s - pad * x_range_ s + 1 / 2 * xr))
                 <= S * (xr / 2))
      by (apply Rmult_le_compat_l; [lra | unfold xr; nra]).
    assert (Hb : S * - (xr / 2)
                 <= S * (px p - (x_min_ s - pad * x_range_ s + 1 / 2 * xr)))
      by (apply Rmult_le_compat_l; [lra | unfold xr; nra]).
    lra.
  - assert (Ha : S * (py p - (y_min_ s - pad * y_range_ s + 1 / 2 * yr))
                 <= S * (yr / 2))
      by (apply Rmult_le_compat_l; [lra | unfold yr; nra]).
    assert (Hb : S * - (yr / 2)
                 <= S * (py p - (y_min_ s - pad * y_range_ s + 1 / 2 * yr)))
      by (apply Rmult_le_compat_l; [lra | unfold yr; nra]).
    lra.
Qed.

Lemma calculateScale_final_fits_panel_witness :
  Rabs (px (getDrawCoords
              (calculateScale_final sample_options 301 300 fitted_state)
              (mkPoint2D 1 (-1)))
        - (IZR (301 ÷ 2) + IZR (x_offset_ fitted_state))) <= IZR 301 / 2 /\
  Rabs (py (getDrawCoords
              (calculateScale_final sample_options 301 300 fitted_state)
              (mkPoint2D 1 (-1)))
        - (IZR (panelHeight fitted_state)
           - IZR (legend_height_ fitted_state) - IZR 300
           + IZR (300 ÷ 2) - IZR (y_offset_ fitted_state)))
    <= IZR 300 / 2.
Proof.
  apply (calculateScale_final_fits_panel sample_options 301 300 fitted_state).
  - lia.
  - lia.
  - cbn [fitted_state x_range_]. lra.
  - cbn [fitted_state y_range_]. lra.
  - change (0 <= 0.05). lra.
  - left. change (1e-4 < 2 * (1 + 2 * 0.05)). lra.
  - unfold in_box, scaleBox, fitted_state;
      cbn [bx_min bx_max by_min by_max x_min_ y_min_ x_range_ y_range_ px py].
    lra.
Defined.

(* ================================================================== *)
(** ** Further properties: the draw pass with highlights *)

Section FrameHighlights.
Context {T : Type} `{DrawText T} `{LabelMetrics T} `{Renderer T}
        `{MolServices T} `{TextExtremes T} `{LegendText T}.
Implicit Type d : MolDraw2D T.

Lemma frame_drawArc centre xradius yradius ang1 ang2 d d' :
  drawArc centre xradius yradius ang1 ang2 d = Some d' -> frame d' = frame d.
Proof.
  unfold drawArc. destruct (_ =? 0)%Z; [discriminate |].
  intros Hd; injection Hd as <-. apply frame_send.
Qed.

Lemma frame_drawHighlightArcs centre xradius yradius arc_size colours :
  forall arc_start d d',
    drawHighlightArcs centre xradius yradius arc_size colours arc_start d
    = Some d' ->
    frame d' = frame d.
Proof.
  induction colours as [| c rest IH]; intros arc_start d d' Hd;
    cbn [drawHighlightArcs] in Hd.
  - inversion Hd; reflexivity.
  - match type of Hd with
    | bind ?e _ = Some _ => destruct e as [d1 |] eqn:E1; [| discriminate]
    end.
    cbn [bind] in Hd. apply frame_drawArc in E1.
    rewrite (IH _ _ _ Hd), E1. apply frame_emit.
Qed.

Lemma frame_drawHighlightedAtom ox atom_idx colours highlight_radii d d' :
  drawHighlightedAtom ox atom_idx colours highlight_radii d = Some d' ->
  frame d' = frame d.
Proof.
  unfold drawHighlightedAtom. intros Hd.
  destruct (calcLabelEllipse ox atom_idx highlight_radii d)
    as [[[centre xr] yr] |]; [| discriminate].
  cbn [bind] in Hd.
  match type of Hd with
  | bind ?e _ = Some _ => destruct e as [d1 |] eqn:E1; [| discriminate]
  end.
  cbn [bind] in Hd. inversion Hd; subst; clear Hd.
  autorewrite with frame.
  assert (F0 : frame
                 (if negb (fillHighlights (options_ d))
                  then setFillPolys false
                         (setLineWidth
                            (Impl.getHighlightBondWidth ox d (-1) None) d)
                  else setFillPolys true d) = frame d)
    by (destruct (negb _); reflexivity).
  rewrite <- F0.
  destruct (length colours =? 1)%nat.
  - destruct colours as [| colour rest]; [discriminate |].
    inversion E1; subst. unfold drawEllipse.
    autorewrite with frame.
    match goal with |- context [if ?b then _ else _] => destruct b end;
      autorewrite with frame; reflexivity.
  - apply (frame_drawHighlightArcs _ _ _ _ _ _ _ _ E1).
Qed.

Lemma frame_drawHighlightedAtoms ox highlight_atom_map highlight_radii :
  forall d d',
    drawHighlightedAtoms ox highlight_atom_map highlight_radii d = Some d' ->
    frame d' = frame d.
Proof.
  induction highlight_atom_map as [| ha rest IH]; intros d d' Hd;
    cbn [drawHighlightedAtoms] in Hd.
  - inversion Hd; reflexivity.
  - match type of Hd with
    | bind ?e _ = Some _ => destruct e as [d1 |] eqn:E1; [| discriminate]
    end.
    cbn [bind] in Hd. apply frame_drawHighlightedAtom in E1.
    rewrite (IH _ _ Hd). exact E1.
Qed.

Lemma frame_draw_adjusted_line ox at1_idx at2_idx highlight_radii p1 p2 d d' :
  draw_adjusted_line ox at1_idx at2_idx highlight_radii p1 p2 d = Some d' ->
  frame d' = frame d.
Proof.
  unfold draw_adjusted_line. intros Hd.
  destruct (adjustLineEndForHighlight ox at1_idx highlight_radii p2 p1 d);
    [| discriminate].
  cbn [bind] in Hd.
  destruct (adjustLineEndForHighlight ox at2_idx highlight_radii _ p2 d);
    [| discriminate].
  cbn [bind] in Hd. inversion Hd; subst.
  autorewrite with frame. reflexivity.
Qed.

Lemma frame_drawHighlightStripes perp col_rad colours :
  forall p1 p2 d,
    frame (drawHighlightStripes perp col_rad colours p1 p2 d) = frame d.
Proof.
  induction colours as [| c rest IH]; intros p1 p2 d;
    cbn [drawHighlightStripes]; [reflexivity |].
  rewrite IH. autorewrite with frame. reflexivity.
Qed.

Lemma frame_drawHighlightLines ox at1_idx at2_idx highlight_radii
    at1_cds at2_cds perp rad col_rad colours :
  forall i step d d',
    drawHighlightLines ox at1_idx at2_idx highlight_radii at1_cds at2_cds
      perp rad col_rad colours i step d = Some d' ->
    frame d' = frame d.
Proof.
  induction colours as [| c rest IH]; intros i step d d' Hd;
    cbn [drawHighlightLines] in Hd.
  - inversion Hd; reflexivity.
  - destruct (Nat.even i);
      match type of Hd with
      | bind ?e _ = Some _ => destruct e as [d1 |] eqn:E1; [| discriminate]
      end;
      cbn [bind] in Hd; apply frame_draw_adjusted_line in E1;
      rewrite (IH _ _ _ _ Hd), E1; apply frame_emit.
Qed.

Lemma frame_drawHighlightedBond ox mol orig_lw hb multipliers
    highlight_radii d d' :
  drawHighlightedBond ox mol orig_lw hb multipliers highlight_radii d
  = Some d' ->
  frame d' = frame d.
Proof.
  unfold drawHighlightedBond. intros Hd.
  set (d0 := if negb (fillHighlights (options_ d))
             then setLineWidth
                    (Impl.getHighlightBondWidth ox d (Z.of_nat (fst hb))
                       (Some multipliers)) d
             else d) in *.
  assert (F0 : frame d0 = frame d) by (unfold d0; destruct (negb _); reflexivity).
  destruct (getBondWithIdx mol (fst hb)) as [bond |]; [| discriminate].
  cbn [bind] in Hd.
  destruct (at_active (at_cds_ d0) d0) as [cds |]; [| discriminate].
  cbn [bind] in Hd.
  destruct (nth_error cds (getBeginAtomIdx bond)) as [c1 |]; [| discriminate].
  cbn [bind] in Hd.
  destruct (nth_error cds (getEndAtomIdx bond)) as [c2 |]; [| discriminate].
  cbn [bind] in Hd.
  match type of Hd with
  | bind ?e _ = Some _ => destruct e as [d1 |] eqn:E1; [| discriminate]
  end.
  cbn [bind] in Hd. inversion Hd; subst; clear Hd.
  autorewrite with frame. rewrite <- F0.
  destruct (length (snd hb) <? 2)%nat.
  - match type of E1 with
    | (if ?b then _ else _) = _ => destruct b
    end.
    + inversion E1; subst. autorewrite with frame. reflexivity.
    + match type of E1 with
      | bind ?e _ = Some _ => destruct e as [d2 |] eqn:E2; [| discriminate]
      end.
      cbn [bind] in E1.
      apply frame_draw_adjusted_line in E1, E2.
      rewrite E1, E2. autorewrite with frame. reflexivity.
  - destruct (fillHighlights (options_ d0)).
    + inversion E1; subst. apply frame_drawHighlightStripes.
    + apply (frame_drawHighlightLines _ _ _ _ _ _ _ _ _ _ _ _ _ _ E1).
Qed.

Lemma frame_drawHighlightedBonds ox mol highlight_bond_map multipliers
    highlight_radii d d' :
  drawHighlightedBonds ox mol highlight_bond_map multipliers highlight_radii d
  = Some d' ->
  frame d' = frame d.
Proof.
  unfold drawHighlightedBonds. generalize (lineWidth_ d) as orig_lw.
  intros orig_lw. revert d.
  induction highlight_bond_map as [| hb rest IH]; intros d Hd;
    cbn [drawHighlightedBonds_loop] in Hd.
  - inversion Hd; reflexivity.
  - match type of Hd with
    | bind ?e _ = Some _ => destruct e as [d1 |] eqn:E1; [| discriminate]
    end.
    cbn [bind] in Hd. apply frame_drawHighlightedBond in E1.
    rewrite (IH _ Hd). exact E1.
Qed.

Lemma state_drawLegendBits legend_bits :
  forall loc d,
    frame (drawLegendBits legend_bits loc d) = frame d /\
    lineWidth_ (drawLegendBits legend_bits loc d) = lineWidth_ d /\
    scaling (drawLegendBits legend_bits loc d) = scaling d.
Proof.
  induction legend_bits as [| bit rest IH]; intros loc d;
    cbn [drawLegendBits]; [repeat split |].
  destruct (legendExtremes _ bit) as [[[x_min y_min] x_max] y_max].
  destruct (IH (mkPoint2D (px loc) (py loc + (y_max - y_min)))
              (emit [DrawString bit loc] d)) as (-> & -> & ->).
  repeat split.
Qed.

Lemma state_drawLegend ox legend d :
  frame (drawLegend ox legend d) = frame d /\
  lineWidth_ (drawLegend ox legend d) = lineWidth_ d /\
  legend_height_ (scaling (drawLegend ox legend d)) = legend_height_ (scaling d).
Proof.
  unfold drawLegend. cbv zeta.
  destruct (negb (string_is_empty legend)); [| repeat split].
  repeat match goal with
         | |- context [Rgtb ?a ?b] => destruct (Rgtb a b)
         end;
    match goal with
    | |- context [drawLegendBits ?bits ?loc ?d0] =>
        destruct (state_drawLegendBits bits loc d0) as (Hf & Hw & Hs);
        revert Hf Hw Hs; generalize (drawLegendBits bits loc d0)
    end;
    intros d1 Hf Hw Hs;
    autorewrite with frame in *; rewrite Hf;
    cbn [scaling set_scaling set_text_drawer lineWidth_ legend_height_
         set_legend_height] in *;
    repeat split; assumption.
Qed.

Lemma frame_popDrawDetails d :
  frame (popDrawDetails d)
  = (map pred (stack_depths d), (activeMolIdx_ d - 1)%Z).
Proof.
  assert (Hl : forall (A : Type) (l : list A),
             length (removelast l) = pred (length l)).
  { intros A l. induction l as [| a l IH]; [reflexivity |].
    destruct l; [reflexivity |]. cbn [removelast length] in *.
    rewrite IH. reflexivity. }
  unfold frame, stack_depths, popDrawDetails; cbn.
  rewrite !Hl. reflexivity.
Qed.
End FrameHighlights.

Section HighlightPass.
Context {T : Type} `{DrawText T} `{LabelMetrics T} `{Renderer T}
        `{MolServices T} `{TextExtremes T} `{LegendText T}.
Implicit Type d : MolDraw2D T.

(** The molecule [setupDrawMolecule] hands back is the prepared one, with
    the index annotations when it has a conformer. *)
Lemma setupDrawMolecule_mol fuel mol hl confId width height d draw_mol d'
    rwmol :
  setupDrawMolecule fuel mol hl confId width height d = Some (draw_mol, d') ->
  preparedMol (options_ d) mol confId = Some rwmol ->
  draw_mol = if (getNumConformers rwmol =? 0)%nat then rwmol
             else addIndexAnnotations (options_ d) rwmol.
Proof.
  unfold setupDrawMolecule. intros Hd Hprep.
  cbn [options_ set_scaling set_text_drawer] in Hd.
  rewrite Hprep in Hd. cbn [bind] in Hd.
  destruct (getNumConformers rwmol =? 0)%nat.
  - inversion Hd; reflexivity.
  - repeat match type of Hd with
           | bind ?e _ = Some _ =>
               destruct e as [? |]; [| discriminate]; unfold bind at 1 in Hd
           end.
    inversion Hd; reflexivity.
Qed.

Lemma setupMoleculeDraw_mol fuel mol hl confId d draw_mol d' rwmol :
  setupMoleculeDraw fuel mol hl confId d = Some (draw_mol, d') ->
  preparedMol (options_ d) mol confId = Some rwmol ->
  draw_mol = if (getNumConformers rwmol =? 0)%nat then rwmol
             else addIndexAnnotations (options_ d) rwmol.
Proof.
  unfold setupMoleculeDraw. intros Hd Hprep.
  destruct (setupDrawMolecule _ _ _ _ _ _ _) as [[m d1] |] eqn:E1;
    [| discriminate].
  unfold bind at 1 in Hd.
  match type of Hd with
  | bind ?e _ = Some _ => destruct e; [| discriminate]
  end.
  unfold bind in Hd. inversion Hd; subst.
  exact (setupDrawMolecule_mol _ _ _ _ _ _ _ _ _ _ E1 Hprep).
Qed.

(** What a call of [drawMoleculeWithHighlights] that returns leaves of
    the context stack and the line width, by the conformers of the
    molecule the preparation step hands back. *)
Lemma state_drawMoleculeWithHighlights fuel ox mol legend highlight_atom_map
    highlight_bond_map highlight_radii highlight_linewidth_multipliers
    confId d d' rwmol :
  preparedMol (options_ d) mol confId = Some rwmol ->
  drawMoleculeWithHighlights fuel ox mol legend highlight_atom_map
    highlight_bond_map highlight_radii highlight_linewidth_multipliers
    confId d = Some d' ->
  if (getNumConformers
        (if (getNumConformers rwmol =? 0)%nat then rwmol
         else addIndexAnnotations (options_ d) rwmol) =? 0)%nat
  then frame d' = (map S (stack_depths d), (activeMolIdx_ d + 1)%Z)
  else frame d' = frame d /\ lineWidth_ d' = lineWidth_ d.
Proof.
  intros Hprep. unfold drawMoleculeWithHighlights. intros Hd.
  match type of Hd with
  | bind (setupMoleculeDraw _ _ _ _ ?d0) _ = Some _ =>
      set (d00 := d0) in *;
      destruct (setupMoleculeDraw fuel mol
                  (mkHighlights (Some (map fst highlight_atom_map)) None None
                     None (Some highlight_radii)) confId d00)
        as [[draw_mol d1] |] eqn:E1; [| discriminate]
  end.
  pose proof (setupMoleculeDraw_mol _ _ _ _ _ _ _ rwmol E1 Hprep) as Hmol.
  replace (options_ d00) with (options_ d) in Hmol by reflexivity.
  rewrite <- Hmol.
  apply frame_setupMoleculeDraw in E1.
  assert (F0 : frame d00 = (map S (stack_depths d), (activeMolIdx_ d + 1)%Z)).
  { unfold d00. rewrite frame_pushDrawDetails. reflexivity. }
  rewrite F0 in E1. clear F0 Hmol.
  unfold bind at 1 in Hd.
  destruct (getNumConformers draw_mol =? 0)%nat.
  { inversion Hd; subst. exact E1. }
  destruct (at_active (pre_shapes_ d1) d1) as [pre |]; [| discriminate].
  unfold bind at 1 in Hd.
  match type of Hd with
  | bind (drawHighlightedBonds _ _ _ _ _ ?d0) _ = Some _ =>
      assert (F2 : frame d0 = frame d1)
        by (destruct (negb (length pre =? 0)%nat);
            autorewrite with frame; reflexivity);
      destruct (drawHighlightedBonds ox draw_mol highlight_bond_map
                  highlight_linewidth_multipliers (Some highlight_radii) d0)
        as [d3 |] eqn:E3; [| discriminate]
  end.
  apply frame_drawHighlightedBonds in E3. unfold bind at 1 in Hd.
  match type of Hd with
  | bind ?e _ = Some _ => destruct e as [d4 |] eqn:E4; [| discriminate]
  end.
  apply frame_drawHighlightedAtoms in E4. unfold bind at 1 in Hd.
  match type of Hd with
  | bind ?e _ = Some _ => destruct e as [bond_colours |]; [| discriminate]
  end.
  unfold bind at 1 in Hd.
  match type of Hd with
  | bind ?e _ = Some _ => destruct e as [d5 |] eqn:E5; [| discriminate]
  end.
  apply frame_drawBonds in E5. unfold bind at 1 in Hd.
  match type of Hd with
  | bind ?e _ = Some _ => destruct e as [atom_colours |]; [| discriminate]
  end.
  unfold bind in Hd. inversion Hd; subst; clear Hd.
  match goal with
  | |- context [drawLegend ox legend ?d0] =>
      destruct (state_drawLegend ox legend d0) as (Hf & Hw & _);
      revert Hf Hw; generalize (drawLegend ox legend d0)
  end.
  intros d6 Hf Hw. rewrite frame_popDrawDetails.
  autorewrite with frame in Hf. rewrite E5 in Hf.
  autorewrite with frame in Hf. rewrite E4, E3, F2, E1 in Hf.
  pose proof (f_equal fst Hf) as Hs. pose proof (f_equal snd Hf) as Ha.
  unfold frame in Hs, Ha. cbn [fst snd] in Hs, Ha.
  split.
  - unfold frame. rewrite Hs, Ha, map_map. cbn [pred].
    rewrite map_id. f_equal. lia.
  - unfold popDrawDetails; cbn [lineWidth_]. exact Hw.
Qed.
End HighlightPass.

(** X25: a call of [drawMoleculeWithHighlights] that returns, for a
    molecule that has a conformer after the preparation step, leaves the
    context stack and the line width as it found them: each of the seven
    per-molecule vectors has the depth it had, the active index is the one
    before the call, and so is the line width.  (The index annotations are
    taken to keep the conformers.) *)
Theorem drawMoleculeWithHighlights_restores_context :
  forall (T : Type) (DT : DrawText T) (LM : LabelMetrics T) (Rd : Renderer T)
         (MS : MolServices T) (TE : TextExtremes T) (LT : LegendText T)
         (fuel : nat) (ox : MolDrawOptionsExt) (mol rwmol : ROMol)
         (legend : string)
         (highlight_atom_map highlight_bond_map : list (nat * list DrawColour))
         (highlight_radii : list (nat * R))
         (highlight_linewidth_multipliers : list (Z * Z)) (confId : Z)
         (d d' : MolDraw2D T),
    (forall o m, getNumConformers (addIndexAnnotations o m)
                 = getNumConformers m) ->
    preparedMol (options_ d) mol confId = Some rwmol ->
    getNumConformers rwmol <> 0%nat ->
    drawMoleculeWithHighlights fuel ox mol legend highlight_atom_map
      highlight_bond_map highlight_radii highlight_linewidth_multipliers
      confId d = Some d' ->
    stack_depths d' = stack_depths d /\
    activeMolIdx_ d' = activeMolIdx_ d /\
    lineWidth_ d' = lineWidth_ d.
Proof.
  intros T DT LM Rd MS TE LT fuel ox mol rwmol legend ham hbm hr hlm confId
         d d' Hidx Hprep Hconf Hd.
  pose proof (state_drawMoleculeWithHighlights _ _ _ _ _ _ _ _ _ _ _ _
                Hprep Hd) as Hs.
  apply Nat.eqb_neq in Hconf. rewrite Hconf, Hidx, Hconf in Hs.
  destruct Hs as [Hf Hw]. unfold frame in Hf.
  split; [exact (f_equal fst Hf) |].
  split; [exact (f_equal snd Hf) | exact Hw].
Qed.

Lemma butene_like_highlight_run_returns :
  is_some (drawMoleculeWithHighlights 0 sample_options_ext butene_like
             EmptyString [] [] [] [] (-1) scaled_drawer) = true.
Proof. lazy. reflexivity. Qed.

Lemma drawMoleculeWithHighlights_restores_context_witness :
  exists d',
    drawMoleculeWithHighlights 0 sample_options_ext butene_like EmptyString
      [] [] [] [] (-1) scaled_drawer = Some d' /\
    getNumConformers butene_like = 1%nat /\
    stack_depths d' = stack_depths scaled_drawer /\
    activeMolIdx_ d' = activeMolIdx_ scaled_drawer /\
    lineWidth_ d' = lineWidth_ scaled_drawer.
Proof.
  destruct (drawMoleculeWithHighlights 0 sample_options_ext butene_like
              EmptyString [] [] [] [] (-1) scaled_drawer)
    as [d' |] eqn:Erun.
  - exists d'. split; [reflexivity |]. split; [reflexivity |].
    apply (drawMoleculeWithHighlights_restores_context unit unit_DrawText
             unit_LabelMetrics unit_Renderer unit_MolServices
             unit_TextExtremes unit_LegendText 0 sample_options_ext
             butene_like butene_like EmptyString [] [] [] [] (-1)
             scaled_drawer d').
    + intros o m. reflexivity.
    + reflexivity.
    + discriminate.
    + exact Erun.
  - exfalso. pose proof butene_like_highlight_run_returns as Hrun.
    rewrite Erun in Hrun. discriminate Hrun.
Defined.

(** X26: on its early return [drawMoleculeWithHighlights] does not pop:
    when the molecule has no conformer after the preparation step, a call
    that returns leaves each of the seven per-molecule vectors one entry
    deeper than before and the active index one higher. *)
Theorem drawMoleculeWithHighlights_no_conformer_leaves_context :
  forall (T : Type) (DT : DrawText T) (LM : LabelMetrics T) (Rd : Renderer T)
         (MS : MolServices T) (TE : TextExtremes T) (LT : LegendText T)
         (fuel : nat) (ox : MolDrawOptionsExt) (mol rwmol : ROMol)
         (legend : string)
         (highlight_atom_map highlight_bond_map : list (nat * list DrawColour))
         (highlight_radii : list (nat * R))
         (highlight_linewidth_multipliers : list (Z * Z)) (confId : Z)
         (d d' : MolDraw2D T),
    preparedMol (options_ d) mol confId = Some rwmol ->
    getNumConformers rwmol = 0%nat ->
    drawMoleculeWithHighlights fuel ox mol legend highlight_atom_map
      highlight_bond_map highlight_radii highlight_linewidth_multipliers
      confId d = Some d' ->
    stack_depths d' = map S (stack_depths d) /\
    activeMolIdx_ d' = (activeMolIdx_ d + 1)%Z.
Proof.
  intros T DT LM Rd MS TE LT fuel ox mol rwmol legend ham hbm hr hlm confId
         d d' Hprep Hconf Hd.
  pose proof (state_drawMoleculeWithHighlights _ _ _ _ _ _ _ _ _ _ _ _
                Hprep Hd) as Hs.
  rewrite Hconf in Hs. cbn [Nat.eqb] in Hs. rewrite Hconf in Hs.
  cbn [Nat.eqb] in Hs. unfold frame in Hs.
  split; [exact (f_equal fst Hs) | exact (f_equal snd Hs)].
Qed.

Lemma drawMoleculeWithHighlights_no_conformer_leaves_context_witness :
  exists d',
    drawMoleculeWithHighlights 0 sample_options_ext no_coords_mol EmptyString
      [] [] [] [] (-1) fresh_drawer = Some d' /\
    stack_depths d' = [1; 1; 1; 1; 1; 1; 1]%nat /\
    activeMolIdx_ d' = 0%Z.
Proof.
  eexists. split; [reflexivity |].
  apply (drawMoleculeWithHighlights_no_conformer_leaves_context unit
           unit_DrawText unit_LabelMetrics unit_Renderer unit_MolServices
           unit_TextExtremes unit_LegendText 0 sample_options_ext
           no_coords_mol no_coords_mol EmptyString [] [] [] [] (-1)
           fresh_drawer _); reflexivity.
Defined.

(* ================================================================== *)
(** ** Further properties: the stripes of a bond highlighted in several
       colours *)

Lemma stripe_edge_step (p perp : Point2D) (s : nat) (cr : R) :
  (p + perp * (INR s * cr) + perp * cr)%pt = (p + perp * (INR (S s) * cr))%pt.
Proof.
  rewrite S_INR. destruct p, perp. unfold padd, pmul; cbn [px py].
  f_equal; ring.
Qed.

Lemma stripe_edge_shift (a perp : Point2D) (x rad : R) :
  (a - perp * rad + perp * x)%pt = (a + perp * (x - rad))%pt.
Proof.
  destruct a, perp. unfold padd, psub, pmul; cbn [px py]. f_equal; ring.
Qed.

Section Stripes.
Context {T : Type} `{DrawText T} `{LabelMetrics T} `{Renderer T}
        `{MolServices T} `{TextExtremes T} `{LegendText T}.
Implicit Type d : MolDraw2D T.

Lemma drawHighlightStripes_canvas perp cr colours :
  forall (s : nat) (p1 p2 : Point2D) d,
    canvas (drawHighlightStripes perp cr colours
              (p1 + perp * (INR s * cr))%pt (p2 + perp * (INR s * cr))%pt d)
    = canvas d ++
      flat_map
        (fun kc : nat * DrawColour =>
           [SetColour (snd kc);
            DrawPolygon [(p1 + perp * (INR (fst kc) * cr))%pt;
                         (p1 + perp * (INR (S (fst kc)) * cr))%pt;
                         (p2 + perp * (INR (S (fst kc)) * cr))%pt;
                         (p2 + perp * (INR (fst kc) * cr))%pt]])
        (combine (seq s (length colours)) colours).
Proof.
  induction colours as [| c rest IH]; intros s p1 p2 d.
  - cbn. rewrite app_nil_r. reflexivity.
  - cbn [drawHighlightStripes length seq combine flat_map fst snd].
    rewrite !stripe_edge_step, IH, !canvas_emit, <- !app_assoc.
    reflexivity.
Qed.
End Stripes.

(** X27: with filled highlights, a bond highlighted in two or more colours
    is drawn as one quadrilateral per colour, in the order of the
    colours, and the line width is then set back; the stripes have the
    same width and lie side by side, stripe k between the offsets k and
    k + 1 times that width, and together they fill the band of half-width
    0.7 times the highlight radius round the bond: the first starts on
    one edge of the band and the last ends on the other. *)
Theorem drawHighlightedBond_stripes_fill_band :
  forall (T : Type) (DT : DrawText T) (LM : LabelMetrics T) (Rd : Renderer T)
         (MS : MolServices T) (TE : TextExtremes T) (LT : LegendText T)
         (ox : MolDrawOptionsExt) (mol : ROMol) (orig_lw : Z)
         (bond_idx : nat) (colours : list DrawColour)
         (multipliers : list (Z * Z))
         (highlight_radii : option (list (nat * R))) (d : MolDraw2D T)
         (bond : Bond) (cds : list Point2D) (a1 a2 : Point2D),
    fillHighlights (options_ d) = true ->
    (2 <= length colours)%nat ->
    getBondWithIdx mol bond_idx = Some bond ->
    at_active (at_cds_ d) d = Some cds ->
    nth_error cds (getBeginAtomIdx bond) = Some a1 ->
    nth_error cds (getEndAtomIdx bond) = Some a2 ->
    let perp := calcPerpendicular a1 a2 in
    let rad := 0.7 * highlightRadius (options_ d) in
    let n := length colours in
    let edge := fun (k : nat) (a : Point2D) =>
                  (a + perp * (INR k * (2.0 * rad / INR n) - rad))%pt in
    exists d',
      drawHighlightedBond ox mol orig_lw (bond_idx, colours) multipliers
        highlight_radii d = Some d' /\
      canvas d' = canvas d ++
        flat_map
          (fun kc : nat * DrawColour =>
             [SetColour (snd kc);
              DrawPolygon [edge (fst kc) a1; edge (S (fst kc)) a1;
                           edge (S (fst kc)) a2; edge (fst kc) a2]])
          (combine (seq 0 n) colours)
        ++ [SetLineWidth orig_lw] /\
      (forall a, edge 0%nat a = (a - perp * rad)%pt) /\
      (forall a, edge n a = (a + perp * rad)%pt).
Proof.
  intros T DT LM Rd MS TE LT ox mol orig_lw bond_idx colours multipliers
         highlight_radii d bond cds a1 a2 Hfill Hn Hbond Hcds Ha1 Ha2
         perp rad n edge.
  unfold drawHighlightedBond. cbn [fst snd].
  rewrite Hfill. cbn [negb]. rewrite Hbond. cbn [bind].
  rewrite Hcds. cbn [bind]. rewrite Ha1. cbn [bind]. rewrite Ha2.
  cbn [bind].
  assert (Hlt : (length colours <? 2)%nat = false)
    by (apply Nat.ltb_ge; exact Hn).
  rewrite Hlt, Hfill. cbn [bind].
  eexists. split; [reflexivity |].
  split; [| split].
  - fold perp rad n. unfold setLineWidth. rewrite canvas_send.
    rewrite app_assoc. f_equal.
    replace (canvas (drawHighlightStripes perp (2.0 * rad / INR n) colours
                       (a1 - perp * rad)%pt (a2 - perp * rad)%pt d))
      with (canvas (drawHighlightStripes perp (2.0 * rad / INR n) colours
                      (a1 - perp * rad + perp * (INR 0 * (2.0 * rad / INR n)))%pt
                      (a2 - perp * rad + perp * (INR 0 * (2.0 * rad / INR n)))%pt
                      d)).
    + rewrite drawHighlightStripes_canvas. f_equal.
      apply flat_map_ext. intros kc. unfold edge.
      rewrite !stripe_edge_shift. reflexivity.
    + rewrite !stripe_edge_shift. cbn [INR].
      replace (0 * (2.0 * rad / INR n) - rad) with (- rad) by ring.
      assert (Hz : forall a, (a + perp * - rad)%pt = (a - perp * rad)%pt).
      { intros a. destruct a, perp. unfold padd, psub, pmul; cbn [px py].
        f_equal; ring. }
      rewrite !Hz. reflexivity.
  - intros a. unfold edge. cbn [INR]. destruct a, perp.
    unfold padd, psub, pmul; cbn [px py]. f_equal; ring.
  - intros a. unfold edge. f_equal. f_equal.
    assert (Hpos : INR n <> 0).
    { apply not_0_INR. unfold n. lia. }
    replace 2.0 with 2 by lra. field. exact Hpos.
Qed.

Lemma drawHighlightedBond_stripes_fill_band_witness :
  exists d',
    drawHighlightedBond sample_options_ext butene_like 2 
      (2%nat, [mkDrawColour 1 0 0; mkDrawColour 0 1 0; mkDrawColour 0 0 1])
      [] None butene_like_drawer = Some d' /\
    length (canvas d') = 7%nat.
Proof.
  destruct (drawHighlightedBond_stripes_fill_band unit unit_DrawText
              unit_LabelMetrics unit_Renderer unit_MolServices
              unit_TextExtremes unit_LegendText sample_options_ext
              butene_like 2 2%nat
              [mkDrawColour 1 0 0; mkDrawColour 0 1 0; mkDrawColour 0 0 1]
              [] None butene_like_drawer butene_like_bond butene_like_cds
              (mkPoint2D 0 0) (mkPoint2D 2 0)) as (d' & Hrun & Hcanvas & _).
  - reflexivity.
  - cbn [length]. lia.
  - reflexivity.
  - reflexivity.
  - reflexivity.
  - reflexivity.
  - exists d'. split; [exact Hrun |]. rewrite Hcanvas. reflexivity.
Defined.

(* ================================================================== *)
(** ** Further properties: the legend *)

Section Legend.
Context {T : Type} `{DrawText T} `{LabelMetrics T} `{Renderer T}
        `{MolServices T} `{TextExtremes T} `{LegendText T}.
Implicit Type d : MolDraw2D T.

Lemma calc_legend_height_acc (t : T) (legend_bits : list string) :
  forall acc : R * R,
    snd (fold_left
           (fun acc bit =>
              let '(x_min, y_min, x_max, y_max) := legendExtremes t bit in
              (Rmax (fst acc) (x_max - x_min), snd acc + (y_max - y_min)))
           legend_bits acc)
    = snd acc + snd (calc_legend_height t legend_bits).
Proof.
  unfold calc_legend_height.
  induction legend_bits as [| bit rest IH]; intros acc; cbn [fold_left].
  - cbn [snd]. ring.
  - rewrite IH. rewrite (IH (let '(_, _, _, _) := legendExtremes t bit in _)).
    destruct (legendExtremes t bit) as [[[x_min y_min] x_max] y_max].
    cbn [snd]. ring.
Qed.

Lemma calc_legend_height_cons (t : T) (bit : string) (rest : list string) :
  snd (calc_legend_height t (bit :: rest))
  = (let '(x_min, y_min, x_max, y_max) := legendExtremes t bit in
     y_max - y_min) + snd (calc_legend_height t rest).
Proof.
  unfold calc_legend_height at 1. cbn [fold_left].
  rewrite calc_legend_height_acc.
  destruct (legendExtremes t bit) as [[[x_min y_min] x_max] y_max].
  cbn [snd]. ring.
Qed.

Lemma calc_legend_height_ext (t t' : T) (legend_bits : list string) :
  (forall s, legendExtremes t s = legendExtremes t' s) ->
  calc_legend_height t legend_bits = calc_legend_height t' legend_bits.
Proof.
  intros Hext. unfold calc_legend_height.
  generalize (0, 0) as acc.
  induction legend_bits as [| bit rest IH]; intros acc; cbn [fold_left];
    [reflexivity |].
  rewrite Hext. apply IH.
Qed.

(** The lines of the legend are drawn one per command, each below the
    one before by the height of that one. *)
Lemma drawLegendBits_placed legend_bits :
  forall loc d,
    length (canvas (drawLegendBits legend_bits loc d))
    = (length (canvas d) + length legend_bits)%nat /\
    (forall c k, nth_error (canvas d) k = Some c ->
                 nth_error (canvas (drawLegendBits legend_bits loc d)) k
                 = Some c) /\
    (forall k bit,
        nth_error legend_bits k = Some bit ->
        nth_error (canvas (drawLegendBits legend_bits loc d))
          (length (canvas d) + k)
        = Some (DrawString bit
                  (mkPoint2D (px loc)
                     (py loc
                      + snd (calc_legend_height (text_drawer_ d)
                               (firstn k legend_bits)))))).
Proof.
  induction legend_bits as [| bit0 rest IH]; intros loc d.
  - cbn [drawLegendBits length]. split; [lia |]. split; [auto |].
    intros k bit Hk. destruct k; discriminate Hk.
  - cbn [drawLegendBits].
    assert (Ht : text_drawer_ (emit [DrawString bit0 loc] d) = text_drawer_ d)
      by reflexivity.
    rewrite Ht.
    pose proof (calc_legend_height_cons (text_drawer_ d) bit0) as Hcons.
    destruct (legendExtremes (text_drawer_ d) bit0)
      as [[[x_min y_min] x_max] y_max].
    destruct (IH (mkPoint2D (px loc) (py loc + (y_max - y_min)))
                (emit [DrawString bit0 loc] d)) as (Hlen & Hpre & Hnth).
    rewrite canvas_emit in Hlen, Hpre, Hnth.
    rewrite length_app in Hlen, Hnth. cbn [length] in Hlen, Hnth.
    split; [rewrite Hlen; cbn [length]; lia |].
    split.
    + intros c k Hk. apply Hpre. rewrite nth_error_app1; [exact Hk |].
      apply nth_error_Some. rewrite Hk. discriminate.
    + intros k bit Hk. destruct k as [| k].
      * cbn in Hk. inversion Hk; subst bit0.
        rewrite (Hpre (DrawString bit loc)).
        -- cbn [firstn]. unfold calc_legend_height. cbn [fold_left snd].
           rewrite Rplus_0_r. destruct loc; reflexivity.
        -- rewrite nth_error_app2 by lia.
           replace (length (canvas d) + 0 - length (canvas d))%nat
             with 0%nat by lia.
           reflexivity.
      * cbn [nth_error] in Hk. specialize (Hnth k bit Hk).
        replace (length (canvas d) + S k)%nat
          with (length (canvas d) + 1 + k)%nat by lia.
        rewrite Hnth, Ht. cbn [firstn px py]. rewrite Hcons.
        f_equal. f_equal. f_equal. ring.
Qed.
End Legend.

(** X28: the lines of the legend are drawn one string each, in their
    order, after what is on the canvas already; all at the middle of
    the panel across, each below the one before by the height of that
    one, so that the last line ends on the bottom edge of the panel: line
    k is at the bottom edge less the height of all lines plus the height
    of the lines before it, the heights taken in one font.  (The colour
    of the text is taken not to change the extremes of a string.) *)
Theorem drawLegend_lines_end_at_panel_bottom :
  forall (T : Type) (DT : DrawText T) (LM : LabelMetrics T) (Rd : Renderer T)
         (MS : MolServices T) (TE : TextExtremes T) (LT : LegendText T)
         (ox : MolDrawOptionsExt) (legend : string) (d : MolDraw2D T),
    (forall c t s, legendExtremes (setTextColour c t) s
                   = legendExtremes t s) ->
    exists t : T,
      length (canvas (drawLegend ox legend d))
      = (length (canvas d) + length (legendBits legend))%nat /\
      (forall c k, nth_error (canvas d) k = Some c ->
                   nth_error (canvas (drawLegend ox legend d)) k = Some c) /\
      (forall k bit,
          nth_error (legendBits legend) k = Some bit ->
          nth_error (canvas (drawLegend ox legend d)) (length (canvas d) + k)
          = Some (DrawString bit
                    (mkPoint2D
                       (IZR (x_offset_ (scaling d)
                             + panelWidth (scaling d) ÷ 2))
                       (IZR (y_offset_ (scaling d) + panelHeight (scaling d))
                        - snd (calc_legend_height t (legendBits legend))
                        + snd (calc_legend_height t
                                 (firstn k (legendBits legend))))))).
Proof.
  intros T DT LM Rd MS TE LT ox legend d Hcol.
  unfold drawLegend. cbv zeta.
  destruct (negb (string_is_empty legend)) eqn:Eempty.
  - repeat match goal with
           | |- context [Rgtb ?a ?b] => destruct (Rgtb a b)
           end;
      match goal with
      | |- context [drawLegendBits ?bits ?loc ?d0] =>
          destruct (drawLegendBits_placed bits loc d0) as (Hlen & Hpre & Hnth);
          exists (text_drawer_ d0)
      end;
      cbn [canvas set_scaling set_text_drawer text_drawer_ scaling px py
           x_offset_ y_offset_ panelWidth panelHeight panel_width_
           panel_height_ set_legend_height] in *;
      (split; [exact Hlen |]); (split; [exact Hpre |]);
      intros k bit Hk; rewrite (Hnth k bit Hk);
      rewrite (calc_legend_height_ext _ _ (legendBits legend)
                 (Hcol (legendColour ox) _));
      reflexivity.
  - destruct legend; [| discriminate Eempty].
    exists (text_drawer_ d). cbn [canvas set_scaling legendBits
                                 legendBits_from string_is_empty negb length].
    split; [lia |]. split; [auto |].
    intros k bit Hk. destruct k; discriminate Hk.
Qed.

Lemma drawLegend_lines_end_at_panel_bottom_witness :
  exists t : unit,
    length (canvas (drawLegend sample_options_ext "ab"%string scaled_drawer))
    = (length (canvas scaled_drawer) + 1)%nat /\
    nth_error (canvas (drawLegend sample_options_ext "ab"%string
                         scaled_drawer))
      (length (canvas scaled_drawer) + 0)
    = Some (DrawString "ab"%string
              (mkPoint2D
                 (IZR (x_offset_ (scaling scaled_drawer)
                       + panelWidth (scaling scaled_drawer) ÷ 2))
                 (IZR (y_offset_ (scaling scaled_drawer)
                       + panelHeight (scaling scaled_drawer))
                  - snd (calc_legend_height t (legendBits "ab"%string))
                  + snd (calc_legend_height t
                           (firstn 0 (legendBits "ab"%string)))))).
Proof.
  destruct (drawLegend_lines_end_at_panel_bottom unit unit_DrawText
              unit_LabelMetrics unit_Renderer unit_MolServices
              unit_TextExtremes unit_LegendText sample_options_ext
              "ab"%string scaled_drawer) as (t & Hlen & _ & Hnth).
  - intros c t s. reflexivity.
  - exists t. split; [exact Hlen |].
    apply (Hnth 0%nat "ab"%string). reflexivity.
Defined.
